(* ===== verification/_CoqProject ===== *)
-Q . S2P
Prelude.v
Floats.v
Ezio.v
Errors.v
Timestamp.v
Packets.v
PacketQueue.v
DroppingQueue.v
Codel.v
Pie.v
LinkQueue.v
PacketHeader.v
PacketInfo.v
DelayTrace.v
FileDescriptor.v
CellularQueue.v
ByteStreamQueue.v
TraceLoader.v
SignalFD.v
Poller.v
ChildProcess.v
Privileges.v
Address.v
Interfaces.v
Socket.v
DnsProxy.v
EventLoop.v
Unwinding.v
Ferry.v
Link.v
Shell.v
Commands.v
NetDevice.v
SocketPair.v
TempFile.v
Util.v
BindWorkAround.v
PacketShell.v
Frames.v
Forks.v
SetupUnwinding.v
FerryUnwinding.v
ProcessEnds.v
TunPacketShell.v
CellularShell.v
Emulation.v
Credentials.v
PrivilegeSeparation.v
MainProcess.v
MainUnwinding.v
DirectionUnwinding.v
