(* ===== verification/Prelude.v ===== *)
(** * A verification of the CellReplay link emulator

    The program (src/src) replays recorded cellular traces: it runs a command
    in a network namespace whose packets cross an emulated cellular link.  Each
    direction of the link is a process with an event loop, a _ferry_, that reads
    packets from a tunnel device into a [CellularQueue] and writes them to the
    other device when the traces allow it.  A packet first waits in a delay
    queue, until a release time computed from a _packet-train_ trace (a base
    delay and _light_ delivery opportunities); a packet that found no light
    opportunity, or that would overtake others, then waits in a packet queue for
    the _heavy_ opportunities of the link, 1400 bytes each.

    Every operation that can fail returns an [outcome], defined below: [Ok], or
    one of the ways the C++ code can stop ([fault]), among them failed
    assertions, undefined behaviour and exceptions, caught or not.  Integers are
    [Z] with the wrap-around of their C++ type written out ([u32], [u64], [i32],
    [i64]), floating-point numbers are those of the Standard Library's
    [spec_float].  Objects are records, updated with [r <| field := v |>];
    whatever is not the program's (the clock, descriptors, processes,
    credentials, signals, [poll], [getopt_long]) is a type class of operations
    with, separately, a class of the laws that its manual page documents, and a
    concrete instance that satisfies them for the witnesses.

    ** Files

    - [Prelude]: outcomes, machine integers, lists indexed by [Z], record update,
      nondecreasing lists, hints.
    - [Floats]: binary32 and binary64 arithmetic and its conversions.
    - [Ezio]: [myatoi], [myatof] and the printing of integers (util/ezio.cc).
    - [Errors]: the exceptions' texts (util/exception.hh).
    - [Timestamp]: the clock (util/timestamp.cc); class [Clock], [ClockLaws].
    - [Packets]: the packet records (packet/queued_packet.hh).
    - [PacketQueue]: the interface [AbstractPacketQueue], its laws
      [FifoPacketQueue] and [LosslessPacketQueue], and the infinite queue.
    - [DroppingQueue], [Codel], [Pie]: the queues that drop.
    - [LinkQueue]: the heavy opportunities ([rationalize] and its parts in
      frontend/cellular_queue.cc).
    - [PacketHeader]: the packet's description in the log; [PacketInfo]: packets
      printed on the terminal (util/pktinfo.cc).
    - [DelayTrace]: release times (get_pkt_release_time_from_trace).
    - [FileDescriptor]: util/file_descriptor.cc, and [SystemCall]; classes [Kernel],
      [StreamKernel], [TunKernel], and the sinks [PacketSink] and [SureSink].
    - [CellularQueue]: [read_packet], [write_packets], [wait_time],
      [pending_output], [finished]; the invariant [queue_inv].
    - [ByteStreamQueue]: the ring buffer (util/bytestream_queue.cc).
    - [TraceLoader]: the constructor of [CellularQueue] and the trace files.
    - [SignalFD]: signal masks and the descriptor of the signals
      (util/signalfd.cc); class [SignalKernel].
    - [Poller]: util/poller.cc; the callbacks run on a shared state.
    - [ChildProcess]: util/child_process.cc; [ProcessKernel], [ChildLaws].  A
      destructor returns the state of the system, also after an exception that it
      catches.
    - [Privileges]: the user and group identities (util/util.cc).
    - [Address]: util/address.cc; class [NameFunctions] for [getaddrinfo] and
      [getnameinfo].
    - [Interfaces]: the unused addresses of util/interfaces.cc, from
      [getifaddrs] and the route table.
    - [Socket]: util/socket.cc; class [SocketKernel].
    - [DnsProxy]: util/dns_proxy.cc, the UDP and TCP relays.
    - [EventLoop]: util/event_loop.cc, and the destructor of its children.
    - [Unwinding]: the state of the system when an exception leaves an operation
      of the poller or of the event loop ([_after]), and what the destructors on
      the way make of it ([_unwound]); the children of a loop through all of it.
    - [Ferry]: [PacketShell::Ferry::loop] (packet/packetshell.cc), with the
      handlers of the DNS proxy.
    - [Link]: both directions side by side, as a step relation: a turn of the one
      loop, a turn of the other, or what the rest of the system does.  Class
      [Carrier] is what a ferry promises to it.
    - [Shell]: the command line (frontend/cellularshell.cc).
    - [Commands]: running other programs: util/system_runner.cc, util/nat.cc and
      util/dns_server.cc; classes [ExecKernel] and [EnvironKernel].
    - [NetDevice]: util/netdevice.cc; class [DeviceKernel] for [ioctl].
    - [SocketPair]: util/socketpair.cc, descriptors sent between processes.
    - [TempFile], [Util]: util/temp_file.cc and the rest of util/util.cc.
    - [BindWorkAround]: the arguments of a ferry's queue, held until its process
      makes it (packet/bindworkaround.hh).
    - [PacketShell], [TunPacketShell]: packet/packetshell.cc and
      packet/tun_packetshell.cc, the processes of both directions, and the
      destructors at their end; the second file repeats much of the first, and
      what it repeats is proved to be the same.
    - [Frames]: what operations keep of the system if their calls do.
    - [Forks]: what [clone] promises of new processes ([ForkLaws]), and the
      processes that a process owns until its destructors end them.
    - [SetupUnwinding]: exceptions in the checks of [main] and in the constructor
      of the packet shell, member by member.
    - [FerryUnwinding]: exceptions in a ferry's callbacks, and what becomes of
      its loop.
    - [ProcessEnds]: a process from the start of its loop to its destructors.
    - [CellularShell]: [main] (frontend/cellularshell.cc).
    - [Emulation]: one direction with the queue and the traces that the command
      line names.
    - [Credentials]: which calls of the program leave a process its identities.
    - [PrivilegeSeparation]: with which identities the whole program executes
      programs and opens files.
    - [MainProcess]: how the main process may end, whatever the system does.
    - [MainUnwinding]: all of [main] with its exceptions: where they are caught,
      what has been destroyed by then, and which processes and identities are
      left.
    - [DirectionUnwinding]: the same of the process of a direction, from its
      first call to its end.

    ** Theorems

    The claims are numbered in the order of their importance.

    - End to end: [link_fifo] (both directions of the link are FIFO channels, in
      whatever order their processes have their turns, and whatever the DNS proxy
      is asked meanwhile; how a turn may fail), [emulated_direction] (one direction
      from the trace files to the end of its process, which leaves no child, also
      after an exception that is caught), [main_leaves_no_process] and
      [direction_leaves_no_process] (the same of all of [main], and of the process
      of a direction from its first call on),
      [unwinding_restores_identities] (an exception of the main process's loop
      gives it its identities back), [main_process_careful] (the main process,
      root until its loop, fails no assertion and reads nothing out of bounds,
      whatever the system calls return, if [argv] has the arguments that it
      reads), [cellular_queue_fifo] and [cellular_queue_subsequence] (the same of
      the queue alone, for any sequence of its operations on packets that it
      accepts, and for queues that drop).
    - The link: [rationalize_serves] refines it to a work-conserving server with
      a periodic schedule; [rationalize_returns], [rationalize_compose].
    - Release times: [release_time_defined], [light_opportunity_capacity],
      [read_packet_accepts], [read_packet_rejects], [write_packets_prompt],
      [wait_time_next_event].
    - Traces: what is loaded, and round trips through printed files;
      [cellular_construct_establishes] joins the constructor to the invariant.
    - Packet queues: refinement of list specifications, [drop_head] running into
      an assertion, CoDel's and PIE's effects on the sequence of packets.
    - Operating system objects: descriptors, the ring buffer, the poller, child
      processes, signals, credentials.
    - The command line: quoting, the queues' arguments, the traces.
    - The whole program: [privilege_separation].  It compares two systems that
      differ in what [execve] and the user's files do, and so speaks of every
      process, since which side of a [clone] is followed is the system's choice.
    - The machine: [cell_link_device_names] (the names of the tunnel devices),
      [two_unassigned_addresses_spec] (the addresses of the link)
      and [tcp_relay_transparent] (the DNS proxy's TCP relay: the ring buffers,
      the poller and two descriptors together).

    ** What is assumed of the system

    A tunnel device may give any packets ([offered] is arbitrary), each whole to a
    read of a megabyte, and takes each whole with a write or fails with -1 and
    takes nothing; other descriptors may split a write ([StreamKernel]) or do
    whatever they like ([Kernel]).  A packet that the queue does not accept is a
    fault of its own ([read_fault]): [read_packet] throws a pointer, or reads
    beyond the packet, and the theorems say where that may end a process.  A sink
    of packets may fail to take one ([PacketSink]; [SureSink] does not).  The rules
    of identities are those of credentials(7) and setreuid(2).  A child may be
    signalled if it is [signalable], which [ForkLaws] says of those that the
    program makes: a command that takes on another user's identity is excluded,
    and [unsignalable_child_left] shows what the destructor does with it.

    ** Bounds and fuel

    Loops that are not structural take fuel, and run out of it with [Diverges],
    which the theorems allow only of loops that last as long as the system makes
    them.  [opportunity_fuel] is 1400, since every
    turn sends a byte; [rationalize_fuel] and [search_fuel] are the length of the
    schedule times the milliseconds since its base, since every pass over it
    takes a millisecond; [search_pdo] has the number of opportunities of the
    train, [update_fuel] the number of periods, [drop_loop] and [drop_until_good]
    the packets of the queue, [probe_loop] the 20 attempts.  [turns] takes the
    number of turns of the event loop, which does not end by itself; [run],
    [read_all] and [main] take the fuel of the loops that wait for the system
    ([run_ends] says how much is enough).  Times stay below [time_limit] = 2^62 ms,
    the packets of a run below 2^31 bytes, as the program's [int]s need: a loop of
    fewer than 166666 turns, with 6 callbacks each, reads fewer.

    ** Not modelled

    An [outcome] carries no state of the system when it is an exception.  What
    exceptions leave is a model of its own, in the files on unwinding, which
    follow them through all of [main] and all of the process of a direction, but
    not through the tunnel packet shell, which no program of the repository uses.
    The threads of the DNS proxy catch their own.  [two_addresses], which the
    second constructors of the packet shells call and no file declares, is a
    parameter.  The files under src/ in Python and Java are left out.  The
    proxy's threads are modelled one at a time, not interleaved with the loop.
    What is printed to the terminal is left out, except by [PacketInfo] and the
    line of [print_exception]; the packet log is kept as the list of its lines. *)
From Stdlib Require Export ZArith Lia Bool.
From stdpp Require Export base list list_numbers numbers option strings.
From Stdlib Require Import Strings.Byte.

Global Open Scope Z_scope.
Global Open Scope list_scope.

(** * Outcomes of C++ code

    Every operation of the program that can fail returns an [outcome].  The
    constructors of [fault] separate the ways the C++ code can stop. *)

Inductive fault : Type :=
| Throw (what : string)        (* throw runtime_error( what ), or another std::exception *)
| ThrowPointer (what : string) (* throw new runtime_error( what ): not an std::exception *)
| UnixError (attempt : string) (* throw unix_error( attempt ), or another tagged_error *)
| AssertFail (expr : string)   (* assert( expr ) fails: abort() *)
| OutOfRange (what : string)   (* vector::at or substr out of range: std::out_of_range *)
| UndefinedBehaviour (what : string)
| Terminates (what : string)   (* an exception leaves a destructor: std::terminate() *)
| ProcessExit (status : Z)     (* the process has ended with a status, as by _exit( status ) *)
| ProcessKilled (sig : Z)      (* a signal has ended the process *)
| Diverges.                    (* the loop has not ended within the fuel given *)

Inductive outcome (A : Type) : Type :=
| Ok (a : A)
| Err (e : fault).
Arguments Ok {A} a.
Arguments Err {A} e.

Definition bind {A B : Type} (m : outcome A) (k : A -> outcome B) : outcome B :=
  match m with
  | Ok a => k a
  | Err e => Err e
  end.

Declare Scope outcome_scope.
Delimit Scope outcome_scope with outcome.
Notation "'let*' x := m 'in' k" := (bind m (fun x => k))
  (at level 10, x pattern, m at level 100, k at level 200) : outcome_scope.
Notation "'guard*' c 'else' e 'in' k" := (if c then k else Err e)
  (at level 10, c at level 100, e at level 100, k at level 200) : outcome_scope.
Global Open Scope outcome_scope.

Definition is_ok {A} (m : outcome A) : bool :=
  match m with Ok _ => true | Err _ => false end.

(** The two ways an exception leaves the program: [main] and the child
    processes catch [const exception &], which a thrown pointer is not. *)
Definition caught_as_exception (e : fault) : bool :=
  match e with
  | Throw _ | UnixError _ | OutOfRange _ => true
  | ThrowPointer _ | AssertFail _ | UndefinedBehaviour _ | Terminates _ | ProcessExit _ | ProcessKilled _ | Diverges => false
  end.

Lemma bind_Ok {A B} (m : outcome A) (k : A -> outcome B) b :
  bind m k = Ok b <-> exists a, m = Ok a /\ k a = Ok b.
Proof. destruct m; simpl; naive_solver. Qed.

Lemma bind_Ok_intro {A B} (m : outcome A) (k : A -> outcome B) a r :
  m = Ok a -> k a = r -> bind m k = r.
Proof. by intros -> <-. Qed.

(** * Machine integers *)

Definition u8 (z : Z) : Z := z mod 2 ^ 8.
Definition u16 (z : Z) : Z := z mod 2 ^ 16.
Definition u32 (z : Z) : Z := z mod 2 ^ 32.
Definition u64 (z : Z) : Z := z mod 2 ^ 64.
Definition i32 (z : Z) : Z := (z + 2 ^ 31) mod 2 ^ 32 - 2 ^ 31.
Definition i64 (z : Z) : Z := (z + 2 ^ 63) mod 2 ^ 64 - 2 ^ 63.

Lemma u16_small z : 0 <= z < 2 ^ 16 -> u16 z = z.
Proof. apply Z.mod_small. Qed.
Lemma u32_small z : 0 <= z < 2 ^ 32 -> u32 z = z.
Proof. apply Z.mod_small. Qed.
Lemma u64_small z : 0 <= z < 2 ^ 64 -> u64 z = z.
Proof. apply Z.mod_small. Qed.
Lemma i32_small z : - 2 ^ 31 <= z < 2 ^ 31 -> i32 z = z.
Proof. intros H. unfold i32. rewrite Z.mod_small; lia. Qed.
Lemma i64_small z : - 2 ^ 63 <= z < 2 ^ 63 -> i64 z = z.
Proof. intros H. unfold i64. rewrite Z.mod_small; lia. Qed.
Lemma u32_range z : 0 <= u32 z < 2 ^ 32.
Proof. apply Z.mod_pos_bound; lia. Qed.
Lemma u64_range z : 0 <= u64 z < 2 ^ 64.
Proof. apply Z.mod_pos_bound; lia. Qed.
Lemma i32_range z : - 2 ^ 31 <= i32 z < 2 ^ 31.
Proof. unfold i32. pose proof (Z.mod_pos_bound (z + 2 ^ 31) (2 ^ 32)). lia. Qed.
Lemma i64_range z : - 2 ^ 63 <= i64 z < 2 ^ 63.
Proof. unfold i64. pose proof (Z.mod_pos_bound (z + 2 ^ 63) (2 ^ 64)). lia. Qed.
Lemma u64_i64 z : u64 (i64 z) = u64 z.
Proof.
  unfold u64, i64. rewrite Zminus_mod_idemp_l. f_equal. lia.
Qed.
Lemma u64_i32 z : - 2 ^ 31 <= z < 2 ^ 31 -> u64 (i32 z) = u64 z.
Proof. intros H. by rewrite i32_small. Qed.

(** Rewriting with the side conditions left to [lia]. *)
Ltac wrap_small :=
  repeat first
    [ rewrite u64_small by lia | rewrite u32_small by lia | rewrite u16_small by lia
    | rewrite i32_small by lia | rewrite i64_small by lia ].

(** Case analysis on every integer comparison of the goal. *)
Ltac case_Zbool :=
  repeat match goal with
  | |- context [?a <=? ?b] => destruct (Z.leb_spec a b)
  | |- context [?a <? ?b] => destruct (Z.ltb_spec a b)
  | |- context [?a =? ?b] => destruct (Z.eqb_spec a b)
  end.

(** Prove a closed decidable proposition by computation. *)
Ltac by_computation := apply (bool_decide_unpack _); vm_compute; exact I.

(** * Bytes and lengths *)

Abbreviation bytes := (list Byte.byte).

#[export] Instance byte_eq_dec : EqDecision Byte.byte := Byte.byte_eq_dec.

Definition len {A} (l : list A) : Z := Z.of_nat (length l).

Lemma len_nil {A} : len (@nil A) = 0.
Proof. done. Qed.
Lemma len_cons {A} (x : A) l : len (x :: l) = len l + 1.
Proof. unfold len. simpl. lia. Qed.
Lemma len_app {A} (l k : list A) : len (l ++ k) = len l + len k.
Proof. unfold len. rewrite length_app. lia. Qed.
Lemma len_nonneg {A} (l : list A) : 0 <= len l.
Proof. unfold len. lia. Qed.
Lemma len_zero_iff {A} (l : list A) : len l = 0 <-> l = [].
Proof. unfold len. destruct l; simpl; split; (done || lia). Qed.

Lemma len_pos {A} (l : list A) : l <> [] -> 0 < len l.
Proof. intros H. destruct l; [done|]. rewrite len_cons. pose proof (len_nonneg l). lia. Qed.

(** Lengths, by [autorewrite with lens] and [auto with cellreplay]. *)
Create HintDb cellreplay.
Create Rewrite HintDb lens.
#[export] Hint Rewrite @len_nil @len_cons @len_app : lens.
#[export] Hint Resolve len_nonneg len_pos : cellreplay.

(** Element at a nonnegative machine index. *)
Definition znth {A} (l : list A) (i : Z) : option A :=
  if i <? 0 then None else l !! Z.to_nat i.

Lemma znth_Some {A} (l : list A) i x :
  znth l i = Some x <-> 0 <= i /\ l !! Z.to_nat i = Some x.
Proof.
  unfold znth. destruct (Z.ltb_spec i 0); split; try naive_solver lia.
Qed.
Lemma znth_is_Some {A} (l : list A) i : 0 <= i < len l -> exists x, znth l i = Some x.
Proof.
  intros [Hi Hl]. unfold znth, len in *. destruct (Z.ltb_spec i 0); [lia|].
  apply lookup_lt_is_Some_2. lia.
Qed.
Lemma znth_range {A} (l : list A) i x : znth l i = Some x -> 0 <= i < len l.
Proof.
  rewrite znth_Some. intros [Hi Hl%lookup_lt_Some]. unfold len. lia.
Qed.

(** Sum of a measure over a list. *)
Definition zsum {A} (f : A -> Z) (l : list A) : Z := foldr (fun x s => f x + s) 0 l.

Lemma zsum_nil {A} (f : A -> Z) : zsum f [] = 0.
Proof. done. Qed.
Lemma zsum_cons {A} (f : A -> Z) x l : zsum f (x :: l) = f x + zsum f l.
Proof. done. Qed.
Lemma zsum_app {A} (f : A -> Z) l k : zsum f (l ++ k) = zsum f l + zsum f k.
Proof. induction l as [|x l IH]; [done|]. rewrite <- app_comm_cons, !zsum_cons, IH. lia. Qed.
Lemma zsum_nonneg {A} (f : A -> Z) l : (forall x, 0 <= f x) -> 0 <= zsum f l.
Proof. intros Hf. induction l as [|x l IH]; [done|]. rewrite zsum_cons. specialize (Hf x). lia. Qed.

Lemma Forall_sublist {A} (P : A -> Prop) l k : Forall P k -> l `sublist_of` k -> Forall P l.
Proof. intros H Hs. induction Hs; [done|..]; apply Forall_cons in H as [H1 H2]; auto. Qed.

Lemma sublist_map {A B} (f : A -> B) l k : l `sublist_of` k -> map f l `sublist_of` map f k.
Proof. induction 1; simpl; by constructor. Qed.

#[export] Hint Resolve Forall_sublist sublist_map : cellreplay.

(** Last element of a vector, [back()]: undefined behaviour on an empty one. *)
Definition back {A} (l : list A) : outcome A :=
  match last l with
  | Some x => Ok x
  | None => Err (UndefinedBehaviour "back() of an empty vector")
  end.

(** [v[ i ]]: undefined behaviour out of range. *)
Definition vec_get {A} (l : list A) (i : Z) : outcome A :=
  match znth l i with
  | Some x => Ok x
  | None => Err (UndefinedBehaviour "vector index out of range")
  end.

(** [v.at( i )]: throws out of range. *)
Definition vec_at {A} (l : list A) (i : Z) : outcome A :=
  match znth l i with
  | Some x => Ok x
  | None => Err (OutOfRange "vector::at")
  end.

Lemma vec_at_Ok {A} (l : list A) i x : vec_at l i = Ok x <-> znth l i = Some x.
Proof. unfold vec_at. destruct (znth l i); naive_solver. Qed.
Lemma vec_get_Ok {A} (l : list A) i x : vec_get l i = Ok x <-> znth l i = Some x.
Proof. unfold vec_get. destruct (znth l i); naive_solver. Qed.

(** * Record update

    [r <| f := v |>] is [r] with field [f] set to [v].  A record [R] takes part
    by an instance of [Eta R], its eta-expansion. *)

Class Eta (R : Type) := eta : R -> R.

Class Update {R T : Type} (proj : R -> T) := upd : T -> R -> R.
Arguments upd {R T} proj {_} v r /.

Ltac solve_update :=
  match goal with
  | |- @Update ?R ?T ?p =>
      let inst := constr:(_ : Eta R) in
      let body := eval hnf in (@eta R inst) in
      match eval pattern p in body with
      | ?s _ => let u := eval cbv beta in (fun (v : T) (r : R) => s (fun _ => v) r) in exact u
      end
  end.
#[export] Hint Extern 0 (Update _) => solve_update : typeclass_instances.
Notation "r <| p := v |>" := (upd p v r)
  (at level 1, left associativity, p at level 50, v at level 200) : outcome_scope.

(** * Nondecreasing lists of times *)

Fixpoint nondecreasing (l : list Z) : bool :=
  match l with
  | x :: ((y :: _) as l') => (x <=? y) && nondecreasing l'
  | _ => true
  end.

Lemma nondecreasing_cons x l :
  nondecreasing (x :: l) = true <-> Forall (fun y => x <= y) l /\ nondecreasing l = true.
Proof.
  revert x. induction l as [|y l IH]; intros x; [naive_solver|].
  change (nondecreasing (x :: y :: l)) with ((x <=? y) && nondecreasing (y :: l)).
  rewrite andb_true_iff, Z.leb_le, Forall_cons. split; [|tauto].
  intros [Hx Hl]. pose proof (proj1 (IH y) Hl) as [Hy _]. split; [split; [done|]|done].
  eapply Forall_impl; [exact Hy|]. simpl. lia.
Qed.

Lemma nondecreasing_snoc l x :
  nondecreasing (l ++ [x]) = true <-> nondecreasing l = true /\ Forall (fun y => y <= x) l.
Proof.
  induction l as [|y l IH]; [naive_solver|].
  change ((y :: l) ++ [x]) with (y :: (l ++ [x])).
  rewrite !nondecreasing_cons, IH, Forall_app, !Forall_cons. naive_solver.
Qed.

Lemma nondecreasing_lookup l i j x y :
  nondecreasing l = true -> l !! i = Some x -> l !! j = Some y -> (i <= j)%nat -> x <= y.
Proof.
  revert i j. induction l as [|z l IH]; intros i j Hl Hi Hj Hij; [done|].
  apply nondecreasing_cons in Hl as [Hz Hl]. destruct i as [|i], j as [|j]; simplify_eq/=; [lia| |lia|].
  - rewrite Forall_lookup in Hz. by eapply Hz.
  - apply (IH i j); (done || lia).
Qed.

(** Last element, 0 on the empty list. *)
Definition last_or_0 (l : list Z) : Z := default 0 (last l).

(** Element at an index, 0 out of range. *)
Definition nth_or_0 (l : list Z) (i : Z) : Z := default 0 (znth l i).

Lemma back_Ok l : l <> [] -> back l = Ok (last_or_0 l).
Proof.
  intros H. unfold back, last_or_0. destruct (last l) as [x|] eqn:E; [done|]. by apply last_None in E.
Qed.

Lemma znth_nth_or_0 l i : 0 <= i < len l -> znth l i = Some (nth_or_0 l i).
Proof. intros H. unfold nth_or_0. by destruct (znth_is_Some l i H) as [x ->]. Qed.

Lemma nth_or_0_mono l i j :
  nondecreasing l = true -> 0 <= i <= j -> j < len l -> nth_or_0 l i <= nth_or_0 l j.
Proof.
  intros Hl Hij Hj. pose proof (znth_nth_or_0 l i ltac:(lia)) as Hi. pose proof (znth_nth_or_0 l j ltac:(lia)) as Hj'.
  apply znth_Some in Hi as [_ Hi]. apply znth_Some in Hj' as [_ Hj'].
  eapply nondecreasing_lookup; [done..|lia].
Qed.

Lemma nth_or_0_last l : l <> [] -> nth_or_0 l (len l - 1) = last_or_0 l.
Proof.
  intros H. unfold nth_or_0, last_or_0, znth, len. destruct l as [|x l]; [done|].
  destruct (Z.ltb_spec (Z.of_nat (length (x :: l)) - 1) 0); [simpl in *; lia|].
  rewrite last_lookup. do 2 f_equal. simpl. lia.
Qed.

Lemma nth_or_0_Forall (P : Z -> Prop) l i : Forall P l -> 0 <= i < len l -> P (nth_or_0 l i).
Proof.
  intros HP H. pose proof (znth_nth_or_0 l i H) as E. apply znth_Some in E as [_ E].
  rewrite Forall_lookup in HP. by eapply HP.
Qed.
