(* ===== verification/Floats.v ===== *)
(** C++ [float] and [double] arithmetic, executable.

    The values are those of the Standard Library's [spec_float]; every
    operation rounds to nearest even, as the IEEE 754 arithmetic of the
    machine does.  The conversions between the integer types and the
    floating-point types are defined here, with the undefined behaviour of a
    float-to-integer conversion out of range made explicit. *)
From Stdlib Require Import SpecFloat.
From S2P Require Import Prelude.

Abbreviation real := spec_float.

(** [float]: binary32; [double]: binary64. *)
Definition float_of_Z (z : Z) : real := binary_normalize 24 128 z 0 false.
Definition fadd : real -> real -> real := SFadd 24 128.
Definition fmul : real -> real -> real := SFmul 24 128.
Definition fdiv : real -> real -> real := SFdiv 24 128.

Definition double_of_Z (z : Z) : real := binary_normalize 53 1024 z 0 false.
Definition dadd : real -> real -> real := SFadd 53 1024.
Definition dsub : real -> real -> real := SFsub 53 1024.
Definition dmul : real -> real -> real := SFmul 53 1024.
Definition ddiv : real -> real -> real := SFdiv 53 1024.
Definition dsqrt : real -> real := SFsqrt 53 1024.

(** The double nearest to [num / den]: a decimal literal. *)
Definition double_of_ratio (num den : positive) : real :=
  let '(q, e, l) := SFdiv_core_binary 53 1024 (Zpos num) 0 (Zpos den) 0 in
  binary_round_aux 53 1024 false q e l.

(** Truncation towards zero; no value for an infinity or a NaN. *)
Definition trunc (x : real) : option Z :=
  match x with
  | S754_zero _ => Some 0
  | S754_finite s m e =>
      let a := Z.shiftl (Zpos m) e in
      Some (if s then - a else a)
  | _ => None
  end.

(** [std::round]: to the nearest integer, halfway cases away from zero. *)
Definition round (x : real) : option Z :=
  match x with
  | S754_zero _ => Some 0
  | S754_finite s m e =>
      let a := if e <? 0 then Z.shiftr (Zpos m + 2 ^ (- e - 1)) (- e) else Z.shiftl (Zpos m) e in
      Some (if s then - a else a)
  | _ => None
  end.

(** [int( x )] of an integer-valued or truncated float. *)
Definition to_int (x : option Z) : outcome Z :=
  match x with
  | Some z =>
      if (- 2 ^ 31 <=? z) && (z <? 2 ^ 31) then Ok z
      else Err (UndefinedBehaviour "float to int conversion out of range")
  | None => Err (UndefinedBehaviour "float to int conversion out of range")
  end.

(** [(uint64_t) x]. *)
Definition to_uint64 (x : option Z) : outcome Z :=
  match x with
  | Some z =>
      if (0 <=? z) && (z <? 2 ^ 64) then Ok z
      else Err (UndefinedBehaviour "float to uint64_t conversion out of range")
  | None => Err (UndefinedBehaviour "float to uint64_t conversion out of range")
  end.

Lemma to_int_range x z : to_int x = Ok z -> - 2 ^ 31 <= z < 2 ^ 31.
Proof. destruct x as [y|]; simpl; [|done]. case_match eqn:E; [|done]. intros [= <-]. lia. Qed.
Lemma to_uint64_range x z : to_uint64 x = Ok z -> 0 <= z < 2 ^ 64.
Proof. destruct x as [y|]; simpl; [|done]. case_match eqn:E; [|done]. intros [= <-]. lia. Qed.
Lemma to_int_Some z : - 2 ^ 31 <= z < 2 ^ 31 -> to_int (Some z) = Ok z.
Proof.
  intros H. simpl. destruct (Z.leb_spec (- 2 ^ 31) z), (Z.ltb_spec z (2 ^ 31)); (done || lia).
Qed.

Lemma double_of_Z_0 : double_of_Z 0 = S754_zero false.
Proof. done. Qed.
