(* ===== verification/Ezio.v ===== *)
(** Number parsing and printing: src/util/ezio.cc, with the parts of the C
    library it calls ([strtol], [strtod]) and of the C++ library that print
    integers ([to_string], [operator<<]). *)
From Stdlib Require Import SpecFloat Ascii String.
From S2P Require Import Prelude Floats.

(** * Characters *)

Definition code (c : ascii) : Z := Z.of_N (N_of_ascii c).

Definition isspace (c : ascii) : bool :=
  (code c =? 32) || ((9 <=? code c) && (code c <=? 13)).

Definition isdigit (c : ascii) : bool := (48 <=? code c) && (code c <=? 57).

(** Value of [c] as a digit of the base (10 or 16). *)
Definition digit_value (base : Z) (c : ascii) : option Z :=
  let v :=
    if isdigit c then Some (code c - 48)
    else if (97 <=? code c) && (code c <=? 122) then Some (code c - 87)
    else if (65 <=? code c) && (code c <=? 90) then Some (code c - 55)
    else None in
  match v with
  | Some d => if d <? base then Some d else None
  | None => None
  end.

Fixpoint skip_spaces (s : string) : string :=
  match s with
  | String c s' => if isspace c then skip_spaces s' else s
  | EmptyString => s
  end.

(** The longest run of digits at the front: its value on top of [acc], how
    many digits there are, and what follows. *)
Fixpoint scan_digits (base acc : Z) (n : nat) (s : string) : Z * nat * string :=
  match s with
  | String c s' =>
      match digit_value base c with
      | Some d => scan_digits base (acc * base + d) (S n) s'
      | None => (acc, n, s)
      end
  | EmptyString => (acc, n, s)
  end.

Definition scan_sign (s : string) : bool * string :=
  match s with
  | String c s' =>
      if Ascii.eqb c "-" then (true, s') else if Ascii.eqb c "+" then (false, s') else (false, s)
  | EmptyString => (false, s)
  end.

(** [0x] is a prefix of base 16 when a hexadecimal digit follows it. *)
Definition skip_hex_prefix (s : string) : string :=
  match s with
  | String z (String x (String d _) as s') =>
      match s' with
      | String _ s'' =>
          if Ascii.eqb z "0" && (Ascii.eqb x "x" || Ascii.eqb x "X")
             && (if digit_value 16 d is Some _ then true else false)
          then s'' else s
      | EmptyString => s
      end
  | _ => s
  end.

(** [strtol]: the value, whether [errno] is set to ERANGE, and the suffix at
    which [*end] points. *)
Definition strtol (str : string) (base : Z) : Z * bool * string :=
  let '(neg, s) := scan_sign (skip_spaces str) in
  let s := if base =? 16 then skip_hex_prefix s else s in
  let '(v, n, rest) := scan_digits base 0 0 s in
  match n with
  | O => (0, false, str)
  | _ =>
      let v := if neg then - v else v in
      if v <? - 2 ^ 63 then (- 2 ^ 63, true, rest)
      else if 2 ^ 63 <=? v then (2 ^ 63 - 1, true, rest)
      else (v, false, rest)
  end.

Definition myatoi_base (str : string) (base : Z) : outcome Z :=
  match str with
  | EmptyString => Err (Throw "Invalid integer string: empty")
  | _ =>
      let '(ret, erange, rest) := strtol str base in
      if (erange : bool) then Err (UnixError "strtol")
      else if negb (String.eqb rest "") then Err (Throw ("Invalid integer: " +:+ str))
      else Ok ret
  end.

(** The default base of the declaration is 10. *)
Definition myatoi (str : string) : outcome Z := myatoi_base str 10.

(** * strtod *)

Definition ascii_lower (c : ascii) : ascii :=
  if (65 <=? code c) && (code c <=? 90) then ascii_of_N (Z.to_N (code c + 32)) else c.

(** [s] without the prefix [p] (given in lower case), ignoring case. *)
Fixpoint strip_prefix_ci (p s : string) : option string :=
  match p, s with
  | EmptyString, _ => Some s
  | String a p', String b s' => if Ascii.eqb a (ascii_lower b) then strip_prefix_ci p' s' else None
  | String _ _, EmptyString => None
  end.

(** An exponent part: the marker, an optional sign and at least one digit. *)
Definition scan_exponent (marker s : string) : Z * string :=
  match strip_prefix_ci marker s with
  | Some s' =>
      let '(neg, s'') := scan_sign s' in
      let '(v, n, rest) := scan_digits 10 0 0 s'' in
      match n with
      | O => (0, s)
      | _ => (if neg : bool then - v else v, rest)
      end
  | None => (0, s)
  end.

(** Digits with an optional point: the digits' value, how many follow the
    point, how many there are in all, and the rest. *)
Definition scan_mantissa (base : Z) (s : string) : Z * Z * nat * string :=
  let '(v, n, rest) := scan_digits base 0 0 s in
  match rest with
  | String c rest' =>
      if Ascii.eqb c "." then
        let '(v', n', rest'') := scan_digits base v 0 rest' in
        match (n + n')%nat with
        | O => (0, 0, O, s)
        | k => (v', Z.of_nat n', k, rest'')
        end
      else (v, 0, n, rest)
  | EmptyString => (v, 0, n, rest)
  end.

(** The double nearest to [m / d], and whether the result overflows or is
    tiny and inexact, when the library sets ERANGE. *)
Definition double_of_quotient (neg : bool) (m : Z) (d : positive) : real * bool :=
  match m with
  | Zpos p =>
      let '(q, e, l) := SFdiv_core_binary 53 1024 (Zpos p) 0 (Zpos d) 0 in
      let r := binary_round_aux 53 1024 neg q e l in
      let erange :=
        match r with
        | S754_infinity _ => true
        | S754_zero _ => true
        | S754_finite _ rm re =>
            (digits2_pos rm <? 53)%positive
            && negb (Z.eqb (Zpos rm * Zpos d * 2 ^ Z.max re 0) (Zpos p * 2 ^ Z.max (- re) 0))
        | S754_nan => false
        end in
      (r, erange)
  | _ => (S754_zero neg, false)
  end.

(** [m * base ^ e] as a quotient of integers. *)
Definition scaled (neg : bool) (m base e : Z) : real * bool :=
  if 0 <=? e then double_of_quotient neg (m * base ^ e) 1
  else double_of_quotient neg m (Z.to_pos (base ^ (- e))).

Definition strtod (str : string) : real * bool * string :=
  let '(neg, s) := scan_sign (skip_spaces str) in
  match strip_prefix_ci "infinity" s with
  | Some rest => (S754_infinity neg, false, rest)
  | None =>
  match strip_prefix_ci "inf" s with
  | Some rest => (S754_infinity neg, false, rest)
  | None =>
  match strip_prefix_ci "nan" s with
  | Some rest => (S754_nan, false, rest)
  | None =>
  let '(hv, hf, hn, hrest) :=
    match strip_prefix_ci "0x" s with
    | Some h => scan_mantissa 16 h
    | None => (0, 0, O, s)
    end in
  match hn with
  | S _ =>
      let '(e, rest) := scan_exponent "p" hrest in
      let '(r, erange) := scaled neg hv 2 (e - 4 * hf) in
      (r, erange, rest)
  | O =>
      let '(v, f, n, rest) := scan_mantissa 10 s in
      match n with
      | O => (S754_zero false, false, str)
      | S _ =>
          let '(e, rest') := scan_exponent "e" rest in
          let '(r, erange) := scaled neg v 10 (e - f) in
          (r, erange, rest')
      end
  end end end end.

Definition myatof (str : string) : outcome real :=
  match str with
  | EmptyString => Err (Throw "Invalid floating-point string: empty")
  | _ =>
      let '(ret, erange, rest) := strtod str in
      if (erange : bool) then Err (UnixError "strtod")
      else if negb (String.eqb rest "") then Err (Throw ("Invalid floating-point number: " +:+ str))
      else Ok ret
  end.

(** * Printing integers *)

Definition digit_char (d : Z) : ascii := ascii_of_N (Z.to_N (48 + d)).

Fixpoint print_digits (fuel : nat) (n : Z) (acc : string) : string :=
  match fuel with
  | O => acc
  | S fuel =>
      let acc := String (digit_char (n mod 10)) acc in
      if n / 10 =? 0 then acc else print_digits fuel (n / 10) acc
  end.

(** Decimal digits of a nonnegative integer below [10 ^ 20]; every 64-bit
    value is. *)
Definition print_nonneg (n : Z) : string := print_digits 20 n "".

Definition print_int (n : Z) : string :=
  if n <? 0 then String "-" (print_nonneg (- n)) else print_nonneg n.

(** * Lemmas *)

Lemma digit_value_char d : 0 <= d < 10 -> digit_value 10 (digit_char d) = Some d.
Proof.
  intros H. assert (d = 0 \/ d = 1 \/ d = 2 \/ d = 3 \/ d = 4 \/ d = 5 \/ d = 6 \/ d = 7 \/ d = 8 \/ d = 9)
    as Hd by lia.
  destruct_or!; subst; reflexivity.
Qed.

Lemma isspace_digit_char d : 0 <= d < 10 -> isspace (digit_char d) = false.
Proof.
  intros H. assert (d = 0 \/ d = 1 \/ d = 2 \/ d = 3 \/ d = 4 \/ d = 5 \/ d = 6 \/ d = 7 \/ d = 8 \/ d = 9)
    as Hd by lia.
  destruct_or!; subst; reflexivity.
Qed.

Lemma isdigit_digit_char d : 0 <= d < 10 -> isdigit (digit_char d) = true.
Proof.
  intros H. assert (d = 0 \/ d = 1 \/ d = 2 \/ d = 3 \/ d = 4 \/ d = 5 \/ d = 6 \/ d = 7 \/ d = 8 \/ d = 9)
    as Hd by lia.
  destruct_or!; subst; reflexivity.
Qed.

(** Printing then scanning: the digits of [m] extend whatever was scanned
    before them. *)
Lemma scan_print_digits fuel m :
  0 <= m < 10 ^ Z.of_nat fuel ->
  (0 < fuel)%nat ->
  exists L : nat, (0 < L)%nat /\ forall acc n s,
    scan_digits 10 acc n (print_digits fuel m s) = scan_digits 10 (acc * 10 ^ Z.of_nat L + m) (n + L) s.
Proof.
  revert m. induction fuel as [|fuel IH]; intros m Hm Hf; [lia|].
  assert (Hd : 0 <= m mod 10 < 10) by (apply Z.mod_pos_bound; lia).
  assert (Hq : m = 10 * (m / 10) + m mod 10) by (apply Z.div_mod; lia).
  cbn [print_digits]. destruct (Z.eqb_spec (m / 10) 0) as [E|E].
  - exists 1%nat. split; [lia|]. intros acc n s. cbn [scan_digits].
    rewrite digit_value_char by done. f_equal; lia.
  - assert (Hq' : 0 < m / 10) by (pose proof (Z.div_pos m 10); lia).
    rewrite Nat2Z.inj_succ, Z.pow_succ_r in Hm by lia.
    destruct fuel as [|fuel']; [simpl in Hm; lia|].
    destruct (IH (m / 10)) as (L & HL & HS); [lia|lia|].
    exists (S L). split; [lia|]. intros acc n s. rewrite HS. cbn [scan_digits].
    rewrite digit_value_char by done.
    f_equal; [|lia]. rewrite Nat2Z.inj_succ, Z.pow_succ_r by lia. lia.
Qed.

(** The first character of a printed number is a digit. *)
Lemma print_digits_head fuel m s :
  (0 < fuel)%nat -> exists d s', 0 <= d < 10 /\ print_digits fuel m s = String (digit_char d) s'.
Proof.
  revert m s. induction fuel as [|fuel IH]; intros m s Hf; [lia|]. cbn [print_digits].
  assert (Hd : 0 <= m mod 10 < 10) by (apply Z.mod_pos_bound; lia).
  destruct (m / 10 =? 0); [by eauto|].
  destruct fuel as [|fuel']; [by eauto|]. apply IH. lia.
Qed.

Lemma digit_char_not_sign d : 0 <= d < 10 ->
  Ascii.eqb (digit_char d) "-" = false /\ Ascii.eqb (digit_char d) "+" = false.
Proof.
  intros H. assert (d = 0 \/ d = 1 \/ d = 2 \/ d = 3 \/ d = 4 \/ d = 5 \/ d = 6 \/ d = 7 \/ d = 8 \/ d = 9)
    as Hd by lia.
  destruct_or!; subst; split; reflexivity.
Qed.

Lemma scan_print_nonneg n : 0 <= n < 10 ^ 20 ->
  exists L : nat, (0 < L)%nat /\ scan_digits 10 0 0 (print_nonneg n) = (n, L, EmptyString).
Proof.
  intros H. destruct (scan_print_digits 20 n) as (L & HL & HS); [done|lia|].
  exists L. split; [done|]. unfold print_nonneg. rewrite HS. by f_equal.
Qed.

Lemma skip_spaces_print_nonneg n : skip_spaces (print_nonneg n) = print_nonneg n.
Proof.
  unfold print_nonneg. destruct (print_digits_head 20 n "") as (d & s' & Hd & ->); [lia|].
  simpl. by rewrite isspace_digit_char.
Qed.

Lemma scan_sign_print_nonneg n : scan_sign (print_nonneg n) = (false, print_nonneg n).
Proof.
  unfold print_nonneg. destruct (print_digits_head 20 n "") as (d & s' & Hd & ->); [lia|].
  simpl. destruct (digit_char_not_sign d Hd) as [-> ->]. done.
Qed.

Lemma print_nonneg_not_empty n : print_nonneg n <> EmptyString.
Proof. unfold print_nonneg. by destruct (print_digits_head 20 n "") as (d & s' & Hd & ->); [lia|]. Qed.

Lemma strtol_print_int z : - 2 ^ 63 <= z < 2 ^ 63 -> strtol (print_int z) 10 = (z, false, EmptyString).
Proof.
  intros Hz. unfold print_int, strtol. destruct (Z.ltb_spec z 0) as [E|E].
  - destruct (scan_print_nonneg (- z)) as (L & HL & HS); [lia|]. simpl skip_spaces. simpl scan_sign.
    simpl. rewrite HS. destruct L; [lia|].
    destruct (Z.ltb_spec (- - z) (- 2 ^ 63)); [lia|].
    destruct (Z.leb_spec (2 ^ 63) (- - z)); [lia|]. do 2 f_equal. lia.
  - destruct (scan_print_nonneg z) as (L & HL & HS); [lia|].
    rewrite skip_spaces_print_nonneg, scan_sign_print_nonneg. simpl. rewrite HS. destruct L; [lia|].
    destruct (Z.ltb_spec z (- 2 ^ 63)); [lia|].
    destruct (Z.leb_spec (2 ^ 63) z); [lia|]. done.
Qed.

Lemma myatoi_print z : - 2 ^ 63 <= z < 2 ^ 63 -> myatoi (print_int z) = Ok z.
Proof.
  intros Hz. unfold myatoi, myatoi_base. rewrite strtol_print_int by done. simpl.
  destruct (print_int z) eqn:E; [|done]. exfalso. revert E. unfold print_int.
  destruct (z <? 0); [done|]. apply print_nonneg_not_empty.
Qed.

Lemma strtol_range s base : - 2 ^ 63 <= (strtol s base).1.1 < 2 ^ 63.
Proof.
  unfold strtol. destruct (scan_sign _) as [neg s'].
  destruct (scan_digits _ _ _ _) as [[v n] rest]. destruct n; [simpl; lia|].
  repeat (case_match; simpl); lia.
Qed.

Lemma myatoi_base_range s base v : myatoi_base s base = Ok v -> - 2 ^ 63 <= v < 2 ^ 63.
Proof.
  unfold myatoi_base. destruct s as [|c s]; [done|].
  pose proof (strtol_range (String c s) base) as H.
  destruct (strtol _ _) as [[r e] rest]. simpl in H.
  repeat case_match; naive_solver.
Qed.

Lemma myatoi_range s v : myatoi s = Ok v -> - 2 ^ 63 <= v < 2 ^ 63.
Proof. apply myatoi_base_range. Qed.

Fixpoint all_digits (s : string) : bool :=
  match s with
  | String c s' => isdigit c && all_digits s'
  | EmptyString => true
  end.

Lemma string_app_cons c (s t : string) : String c s +:+ t = String c (s +:+ t).
Proof. done. Qed.

Lemma string_app_assoc (s t u : string) : (s +:+ t) +:+ u = s +:+ (t +:+ u).
Proof. induction s as [|c s IH]; [done|]. by rewrite !string_app_cons, IH. Qed.

Lemma string_app_nil (s : string) : s +:+ "" = s.
Proof. induction s as [|c s IH]; [done|]. by rewrite string_app_cons, IH. Qed.

Lemma print_digits_app fuel m s : print_digits fuel m s = print_digits fuel m "" +:+ s.
Proof.
  revert m s. induction fuel as [|fuel IH]; intros m s; [done|]. cbn [print_digits].
  destruct (m / 10 =? 0); [done|].
  rewrite IH, (IH _ (String (digit_char (m mod 10)) "")). by rewrite string_app_assoc.
Qed.

Lemma print_digits_all fuel m s : all_digits s = true -> all_digits (print_digits fuel m s) = true.
Proof.
  revert m s. induction fuel as [|fuel IH]; intros m s Hs; [done|]. cbn [print_digits].
  assert (H : all_digits (String (digit_char (m mod 10)) s) = true).
  { simpl. by rewrite isdigit_digit_char by (apply Z.mod_pos_bound; lia). }
  destruct (m / 10 =? 0); [done|]. by apply IH.
Qed.

Lemma print_nonneg_all n : all_digits (print_nonneg n) = true.
Proof. by apply print_digits_all. Qed.

Lemma myatoi_print_nonneg n : 0 <= n < 2 ^ 63 -> myatoi (print_nonneg n) = Ok n.
Proof.
  intros H. pose proof (myatoi_print n ltac:(lia)) as E. unfold print_int in E.
  destruct (Z.ltb_spec n 0); [lia|done].
Qed.
