(* ===== verification/Errors.v ===== *)
(** The exceptions and their texts: src/util/exception.hh.

    A [fault] that is caught says what was attempted; here are the texts that the
    handlers look at or print: [what()] of an exception, which for a [unix_error]
    goes on with the system's message, and [print_exception].  The texts of the
    system's messages are a parameter. *)
From Stdlib Require Import String Ascii.
From S2P Require Import Prelude Ezio.

(** * The classes *)

Record tagged_error := { error_code : Z; attempt_and_error_ : string }.

(** [std::system_category()], and the one of [getaddrinfo] and [getnameinfo]
    (src/util/address.cc). *)
Inductive error_category := system_category | gai_error_category.

Section Texts.
(** The C library's messages. *)
Context (strerror gai_strerror : Z -> string).

Definition category_name (c : error_category) : string :=
  match c with system_category => "system" | gai_error_category => "gai_error_category" end.

Definition category_message (c : error_category) (return_value : Z) : string :=
  match c with system_category => strerror return_value | gai_error_category => gai_strerror return_value end.

(** [std::system_error::what()], which is the message alone without a text. *)
Definition system_what (c : error_category) (code : Z) : string := category_message c code.

Definition tagged_error_new (c : error_category) (s_attempt : string) (code : Z) : tagged_error :=
  {| error_code := code; attempt_and_error_ := s_attempt +:+ ": " +:+ system_what c code |}.

Definition tagged_error_what (e : tagged_error) : string := attempt_and_error_ e.

Definition unix_error (s_attempt : string) (s_errno : Z) : tagged_error := tagged_error_new system_category s_attempt s_errno.

(** [e.what()] of what is caught as [const exception &]; the category and the
    code are those of the call that failed, [errno] but for [getaddrinfo] and
    [getnameinfo]. *)
Definition what (c : error_category) (code : Z) (e : fault) : string :=
  match e with
  | UnixError attempt => tagged_error_what (tagged_error_new c attempt code)
  | Throw what | OutOfRange what => what
  | _ => ""
  end.

(** What [print_exception] puts out; [type_name] is the demangled name of the
    exception's class. *)
Definition print_exception (type_name what output : string) : string :=
  output +:+ "Died on " +:+ type_name +:+ ": " +:+ what +:+ String (ascii_of_nat 10 (* endl *)) "".

(** * Tests of the text *)

Fixpoint no_colon (s : string) : bool :=
  match s with
  | EmptyString => true
  | String c s => negb (Ascii.eqb c ":") && no_colon s
  end.

Lemma app_nil_string s : "" +:+ s = s.
Proof. done. Qed.

Lemma prefix_nil s : String.prefix "" s = true.
Proof. by destruct s. Qed.

Lemma prefix_cons c d s t : String.prefix (String c s) (String d t) = Ascii.eqb c d && String.prefix s t.
Proof. cbn. destruct (ascii_dec c d) as [->|Hn]; [by rewrite Ascii.eqb_refl|]. by apply Ascii.eqb_neq in Hn as ->. Qed.

(** Whether the text of a [unix_error] begins with a word and a colon depends on
    what was attempted, not on the system's message. *)
Lemma prefix_of_attempt w : no_colon w = true -> forall attempt message,
  String.prefix (w +:+ ":") (attempt +:+ ": " +:+ message) = String.prefix (w +:+ ":") (attempt +:+ ": ").
Proof.
  induction w as [|c w IH]; intros Hw attempt message.
  - destruct attempt as [|a attempt]; [done|]. rewrite !string_app_cons. change ("" +:+ ":") with ":".
    by rewrite !prefix_cons, !prefix_nil.
  - cbn [no_colon] in Hw. apply andb_true_iff in Hw as [Hc%negb_true_iff Hw]. rewrite (string_app_cons c). destruct attempt as [|a attempt].
    + rewrite (string_app_cons ":"). rewrite !app_nil_string. by rewrite !prefix_cons, Hc.
    + by rewrite !(string_app_cons a), !prefix_cons, IH.
Qed.

(** The handlers' test of the beginning of the text: [word] and a colon. *)
Definition begins_with (word : string) (e : fault) : bool :=
  match e with
  | UnixError attempt => String.prefix (word +:+ ":") (attempt +:+ ": ")
  | Throw what | OutOfRange what => String.prefix (word +:+ ":") what
  | _ => false
  end.

Lemma begins_with_what (word : string) (c : error_category) (code : Z) (e : fault) : no_colon word = true -> caught_as_exception e = true ->
  begins_with word e = String.prefix (word +:+ ":") (what c code e).
Proof. destruct e; try done. intros Hw _. symmetry. by apply prefix_of_attempt. Qed.
End Texts.
