(* ===== verification/Timestamp.v ===== *)
(** The clock: src/util/timestamp.cc.

    The operating system's realtime clock is a sequence of readings; the
    program's own part is the conversion to milliseconds and the subtraction of
    the first reading.  [Clock] is the interface the queues are written
    against, and [ClockLaws] what they rely on: [clock_from w t] says that the
    readings still to come are at least [t], never decrease and stay below
    [2 ^ 62]. *)
From S2P Require Import Prelude.

(** Every time of the model is below this bound: no 64-bit sum of two of them
    wraps. *)
Definition time_limit : Z := 2 ^ 62.

Class Clock (W : Type) := timestamp : W -> outcome (Z * W).

Class ClockLaws (W : Type) `{Clock W} := {
  clock_from : W -> Z -> Prop;
  clock_from_le w t t' : clock_from w t -> t' <= t -> clock_from w t';
  timestamp_spec w t0 : clock_from w t0 ->
    exists t w', timestamp w = Ok (t, w') /\ t0 <= t < time_limit /\ clock_from w' t;
}.

(** ** The implementation *)

Record timespec := { tv_sec : Z; tv_nsec : Z }.

(** The process's view of the clock: what [clock_gettime] will answer at its
    n-th call ([None]: it fails), how many calls were made, and the static
    variable of [initial_timestamp]. *)
Record World := {
  clock_gettime : nat -> option timespec;
  calls : nat;
  initial_value : option Z;
}.

#[export] Instance eta_World : Eta World := fun w =>
  {| clock_gettime := clock_gettime w; calls := calls w; initial_value := initial_value w |}.

Definition raw_timestamp (w : World) : outcome (Z * World) :=
  match clock_gettime w (calls w) with
  | None => Err (UnixError "clock_gettime")
  | Some ts =>
      let millis := u64 (Z.quot (tv_nsec ts) 1000000) in
      let millis := u64 (millis + u64 (u64 (tv_sec ts) * 1000)) in
      Ok (millis, w <| calls := S (calls w) |>)
  end.

Definition initial_timestamp (w : World) : outcome (Z * World) :=
  match initial_value w with
  | Some v => Ok (v, w)
  | None =>
      let* (v, w) := raw_timestamp w in
      Ok (v, w <| initial_value := Some v |>)
  end.

(** [raw_timestamp() - initial_timestamp()].  C++ leaves the order of the two
    calls open; it matters only before the static variable is set, and the
    shell sets it before it forks ([World_from] asks for it). *)
#[export] Instance timestamp_World : Clock World := fun w =>
  let* (r, w) := raw_timestamp w in
  let* (i, w) := initial_timestamp w in
  Ok (u64 (r - i), w).

(** ** The laws *)

Definition millis_of (ts : timespec) : Z := tv_sec ts * 1000 + tv_nsec ts / 1000000.

(** A reading as the kernel documents it: nonnegative seconds, and nanoseconds
    below one second. *)
Definition timespec_ok (ts : timespec) : Prop :=
  0 <= tv_sec ts < 2 ^ 51 /\ 0 <= tv_nsec ts < 1000000000.

Definition timespec_le (a b : timespec) : Prop :=
  tv_sec a < tv_sec b \/ tv_sec a = tv_sec b /\ tv_nsec a <= tv_nsec b.

(** From call [n] on, the clock answers, with readings that do not decrease. *)
Definition clock_monotone (w : World) : Prop :=
  forall n, (calls w <= n)%nat ->
    exists a, clock_gettime w n = Some a /\ timespec_ok a /\
      forall m b, (n <= m)%nat -> clock_gettime w m = Some b -> timespec_le a b.

Definition World_from (w : World) (t : Z) : Prop :=
  clock_monotone w /\
  exists i, initial_value w = Some i /\ 0 <= i /\
    forall a, clock_gettime w (calls w) = Some a -> i + t <= millis_of a /\ i <= millis_of a.

Lemma millis_of_bounds ts : timespec_ok ts -> 0 <= millis_of ts < time_limit.
Proof.
  unfold timespec_ok, millis_of, time_limit. intros [H1 H2].
  pose proof (Z.div_pos (tv_nsec ts) 1000000).
  assert (tv_nsec ts / 1000000 < 1000) by (apply Z.div_lt_upper_bound; lia). lia.
Qed.

Lemma millis_of_mono a b : timespec_ok a -> timespec_ok b -> timespec_le a b -> millis_of a <= millis_of b.
Proof.
  unfold timespec_ok, millis_of. intros [H1 H2] [H3 H4] [H|[H H']].
  - pose proof (Z.div_pos (tv_nsec b) 1000000).
    assert (tv_nsec a / 1000000 < 1000) by (apply Z.div_lt_upper_bound; lia). lia.
  - assert (tv_nsec a / 1000000 <= tv_nsec b / 1000000) by (apply Z.div_le_mono; lia). lia.
Qed.

Lemma raw_timestamp_millis w a :
  clock_gettime w (calls w) = Some a -> timespec_ok a ->
  raw_timestamp w = Ok (millis_of a, w <| calls := S (calls w) |>).
Proof.
  intros E Ha. unfold raw_timestamp. rewrite E. do 2 f_equal.
  pose proof (millis_of_bounds a Ha) as Hb. unfold time_limit, millis_of, timespec_ok in *.
  rewrite Z.quot_div_nonneg by lia. pose proof (Z.div_pos (tv_nsec a) 1000000).
  rewrite (u64_small (tv_sec a)) by lia. rewrite (u64_small (tv_sec a * 1000)) by lia.
  rewrite (u64_small (_ / _)) by lia. rewrite u64_small by lia. lia.
Qed.

Lemma clock_monotone_next w : clock_monotone w -> clock_monotone (w <| calls := S (calls w) |>).
Proof. intros H n Hn. simpl in *. apply H. lia. Qed.

Lemma timestamp_World_spec w t0 : World_from w t0 ->
  exists t w', timestamp w = Ok (t, w') /\ t0 <= t < time_limit /\ World_from w' t.
Proof.
  intros (Hm & i & Hi & Hi0 & Hle). destruct (Hm (calls w)) as (a & Ea & Ha & Hnext); [lia|].
  exists (millis_of a - i), (w <| calls := S (calls w) |>).
  pose proof (millis_of_bounds a Ha). destruct (Hle a Ea) as [Hle1 Hle2].
  unfold timestamp, timestamp_World. rewrite (raw_timestamp_millis w a) by done. simpl.
  unfold initial_timestamp. simpl. rewrite Hi. simpl. rewrite u64_small by (unfold time_limit in *; lia).
  split; [done|]. split; [lia|]. split; [by apply clock_monotone_next|]. exists i. simpl.
  split; [done|]. split; [done|]. intros b Eb.
  destruct (Hm (S (calls w))) as (b' & Eb' & Hb & _); [lia|]. simplify_eq.
  assert (millis_of a <= millis_of b); [|lia].
  eapply millis_of_mono; [done..|]. eapply Hnext; [|done]. lia.
Qed.

Lemma World_from_le w t t' : World_from w t -> t' <= t -> World_from w t'.
Proof.
  intros (Hm & i & Hi & Hi0 & Hle) Ht. split; [done|]. exists i.
  split; [done|]. split; [done|]. intros a Ea. specialize (Hle a Ea). lia.
Qed.

#[export] Instance clock_laws_World : ClockLaws World := {
  clock_from := World_from;
  clock_from_le := World_from_le;
  timestamp_spec := timestamp_World_spec;
}.

(** A clock that advances one millisecond per reading for a million readings,
    for concrete runs: its n-th [timestamp] is [n]. *)
Definition ticking_spec (n : nat) : timespec :=
  let ms := Z.min (Z.of_nat n) 1000000 in
  {| tv_sec := ms / 1000; tv_nsec := ms mod 1000 * 1000000 |}.

Definition ticking : World :=
  {| clock_gettime := fun n => Some (ticking_spec n); calls := 0; initial_value := Some 0 |}.

Lemma ticking_spec_ok n : timespec_ok (ticking_spec n).
Proof.
  unfold timespec_ok, ticking_spec. simpl.
  pose proof (Z.mod_pos_bound (Z.min (Z.of_nat n) 1000000) 1000).
  pose proof (Z.div_pos (Z.min (Z.of_nat n) 1000000) 1000).
  assert (Z.min (Z.of_nat n) 1000000 / 1000 <= 1000) by (apply Z.div_le_upper_bound; lia). lia.
Qed.

Lemma ticking_spec_mono n m : (n <= m)%nat -> timespec_le (ticking_spec n) (ticking_spec m).
Proof.
  intros H. unfold timespec_le, ticking_spec. simpl.
  set (a := Z.min (Z.of_nat n) 1000000). set (b := Z.min (Z.of_nat m) 1000000).
  assert (a <= b) by lia. assert (a / 1000 <= b / 1000) by (apply Z.div_le_mono; lia).
  pose proof (Z.div_mod a 1000). pose proof (Z.div_mod b 1000).
  pose proof (Z.mod_pos_bound a 1000). pose proof (Z.mod_pos_bound b 1000). lia.
Qed.

Lemma ticking_from : clock_from ticking 0.
Proof.
  split.
  - intros n _. exists (ticking_spec n). split; [done|]. split; [apply ticking_spec_ok|].
    intros m b Hm [= <-]. by apply ticking_spec_mono.
  - exists 0. split; [done|]. split; [done|]. intros a [= <-]. vm_compute. split; discriminate.
Qed.
