(* ===== verification/Packets.v ===== *)
(** The packet records of src/packet/queued_packet.hh.

    A packet's contents are the bytes read from the tunnel device.  The fields
    of [DelayQueuePacket] carry the prefix [d_] because the two structs share
    field names. *)
From S2P Require Import Prelude.

Record DelayQueuePacket := {
  d_arrival_time : Z;
  d_sequence_number : Z;
  d_release_time : Z;
  d_contents : bytes;
  d_ip_port_info : string;
  d_is_bypass_link_queue : bool;
}.

(** The constructor from contents and arrival time: the empty packet it builds
    from no contents ends the loop of [write_packets]. *)
Definition DelayQueuePacket_of (contents : bytes) (arrival_time : Z) : DelayQueuePacket :=
  {| d_arrival_time := arrival_time; d_sequence_number := 0; d_release_time := arrival_time;
     d_contents := contents; d_ip_port_info := ""; d_is_bypass_link_queue := true |}.

Definition DelayQueuePacket_make (contents : bytes) (ip_port_info : string)
    (arrival_time sequence_number release_time : Z) (is_bypass_link_queue : bool) : DelayQueuePacket :=
  {| d_arrival_time := arrival_time; d_sequence_number := sequence_number;
     d_release_time := release_time; d_contents := contents; d_ip_port_info := ip_port_info;
     d_is_bypass_link_queue := is_bypass_link_queue |}.

Record QueuedPacket := {
  initial_arrival_time : Z;
  arrival_time : Z;
  sequence_number : Z;
  release_time_from_delay_queue : Z;
  contents : bytes;
  ip_port_info : string;
  pkt_key : string;
  is_llc : bool;
}.

Definition QueuedPacket_of (s_contents : bytes) (s_arrival_time : Z) : QueuedPacket :=
  {| initial_arrival_time := s_arrival_time; arrival_time := s_arrival_time; sequence_number := 0;
     release_time_from_delay_queue := s_arrival_time; contents := s_contents; ip_port_info := "";
     pkt_key := ""; is_llc := false |}.

Definition QueuedPacket_dchannel (s_contents : bytes) (s_arrival_time s_sequence_number : Z)
    (s_pkt_key : string) (s_is_llc : bool) : QueuedPacket :=
  {| initial_arrival_time := s_arrival_time; arrival_time := s_arrival_time;
     sequence_number := s_sequence_number; release_time_from_delay_queue := s_arrival_time;
     contents := s_contents; ip_port_info := s_pkt_key; pkt_key := s_pkt_key; is_llc := s_is_llc |}.

Definition QueuedPacket_make (s_contents : bytes) (s_ip_port_info : string)
    (s_initial_arrival_time s_arrival_time s_sequence_number s_release_time : Z) : QueuedPacket :=
  {| initial_arrival_time := s_initial_arrival_time; arrival_time := s_arrival_time;
     sequence_number := s_sequence_number; release_time_from_delay_queue := s_release_time;
     contents := s_contents; ip_port_info := s_ip_port_info; pkt_key := ""; is_llc := false |}.

(** [contents.size()] *)
Definition psize (p : QueuedPacket) : Z := len (contents p).
Definition d_psize (p : DelayQueuePacket) : Z := len (d_contents p).

Lemma psize_nonneg p : 0 <= psize p.
Proof. apply len_nonneg. Qed.

(** [DelayPktPairCmp]: the comparator of the delay queue, which puts the
    earliest release time on top and breaks ties by sequence number. *)
Definition DelayPktPairCmp (lhs rhs : DelayQueuePacket) : bool :=
  if d_release_time lhs =? d_release_time rhs
  then d_sequence_number rhs <? d_sequence_number lhs
  else d_release_time rhs <? d_release_time lhs.

(** [priority_queue] with that comparator: [top] is the first element. *)
Fixpoint emplace (p : DelayQueuePacket) (q : list DelayQueuePacket) : list DelayQueuePacket :=
  match q with
  | [] => [p]
  | x :: q' => if DelayPktPairCmp x p then p :: q else x :: emplace p q'
  end.

(** A packet that is not before any packet of the queue goes to its end. *)
Lemma emplace_last p q :
  Forall (fun x => d_release_time x <= d_release_time p /\
                   (d_release_time x = d_release_time p -> d_sequence_number x <= d_sequence_number p)) q ->
  emplace p q = q ++ [p].
Proof.
  induction 1 as [|x q [Hr Hs] _ IH]; [done|]. cbn [emplace].
  assert (DelayPktPairCmp x p = false) as ->.
  { unfold DelayPktPairCmp. destruct (Z.eqb_spec (d_release_time x) (d_release_time p)) as [E|E].
    - specialize (Hs E). by apply Z.ltb_ge.
    - apply Z.ltb_ge. lia. }
  by rewrite IH.
Qed.
