(* ===== verification/PacketQueue.v ===== *)
(** The packet queues the link can use.

    [AbstractPacketQueue] is the abstract class of
    src/packet/abstract_packet_queue.hh; every operation threads the clock of
    the process, which some queues read.  [FifoPacketQueue] states what the
    link relies on, and [LosslessPacketQueue] what holds when nothing is
    dropped.  The implementation here is [InfinitePacketQueue]
    (infinite_packet_queue.hh); the queues that drop have files of their own. *)
From Stdlib Require Import String Ascii.
From S2P Require Import Prelude Ezio Packets.

(** * Interface *)

Class AbstractPacketQueue (W Q : Type) := {
  enqueue : QueuedPacket -> Q -> W -> outcome (Q * W);
  dequeue : Q -> W -> outcome (QueuedPacket * Q * W);
  empty : Q -> bool;
  to_string : Q -> string;
  size_bytes : Q -> outcome Z;
  size_packets : Q -> outcome Z;
}.
Arguments to_string W {Q _} _.
Arguments empty W {Q _} _.
Arguments size_bytes W {Q _} _.
Arguments size_packets W {Q _} _.

(** Bytes of a list of packets. *)
Definition total_bytes (l : list QueuedPacket) : Z := zsum psize l.

(** The counters of a queue are C++ [int]s: there is room for [p] when neither
    overflows. *)
Definition room_for (l : list QueuedPacket) (p : QueuedPacket) : Prop :=
  len l + 1 < 2 ^ 31 /\ total_bytes l + psize p < 2 ^ 31.

#[export] Instance room_for_dec l p : Decision (room_for l p).
Proof. unfold room_for. apply _. Defined.

Class FifoPacketQueue (W Q : Type) `{AbstractPacketQueue W Q} := {
  packets : Q -> list QueuedPacket;
  queue_wf : Q -> Prop;
  empty_spec q : empty W q = true <-> packets q = [];
  dequeue_spec q w p l : queue_wf q -> packets q = p :: l ->
    exists q', dequeue q w = Ok (p, q', w) /\ packets q' = l /\ queue_wf q';
  enqueue_spec q w p : queue_wf q -> room_for (packets q) p ->
    exists q', enqueue p q w = Ok (q', w) /\ queue_wf q' /\ packets q' `sublist_of` packets q ++ [p];
}.

Class LosslessPacketQueue (W Q : Type) `{FifoPacketQueue W Q} :=
  enqueue_lossless q w p q' w' : queue_wf q -> room_for (packets q) p ->
    enqueue p q w = Ok (q', w') -> packets q' = packets q ++ [p].

Lemma total_bytes_nonneg l : 0 <= total_bytes l.
Proof. apply zsum_nonneg. apply psize_nonneg. Qed.

Lemma total_bytes_cons p l : total_bytes (p :: l) = psize p + total_bytes l.
Proof. done. Qed.

Lemma total_bytes_app l k : total_bytes (l ++ k) = total_bytes l + total_bytes k.
Proof. apply zsum_app. Qed.

Lemma total_bytes_snoc l p : total_bytes (l ++ [p]) = total_bytes l + psize p.
Proof. rewrite total_bytes_app, total_bytes_cons. change (total_bytes []) with 0. lia. Qed.

Lemma len_snoc {A} (l : list A) x : len (l ++ [x]) = len l + 1.
Proof. by rewrite len_app, len_cons, len_nil. Qed.

(** [x++] and [x--] on an [int]: overflow is undefined behaviour. *)
Definition int_incr (x : Z) : outcome Z :=
  if x =? 2 ^ 31 - 1 then Err (UndefinedBehaviour "signed overflow") else Ok (x + 1).
Definition int_decr (x : Z) : outcome Z :=
  if x =? - 2 ^ 31 then Err (UndefinedBehaviour "signed overflow") else Ok (x - 1).

(** [x += n] and [x -= n] with [x] an [int] and [n] a [size_t]: computed in
    [size_t], converted back. *)
Definition int_add_size (x n : Z) : Z := i32 (u64 (u64 x + n)).
Definition int_sub_size (x n : Z) : Z := i32 (u64 (u64 x - n)).

Lemma i32_mod z z' : z mod 2 ^ 32 = z' mod 2 ^ 32 -> i32 z = i32 z'.
Proof. intros H. unfold i32. by rewrite (Zplus_mod z), (Zplus_mod z'), H. Qed.

Lemma u64_mod32 z : u64 z mod 2 ^ 32 = z mod 2 ^ 32.
Proof. apply Z.mod_mod_divide. by exists (2 ^ 32). Qed.

Lemma i32_u64 z : i32 (u64 z) = i32 z.
Proof. apply i32_mod, u64_mod32. Qed.

Lemma int_add_size_i32 x n : int_add_size (i32 x) n = i32 (x + n).
Proof.
  unfold int_add_size. rewrite i32_u64. apply i32_mod.
  rewrite Zplus_mod, u64_mod32, <- Zplus_mod. unfold i32.
  rewrite <- Zplus_mod_idemp_l, Zminus_mod_idemp_l, Zplus_mod_idemp_l. f_equal. lia.
Qed.

Lemma int_sub_size_i32 x n : int_sub_size (i32 x) n = i32 (x - n).
Proof.
  replace (x - n) with (x + (- n)) by lia. rewrite <- int_add_size_i32.
  unfold int_sub_size, int_add_size. do 2 f_equal.
Qed.

Lemma int_add_size_small x n :
  - 2 ^ 31 <= x < 2 ^ 31 -> - 2 ^ 31 <= x + n < 2 ^ 31 -> int_add_size x n = x + n.
Proof. intros Hx Hn. rewrite <- (i32_small x) at 1 by done. by rewrite int_add_size_i32, i32_small. Qed.

Lemma int_sub_size_small x n :
  - 2 ^ 31 <= x < 2 ^ 31 -> - 2 ^ 31 <= x - n < 2 ^ 31 -> int_sub_size x n = x - n.
Proof. intros Hx Hn. rewrite <- (i32_small x) at 1 by done. by rewrite int_sub_size_i32, i32_small. Qed.

(** * InfinitePacketQueue *)

Record InfinitePacketQueue := {
  inf_internal_queue_ : list QueuedPacket;
  inf_queue_size_in_bytes_ : Z;
  inf_queue_size_in_packets_ : Z;
}.

Definition infinite_new (args : string) : outcome InfinitePacketQueue :=
  if String.eqb args ""
  then Ok {| inf_internal_queue_ := []; inf_queue_size_in_bytes_ := 0; inf_queue_size_in_packets_ := 0 |}
  else Err (Throw "InfinitePacketQueue does not take arguments.").

Definition infinite_enqueue (p : QueuedPacket) (q : InfinitePacketQueue) : outcome InfinitePacketQueue :=
  let* n := int_incr (inf_queue_size_in_packets_ q) in
  Ok {| inf_internal_queue_ := inf_internal_queue_ q ++ [p];
        inf_queue_size_in_bytes_ := int_add_size (inf_queue_size_in_bytes_ q) (psize p);
        inf_queue_size_in_packets_ := n |}.

Definition infinite_dequeue (q : InfinitePacketQueue) : outcome (QueuedPacket * InfinitePacketQueue) :=
  match inf_internal_queue_ q with
  | [] => Err (AssertFail "not internal_queue_.empty()")
  | ret :: rest =>
      let* n := int_decr (inf_queue_size_in_packets_ q) in
      Ok (ret, {| inf_internal_queue_ := rest;
                  inf_queue_size_in_bytes_ := int_sub_size (inf_queue_size_in_bytes_ q) (psize ret);
                  inf_queue_size_in_packets_ := n |})
  end.

Definition infinite_empty (q : InfinitePacketQueue) : bool :=
  match inf_internal_queue_ q with [] => true | _ => false end.

Definition infinite_to_string (q : InfinitePacketQueue) : string := "infinite".

(** [assert( n >= 0 ); return unsigned( n );] *)
Definition checked_unsigned (what : string) (n : Z) : outcome Z :=
  if 0 <=? n then Ok (u32 n) else Err (AssertFail what).

Definition infinite_size_bytes (q : InfinitePacketQueue) : outcome Z :=
  checked_unsigned "queue_size_in_bytes_ >= 0" (inf_queue_size_in_bytes_ q).
Definition infinite_size_packets (q : InfinitePacketQueue) : outcome Z :=
  checked_unsigned "queue_size_in_packets_ >= 0" (inf_queue_size_in_packets_ q).

#[export] Instance infinite_queue (W : Type) : AbstractPacketQueue W InfinitePacketQueue := {
  enqueue p q w := let* q := infinite_enqueue p q in Ok (q, w);
  dequeue q w := let* (p, q) := infinite_dequeue q in Ok (p, q, w);
  empty := infinite_empty;
  to_string := infinite_to_string;
  size_bytes := infinite_size_bytes;
  size_packets := infinite_size_packets;
}.

(** The byte counter follows the queue modulo [2 ^ 32]; nothing but
    [size_bytes] reads it. *)
Definition infinite_wf (q : InfinitePacketQueue) : Prop :=
  inf_queue_size_in_packets_ q = len (inf_internal_queue_ q) /\
  inf_queue_size_in_bytes_ q = i32 (total_bytes (inf_internal_queue_ q)) /\
  len (inf_internal_queue_ q) < 2 ^ 31.

Lemma int_incr_Ok n : n + 1 < 2 ^ 31 -> int_incr n = Ok (n + 1).
Proof. intros H. unfold int_incr. destruct (Z.eqb_spec n (2 ^ 31 - 1)); (done || lia). Qed.

Lemma int_decr_Ok n : 0 < n -> int_decr n = Ok (n - 1).
Proof. intros H. unfold int_decr. destruct (Z.eqb_spec n (- 2 ^ 31)); (done || lia). Qed.

Lemma infinite_empty_spec q : infinite_empty q = true <-> inf_internal_queue_ q = [].
Proof. unfold infinite_empty. by destruct (inf_internal_queue_ q). Qed.

Lemma infinite_dequeue_spec q p l : infinite_wf q -> inf_internal_queue_ q = p :: l ->
  exists q', infinite_dequeue q = Ok (p, q') /\ inf_internal_queue_ q' = l /\ infinite_wf q'.
Proof.
  intros (Hn & Hb & Hl) E. unfold infinite_dequeue. rewrite E in *. rewrite len_cons in *.
  pose proof (len_nonneg l). rewrite int_decr_Ok by lia. simpl. eexists. split; [done|]. split; [done|].
  unfold infinite_wf. simpl. rewrite Hb, Hn, int_sub_size_i32, total_bytes_cons.
  split; [lia|]. split; [|lia]. f_equal. lia.
Qed.

Lemma infinite_enqueue_spec q p : infinite_wf q -> room_for (inf_internal_queue_ q) p ->
  exists q', infinite_enqueue p q = Ok q' /\ infinite_wf q' /\
    inf_internal_queue_ q' = inf_internal_queue_ q ++ [p].
Proof.
  intros (Hn & Hb & Hl) [Hr _]. unfold infinite_enqueue. rewrite int_incr_Ok by lia. simpl.
  eexists. split; [done|]. split; [|done]. unfold infinite_wf. simpl.
  rewrite len_snoc, Hn, Hb, int_add_size_i32, total_bytes_snoc. done.
Qed.

#[export] Program Instance infinite_fifo (W : Type) : FifoPacketQueue W InfinitePacketQueue := {
  packets := inf_internal_queue_;
  queue_wf := infinite_wf;
  empty_spec := infinite_empty_spec;
}.
Next Obligation.
  intros W q w p l Hwf E. simpl. destruct (infinite_dequeue_spec q p l) as (q' & -> & H); [done..|]. simpl. eauto.
Qed.
Next Obligation.
  intros W q w p Hwf Hr. simpl. destruct (infinite_enqueue_spec q p) as (q' & -> & H & E); [done..|]. simpl.
  exists q'. by rewrite E.
Qed.

#[export] Instance infinite_lossless (W : Type) : LosslessPacketQueue W InfinitePacketQueue.
Proof.
  intros q w p q' w' Hwf Hr E. simpl in *.
  destruct (infinite_enqueue_spec q p) as (q'' & E' & _ & H); [done..|]. rewrite E' in E. simpl in E. by simplify_eq.
Qed.

(** * Runs of a queue against a list

    A client enqueues at will and dequeues only from a nonempty queue, as
    [CellularQueue::rationalize] does.  The reference is a list of packets and
    a function [offer] that says what an enqueue makes of it. *)

Inductive queue_op :=
| Enqueue (p : QueuedPacket)
| Dequeue.

Fixpoint spec_run (offer : list QueuedPacket -> QueuedPacket -> list QueuedPacket)
    (ops : list queue_op) (l : list QueuedPacket) : list QueuedPacket * list QueuedPacket :=
  match ops with
  | [] => ([], l)
  | Enqueue p :: ops => spec_run offer ops (offer l p)
  | Dequeue :: ops =>
      match l with
      | [] => spec_run offer ops l
      | p :: l => let '(out, l') := spec_run offer ops l in (p :: out, l')
      end
  end.

Fixpoint queue_run {W Q} `{AbstractPacketQueue W Q} (ops : list queue_op) (q : Q) (w : W) :
    outcome (list QueuedPacket * Q * W) :=
  match ops with
  | [] => Ok ([], q, w)
  | Enqueue p :: ops => let* (q, w) := enqueue p q w in queue_run ops q w
  | Dequeue :: ops =>
      if empty W q then queue_run ops q w
      else
        let* (p, q, w) := dequeue q w in
        let* (out, q, w) := queue_run ops q w in
        Ok (p :: out, q, w)
  end.

(** All the packets a run offers. *)
Fixpoint offered (ops : list queue_op) : list QueuedPacket :=
  match ops with
  | [] => []
  | Enqueue p :: ops => p :: offered ops
  | Dequeue :: ops => offered ops
  end.

(** No counter can overflow during the run. *)
Definition run_room (ops : list queue_op) (l : list QueuedPacket) : Prop :=
  len l + len (offered ops) < 2 ^ 31 /\ total_bytes l + total_bytes (offered ops) < 2 ^ 31.

#[export] Instance run_room_dec ops l : Decision (run_room ops l).
Proof. unfold run_room. apply _. Defined.

Lemma sublist_total_bytes l k : l `sublist_of` k -> total_bytes l <= total_bytes k.
Proof.
  induction 1 as [|p l k _ IH|p l k _ IH]; [done| |]; rewrite !total_bytes_cons; [lia|].
  pose proof (psize_nonneg p). lia.
Qed.

Lemma sublist_len {A} (l k : list A) : l `sublist_of` k -> len l <= len k.
Proof. intros H%sublist_length. unfold len. lia. Qed.

Lemma room_for_sublist l k p : l `sublist_of` k -> room_for k p -> room_for l p.
Proof.
  intros H [H1 H2]. pose proof (sublist_len _ _ H). pose proof (sublist_total_bytes _ _ H).
  split; lia.
Qed.

Section Refinement.
Context {W Q : Type} {apq : AbstractPacketQueue W Q} {fpq : FifoPacketQueue W Q}.
Variable offer : Q -> list QueuedPacket -> QueuedPacket -> list QueuedPacket.
Hypothesis offer_enqueue : forall q w p, queue_wf q -> room_for (packets q) p ->
  exists q', enqueue p q w = Ok (q', w) /\ queue_wf q' /\ packets q' = offer q (packets q) p /\
    offer q' = offer q.
Hypothesis offer_sublist : forall q l p, offer q l p `sublist_of` l ++ [p].
Hypothesis offer_dequeue : forall q w p q' w', queue_wf q -> dequeue q w = Ok (p, q', w') -> offer q' = offer q.

Lemma queue_run_refines ops : forall q w,
  queue_wf q -> run_room ops (packets q) ->
  exists out q', queue_run ops q w = Ok (out, q', w) /\ queue_wf q' /\
    (out, packets q') = spec_run (offer q) ops (packets q).
Proof.
  induction ops as [|[p|] ops IH]; intros q w Hwf Hroom.
  - by exists [], q.
  - unfold run_room in Hroom. cbn [offered] in Hroom. rewrite len_cons, total_bytes_cons in Hroom.
    pose proof (len_nonneg (offered ops)). pose proof (total_bytes_nonneg (offered ops)).
    destruct (offer_enqueue q w p) as (q' & E & Hwf' & Hp & Ho); [done|split; lia|].
    cbn [queue_run spec_run]. rewrite E. cbn [bind].
    pose proof (sublist_len _ _ (offer_sublist q (packets q) p)) as Hl.
    pose proof (sublist_total_bytes _ _ (offer_sublist q (packets q) p)) as Hb.
    rewrite len_snoc in Hl. rewrite total_bytes_snoc in Hb.
    rewrite <- Hp, <- Ho. apply IH; [done|]. rewrite <- Hp in *. split; lia.
  - cbn [queue_run spec_run]. destruct (empty W q) eqn:E.
    + apply empty_spec in E. rewrite E. rewrite <- E. apply IH; done.
    + destruct (packets q) as [|p l] eqn:Ep; [apply empty_spec in Ep; congruence|].
      destruct (dequeue_spec q w p l) as (q' & Ed & El & Hwf'); [done..|].
      rewrite Ed. cbn [bind]. rewrite <- (offer_dequeue _ _ _ _ _ Hwf Ed), <- El.
      destruct (IH q' w) as (out & q'' & -> & Hwf'' & Hs); [done| |].
      { unfold run_room in *. cbn [offered] in Hroom. rewrite El. rewrite len_cons, total_bytes_cons in Hroom.
        pose proof (psize_nonneg p). lia. }
      rewrite <- Hs. cbn [bind]. by exists (p :: out), q''.
Qed.
End Refinement.
