(* ===== verification/DroppingQueue.v ===== *)
(** [DroppingPacketQueue] and its subclasses [DropTailPacketQueue] and
    [DropHeadPacketQueue]: src/packet/dropping_packet_queue.hh/.cc,
    drop_tail_packet_queue.hh and drop_head_packet_queue.hh, with the parsing
    of the queue arguments. *)
From Stdlib Require Import String Ascii.
From S2P Require Import Prelude Ezio Packets PacketQueue.

(** * State *)

Record DroppingPacketQueue := {
  queue_size_in_bytes_ : Z;
  queue_size_in_packets_ : Z;
  internal_queue_ : list QueuedPacket;
  packet_limit_ : Z;
  byte_limit_ : Z;
}.

#[export] Instance eta_Dropping : Eta DroppingPacketQueue := fun q =>
  {| queue_size_in_bytes_ := queue_size_in_bytes_ q; queue_size_in_packets_ := queue_size_in_packets_ q;
     internal_queue_ := internal_queue_ q; packet_limit_ := packet_limit_ q; byte_limit_ := byte_limit_ q |}.

(** * Queue arguments *)

Fixpoint sdrop (n : nat) (s : string) : string :=
  match n, s with
  | O, _ => s
  | S n, String _ s => sdrop n s
  | S _, EmptyString => EmptyString
  end.

(** [s.substr( 0, s.find_first_not_of( "0123456789" ) )] *)
Fixpoint leading_digits (s : string) : string :=
  match s with
  | String c s' => if isdigit c then String c (leading_digits s') else EmptyString
  | EmptyString => EmptyString
  end.

Definition get_arg (args name : string) : outcome Z :=
  match String.index 0 name args with
  | None => Ok 0 (* default value *)
  | Some offset =>
      (* advance by length of name *)
      let offset := (offset + String.length name)%nat in
      (* make sure next char is "=" *)
      if negb (String.eqb (substring 0 1 (sdrop offset args)) "=")
      then Err (Throw ("could not parse queue arguments: " +:+ args))
      else
        (* advance by length of "=" *)
        let offset := S offset in
        let digit_string := leading_digits (sdrop offset args) in
        if String.eqb digit_string ""
        then Err (Throw ("could not parse queue arguments: " +:+ args))
        else let* v := myatoi digit_string in Ok (u32 v)
  end.

(** The members are initialised in the order of their declaration. *)
Definition dropping_new (args : string) : outcome DroppingPacketQueue :=
  let* packet_limit := get_arg args "packets" in
  let* byte_limit := get_arg args "bytes" in
  if (packet_limit =? 0) && (byte_limit =? 0)
  then Err (Throw "Dropping queue must have a byte or packet limit.")
  else Ok {| queue_size_in_bytes_ := 0; queue_size_in_packets_ := 0; internal_queue_ := [];
             packet_limit_ := packet_limit; byte_limit_ := byte_limit |}.

(** * Operations *)

Definition dropping_size_bytes (q : DroppingPacketQueue) : outcome Z :=
  checked_unsigned "queue_size_in_bytes_ >= 0" (queue_size_in_bytes_ q).

Definition dropping_size_packets (q : DroppingPacketQueue) : outcome Z :=
  checked_unsigned "queue_size_in_packets_ >= 0" (queue_size_in_packets_ q).

Definition good_with (q : DroppingPacketQueue) (size_in_bytes size_in_packets : Z) : bool :=
  let ret := true in
  let ret := if negb (byte_limit_ q =? 0) then ret && (size_in_bytes <=? byte_limit_ q) else ret in
  let ret := if negb (packet_limit_ q =? 0) then ret && (size_in_packets <=? packet_limit_ q) else ret in
  ret.

Definition good (q : DroppingPacketQueue) : outcome bool :=
  let* b := dropping_size_bytes q in
  let* n := dropping_size_packets q in
  Ok (good_with q b n).

Definition assert_good (q : DroppingPacketQueue) : outcome DroppingPacketQueue :=
  let* g := good q in
  if g then Ok q else Err (AssertFail "good()").

Definition dropping_empty (q : DroppingPacketQueue) : bool :=
  match internal_queue_ q with [] => true | _ => false end.

Definition dropping_dequeue (q : DroppingPacketQueue) : outcome (QueuedPacket * DroppingPacketQueue) :=
  match internal_queue_ q with
  | [] => Err (AssertFail "not internal_queue_.empty()")
  | ret :: rest =>
      let* n := int_decr (queue_size_in_packets_ q) in
      let* q := assert_good
        (q <| internal_queue_ := rest |>
           <| queue_size_in_bytes_ := int_sub_size (queue_size_in_bytes_ q) (psize ret) |>
           <| queue_size_in_packets_ := n |>) in
      Ok (ret, q)
  end.

(** put a packet on the back of the queue *)
Definition accept (p : QueuedPacket) (q : DroppingPacketQueue) : outcome DroppingPacketQueue :=
  let* n := int_incr (queue_size_in_packets_ q) in
  Ok (q <| queue_size_in_bytes_ := int_add_size (queue_size_in_bytes_ q) (psize p) |>
        <| queue_size_in_packets_ := n |>
        <| internal_queue_ := internal_queue_ q ++ [p] |>).

Definition dropping_to_string (type : string) (q : DroppingPacketQueue) : string :=
  let ret := type +:+ " [" in
  let ret := if negb (byte_limit_ q =? 0)
    then ret +:+ ("bytes=" +:+ print_nonneg (byte_limit_ q)) else ret in
  let ret := if negb (packet_limit_ q =? 0)
    then (if negb (byte_limit_ q =? 0) then ret +:+ ", " else ret)
         +:+ ("packets=" +:+ print_nonneg (packet_limit_ q))
    else ret in
  ret +:+ "]".

(** good_with( size_bytes() + p.contents.size(), size_packets() + 1 ) *)
Definition good_with_packet (p : QueuedPacket) (q : DroppingPacketQueue) : outcome bool :=
  let* b := dropping_size_bytes q in
  let* n := dropping_size_packets q in
  Ok (good_with q (u32 (u64 (b + psize p))) (u32 (n + 1))).

(** [DropTailPacketQueue::enqueue] *)
Definition drop_tail_enqueue (p : QueuedPacket) (q : DroppingPacketQueue) : outcome DroppingPacketQueue :=
  let* g := good_with_packet p q in
  let* q := if g then accept p q else Ok q in
  assert_good q.

(** while ( not good() ) { dequeue(); } *)
Fixpoint drop_until_good (fuel : nat) (q : DroppingPacketQueue) : outcome DroppingPacketQueue :=
  match fuel with
  | O => Err Diverges
  | S fuel =>
      let* g := good q in
      if g then Ok q
      else let* (_, q) := dropping_dequeue q in drop_until_good fuel q
  end.

(** [DropHeadPacketQueue::enqueue]: always accept the packet, then drop from
    the head. *)
Definition drop_head_enqueue (p : QueuedPacket) (q : DroppingPacketQueue) : outcome DroppingPacketQueue :=
  let* q := accept p q in
  drop_until_good (S (length (internal_queue_ q))) q.

(** * Well-formedness *)

(** The limits hold of a list of packets; a limit of 0 is no limit. *)
Definition within (byte_limit packet_limit : Z) (l : list QueuedPacket) : Prop :=
  (byte_limit <> 0 -> total_bytes l <= byte_limit) /\
  (packet_limit <> 0 -> len l <= packet_limit).

#[export] Instance within_dec b n l : Decision (within b n l).
Proof. unfold within. apply _. Defined.

Abbreviation fits q l := (within (byte_limit_ q) (packet_limit_ q) l).

(** The counters are those of the queue, and no [int] has overflowed. *)
Definition counted (q : DroppingPacketQueue) : Prop :=
  queue_size_in_bytes_ q = total_bytes (internal_queue_ q) /\
  queue_size_in_packets_ q = len (internal_queue_ q) /\
  total_bytes (internal_queue_ q) < 2 ^ 31 /\ len (internal_queue_ q) < 2 ^ 31.

Definition dropping_wf (q : DroppingPacketQueue) : Prop :=
  counted q /\ fits q (internal_queue_ q).

#[export] Instance dropping_wf_dec q : Decision (dropping_wf q).
Proof. unfold dropping_wf, counted. apply _. Defined.

Definition same_limits (q q' : DroppingPacketQueue) : Prop :=
  packet_limit_ q' = packet_limit_ q /\ byte_limit_ q' = byte_limit_ q.

Lemma fits_same_limits q q' l : same_limits q q' -> fits q' l <-> fits q l.
Proof. unfold same_limits. intros [-> ->]. done. Qed.

Lemma good_with_fits q l : good_with q (total_bytes l) (len l) = bool_decide (fits q l).
Proof.
  unfold good_with, within. case_Zbool; simpl; case_Zbool; simpl; symmetry;
    first [apply bool_decide_eq_true_2; split; intros; lia | apply bool_decide_eq_false_2; intros []; lia].
Qed.

Lemma checked_unsigned_Ok what n : 0 <= n < 2 ^ 31 -> checked_unsigned what n = Ok n.
Proof.
  intros H. unfold checked_unsigned. destruct (Z.leb_spec 0 n); [|lia]. rewrite u32_small; (done || lia).
Qed.

Lemma counted_good q : counted q -> good q = Ok (bool_decide (fits q (internal_queue_ q))).
Proof.
  intros (Hb & Hn & Hb' & Hn'). unfold good, dropping_size_bytes, dropping_size_packets.
  pose proof (total_bytes_nonneg (internal_queue_ q)). pose proof (len_nonneg (internal_queue_ q)).
  rewrite Hb, Hn, !checked_unsigned_Ok by done. simpl. by rewrite good_with_fits.
Qed.

Lemma accept_Ok p q : counted q -> room_for (internal_queue_ q) p ->
  exists q', accept p q = Ok q' /\ counted q' /\ same_limits q q' /\
    internal_queue_ q' = internal_queue_ q ++ [p].
Proof.
  intros (Hb & Hn & Hb' & Hn') [Hr1 Hr2]. unfold accept. rewrite Hn, int_incr_Ok by done. simpl.
  eexists. split; [done|]. split; [|by split].
  pose proof (total_bytes_nonneg (internal_queue_ q)). pose proof (psize_nonneg p).
  unfold counted. simpl. rewrite total_bytes_snoc, len_snoc, Hb, int_add_size_small by lia. lia.
Qed.

Lemma counted_tail q p l : counted q -> internal_queue_ q = p :: l ->
  exists q', counted q' /\ same_limits q q' /\ internal_queue_ q' = l /\
    dropping_dequeue q = (if bool_decide (fits q l) then Ok (p, q') else Err (AssertFail "good()")).
Proof.
  intros (Hb & Hn & Hb' & Hn') E. unfold dropping_dequeue. rewrite E in *.
  rewrite total_bytes_cons, len_cons in *.
  pose proof (total_bytes_nonneg l). pose proof (psize_nonneg p). pose proof (len_nonneg l).
  rewrite Hn, int_decr_Ok by lia. cbn [bind].
  set (q' := q <| internal_queue_ := l |> <| queue_size_in_bytes_ := _ |> <| queue_size_in_packets_ := _ |>).
  assert (Hq' : counted q').
  { unfold counted, q'. simpl. rewrite Hb, int_sub_size_small by lia. lia. }
  exists q'. split; [done|]. split; [done|]. split; [done|].
  unfold assert_good. rewrite counted_good by done. cbn [bind].
  rewrite (bool_decide_ext (fits q' l) (fits q l)) by done. by destruct (bool_decide _).
Qed.

Lemma fits_nil q : 0 <= byte_limit_ q -> 0 <= packet_limit_ q -> fits q [].
Proof. unfold within. change (total_bytes []) with 0. change (@len QueuedPacket []) with 0. lia. Qed.

Lemma fits_tail q p l : fits q (p :: l) -> fits q l.
Proof.
  unfold within. rewrite total_bytes_cons, len_cons. pose proof (psize_nonneg p). lia.
Qed.

Lemma dropping_dequeue_spec q p l : dropping_wf q -> internal_queue_ q = p :: l ->
  exists q', dropping_dequeue q = Ok (p, q') /\ internal_queue_ q' = l /\ dropping_wf q' /\ same_limits q q'.
Proof.
  intros [Hc Hf] E. destruct (counted_tail q p l) as (q' & Hc' & Hl & E' & ->); [done..|].
  rewrite E in Hf. apply fits_tail in Hf. rewrite bool_decide_eq_true_2 by done.
  exists q'. split; [done|]. split; [done|]. split; [|done]. split; [done|].
  rewrite E'. by rewrite fits_same_limits.
Qed.

Lemma dropping_empty_spec q : dropping_empty q = true <-> internal_queue_ q = [].
Proof. unfold dropping_empty. by destruct (internal_queue_ q). Qed.

Lemma assert_good_spec q : counted q ->
  assert_good q = (if bool_decide (fits q (internal_queue_ q)) then Ok q else Err (AssertFail "good()")).
Proof. intros H. unfold assert_good. rewrite counted_good by done. done. Qed.

Lemma assert_good_Ok q : counted q -> fits q (internal_queue_ q) -> assert_good q = Ok q.
Proof. intros Hc Hf. rewrite assert_good_spec by exact Hc. by rewrite bool_decide_eq_true_2 by exact Hf. Qed.

Lemma dropping_wf_step q q' l :
  counted q' -> same_limits q q' -> internal_queue_ q' = l -> fits q l -> dropping_wf q'.
Proof. intros Hc Hs E Hf. split; [exact Hc|]. rewrite E. by apply (fits_same_limits q q' l Hs). Qed.

Lemma dropping_wf_assert q : dropping_wf q -> assert_good q = Ok q.
Proof. intros [Hc Hf]. by apply assert_good_Ok. Qed.

(** * DropTailPacketQueue *)

Lemma good_with_packet_spec p q : counted q -> room_for (internal_queue_ q) p ->
  good_with_packet p q = Ok (bool_decide (fits q (internal_queue_ q ++ [p]))).
Proof.
  intros (Hb & Hn & Hb' & Hn') [Hr1 Hr2]. unfold good_with_packet, dropping_size_bytes, dropping_size_packets.
  pose proof (total_bytes_nonneg (internal_queue_ q)). pose proof (len_nonneg (internal_queue_ q)).
  pose proof (psize_nonneg p).
  rewrite Hb, Hn, !checked_unsigned_Ok by done. cbn [bind]. rewrite u64_small, !u32_small by lia.
  by rewrite <- good_with_fits, total_bytes_snoc, len_snoc.
Qed.

(** What an enqueue makes of the packets when they are dropped at the tail, and
    when they are dropped from the head. *)
Definition tail_offer (byte_limit packet_limit : Z) (l : list QueuedPacket) (p : QueuedPacket) : list QueuedPacket :=
  if bool_decide (within byte_limit packet_limit (l ++ [p])) then l ++ [p] else l.

Definition head_offer (byte_limit packet_limit : Z) (l : list QueuedPacket) (p : QueuedPacket) : list QueuedPacket :=
  if bool_decide (within byte_limit packet_limit (l ++ [p])) then l ++ [p] else tail (l ++ [p]).

Abbreviation tail_offer_of q := (tail_offer (byte_limit_ q) (packet_limit_ q)).
Abbreviation head_offer_of q := (head_offer (byte_limit_ q) (packet_limit_ q)).

Lemma drop_tail_cases p q : dropping_wf q -> room_for (internal_queue_ q) p ->
  exists q', drop_tail_enqueue p q = Ok q' /\ dropping_wf q' /\ same_limits q q' /\
    internal_queue_ q' = tail_offer_of q (internal_queue_ q) p.
Proof.
  intros [Hc Hf] Hr. unfold drop_tail_enqueue, tail_offer. rewrite good_with_packet_spec by done. cbn [bind].
  destruct (bool_decide (fits q (internal_queue_ q ++ [p]))) eqn:E.
  - apply bool_decide_eq_true_1 in E. destruct (accept_Ok p q) as (q' & -> & Hc' & Hl & E'); [done..|].
    assert (dropping_wf q') by (eapply dropping_wf_step; eassumption).
    cbn [bind]. rewrite dropping_wf_assert by assumption. by exists q'.
  - cbn [bind]. rewrite dropping_wf_assert by done. by exists q.
Qed.

(** * DropHeadPacketQueue *)

(** What the enqueue does on every queue: it succeeds when nothing or one
    packet has to go, and otherwise the assertion of [dequeue] fails, because
    that assertion does not let the loop drop a second packet. *)
Lemma drop_head_cases p q : dropping_wf q -> room_for (internal_queue_ q) p ->
  let l := internal_queue_ q ++ [p] in
  if bool_decide (fits q (head_offer_of q (internal_queue_ q) p))
  then exists q', drop_head_enqueue p q = Ok q' /\ dropping_wf q' /\ same_limits q q' /\
         internal_queue_ q' = head_offer_of q (internal_queue_ q) p
  else drop_head_enqueue p q = Err (AssertFail "good()").
Proof.
  intros [Hc Hf] Hr l. unfold drop_head_enqueue, head_offer. fold l.
  destruct (accept_Ok p q) as (q' & -> & Hc' & Hl & E'); [done..|]. fold l in E'. cbn [bind].
  assert (Hfit : forall k, bool_decide (fits q' k) = bool_decide (fits q k)).
  { intros k. apply bool_decide_ext. by apply fits_same_limits. }
  cbn [drop_until_good]. rewrite counted_good, E', Hfit by done. cbn [bind].
  destruct (bool_decide (fits q l)) eqn:Efit.
  - rewrite Efit. apply bool_decide_eq_true_1 in Efit. exists q'.
    split; [done|]. split; [|done]. by eapply dropping_wf_step.
  - destruct l as [|x l'] eqn:El; [by destruct (internal_queue_ q)|]. cbn [tail].
    destruct (counted_tail q' x l') as (q'' & Hc'' & Hl'' & E'' & ->); [done..|]. rewrite Hfit.
    destruct (bool_decide (fits q l')) eqn:Efit'; [|done]. cbn [bind].
    assert (Hs : same_limits q q'') by (unfold same_limits in *; intuition congruence).
    assert (Hwf : dropping_wf q'') by (eapply dropping_wf_step; [done..|]; by apply bool_decide_eq_true_1 in Efit').
    cbn [length drop_until_good]. rewrite counted_good by done. cbn [bind].
    rewrite bool_decide_eq_true_2 by apply Hwf. by exists q''.
Qed.

(** With a packet limit alone, dropping one packet is always enough. *)
Lemma head_offer_fits n l p : 0 <= n -> within 0 n l -> within 0 n (head_offer 0 n l p).
Proof.
  intros Hp Hf. unfold head_offer. case_bool_decide as Efit; [done|].
  split; [lia|]. intros Hn. destruct Hf as [_ Hf]. specialize (Hf Hn).
  destruct l as [|x l]; [simpl; rewrite len_nil; lia|]. simpl. rewrite len_snoc. by rewrite len_cons in Hf.
Qed.

(** * Instances *)

Record DropTailPacketQueue := { tail_queue : DroppingPacketQueue }.
Record DropHeadPacketQueue := { head_queue : DroppingPacketQueue }.

Definition drop_tail_new (args : string) : outcome DropTailPacketQueue :=
  let* q := dropping_new args in Ok {| tail_queue := q |}.
Definition drop_head_new (args : string) : outcome DropHeadPacketQueue :=
  let* q := dropping_new args in Ok {| head_queue := q |}.

#[export] Instance drop_tail_class (W : Type) : AbstractPacketQueue W DropTailPacketQueue := {
  enqueue p q w := let* q := drop_tail_enqueue p (tail_queue q) in Ok ({| tail_queue := q |}, w);
  dequeue q w := let* (p, q) := dropping_dequeue (tail_queue q) in Ok (p, {| tail_queue := q |}, w);
  empty q := dropping_empty (tail_queue q);
  to_string q := dropping_to_string "droptail" (tail_queue q);
  size_bytes q := dropping_size_bytes (tail_queue q);
  size_packets q := dropping_size_packets (tail_queue q);
}.

#[export] Instance drop_head_class (W : Type) : AbstractPacketQueue W DropHeadPacketQueue := {
  enqueue p q w := let* q := drop_head_enqueue p (head_queue q) in Ok ({| head_queue := q |}, w);
  dequeue q w := let* (p, q) := dropping_dequeue (head_queue q) in Ok (p, {| head_queue := q |}, w);
  empty q := dropping_empty (head_queue q);
  to_string q := dropping_to_string "drophead" (head_queue q);
  size_bytes q := dropping_size_bytes (head_queue q);
  size_packets q := dropping_size_packets (head_queue q);
}.

Definition drop_head_wf (q : DropHeadPacketQueue) : Prop :=
  dropping_wf (head_queue q) /\ byte_limit_ (head_queue q) = 0 /\ 0 <= packet_limit_ (head_queue q).

#[export] Instance drop_head_wf_dec q : Decision (drop_head_wf q).
Proof. unfold drop_head_wf. apply _. Defined.

Lemma tail_offer_sublist b n l p : tail_offer b n l p `sublist_of` l ++ [p].
Proof. unfold tail_offer. case_bool_decide; [done|]. by apply sublist_inserts_r. Qed.

Lemma head_offer_sublist b n l p : head_offer b n l p `sublist_of` l ++ [p].
Proof.
  unfold head_offer. case_bool_decide; [done|]. destruct (l ++ [p]); [done|]. simpl. by apply sublist_cons.
Qed.

#[export] Program Instance drop_tail_fifo (W : Type) : FifoPacketQueue W DropTailPacketQueue := {
  packets q := internal_queue_ (tail_queue q);
  queue_wf q := dropping_wf (tail_queue q);
}.
Next Obligation. intros W q. apply dropping_empty_spec. Qed.
Next Obligation.
  intros W q w p l Hwf E. simpl. destruct (dropping_dequeue_spec (tail_queue q) p l) as (q' & -> & Hl & Hwf' & _); [done..|].
  by exists {| tail_queue := q' |}.
Qed.
Next Obligation.
  intros W q w p Hwf Hr. simpl. destruct (drop_tail_cases p (tail_queue q)) as (q' & -> & Hwf' & _ & E); [done..|].
  exists {| tail_queue := q' |}. simpl. rewrite E. split; [done|]. split; [done|]. apply tail_offer_sublist.
Qed.

Lemma drop_head_enqueue_Ok p q : drop_head_wf q -> room_for (internal_queue_ (head_queue q)) p ->
  exists q', drop_head_enqueue p (head_queue q) = Ok q' /\ drop_head_wf {| head_queue := q' |} /\
    same_limits (head_queue q) q' /\
    internal_queue_ q' = head_offer_of (head_queue q) (internal_queue_ (head_queue q)) p.
Proof.
  intros (Hwf & Hb & Hp) Hr. pose proof (drop_head_cases p (head_queue q) Hwf Hr) as H. simpl in H.
  rewrite Hb in *. rewrite bool_decide_eq_true_2 in H
    by (apply head_offer_fits; [done|]; rewrite <- Hb; apply Hwf).
  destruct H as (q' & E & Hwf' & [Hs1 Hs2] & E'). exists q'. unfold drop_head_wf. simpl. by rewrite Hs1, Hs2.
Qed.

#[export] Program Instance drop_head_fifo (W : Type) : FifoPacketQueue W DropHeadPacketQueue := {
  packets q := internal_queue_ (head_queue q);
  queue_wf := drop_head_wf;
}.
Next Obligation. intros W q. apply dropping_empty_spec. Qed.
Next Obligation.
  intros W q w p l (Hwf & Hb & Hp) E. simpl.
  destruct (dropping_dequeue_spec (head_queue q) p l) as (q' & -> & Hl & Hwf' & [Hs1 Hs2]); [done..|].
  exists {| head_queue := q' |}. unfold drop_head_wf. simpl. by rewrite Hs1, Hs2.
Qed.
Next Obligation.
  intros W q w p Hwf Hr. simpl. destruct (drop_head_enqueue_Ok p q) as (q' & -> & Hwf' & _ & E); [done..|].
  exists {| head_queue := q' |}. simpl. rewrite E. split; [done|]. split; [done|]. apply head_offer_sublist.
Qed.

(** * Queue arguments: what [to_string] prints, [get_arg] reads *)

Lemma sdrop_app s t n : sdrop (String.length s + n) (s +:+ t) = sdrop n t.
Proof. by induction s. Qed.

Lemma leading_digits_app s t : all_digits s = true ->
  leading_digits (s +:+ t) = s +:+ leading_digits t.
Proof.
  induction s as [|c s IH]; [done|]. simpl. intros [Hc Hs]%andb_prop.
  rewrite !string_app_cons. simpl. by rewrite Hc, IH.
Qed.

(** [name] cannot start inside [pre], whatever follows [pre]. *)
Fixpoint mismatch (name pre : string) : bool :=
  match name, pre with
  | String a name', String c pre' => negb (Ascii.eqb a c) || mismatch name' pre'
  | _, _ => false
  end.

Fixpoint clear_of (name pre : string) : bool :=
  match pre with
  | String c pre' => mismatch name pre && clear_of name pre'
  | EmptyString => true
  end.

Lemma mismatch_prefix name pre t : mismatch name pre = true -> String.prefix name (pre +:+ t) = false.
Proof.
  revert pre. induction name as [|a name IH]; intros [|c pre]; [done..|]. rewrite string_app_cons. simpl.
  intros [H|H]%orb_prop; destruct (ascii_dec a c) as [->|Hne]; try done.
  - by rewrite Ascii.eqb_refl in H.
  - by apply IH.
Qed.

Lemma index_clear name pre t : clear_of name pre = true -> name <> "" ->
  String.index 0 name (pre +:+ t) = option_map (fun n => String.length pre + n)%nat (String.index 0 name t).
Proof.
  intros Hc Hn. induction pre as [|c pre IH].
  - change ("" +:+ t) with t. destruct (index 0 name t); done.
  - simpl in Hc. apply andb_prop in Hc as [Hm Hc]. specialize (IH Hc).
    pose proof (mismatch_prefix _ _ t Hm) as Hp. rewrite string_app_cons in *. cbn [String.index].
    rewrite Hp, IH. by destruct (index 0 name t).
Qed.

Lemma digits_clear a name s : all_digits s = true -> isdigit a = false -> clear_of (String a name) s = true.
Proof.
  intros Hs Ha. induction s as [|c s IH]; [done|]. simpl in *. apply andb_prop in Hs as [Hc Hs].
  rewrite IH by done. destruct (Ascii.eqb_spec a c) as [->|]; [congruence|done].
Qed.

Lemma index_here name t : name <> "" -> String.index 0 name (name +:+ t) = Some O.
Proof.
  intros Hn. destruct name as [|a name]; [done|]. rewrite string_app_cons. cbn [String.index].
  assert (H : forall n, String.prefix n (n +:+ t) = true).
  { induction n as [|c n IH]; [by destruct t|]. rewrite string_app_cons. simpl. by destruct (ascii_dec c c). }
  specialize (H (String a name)). rewrite string_app_cons in H. by rewrite H.
Qed.

(** The value that follows [name=]. *)
Lemma get_arg_found pre name v rest :
  clear_of name pre = true -> name <> "" -> 0 <= v < 2 ^ 32 -> leading_digits rest = "" ->
  get_arg (pre +:+ (name +:+ String "=" (print_nonneg v +:+ rest))) name = Ok v.
Proof.
  intros Hc Hn Hv Hr. unfold get_arg. rewrite index_clear, index_here by done. cbn [option_map].
  rewrite Nat.add_0_r, sdrop_app.
  replace (S (String.length pre + String.length name)) with (String.length pre + (String.length name + 1))%nat by lia.
  rewrite sdrop_app, sdrop_app.
  replace (String.length name) with (String.length name + 0)%nat by lia. rewrite sdrop_app. cbn [sdrop substring].
  assert (substring 0 0 (print_nonneg v +:+ rest) = "") as -> by by destruct (print_nonneg v +:+ rest).
  rewrite leading_digits_app by apply print_nonneg_all. rewrite Hr, string_app_nil.
  destruct (String.eqb_spec (print_nonneg v) "") as [E|E]; [by apply print_nonneg_not_empty in E|].
  simpl. rewrite myatoi_print_nonneg by lia. simpl. by rewrite u32_small.
Qed.

Lemma get_arg_missing name pre digits : clear_of name pre = true -> name <> "" ->
  clear_of name digits = true -> String.index 0 name "]" = None ->
  get_arg (pre +:+ (digits +:+ "]")) name = Ok 0.
Proof. intros H1 H2 H3 H4. unfold get_arg. rewrite index_clear, index_clear, H4 by done. done. Qed.

(** * Properties *)

(** A packet of [n] zero bytes, for concrete runs. *)
Definition sample_packet (seq n : Z) : QueuedPacket :=
  QueuedPacket_make (repeat Byte.x00 (Z.to_nat n)) "" 0 0 seq 0.

Definition sample_queue (byte_limit packet_limit : Z) : DroppingPacketQueue :=
  {| queue_size_in_bytes_ := 0; queue_size_in_packets_ := 0; internal_queue_ := [];
     packet_limit_ := packet_limit; byte_limit_ := byte_limit |}.

(** C25: every run of a droptail queue is the run of a list that takes a packet
    when the limits allow it and refuses it otherwise: the same packets come
    out in the same order, no assertion fails, and the counters stay those of
    the queue. *)
Theorem drop_tail_refines_list {W : Type} (ops : list queue_op) (q : DropTailPacketQueue) (w : W) :
  dropping_wf (tail_queue q) ->
  run_room ops (internal_queue_ (tail_queue q)) ->
  exists out q', queue_run ops q w = Ok (out, q', w) /\ dropping_wf (tail_queue q') /\
    (out, internal_queue_ (tail_queue q')) =
    spec_run (tail_offer_of (tail_queue q)) ops (internal_queue_ (tail_queue q)).
Proof.
  refine (queue_run_refines (fpq := drop_tail_fifo W) (fun q => tail_offer_of (tail_queue q)) _ _ _ ops q w).
  - intros r v p Hwf Hr. simpl. destruct (drop_tail_cases p (tail_queue r)) as (r' & -> & Hwf' & [Hs1 Hs2] & E); [done..|].
    exists {| tail_queue := r' |}. simpl. by rewrite Hs1, Hs2.
  - intros r. apply tail_offer_sublist.
  - intros r v p r' v' Hwf E. simpl in *. destruct (internal_queue_ (tail_queue r)) as [|x l] eqn:Er.
    { by unfold dropping_dequeue in E; rewrite Er in E. }
    destruct (dropping_dequeue_spec (tail_queue r) x l) as (r'' & Ed & _ & _ & [Hs1 Hs2]); [done..|].
    rewrite Ed in E. simplify_eq/=. by rewrite Hs1, Hs2.
Qed.

Definition sample_ops : list queue_op :=
  [Enqueue (sample_packet 1 100); Enqueue (sample_packet 2 200); Enqueue (sample_packet 3 300); Dequeue; Dequeue].

Lemma drop_tail_refines_list_witness :
  exists out q', queue_run sample_ops {| tail_queue := sample_queue 0 2 |} tt = Ok (out, q', tt) /\
    dropping_wf (tail_queue q') /\
    (out, internal_queue_ (tail_queue q')) = spec_run (tail_offer 0 2) sample_ops [].
Proof.
  apply (drop_tail_refines_list sample_ops {| tail_queue := sample_queue 0 2 |} tt); by_computation.
Defined.

(** C26: the same for a drophead queue with a packet limit: each enqueue beyond
    the limit drops exactly the oldest packet. *)
Theorem drop_head_refines_list {W : Type} (ops : list queue_op) (q : DropHeadPacketQueue) (w : W) :
  drop_head_wf q ->
  run_room ops (internal_queue_ (head_queue q)) ->
  exists out q', queue_run ops q w = Ok (out, q', w) /\ drop_head_wf q' /\
    (out, internal_queue_ (head_queue q')) =
    spec_run (head_offer_of (head_queue q)) ops (internal_queue_ (head_queue q)).
Proof.
  refine (queue_run_refines (fpq := drop_head_fifo W) (fun q => head_offer_of (head_queue q)) _ _ _ ops q w).
  - intros r v p Hwf Hr. simpl. destruct (drop_head_enqueue_Ok p r) as (r' & -> & Hwf' & [Hs1 Hs2] & E); [done..|].
    exists {| head_queue := r' |}. simpl. by rewrite Hs1, Hs2.
  - intros r. apply head_offer_sublist.
  - intros r v p r' v' [Hwf _] E. simpl in *. destruct (internal_queue_ (head_queue r)) as [|x l] eqn:Er.
    { by unfold dropping_dequeue in E; rewrite Er in E. }
    destruct (dropping_dequeue_spec (head_queue r) x l) as (r'' & Ed & _ & _ & [Hs1 Hs2]); [done..|].
    rewrite Ed in E. simplify_eq/=. by rewrite Hs1, Hs2.
Qed.

Lemma drop_head_refines_list_witness :
  exists out q', queue_run sample_ops {| head_queue := sample_queue 0 2 |} tt = Ok (out, q', tt) /\
    drop_head_wf q' /\
    (out, internal_queue_ (head_queue q')) = spec_run (head_offer 0 2) sample_ops [].
Proof.
  apply (drop_head_refines_list sample_ops {| head_queue := sample_queue 0 2 |} tt); by_computation.
Defined.

(** C27: what a drophead enqueue does with any limits: it succeeds if dropping
    at most the oldest packet restores the limits, and otherwise the program
    aborts, in the assertion [good()] that [dequeue] makes after the first
    drop. *)
Theorem drop_head_enqueue_outcome (p : QueuedPacket) (q : DroppingPacketQueue) :
  dropping_wf q -> room_for (internal_queue_ q) p ->
  (fits q (head_offer_of q (internal_queue_ q) p) ->
     exists q', drop_head_enqueue p q = Ok q' /\ dropping_wf q' /\
       internal_queue_ q' = head_offer_of q (internal_queue_ q) p) /\
  (~ fits q (head_offer_of q (internal_queue_ q) p) ->
     drop_head_enqueue p q = Err (AssertFail "good()")).
Proof.
  intros Hwf Hr. pose proof (drop_head_cases p q Hwf Hr) as H. simpl in H.
  case_bool_decide as Hf; split; try done. intros _. destruct H as (q' & E & Hwf' & _ & Hq). by exists q'.
Qed.

(** A byte limit of 1500, 1500 bytes queued, and a packet of 1400 bytes. *)
Definition two_drops_needed : DroppingPacketQueue :=
  (sample_queue 1500 0) <| internal_queue_ := [sample_packet 0 100; sample_packet 1 1400] |>
    <| queue_size_in_bytes_ := 1500 |> <| queue_size_in_packets_ := 2 |>.

Lemma drop_head_enqueue_outcome_witness :
  drop_head_enqueue (sample_packet 2 1400) two_drops_needed = Err (AssertFail "good()").
Proof.
  destruct (drop_head_enqueue_outcome (sample_packet 2 1400) two_drops_needed) as [_ H];
    [by_computation..|].
  apply H. by_computation.
Defined.

Lemma print_clear a name n : isdigit a = false -> clear_of (String a name) (print_nonneg n) = true.
Proof. apply digits_clear, print_nonneg_all. Qed.

Lemma clear_of_app name s t : clear_of name s = true -> clear_of name t = true -> clear_of name (s +:+ t) = true.
Proof.
  assert (Hm : forall n s, mismatch n s = true -> mismatch n (s +:+ t) = true).
  { induction n as [|a n IH]; intros [|c s'] Hs; try done. rewrite string_app_cons. simpl in *.
    destruct (Ascii.eqb a c); simpl in *; [by apply IH|done]. }
  intros Hs Ht. induction s as [|c s IH]; [done|]. rewrite string_app_cons. simpl in *.
  apply andb_prop in Hs as [H1 H2]. specialize (Hm name (String c s) H1). rewrite string_app_cons in Hm.
  by rewrite Hm, IH.
Qed.

(** The arguments of a dropping queue survive printing: parsing what
    [to_string] shows of a droptail or drophead queue builds an empty queue
    with the same limits. *)
Theorem queue_arguments_roundtrip (kind : string) (q : DroppingPacketQueue) :
  kind = "droptail" \/ kind = "drophead" ->
  0 <= byte_limit_ q < 2 ^ 32 -> 0 <= packet_limit_ q < 2 ^ 32 ->
  byte_limit_ q <> 0 \/ packet_limit_ q <> 0 ->
  dropping_new (dropping_to_string kind q) = Ok (sample_queue (byte_limit_ q) (packet_limit_ q)).
Proof.
  intros Hkind Hb Hp Hne. unfold dropping_new, sample_queue.
  assert (Hk : clear_of "packets" (kind +:+ " [") = true /\ clear_of "bytes" (kind +:+ " [") = true /\
    clear_of "packets" (kind +:+ " [bytes=") = true /\ clear_of "bytes" (kind +:+ " [packets=") = true)
    by by destruct Hkind as [-> | ->].
  destruct Hk as (K1 & K2 & K3 & K4). unfold dropping_to_string.
  set (b := byte_limit_ q) in *. set (n := packet_limit_ q) in *.
  assert (D : forall a nm m, isdigit a = false -> clear_of (String a nm) (print_nonneg m) = true)
    by (intros; by apply print_clear).
  destruct (Z.eqb_spec b 0) as [Eb|Eb], (Z.eqb_spec n 0) as [En|En]; cbn [negb]; [lia| | |].
  - replace (_ +:+ "]") with ((kind +:+ " [") +:+ ("packets" +:+ String "=" (print_nonneg n +:+ "]")))
      by by rewrite !string_app_assoc.
    rewrite get_arg_found by done.
    replace ((kind +:+ " [") +:+ _) with ((kind +:+ " [packets=") +:+ (print_nonneg n +:+ "]"))
      by by rewrite !string_app_assoc.
    rewrite get_arg_missing by (try done; by apply D). cbn [bind].
    rewrite Eb. by rewrite (proj2 (Z.eqb_neq n 0)).
  - replace (_ +:+ "]") with ((kind +:+ " [bytes=") +:+ (print_nonneg b +:+ "]"))
      by by rewrite !string_app_assoc.
    rewrite get_arg_missing by (try done; by apply D).
    replace ((kind +:+ " [bytes=") +:+ _) with ((kind +:+ " [") +:+ ("bytes" +:+ String "=" (print_nonneg b +:+ "]")))
      by by rewrite !string_app_assoc.
    rewrite get_arg_found by done. cbn [bind]. rewrite En.
    by rewrite (proj2 (Z.eqb_neq b 0)).
  - replace (_ +:+ "]") with ((kind +:+ " [bytes=" +:+ print_nonneg b +:+ ", ") +:+
      ("packets" +:+ String "=" (print_nonneg n +:+ "]"))) by by rewrite !string_app_assoc.
    assert (K5 : clear_of "packets" (kind +:+ " [bytes=" +:+ print_nonneg b +:+ ", ") = true).
    { rewrite <- string_app_assoc. apply clear_of_app; [done|]. apply clear_of_app; [by apply D|done]. }
    rewrite get_arg_found by done.
    replace ((kind +:+ " [bytes=" +:+ _) +:+ _) with ((kind +:+ " [") +:+ ("bytes" +:+
      String "=" (print_nonneg b +:+ (", packets=" +:+ print_nonneg n +:+ "]")))) by by rewrite !string_app_assoc.
    rewrite get_arg_found by done. cbn [bind]. by rewrite (proj2 (Z.eqb_neq b 0)), (proj2 (Z.eqb_neq n 0)).
Qed.

Lemma queue_arguments_roundtrip_witness :
  dropping_new (dropping_to_string "droptail" (sample_queue 150000 100)) = Ok (sample_queue 150000 100).
Proof.
  apply (queue_arguments_roundtrip "droptail" (sample_queue 150000 100)); simpl; [by left|lia|lia|by left].
Defined.
