(* ===== verification/Codel.v ===== *)
(** [CODELPacketQueue]: src/packet/codel_packet_queue.hh/.cc.

    The controlled-delay queue makes its drop decisions when a packet is taken
    out.  [codel_dequeue_spec] shows what the drops come to: the packet at the
    head is always returned, and the packets dropped are those right behind
    it. *)
From S2P Require Import Prelude Floats Timestamp Packets PacketQueue DroppingQueue.
From Stdlib Require Import SpecFloat.

(** * State *)

Record CODELPacketQueue := {
  codel_queue : DroppingPacketQueue;
  target_ : Z;
  interval_ : Z;
  first_above_time_ : Z;
  drop_next_ : Z;
  count_ : Z;
  lastcount_ : Z;
  dropping_ : bool;
}.

#[export] Instance eta_Codel : Eta CODELPacketQueue := fun q =>
  {| codel_queue := codel_queue q; target_ := target_ q; interval_ := interval_ q;
     first_above_time_ := first_above_time_ q; drop_next_ := drop_next_ q; count_ := count_ q;
     lastcount_ := lastcount_ q; dropping_ := dropping_ q |}.

(** [CODELPacketQueue::PACKET_SIZE] *)
Definition CODEL_PACKET_SIZE : Z := 1504.

Definition codel_new (args : string) : outcome CODELPacketQueue :=
  let* q := dropping_new args in
  let* target := get_arg args "target" in
  let* interval := get_arg args "interval" in
  if (target =? 0) || (interval =? 0) then Err (Throw "CoDel queue must have target and interval arguments.")
  else Ok {| codel_queue := q; target_ := target; interval_ := interval; first_above_time_ := 0; drop_next_ := 0;
             count_ := 0; lastcount_ := 0; dropping_ := false |}.

(** * Operations *)

(** The packet and [ok_to_drop]. *)
Definition dodequeue (now : Z) (q : CODELPacketQueue) : outcome (QueuedPacket * bool * CODELPacketQueue) :=
  let* (p, d) := dropping_dequeue (codel_queue q) in
  let q := q <| codel_queue := d |> in
  if dropping_empty d then Ok (p, false, q <| first_above_time_ := 0 |>)
  else
    let sojourn_time := u64 (now - arrival_time p) in
    let* small :=
      if sojourn_time <? target_ q then Ok true
      else let* b := dropping_size_bytes d in Ok (b <=? CODEL_PACKET_SIZE) in
    if small : bool then Ok (p, false, q <| first_above_time_ := 0 |>)
    else if first_above_time_ q =? 0 then Ok (p, false, q <| first_above_time_ := u64 (now + interval_ q) |>)
    else if first_above_time_ q <=? now then Ok (p, true, q)
    else Ok (p, false, q).

(** [(uint64_t) ( interval_ / sqrt( count ) )] *)
Definition control_delay (interval count : Z) : outcome Z :=
  to_uint64 (trunc (ddiv (double_of_Z interval) (dsqrt (double_of_Z count)))).

Definition control_law (interval t count : Z) : outcome Z :=
  let* d := control_delay interval count in
  Ok (u64 (t + d)).

(** The loop that drops packets while [drop_next_] has passed. *)
Fixpoint drop_loop (fuel : nat) (now : Z) (q : CODELPacketQueue) : outcome CODELPacketQueue :=
  if (drop_next_ q <=? now) && dropping_ q then
    match fuel with
    | O => Err Diverges
    | S fuel =>
        let* (_, ok_to_drop, q) := dodequeue now q in
        let q := q <| count_ := u32 (count_ q + 1) |> in
        if negb ok_to_drop then drop_loop fuel now (q <| dropping_ := false |>)
        else
          let* t := control_law (interval_ q) (drop_next_ q) (count_ q) in
          drop_loop fuel now (q <| drop_next_ := t |>)
    end
  else Ok q.

(** The first drop of a dropping state. *)
Definition start_dropping (now : Z) (q : CODELPacketQueue) : outcome CODELPacketQueue :=
  let* (_, _, q) := dodequeue now q in
  let q := q <| dropping_ := true |> in
  let delta := u32 (count_ q - lastcount_ q) in
  let q := q <| count_ := if (1 <? delta) && (u64 (now - drop_next_ q) <? u32 (16 * interval_ q)) then delta else 1 |> in
  let* t := control_law (interval_ q) now (count_ q) in
  let q := q <| drop_next_ := t |> in
  Ok (q <| lastcount_ := count_ q |>).

Definition codel_enqueue (p : QueuedPacket) (q : CODELPacketQueue) : outcome CODELPacketQueue :=
  let* g := good_with_packet p (codel_queue q) in
  let* d := if g : bool then accept p (codel_queue q) else Ok (codel_queue q) in
  let* d := assert_good d in
  Ok (q <| codel_queue := d |>).

Section Dequeue.
Context {W : Type} {clock : Clock W}.

Definition codel_dequeue (q : CODELPacketQueue) (w : W) : outcome (QueuedPacket * CODELPacketQueue * W) :=
  let* (now, w) := timestamp w in
  let* (p, ok_to_drop, q) := dodequeue now q in
  let* q :=
    if dropping_ q then
      let q := if negb ok_to_drop then q <| dropping_ := false |> else q in
      drop_loop (S (length (internal_queue_ (codel_queue q)))) now q
    else if ok_to_drop then start_dropping now q
    else Ok q in
  Ok (p, q, w).

#[export] Instance codel_class : AbstractPacketQueue W CODELPacketQueue := {
  enqueue p q w := let* q := codel_enqueue p q in Ok (q, w);
  dequeue := codel_dequeue;
  empty q := dropping_empty (codel_queue q);
  to_string q := dropping_to_string "codel" (codel_queue q);
  size_bytes q := dropping_size_bytes (codel_queue q);
  size_packets q := dropping_size_packets (codel_queue q);
}.
End Dequeue.

(** * Facts *)

Abbreviation codel_packets q := (internal_queue_ (codel_queue q)).

(** The control law's delay is defined for the counts from 1 to [n]. *)
Fixpoint control_defined (interval : Z) (n : nat) : bool :=
  match n with
  | O => true
  | S m => is_ok (control_delay interval (Z.of_nat n)) && control_defined interval m
  end.

Lemma control_defined_le interval n c : control_defined interval n = true -> 1 <= c <= Z.of_nat n ->
  exists d, control_delay interval c = Ok d.
Proof.
  induction n as [|n IH]; [lia|]. cbn [control_defined]. intros [H1 H2]%andb_true_iff Hc.
  destruct (decide (c = Z.of_nat (S n))) as [->|]; [|apply IH; [done|lia]].
  destruct (control_delay _ _); [by eexists|done].
Qed.

Lemma control_law_Ok interval t n c : control_defined interval n = true -> 1 <= c <= Z.of_nat n ->
  exists t', control_law interval t c = Ok t'.
Proof. intros Hd Hc. unfold control_law. destruct (control_defined_le _ _ _ Hd Hc) as [d ->]. by eexists. Qed.

(** What no operation changes. *)
Definition same_config (q q' : CODELPacketQueue) : Prop :=
  target_ q' = target_ q /\ interval_ q' = interval_ q /\ same_limits (codel_queue q) (codel_queue q').

Lemma same_config_trans q1 q2 q3 : same_config q1 q2 -> same_config q2 q3 -> same_config q1 q3.
Proof. intros (A1 & A2 & A3 & A4) (B1 & B2 & B3 & B4). unfold same_config, same_limits. repeat split; congruence. Qed.

(** The head [p] has waited for too long, and so have the packets before it, for
    an interval; behind it there are more bytes than a packet has. *)
Definition above_target now q (p : QueuedPacket) (l : list QueuedPacket) : Prop :=
  target_ q <= u64 (now - arrival_time p) /\ CODEL_PACKET_SIZE < total_bytes l /\
  first_above_time_ q <> 0 /\ first_above_time_ q <= now.

Lemma dodequeue_spec now q p l : dropping_wf (codel_queue q) -> codel_packets q = p :: l ->
  exists ok q', dodequeue now q = Ok (p, ok, q') /\ dropping_wf (codel_queue q') /\ codel_packets q' = l /\
    same_config q q' /\ count_ q' = count_ q /\ lastcount_ q' = lastcount_ q /\ drop_next_ q' = drop_next_ q /\
    dropping_ q' = dropping_ q /\ (ok = true -> l <> [] /\ above_target now q p l).
Proof.
  intros Hwf E. unfold dodequeue. destruct (dropping_dequeue_spec (codel_queue q) p l Hwf E) as (d & -> & El & Hd & Hs).
  cbn [bind]. destruct (dropping_empty d) eqn:Ee.
  { exists false. eexists. split; [done|]. cbn. rewrite El. split; [done|]. repeat (split; [done|]). done. }
  assert (Hb : dropping_size_bytes d = Ok (total_bytes l)).
  { destruct Hd as [(Hb & _ & Hb' & _) _]. unfold dropping_size_bytes. pose proof (total_bytes_nonneg (internal_queue_ d)).
    rewrite Hb, checked_unsigned_Ok, El by done. done. }
  assert (Hl : l <> []) by (intros ->; apply dropping_empty_spec in El; congruence).
  unfold above_target. cbn [target_ upd].
  destruct (Z.ltb_spec (u64 (now - arrival_time p)) (target_ q)); cbn [bind]; [|rewrite Hb; cbn [bind]; destruct (Z.leb_spec (total_bytes l) CODEL_PACKET_SIZE)].
  3: cbn [first_above_time_ upd]; destruct (Z.eqb_spec (first_above_time_ q) 0); [|destruct (Z.leb_spec (first_above_time_ q) now)].
  all: eexists _, _; (split; [done|]); cbn; rewrite El; (split; [done|]); repeat (split; [done|]); done.
Qed.

(** [q'] is [q] after [d] packets have been dropped. *)
Definition dropped_to (q q' : CODELPacketQueue) : Prop :=
  exists d, codel_packets q = d ++ codel_packets q' /\ dropping_wf (codel_queue q') /\ same_config q q'.

Lemma dropped_refl q : dropping_wf (codel_queue q) -> dropped_to q q.
Proof. intros H. exists []. split; [done|]. split; [done|]. by repeat split. Qed.

(** Outside the dropping state the loop does nothing. *)
Lemma drop_loop_idle fuel now q : dropping_ q = false -> drop_loop fuel now q = Ok q.
Proof. intros E. by destruct fuel; cbn [drop_loop]; rewrite E, andb_false_r. Qed.

(** Each turn of the loop takes a packet out, and the last packet ends it. *)
Lemma drop_loop_spec n fuel : forall now q, dropping_wf (codel_queue q) -> (length (codel_packets q) < fuel)%nat ->
  (dropping_ q = true -> codel_packets q <> []) ->
  control_defined (interval_ q) n = true -> 0 <= count_ q -> count_ q + len (codel_packets q) <= Z.of_nat n -> Z.of_nat n < 2 ^ 32 ->
  exists q', drop_loop fuel now q = Ok q' /\ dropped_to q q' /\ lastcount_ q' = lastcount_ q /\
    count_ q <= count_ q' /\ count_ q' + len (codel_packets q') <= count_ q + len (codel_packets q).
Proof.
  induction fuel as [|fuel IH]; intros now q Hwf Hf Hd Hc H0 Hn H32; [lia|]. cbn [drop_loop].
  destruct ((drop_next_ q <=? now) && dropping_ q) eqn:Eb.
  2: { exists q. split; [done|]. split; [by apply dropped_refl|]. split; [done|lia]. }
  apply andb_true_iff in Eb as [_ Eb]. destruct (codel_packets q) as [|p l] eqn:E; [by destruct (Hd Eb)|].
  destruct (dodequeue_spec now q p l Hwf E) as (ok & q1 & -> & Hwf1 & E1 & Hs & Ec & Elc & _ & Edr & Hok). cbn [bind].
  rewrite len_cons in *. cbn [length] in Hf. pose proof (len_nonneg l). cbn [upd count_ interval_ drop_next_]. rewrite Ec.
  rewrite u32_small by lia. pose proof Hs as (_ & Hi & _).
  assert (Hfin : forall q2, codel_queue q2 = codel_queue q1 -> same_config q q2 -> interval_ q2 = interval_ q ->
    count_ q2 = count_ q + 1 -> lastcount_ q2 = lastcount_ q -> (dropping_ q2 = true -> l <> []) ->
    exists q', drop_loop fuel now q2 = Ok q' /\ dropped_to q q' /\ lastcount_ q' = lastcount_ q /\
      count_ q <= count_ q' /\ count_ q' + len (codel_packets q') <= count_ q + (len l + 1)).
  { intros q2 Eq2 Hs2 Hi2 Hc2 Hlc2 Hd2. destruct (IH now q2) as (q' & -> & (d & Ed & Hwf' & Hs') & Hl' & H1 & H2);
      rewrite ?Eq2, ?Hi2, ?Hc2, ?E1; try done; try lia.
    exists q'. split; [done|]. rewrite Eq2, Hc2, E1 in *. split; [|split; [congruence|lia]].
    exists (p :: d). rewrite E. split; [by rewrite Ed|]. split; [done|]. by eapply same_config_trans. }
  destruct ok; cbn [negb].
  - rewrite Hi. destruct (control_law_Ok (interval_ q) (drop_next_ q1) n (count_ q + 1) Hc) as [t ->]; [lia|]. cbn [bind].
    apply Hfin; [done|destruct Hs as (A1 & A2 & A3 & A4); by repeat split|done|cbn; lia|exact Elc|intros _; by apply Hok].
  - apply Hfin; [done|destruct Hs as (A1 & A2 & A3 & A4); by repeat split|exact Hi|cbn; lia|exact Elc|done].
Qed.

Lemma start_dropping_spec n now q : dropping_wf (codel_queue q) -> codel_packets q <> [] ->
  control_defined (interval_ q) n = true -> 1 <= Z.of_nat n -> 0 <= lastcount_ q <= count_ q -> count_ q <= Z.of_nat n -> Z.of_nat n < 2 ^ 32 ->
  exists q', start_dropping now q = Ok q' /\ dropped_to q q' /\ 0 <= lastcount_ q' <= count_ q' /\
    count_ q' <= Z.max 1 (count_ q).
Proof.
  intros Hwf Hne Hc Hn1 H0 Hn H32. unfold start_dropping. destruct (codel_packets q) as [|p l] eqn:E; [done|].
  destruct (dodequeue_spec now q p l Hwf E) as (ok & q1 & -> & Hwf1 & E1 & Hs & Ec & Elc & _ & _ & _).
  cbn [bind upd count_ lastcount_ drop_next_ interval_ codel_queue]. pose proof Hs as (_ & Hi & _). rewrite Ec, Elc, Hi.
  rewrite (u32_small (count_ q - lastcount_ q)) by lia.
  set (c := if _ && _ then _ else _).
  assert (Hcc : 1 <= c <= Z.max 1 (count_ q)).
  { unfold c. destruct (Z.ltb_spec 1 (count_ q - lastcount_ q)); cbn [andb]; [|lia]. destruct (_ <? _); lia. }
  destruct (control_law_Ok (interval_ q) now n c Hc) as [t ->]; [lia|]. cbn [bind]. eexists. split; [done|]. cbn.
  split; [|lia]. exists [p]. cbn. rewrite E, E1. split; [done|]. split; [done|].
  destruct Hs as (A1 & A2 & A3 & A4). by repeat split.
Qed.

(** * The queue *)

Section Spec.
Context {W : Type} {clock : Clock W} {laws : ClockLaws W}.

(** Well-formed, with counts for which the control law is defined up to [n]. *)
Record codel_wf (n : nat) (q : CODELPacketQueue) : Prop := {
  codel_counted : dropping_wf (codel_queue q);
  codel_control : control_defined (interval_ q) n = true;
  codel_counts : 0 <= lastcount_ q <= count_ q;
  codel_room : count_ q + len (codel_packets q) <= Z.of_nat n < 2 ^ 32;
}.

(** C28: CoDel's [dequeue] gives the packet at the head, and terminates.  It drops
    a prefix [d] of the packets behind that one, all of them at most, and the rest
    keeps its order.  It drops something only when the head has waited for the
    target at least, the dequeued packets have done so since the time at which
    [first_above_time_] has come, and there are more than 1504 bytes behind the
    head.  The limits stay, the invariant holds again, and no assertion fails. *)
Theorem codel_dequeue_spec (n : nat) q (w : W) t p l : codel_wf n q -> clock_from w t -> codel_packets q = p :: l ->
  exists q' w' t' d, codel_dequeue q w = Ok (p, q', w') /\ clock_from w' t' /\ t <= t' /\
    l = d ++ codel_packets q' /\ (d <> [] -> above_target t' q p l) /\ same_config q q' /\ codel_wf n q'.
Proof.
  intros [Hwf Hc Hcnt Hn] Hw E. unfold codel_dequeue. destruct (timestamp_spec w t Hw) as (now & w' & -> & Ht & Hw').
  cbn [bind]. destruct (dodequeue_spec now q p l Hwf E) as (ok & q1 & -> & Hwf1 & E1 & Hs & Ec & Elc & Edn & Edr & Hok).
  cbn [bind]. rewrite E, len_cons in Hn. pose proof (len_nonneg l). pose proof Hs as (_ & Hi & _).
  assert (Hend : forall r, (exists q2, r = Ok q2 /\ dropped_to q1 q2 /\ (ok = false -> codel_packets q2 = l) /\
      0 <= lastcount_ q2 <= count_ q2 /\ count_ q2 + len (codel_packets q2) <= count_ q + len l + 1) ->
    exists q' w2 t' d, (let* q2 := r in Ok (p, q2, w')) = Ok (p, q', w2) /\ clock_from w2 t' /\ t <= t' /\
      l = d ++ codel_packets q' /\ (d <> [] -> above_target t' q p l) /\ same_config q q' /\ codel_wf n q').
  { intros r (q2 & -> & (d & Ed & Hwf2 & Hs2) & Hno & Hl2 & Hr2). exists q2, w', now, d. split; [done|]. split; [done|]. split; [lia|].
    rewrite E1 in Ed. split; [done|]. split.
    { intros Hd. destruct ok; [by apply Hok|]. rewrite (Hno eq_refl) in Ed. apply (f_equal length) in Ed. rewrite length_app in Ed.
      destruct d; [done|cbn in Ed; lia]. } pose proof (same_config_trans _ _ _ Hs Hs2) as Hs3. split; [done|]. split; [done| |done|lia].
    destruct Hs3 as (_ & -> & _). done. }
  apply Hend. rewrite Edr. destruct (dropping_ q) eqn:Ed.
  - set (q2 := if negb ok then _ else q1).
    assert (H2 : codel_queue q2 = codel_queue q1 /\ same_config q1 q2 /\ interval_ q2 = interval_ q1 /\ count_ q2 = count_ q1 /\
      lastcount_ q2 = lastcount_ q1 /\ (dropping_ q2 = true -> l <> []) /\ (ok = false -> dropping_ q2 = false)).
    { unfold q2. destruct ok; cbn [negb]; (split; [done|]; split; [by repeat split|]; split; [done|]; split; [done|]; split; [done|]).
      - split; [|done]. intros _. by apply Hok.
      - done. }
    destruct H2 as (Eq & Hs2 & Ei & Ec2 & El2 & Hd2 & Hidle). clearbody q2.
    destruct (drop_loop_spec n (S (length (codel_packets q2))) now q2) as (q3 & E3 & (d & Ed3 & Hwf3 & Hs3) & Hl3 & H1 & H2);
      rewrite ?Eq, ?Ei, ?Hi, ?Ec2, ?Ec, ?E1; try done; try lia.
    exists q3. split; [rewrite <- E3; by rewrite ?Eq, ?E1|]. rewrite Eq, E1, Ec2, Ec in *. split; [|split; [|lia]].
    + exists d. rewrite E1. split; [done|]. split; [done|]. by eapply same_config_trans.
    + intros Hf. rewrite drop_loop_idle in E3 by by apply Hidle. injection E3 as <-. by rewrite Eq.
  - destruct ok.
    + destruct (start_dropping_spec n now q1) as (q3 & -> & Hd & Hl & Hm); rewrite ?E1, ?Hi, ?Ec, ?Elc; try done; try lia.
      { by apply Hok. }
      exists q3. split; [done|]. split; [done|]. split; [done|]. split; [lia|].
      assert (Hne : l <> []) by by apply Hok. pose proof (len_pos l Hne). destruct Hd as (d & Ed3 & _). rewrite E1 in Ed3.
      rewrite Ed3, len_app in *. pose proof (len_nonneg d). rewrite Ec in Hm. lia.
    + exists q1. split; [done|]. split; [by apply dropped_refl|]. rewrite E1. split; [done|]. lia.
Qed.
End Spec.

(** * A queue above its target *)

(** Six packets that arrived at time 0, a target of 5 ms and an interval of
    100 ms, in a dropping state since 1000. *)
Definition sample_codel : CODELPacketQueue :=
  let ps := map (fun i => QueuedPacket_make (repeat Byte.x2e 1000) "" 0 0 i 0) (seqZ 0 6) in
  {| codel_queue := {| queue_size_in_bytes_ := 6000; queue_size_in_packets_ := 6; internal_queue_ := ps;
                       packet_limit_ := 100; byte_limit_ := 0 |};
     target_ := 5; interval_ := 100; first_above_time_ := 900; drop_next_ := 1000; count_ := 1; lastcount_ := 1;
     dropping_ := true |}.

Definition late_clock : World :=
  {| clock_gettime := fun n => Some {| tv_sec := 1; tv_nsec := 100 * 1000000 |}; calls := 0; initial_value := Some 0 |}.

Lemma late_clock_from : clock_from late_clock 1100.
Proof.
  split.
  - intros n _. exists {| tv_sec := 1; tv_nsec := 100 * 1000000 |}. split; [done|]. split; [by vm_compute|].
    intros m b _ [= <-]. by right.
  - exists 0. split; [done|]. split; [done|]. intros a [= <-]. by vm_compute.
Qed.

Lemma sample_codel_wf : codel_wf 20 sample_codel.
Proof. split; [by_computation|vm_compute; reflexivity|by vm_compute|by vm_compute]. Qed.

Lemma codel_dequeue_spec_witness :
  exists p l, codel_packets sample_codel = p :: l /\
  exists q' w' t' d, codel_dequeue sample_codel late_clock = Ok (p, q', w') /\ clock_from w' t' /\ 1100 <= t' /\
    l = d ++ codel_packets q' /\ (d <> [] -> above_target t' sample_codel p l) /\ same_config sample_codel q' /\ codel_wf 20 q'.
Proof.
  eexists _, _. split; [reflexivity|].
  apply (codel_dequeue_spec 20 sample_codel late_clock 1100); [exact sample_codel_wf|exact late_clock_from|reflexivity].
Defined.

(** Two of the packets behind the head are dropped. *)
Example sample_codel_drops :
  match codel_dequeue sample_codel late_clock with
  | Ok (p, q, _) => (sequence_number p, map sequence_number (codel_packets q), drop_next_ q)
  | Err _ => (0, [], 0)
  end = (0, [3; 4; 5], 1127).
Proof. vm_compute. reflexivity. Qed.
