(* ===== verification/Pie.v ===== *)
(** [PIEPacketQueue]: src/packet/pie_packet_queue.hh/.cc.

    The proportional-integral controller drops packets at random when they come
    in.  The uniform random numbers are a sequence given with the queue.  The
    periodic update of the drop probability is caught up with when the queue is
    used; [pie_catch_up] shows that this amounts to a timer. *)
From Stdlib Require Import SpecFloat.
From S2P Require Import Prelude Floats Timestamp Packets PacketQueue DroppingQueue.

(** * State *)

Record PIEPacketQueue := {
  pie_queue : DroppingPacketQueue;
  qdelay_ref_ : Z;
  max_burst_ : Z;
  drop_prob_ : real;
  burst_allowance_ : Z;
  qdelay_old_ : Z;
  current_qdelay_ : Z;
  dq_count_ : Z;
  dq_tstamp_ : Z;
  avg_dq_rate_ : Z;
  uniform : nat -> real;
  draws : nat;
  last_update_ : Z;
}.

#[export] Instance eta_Pie : Eta PIEPacketQueue := fun q =>
  {| pie_queue := pie_queue q; qdelay_ref_ := qdelay_ref_ q; max_burst_ := max_burst_ q; drop_prob_ := drop_prob_ q;
     burst_allowance_ := burst_allowance_ q; qdelay_old_ := qdelay_old_ q; current_qdelay_ := current_qdelay_ q;
     dq_count_ := dq_count_ q; dq_tstamp_ := dq_tstamp_ q; avg_dq_rate_ := avg_dq_rate_ q; uniform := uniform q;
     draws := draws q; last_update_ := last_update_ q |}.

Definition DQ_COUNT_INVALID : Z := u32 (-1).
Definition PIE_PACKET_SIZE : Z := 1504.

Definition alpha_ : real := double_of_ratio 125 1000.
Definition beta_ : real := double_of_ratio 125 100.
Definition t_update_ : Z := 30.
Definition dq_threshold_ : Z := 16384.

Definition pie_new {W} {clock : Clock W} (args : string) (random : nat -> real) (w : W) : outcome (PIEPacketQueue * W) :=
  let* q := dropping_new args in
  let* qdelay_ref := get_arg args "qdelay_ref" in
  let* max_burst := get_arg args "max_burst" in
  let* (now, w) := timestamp w in
  if (qdelay_ref =? 0) || (max_burst =? 0)
  then Err (Throw "PIE AQM queue must have qdelay_ref and max_burst parameters")
  else Ok ({| pie_queue := q; qdelay_ref_ := qdelay_ref; max_burst_ := max_burst; drop_prob_ := double_of_Z 0;
              burst_allowance_ := 0; qdelay_old_ := 0; current_qdelay_ := 0; dq_count_ := DQ_COUNT_INVALID;
              dq_tstamp_ := 0; avg_dq_rate_ := 0; uniform := random; draws := 0; last_update_ := now |}, w).

(** * Operations *)

Definition pie_size_bytes (q : PIEPacketQueue) : outcome Z := dropping_size_bytes (pie_queue q).

(** [(int) ( a - b )] of two [uint32_t]. *)
Definition int_difference (a b : Z) : Z := i32 (u32 (a - b)).

(** The delays of one update, and [update_prob]. *)
Definition update_qdelay (size : Z) (q : PIEPacketQueue) : PIEPacketQueue * bool :=
  let q := q <| qdelay_old_ := current_qdelay_ q |> in
  let q := q <| current_qdelay_ := if 0 <? avg_dq_rate_ q then size / avg_dq_rate_ q else 0 |> in
  (q, negb ((current_qdelay_ q =? 0) && negb (size =? 0))).

(** The drop probability of one update. *)
Definition update_drop_prob (update_prob : bool) (q : PIEPacketQueue) : PIEPacketQueue :=
  let p := dadd (dmul alpha_ (double_of_Z (int_difference (current_qdelay_ q) (qdelay_ref_ q))))
                (dmul beta_ (double_of_Z (int_difference (current_qdelay_ q) (qdelay_old_ q)))) in
  let p :=
    if SFltb (drop_prob_ q) (double_of_ratio 1 100) then ddiv p (double_of_Z 128)
    else if SFltb (drop_prob_ q) (double_of_ratio 1 10) then ddiv p (double_of_Z 32)
    else ddiv p (double_of_Z 16) in
  let q := q <| drop_prob_ := dadd (drop_prob_ q) p |> in
  let (q, update_prob) :=
    if SFltb (drop_prob_ q) (double_of_Z 0) then (q <| drop_prob_ := double_of_Z 0 |>, update_prob)
    else if SFltb (double_of_Z 1) (drop_prob_ q) then (q <| drop_prob_ := double_of_Z 1 |>, false)
    else (q, update_prob) in
  if (current_qdelay_ q =? 0) && (qdelay_old_ q =? 0) && update_prob
  then q <| drop_prob_ := dmul (drop_prob_ q) (double_of_ratio 98 100) |>
  else q.

(** [max( 0, (int) burst_allowance_ - (int) t_update_ )] *)
Definition reduced_burst (burst_allowance : Z) : outcome Z :=
  if i32 burst_allowance - i32 t_update_ <? - 2 ^ 31 then Err (UndefinedBehaviour "signed overflow")
  else Ok (Z.max 0 (i32 burst_allowance - i32 t_update_)).

(** One period of the loop of [calculate_drop_prob]. *)
Definition update_period (q : PIEPacketQueue) : outcome PIEPacketQueue :=
  let* size := pie_size_bytes q in
  let (q, update_prob) := update_qdelay size q in
  let q := update_drop_prob update_prob q in
  let* b := reduced_burst (burst_allowance_ q) in
  let q := q <| burst_allowance_ := b |> in
  let q := q <| last_update_ := u64 (last_update_ q + t_update_) |> in
  Ok (if SFeqb (drop_prob_ q) (double_of_Z 0) && (current_qdelay_ q <? qdelay_ref_ q / 2)
         && (qdelay_old_ q <? qdelay_ref_ q / 2) && (0 <? avg_dq_rate_ q)
      then q <| dq_count_ := DQ_COUNT_INVALID |> <| avg_dq_rate_ := 0 |> <| burst_allowance_ := max_burst_ q |>
      else q).

Fixpoint update_loop (fuel : nat) (now : Z) (q : PIEPacketQueue) : outcome PIEPacketQueue :=
  if t_update_ <? u64 (now - last_update_ q) then
    match fuel with
    | O => Err Diverges
    | S fuel => let* q := update_period q in update_loop fuel now q
    end
  else Ok q.

(** Enough for every period since the last update. *)
Definition update_fuel (now : Z) (q : PIEPacketQueue) : nat := Z.to_nat (u64 (now - last_update_ q) / t_update_).

(** [calculate_drop_prob] once the clock has been read. *)
Definition catch_up (now : Z) (q : PIEPacketQueue) : outcome PIEPacketQueue := update_loop (update_fuel now q) now q.

(** returns true if packet should be dropped. *)
Definition drop_early (q : PIEPacketQueue) : outcome (bool * PIEPacketQueue) :=
  if 0 <? burst_allowance_ q then Ok (false, q)
  else if (qdelay_old_ q <? qdelay_ref_ q / 2) && SFltb (drop_prob_ q) (double_of_ratio 2 10) then Ok (false, q)
  else
    let* size := pie_size_bytes q in
    if size <? 2 * PIE_PACKET_SIZE then Ok (false, q)
    else
      let random := uniform q (draws q) in
      Ok (SFltb random (drop_prob_ q), q <| draws := S (draws q) |>).

(** The estimate of the dequeue rate, after a packet of [size] bytes has gone. *)
Definition measure_rate (now size : Z) (q : PIEPacketQueue) : outcome PIEPacketQueue :=
  let* b := pie_size_bytes q in
  let q :=
    if (dq_threshold_ <=? b) && (dq_count_ q =? DQ_COUNT_INVALID)
    then q <| dq_tstamp_ := now |> <| dq_count_ := 0 |> else q in
  if dq_count_ q =? DQ_COUNT_INVALID then Ok q
  else
    let q := q <| dq_count_ := u32 (dq_count_ q + size) |> in
    if dq_count_ q <=? dq_threshold_ then Ok q
    else
      let dtime := u32 (now - dq_tstamp_ q) in
      if dtime =? 0 then Ok q
      else
        let rate_sample := dq_count_ q / dtime in
        let avg := avg_dq_rate_ q in
        let q := q <| avg_dq_rate_ := if avg =? 0 then rate_sample
                                      else u32 (u32 (avg - Z.shiftr avg 3) + Z.shiftr rate_sample 3) |> in
        let q := if b <? dq_threshold_ then q <| dq_count_ := DQ_COUNT_INVALID |>
                 else q <| dq_count_ := 0 |> <| dq_tstamp_ := now |> in
        Ok (if 0 <? burst_allowance_ q
            then q <| burst_allowance_ := if dtime <? burst_allowance_ q then burst_allowance_ q - dtime else 0 |>
            else q).

Section Operations.
Context {W : Type} {clock : Clock W}.

Definition calculate_drop_prob (q : PIEPacketQueue) (w : W) : outcome (PIEPacketQueue * W) :=
  let* (now, w) := timestamp w in
  let* q := catch_up now q in
  Ok (q, w).

Definition pie_enqueue (p : QueuedPacket) (q : PIEPacketQueue) (w : W) : outcome (PIEPacketQueue * W) :=
  let* (q, w) := calculate_drop_prob q w in
  let* g := good_with_packet p (pie_queue q) in
  if negb g then Ok (q, w) (* Internal queue is full. Packet has to be dropped. *)
  else
    let* (drop, q) := drop_early q in
    let* d := if drop : bool then Ok (pie_queue q) else accept p (pie_queue q) in
    let* d := assert_good d in
    Ok (q <| pie_queue := d |>, w).

Definition pie_dequeue (q : PIEPacketQueue) (w : W) : outcome (QueuedPacket * PIEPacketQueue * W) :=
  let* (ret, d) := dropping_dequeue (pie_queue q) in
  let q := q <| pie_queue := d |> in
  let* (now, w) := timestamp w in
  let* q := measure_rate (u32 now) (psize ret) q in
  let* (q, w) := calculate_drop_prob q w in
  Ok (ret, q, w).

#[export] Instance pie_class : AbstractPacketQueue W PIEPacketQueue := {
  enqueue := pie_enqueue;
  dequeue := pie_dequeue;
  empty q := dropping_empty (pie_queue q);
  to_string q := dropping_to_string "pie" (pie_queue q);
  size_bytes q := dropping_size_bytes (pie_queue q);
  size_packets q := dropping_size_packets (pie_queue q);
}.
End Operations.

(** * Facts *)

Abbreviation pie_packets q := (internal_queue_ (pie_queue q)).

(** The queue is well-formed, and the last update was at [now] or before. *)
Record pie_wf (now : Z) (q : PIEPacketQueue) : Prop := {
  pie_counted : dropping_wf (pie_queue q);
  pie_burst : 0 <= burst_allowance_ q < 2 ^ 31;
  pie_max_burst : 0 <= max_burst_ q < 2 ^ 31;
  pie_updated : 0 <= last_update_ q <= now;
  pie_time : now < time_limit;
}.

Lemma pie_wf_le now now' q : pie_wf now q -> now <= now' < time_limit -> pie_wf now' q.
Proof. intros [H1 H2 H3 H4 H5] H. split; try done; lia. Qed.

Lemma pie_size_Ok q : dropping_wf (pie_queue q) -> pie_size_bytes q = Ok (total_bytes (pie_packets q)).
Proof.
  intros [(Hb & _ & Hb' & _) _]. unfold pie_size_bytes, dropping_size_bytes.
  pose proof (total_bytes_nonneg (pie_packets q)). by rewrite Hb, checked_unsigned_Ok.
Qed.

Lemma reduced_burst_Ok b : 0 <= b < 2 ^ 31 -> exists b', reduced_burst b = Ok b' /\ 0 <= b' < 2 ^ 31.
Proof.
  intros H. unfold reduced_burst, t_update_. rewrite !i32_small by lia. destruct (Z.ltb_spec (b - 30) (- 2 ^ 31)); [lia|].
  eexists. split; [done|]. lia.
Qed.

(** The members an update works on are not those of the queue. *)
Definition same_queue (q q' : PIEPacketQueue) : Prop :=
  pie_queue q' = pie_queue q /\ qdelay_ref_ q' = qdelay_ref_ q /\ max_burst_ q' = max_burst_ q.

Lemma same_queue_trans q1 q2 q3 : same_queue q1 q2 -> same_queue q2 q3 -> same_queue q1 q3.
Proof. intros (A1 & A2 & A3) (B1 & B2 & B3). split; [|split]; congruence. Qed.

(** What an update leaves alone before the burst allowance and the time. *)
Definition same_but_prob (q q' : PIEPacketQueue) : Prop :=
  same_queue q q' /\ last_update_ q' = last_update_ q /\ burst_allowance_ q' = burst_allowance_ q.

Lemma update_qdelay_same size q : same_but_prob q (update_qdelay size q).1.
Proof. destruct q. by repeat split. Qed.

Lemma update_drop_prob_same b q : same_but_prob q (update_drop_prob b q).
Proof.
  unfold update_drop_prob. destruct q as [pq rf mb dp ba qo cq dc dt ar un dr lu].
  cbn [upd drop_prob_ current_qdelay_ qdelay_old_ qdelay_ref_].
  set (x := dadd dp _). clearbody x. destruct (SFltb x _); [|destruct (SFltb _ x)];
    cbn [upd drop_prob_ current_qdelay_ qdelay_old_]; destruct (_ && _); by repeat split.
Qed.

Lemma same_but_prob_trans q1 q2 q3 : same_but_prob q1 q2 -> same_but_prob q2 q3 -> same_but_prob q1 q3.
Proof. intros (A & A1 & A2) (B & B1 & B2). split; [by eapply same_queue_trans|]. split; congruence. Qed.

(** [q'] is [q] after one update: at the time [last], the queue is the same. *)
Definition updated (now last : Z) (q q' : PIEPacketQueue) : Prop :=
  same_queue q q' /\ last_update_ q' = last /\ pie_wf now q'.

Section Updated.
Context (now last : Z) (q : PIEPacketQueue).

Lemma updated_count v q' : updated now last q q' -> updated now last q (q' <| dq_count_ := v |>).
Proof. intros (Hs & Hl & [H1 H2 H3 H4 H5]). split; [exact Hs|]. split; [exact Hl|by split]. Qed.

Lemma updated_rate v q' : updated now last q q' -> updated now last q (q' <| avg_dq_rate_ := v |>).
Proof. intros (Hs & Hl & [H1 H2 H3 H4 H5]). split; [exact Hs|]. split; [exact Hl|by split]. Qed.

Lemma updated_burst v q' : 0 <= v < 2 ^ 31 -> updated now last q q' -> updated now last q (q' <| burst_allowance_ := v |>).
Proof. intros Hv (Hs & Hl & [H1 H2 H3 H4 H5]). split; [exact Hs|]. split; [exact Hl|by split]. Qed.
End Updated.

Lemma updated_last now q q' b v : same_but_prob q q' -> pie_wf now q -> 0 <= b < 2 ^ 31 -> 0 <= v <= now ->
  updated now v q (q' <| burst_allowance_ := b |> <| last_update_ := v |>).
Proof.
  destruct q' as [pq rf mb dp ba qo cq dc dt ar un dr lu]. intros ((A1 & A2 & A3) & A4 & A5) [H1 H2 H3 H4 H5] Hb Hv.
  cbn [pie_queue qdelay_ref_ max_burst_ last_update_ burst_allowance_] in *. subst. by repeat (split; [done|]).
Qed.

Lemma update_period_Ok now q : pie_wf now q -> last_update_ q + t_update_ <= now ->
  exists q', update_period q = Ok q' /\ same_queue q q' /\ last_update_ q' = last_update_ q + t_update_ /\ pie_wf now q'.
Proof.
  intros Hwf Hn. unfold update_period. rewrite (pie_size_Ok q (pie_counted _ _ Hwf)). cbn [bind].
  pose proof (update_qdelay_same (total_bytes (pie_packets q)) q) as Hq.
  destruct (update_qdelay _ q) as [q1 b]. cbn [fst] in Hq. pose proof (update_drop_prob_same b q1) as Hp.
  assert (Hs : same_but_prob q (update_drop_prob b q1)) by (eapply same_but_prob_trans; eassumption).
  clear Hq Hp. revert Hs. generalize (update_drop_prob b q1) as q2. intros q2 Hs. pose proof Hs as (_ & Hl & Hb).
  pose proof Hwf as [H1 H2 H3 H4 H5].
  destruct (reduced_burst_Ok (burst_allowance_ q2)) as (ba & -> & Hba); [by rewrite Hb|]. cbn [bind].
  change (last_update_ (q2 <| burst_allowance_ := ba |>)) with (last_update_ q2). rewrite Hl.
  rewrite u64_small by (unfold time_limit, t_update_ in *; lia).
  assert (Hu : updated now (last_update_ q + t_update_) q (q2 <| burst_allowance_ := ba |> <| last_update_ := last_update_ q + t_update_ |>)).
  { apply updated_last; [done|done|done|unfold t_update_ in *; lia]. }
  revert Hu. generalize (q2 <| burst_allowance_ := ba |> <| last_update_ := last_update_ q + t_update_ |>) as q3. intros q3 Hu.
  eexists. split; [reflexivity|]. change (updated now (last_update_ q + t_update_) q
    (if SFeqb (drop_prob_ q3) (double_of_Z 0) && (current_qdelay_ q3 <? qdelay_ref_ q3 / 2)
         && (qdelay_old_ q3 <? qdelay_ref_ q3 / 2) && (0 <? avg_dq_rate_ q3)
     then q3 <| dq_count_ := DQ_COUNT_INVALID |> <| avg_dq_rate_ := 0 |> <| burst_allowance_ := max_burst_ q3 |> else q3)).
  destruct (_ && _); [|exact Hu]. apply updated_burst; [|by apply updated_rate, updated_count].
  destruct Hu as ((_ & _ & ->) & _ & _). exact H3.
Qed.

(** [k] periods of a timer. *)
Fixpoint periods (k : nat) (q : PIEPacketQueue) : outcome PIEPacketQueue :=
  match k with
  | O => Ok q
  | S k => let* q := update_period q in periods k q
  end.

(** The periods that have passed at [now]. *)
Definition periods_due (now : Z) (q : PIEPacketQueue) : nat := Z.to_nat ((now - last_update_ q - 1) / t_update_).

Lemma periods_due_S now q : last_update_ q < now ->
  (t_update_ <? now - last_update_ q) = true <-> (exists k, periods_due now q = S k).
Proof.
  intros H. unfold periods_due. rewrite Z.ltb_lt. unfold t_update_. split.
  - intros Hgt. assert (1 <= (now - last_update_ q - 1) / 30) by (apply Z.div_le_lower_bound; lia).
    exists (Z.to_nat ((now - last_update_ q - 1) / 30 - 1)). lia.
  - intros [k Hk]. destruct (Z.ltb_spec 30 (now - last_update_ q)); [done|].
    assert ((now - last_update_ q - 1) / 30 = 0) by (apply Z.div_small; lia). lia.
Qed.

Lemma periods_due_step now q q' : last_update_ q' = last_update_ q + t_update_ -> t_update_ < now - last_update_ q ->
  periods_due now q = S (periods_due now q').
Proof.
  unfold periods_due, t_update_. intros -> H.
  replace (now - (last_update_ q + 30) - 1) with (now - last_update_ q - 1 + (-1) * 30) by lia.
  rewrite Z.div_add by lia. assert (1 <= (now - last_update_ q - 1) / 30) by (apply Z.div_le_lower_bound; lia). lia.
Qed.

Lemma periods_due_0 now q : last_update_ q <= now -> now - last_update_ q <= t_update_ -> periods_due now q = 0%nat.
Proof.
  unfold periods_due, t_update_. intros H1 H2. destruct (decide (now = last_update_ q)) as [->|].
  - by rewrite Z.sub_diag.
  - rewrite Z.div_small by lia. done.
Qed.

(** With enough fuel, the loop is that many periods. *)
Lemma update_loop_periods fuel : forall now q, pie_wf now q -> (periods_due now q <= fuel)%nat ->
  exists q', update_loop fuel now q = Ok q' /\ periods (periods_due now q) q = Ok q' /\
    last_update_ q' = last_update_ q + t_update_ * Z.of_nat (periods_due now q) /\ now - last_update_ q' <= t_update_ /\
    same_queue q q' /\ pie_wf now q'.
Proof.
  induction fuel as [|fuel IH]; intros now q Hwf Hf; cbn [update_loop];
    pose proof Hwf as [H1 H2 H3 H4 H5]; rewrite u64_small by (unfold time_limit in *; lia);
    destruct (Z.ltb_spec t_update_ (now - last_update_ q)) as [Hlt|Hge].
  - rewrite (periods_due_step now q (q <| last_update_ := last_update_ q + t_update_ |>)) in Hf by done. lia.
  - exists q. rewrite periods_due_0 by lia. split; [done|]. split; [done|]. split; [lia|]. split; [lia|]. split; [by repeat split|done].
  - destruct (update_period_Ok now q Hwf) as (q1 & E & Hs & Hl & Hwf1); [lia|]. pose proof (periods_due_step now q q1 Hl Hlt) as Hd.
    destruct (IH now q1 Hwf1) as (q' & E1 & E2 & Hl' & Hn & Hs' & Hwf'); [lia|]. exists q'. rewrite Hd. cbn [periods].
    rewrite E. cbn [bind]. split; [done|]. split; [done|]. split; [lia|]. split; [done|]. split; [|done].
    by eapply same_queue_trans.
  - exists q. rewrite periods_due_0 by lia. split; [done|]. split; [done|]. split; [lia|]. split; [lia|]. split; [by repeat split|done].
Qed.

Lemma update_fuel_enough now q : pie_wf now q -> (periods_due now q <= update_fuel now q)%nat.
Proof.
  intros [_ _ _ H4 H5]. unfold periods_due, update_fuel. rewrite u64_small by (unfold time_limit in *; lia).
  assert ((now - last_update_ q - 1) / t_update_ <= (now - last_update_ q) / t_update_) by (apply Z.div_le_mono; unfold t_update_; lia).
  lia.
Qed.

Lemma catch_up_Ok now q : pie_wf now q ->
  exists q', catch_up now q = Ok q' /\ now - last_update_ q' <= t_update_ /\ same_queue q q' /\ pie_wf now q'.
Proof.
  intros Hwf. destruct (update_loop_periods _ now q Hwf (update_fuel_enough now q Hwf)) as (q' & E & _ & _ & Hn & Hs & Hwf').
  by exists q'.
Qed.

Lemma periods_app i j q : periods (i + j) q = let* q := periods i q in periods j q.
Proof.
  revert q. induction i as [|i IH]; intros q; cbn [periods Nat.add bind]; [done|]. by destruct (update_period q); cbn [bind].
Qed.

(** C29: Catching up with the updates is the same as having made them on time:
    at [now], the loop ends after exactly the periods of 30 ms that have passed,
    it leaves less than a period to go, and a later catch-up gives the same
    state whether or not this one took place. *)
Theorem pie_catch_up (now later : Z) q : pie_wf now q -> now <= later < time_limit ->
  exists q', catch_up now q = Ok q' /\ periods (periods_due now q) q = Ok q' /\
    last_update_ q' = last_update_ q + t_update_ * Z.of_nat (periods_due now q) /\
    last_update_ q' <= now <= last_update_ q' + t_update_ /\ same_queue q q' /\
    catch_up later q' = catch_up later q.
Proof.
  intros Hwf Hl. destruct (update_loop_periods _ now q Hwf (update_fuel_enough now q Hwf)) as (q' & E & Ep & El & Hn & Hs & Hwf').
  exists q'. split; [exact E|]. split; [done|]. split; [done|]. split; [pose proof (pie_updated _ _ Hwf'); lia|]. split; [done|].
  pose proof (pie_wf_le now later q Hwf Hl) as Hw1. pose proof (pie_wf_le now later q' Hwf' Hl) as Hw2.
  destruct (update_loop_periods _ later q Hw1 (update_fuel_enough later q Hw1)) as (q1 & E1 & Ep1 & _).
  destruct (update_loop_periods _ later q' Hw2 (update_fuel_enough later q' Hw2)) as (q2 & E2 & Ep2 & _).
  unfold catch_up. rewrite E1, E2. rewrite <- Ep2, <- Ep1.
  assert (Hdue : periods_due later q = (periods_due now q + periods_due later q')%nat).
  { unfold periods_due at 1 3. rewrite El. unfold t_update_ in *.
    set (k := periods_due now q) in *. replace (later - (last_update_ q + 30 * Z.of_nat k) - 1)
      with (later - last_update_ q - 1 + (- Z.of_nat k) * 30) by lia. rewrite Z.div_add by lia.
    assert (Hk : Z.of_nat k <= (later - last_update_ q - 1) / 30 \/ k = 0%nat).
    { destruct (decide (k = 0%nat)) as [|Hk]; [by right|left]. apply Z.div_le_lower_bound; [lia|].
      unfold k, periods_due, t_update_ in Hk |- *. pose proof (Z.mul_div_le (now - last_update_ q - 1) 30). lia. }
    lia. }
  rewrite Hdue, periods_app, Ep. done.
Qed.

Ltac pie_cbn := cbn [upd pie_queue qdelay_ref_ max_burst_ drop_prob_ burst_allowance_ qdelay_old_ current_qdelay_ dq_count_
  dq_tstamp_ avg_dq_rate_ uniform draws last_update_].

(** The state [q'] has the packets of [q] and is well-formed. *)
Definition kept (t : Z) (q q' : PIEPacketQueue) : Prop := same_queue q q' /\ pie_wf t q'.

Section Kept.
Context (t : Z) (q : PIEPacketQueue).

Lemma kept_if (c : bool) a b : kept t q a -> kept t q b -> kept t q (if c then a else b).
Proof. by destruct c. Qed.

Lemma kept_count v q' : kept t q q' -> kept t q (q' <| dq_count_ := v |>).
Proof. intros [Hs [H1 H2 H3 H4 H5]]. split; [exact Hs|by split]. Qed.

Lemma kept_tstamp v q' : kept t q q' -> kept t q (q' <| dq_tstamp_ := v |>).
Proof. intros [Hs [H1 H2 H3 H4 H5]]. split; [exact Hs|by split]. Qed.

Lemma kept_rate v q' : kept t q q' -> kept t q (q' <| avg_dq_rate_ := v |>).
Proof. intros [Hs [H1 H2 H3 H4 H5]]. split; [exact Hs|by split]. Qed.

Lemma kept_burst d q' : 0 <= d -> kept t q q' ->
  kept t q (q' <| burst_allowance_ := if d <? burst_allowance_ q' then burst_allowance_ q' - d else 0 |>).
Proof.
  intros Hd [Hs [H1 H2 H3 H4 H5]]. split; [exact Hs|]. split; try done. cbn [upd burst_allowance_]. case_Zbool; lia.
Qed.

Lemma kept_Ok_if (c : bool) (a b : outcome PIEPacketQueue) :
  (exists q', a = Ok q' /\ kept t q q') -> (exists q', b = Ok q' /\ kept t q q') ->
  exists q', (if c then a else b) = Ok q' /\ kept t q q'.
Proof. by destruct c. Qed.

Lemma kept_Ok q' : kept t q q' -> exists q'', Ok q' = Ok q'' /\ kept t q q''.
Proof. intros H. by exists q'. Qed.
End Kept.

#[export] Hint Resolve kept_if kept_count kept_tstamp kept_rate kept_burst kept_Ok_if kept_Ok : cellreplay.

Lemma measure_rate_Ok t now size q : pie_wf t q ->
  exists q', measure_rate now size q = Ok q' /\ same_queue q q' /\ pie_wf t q'.
Proof.
  intros Hwf. unfold measure_rate. rewrite (pie_size_Ok q (pie_counted _ _ Hwf)). cbn [bind]. cbv zeta.
  assert (Hq : kept t q q) by (split; [|done]; unfold same_queue; by repeat split).
  assert (Hu : forall z, 0 <= u32 z) by (intros z; apply u32_range).
  change (exists q', ?m = Ok q' /\ same_queue q q' /\ pie_wf t q') with (exists q', m = Ok q' /\ kept t q q').
  repeat first [apply kept_Ok_if | apply kept_Ok | apply kept_if | apply kept_burst; [apply Hu|] | apply kept_count
               | apply kept_tstamp | apply kept_rate | exact Hq].
Qed.

Section Spec.
Context {W : Type} {clock : Clock W} {laws : ClockLaws W}.

Lemma calculate_drop_prob_Ok t q (w : W) : pie_wf t q -> clock_from w t ->
  exists q' w' t', calculate_drop_prob q w = Ok (q', w') /\ t <= t' /\ clock_from w' t' /\ same_queue q q' /\ pie_wf t' q'.
Proof.
  intros Hwf Hw. unfold calculate_drop_prob. destruct (timestamp_spec w t Hw) as (now & w' & -> & Ht & Hw'). cbn [bind].
  destruct (catch_up_Ok now q) as (q' & -> & _ & Hs & Hwf'); [by eapply pie_wf_le|]. cbn [bind].
  exists q', w', now. split; [done|]. split; [lia|]. by split.
Qed.

Lemma drop_early_Ok t q : pie_wf t q ->
  exists b q', drop_early q = Ok (b, q') /\ same_queue q q' /\ pie_wf t q' /\
    (b = true -> 2 * PIE_PACKET_SIZE <= total_bytes (pie_packets q)).
Proof.
  intros Hwf. pose proof Hwf as [H1 H2 H3 H4 H5]. unfold drop_early. destruct (0 <? burst_allowance_ q).
  { exists false, q. split; [done|]. split; [by repeat split|]. by split. }
  destruct (_ && _). { exists false, q. split; [done|]. split; [by repeat split|]. by split. }
  rewrite (pie_size_Ok q H1). cbn [bind]. destruct (Z.ltb_spec (total_bytes (pie_packets q)) (2 * PIE_PACKET_SIZE)).
  { exists false, q. split; [done|]. split; [by repeat split|]. by split. }
  eexists _, _. split; [done|]. split; [by repeat split|]. split; [by split|]. lia.
Qed.

(** C30: PIE's [enqueue] and [dequeue] keep a FIFO queue: an enqueue adds the
    packet at the end or drops it, drops it whenever it does not fit the
    limits, and keeps it when it fits and the queue holds less than two packets'
    worth of bytes; a dequeue gives the packet at the head and leaves the rest.
    Neither fails, whatever the random numbers. *)
Theorem pie_fifo t q (w : W) p : pie_wf t q -> clock_from w t ->
  (room_for (pie_packets q) p ->
   exists q' w' t', pie_enqueue p q w = Ok (q', w') /\ t <= t' /\ clock_from w' t' /\ pie_wf t' q' /\
     (pie_packets q' = pie_packets q \/ pie_packets q' = pie_packets q ++ [p]) /\
     (~ fits (pie_queue q) (pie_packets q ++ [p]) -> pie_packets q' = pie_packets q) /\
     (fits (pie_queue q) (pie_packets q ++ [p]) -> total_bytes (pie_packets q) < 2 * PIE_PACKET_SIZE ->
      pie_packets q' = pie_packets q ++ [p])) /\
  (forall h l, pie_packets q = h :: l ->
   exists q' w' t', pie_dequeue q w = Ok (h, q', w') /\ t <= t' /\ clock_from w' t' /\ pie_wf t' q' /\ pie_packets q' = l).
Proof.
  intros Hwf Hw. split.
  - intros Hr. unfold pie_enqueue. destruct (calculate_drop_prob_Ok t q w Hwf Hw) as (q1 & w1 & t1 & -> & Ht1 & Hw1 & (E1 & _) & Hwf1).
    cbn [bind]. pose proof (pie_counted _ _ Hwf1) as [Hc1 Hf1]. rewrite good_with_packet_spec by (rewrite ?E1; (done || rewrite <- E1; done)).
    cbn [bind]. case_bool_decide as Hfit; cbn [negb].
    2: { exists q1, w1, t1. rewrite E1 in *. do 4 (split; [done|]). split; [by left|]. split; [done|]. intros ?. by destruct Hfit. }
    destruct (drop_early_Ok t1 q1 Hwf1) as (b & q2 & -> & (E2 & E3 & E4) & Hwf2 & Hb). cbn [bind].
    rewrite E2. rewrite E1 in *. destruct b.
    + cbn [bind]. rewrite dropping_wf_assert by apply Hwf. cbn [bind]. eexists _, w1, t1. split; [done|].
      do 2 (split; [done|]). cbn [pie_queue upd]. specialize (Hb eq_refl).
      split; [destruct Hwf2 as [A1 A2 A3 A4 A5]; split; try done; cbn; apply Hwf|]. split; [by left|]. split; [done|]. lia.
    + destruct (accept_Ok p (pie_queue q)) as (d & -> & Hcd & Hld & Ed); [done..|]. cbn [bind].
      assert (Hd : dropping_wf d) by (by eapply dropping_wf_step).
      rewrite dropping_wf_assert by exact Hd. cbn [bind]. eexists _, w1, t1. split; [done|]. do 2 (split; [done|]). cbn [pie_queue upd].
      rewrite Ed. split; [destruct Hwf2 as [A1 A2 A3 A4 A5]; by split|]. split; [by right|]. split; [by intros Hn; destruct (Hn Hfit)|done].
  - intros h l E. unfold pie_dequeue.
    destruct (dropping_dequeue_spec (pie_queue q) h l (pie_counted _ _ Hwf) E) as (d & -> & El & Hd & Hs). cbn [bind].
    destruct (timestamp_spec w t Hw) as (now & w1 & -> & Ht & Hw1). cbn [bind].
    assert (Hwf1 : pie_wf now (q <| pie_queue := d |>)) by (destruct Hwf as [A1 A2 A3 A4 A5]; split; cbn; try done; lia).
    destruct (measure_rate_Ok now (u32 now) (psize h) _ Hwf1) as (q2 & -> & (E2 & _) & Hwf2). cbn [bind].
    destruct (calculate_drop_prob_Ok now q2 w1 Hwf2 Hw1) as (q3 & w2 & t2 & -> & Ht2 & Hw2 & (E3 & _) & Hwf3). cbn [bind].
    exists q3, w2, t2. split; [done|]. split; [lia|]. split; [done|]. split; [done|]. rewrite E3, E2. exact El.
Qed.
End Spec.

(** * A queue with packets *)

Definition sample_pie : PIEPacketQueue :=
  let ps := map (fun i => QueuedPacket_make (repeat Byte.x2e 1000) "" 0 0 i 0) (seqZ 0 20) in
  {| pie_queue := {| queue_size_in_bytes_ := 20000; queue_size_in_packets_ := 20; internal_queue_ := ps;
                     packet_limit_ := 100; byte_limit_ := 0 |};
     qdelay_ref_ := 20; max_burst_ := 100; drop_prob_ := double_of_ratio 1 2; burst_allowance_ := 0; qdelay_old_ := 40;
     current_qdelay_ := 50; dq_count_ := 16000; dq_tstamp_ := 1000; avg_dq_rate_ := 100;
     uniform := fun _ => double_of_ratio 9 10; draws := 0; last_update_ := 1000 |}.

Definition pie_clock : World :=
  {| clock_gettime := fun n => Some {| tv_sec := 1; tv_nsec := 100 * 1000000 |}; calls := 0; initial_value := Some 0 |}.

Lemma pie_clock_from : clock_from pie_clock 1100.
Proof.
  split.
  - intros n _. exists {| tv_sec := 1; tv_nsec := 100 * 1000000 |}. split; [done|]. split; [by vm_compute|].
    intros m b _ [= <-]. by right.
  - exists 0. split; [done|]. split; [done|]. intros a [= <-]. by vm_compute.
Qed.

Lemma sample_pie_wf now : 1000 <= now < time_limit -> pie_wf now sample_pie.
Proof. intros H. split; cbn; try lia. by_computation. Qed.

Lemma pie_catch_up_witness :
  exists q', catch_up 1100 sample_pie = Ok q' /\ periods (periods_due 1100 sample_pie) sample_pie = Ok q' /\
    last_update_ q' = last_update_ sample_pie + t_update_ * Z.of_nat (periods_due 1100 sample_pie) /\
    last_update_ q' <= 1100 <= last_update_ q' + t_update_ /\ same_queue sample_pie q' /\
    catch_up 2000 q' = catch_up 2000 sample_pie.
Proof. apply (pie_catch_up 1100 2000 sample_pie); [apply sample_pie_wf|]; unfold time_limit; lia. Defined.

Lemma pie_fifo_witness :
  let p := QueuedPacket_make (repeat Byte.x2e 500) "" 0 0 20 0 in
  (room_for (pie_packets sample_pie) p ->
   exists q' w' t', pie_enqueue p sample_pie pie_clock = Ok (q', w') /\ 1100 <= t' /\ clock_from w' t' /\ pie_wf t' q' /\
     (pie_packets q' = pie_packets sample_pie \/ pie_packets q' = pie_packets sample_pie ++ [p]) /\
     (~ fits (pie_queue sample_pie) (pie_packets sample_pie ++ [p]) -> pie_packets q' = pie_packets sample_pie) /\
     (fits (pie_queue sample_pie) (pie_packets sample_pie ++ [p]) -> total_bytes (pie_packets sample_pie) < 2 * PIE_PACKET_SIZE ->
      pie_packets q' = pie_packets sample_pie ++ [p])) /\
  (forall h l, pie_packets sample_pie = h :: l ->
   exists q' w' t', pie_dequeue sample_pie pie_clock = Ok (h, q', w') /\ 1100 <= t' /\ clock_from w' t' /\ pie_wf t' q' /\
     pie_packets q' = l).
Proof.
  intros p. apply (pie_fifo 1100 sample_pie pie_clock p); [apply sample_pie_wf; unfold time_limit; lia|exact pie_clock_from].
Defined.

(** The dequeue that passes the threshold measures the rate, and three periods
    are caught up with. *)
Example sample_pie_dequeues :
  match pie_dequeue sample_pie pie_clock with
  | Ok (p, q, _) => (sequence_number p, len (pie_packets q), avg_dq_rate_ q, dq_count_ q, last_update_ q, current_qdelay_ q)
  | Err _ => (0, 0, 0, 0, 0, 0)
  end = (0, 19, 109, 0, 1090, 174).
Proof. vm_compute. reflexivity. Qed.
