(* ===== verification/LinkQueue.v ===== *)
(** The link of [CellularQueue]: the heavy delivery-opportunity schedule that
    drains the packet queue (src/frontend/cellular_queue.cc,
    [next_delivery_time], [use_a_delivery_opportunity], [rationalize] and
    [wait_time_link_queue]).

    The link's members are the record [Link]; the packet queue is any
    implementation of [AbstractPacketQueue].  The abstract view is that of a
    work-conserving server: [opportunity_time] is the time of the j-th
    opportunity to come, [backlog] the bytes that wait, and each opportunity
    that is due takes at most 1400 of them. *)
From S2P Require Import Prelude Timestamp Packets PacketQueue.

(** [CellularQueue::PACKET_SIZE] *)
Definition PACKET_SIZE : Z := 1400.

(** * State *)

Record Link (Q : Type) := {
  next_delivery_ : Z;
  heavy_pdo_schedule_ : list Z;
  link_base_timestamp_ : Z;
  packet_queue_ : Q;
  packet_in_transit_ : QueuedPacket;
  packet_in_transit_bytes_left_ : Z;
  output_queue_ : list QueuedPacket;
  current_link_queue_size_ : Z;
  repeat_ : bool;
  finished_ : bool;
}.
Arguments Build_Link {Q}.
Arguments next_delivery_ {Q}.
Arguments heavy_pdo_schedule_ {Q}.
Arguments link_base_timestamp_ {Q}.
Arguments packet_queue_ {Q}.
Arguments packet_in_transit_ {Q}.
Arguments packet_in_transit_bytes_left_ {Q}.
Arguments output_queue_ {Q}.
Arguments current_link_queue_size_ {Q}.
Arguments repeat_ {Q}.
Arguments finished_ {Q}.

#[export] Instance eta_Link Q : Eta (Link Q) := fun l =>
  {| next_delivery_ := next_delivery_ l; heavy_pdo_schedule_ := heavy_pdo_schedule_ l;
     link_base_timestamp_ := link_base_timestamp_ l; packet_queue_ := packet_queue_ l;
     packet_in_transit_ := packet_in_transit_ l;
     packet_in_transit_bytes_left_ := packet_in_transit_bytes_left_ l;
     output_queue_ := output_queue_ l; current_link_queue_size_ := current_link_queue_size_ l;
     repeat_ := repeat_ l; finished_ := finished_ l |}.

(** * Operations *)

Section Operations.
Context {W Q : Type} {apq : AbstractPacketQueue W Q}.

Definition next_delivery_time (l : Link Q) : outcome Z :=
  if finished_ l then Ok (u64 (-1))
  else
    let* t := vec_at (heavy_pdo_schedule_ l) (next_delivery_ l) in
    Ok (u64 (t + link_base_timestamp_ l)).

Definition use_a_delivery_opportunity (l : Link Q) : outcome (Link Q) :=
  let n := len (heavy_pdo_schedule_ l) in
  if n =? 0 then Err (UndefinedBehaviour "modulo by zero")
  else
    let l := l <| next_delivery_ := u32 (next_delivery_ l + 1) mod n |> in
    (* wraparound *)
    if next_delivery_ l =? 0 then
      if repeat_ l then
        let* b := back (heavy_pdo_schedule_ l) in
        Ok (l <| link_base_timestamp_ := u64 (link_base_timestamp_ l + b) |>)
      else Ok (l <| finished_ := true |>)
    else Ok l.

(** Take the next packet when none is in transit; [None] when there is none
    to take. *)
Definition load_packet_in_transit (l : Link Q) (w : W) : outcome (option (Link Q * W)) :=
  if packet_in_transit_bytes_left_ l =? 0 then
    if empty W (packet_queue_ l) then Ok None
    else
      let* (p, q, w) := dequeue (packet_queue_ l) w in
      Ok (Some (l <| packet_queue_ := q |> <| packet_in_transit_ := p |>
                  <| packet_in_transit_bytes_left_ := u32 (psize p) |>, w))
  else Ok (Some (l, w)).

(** Send that many bytes; a packet that has been fully sent is ready to go. *)
Definition send_bytes (amount_to_send : Z) (l : Link Q) : Link Q :=
  let l := l <| packet_in_transit_bytes_left_ := u32 (packet_in_transit_bytes_left_ l - amount_to_send) |> in
  if packet_in_transit_bytes_left_ l =? 0
  then l <| output_queue_ := output_queue_ l ++ [packet_in_transit_ l] |> else l.

(** The loop [while ( bytes_left_in_this_delivery > 0 )]. *)
Fixpoint use_opportunity (fuel : nat) (this_delivery_time bytes_left : Z) (l : Link Q) (w : W) :
    outcome (Link Q * W) :=
  if negb (0 <? bytes_left) then Ok (l, w) else
  match fuel with
  | O => Err Diverges
  | S fuel =>
      let* loaded := load_packet_in_transit l w in
      match loaded with
      | None => Ok (l, w)
      | Some (l, w) =>
          guard* arrival_time (packet_in_transit_ l) <=? this_delivery_time
            else AssertFail "packet_in_transit_.arrival_time <= this_delivery_time" in
          guard* packet_in_transit_bytes_left_ l <=? PACKET_SIZE
            else AssertFail "packet_in_transit_bytes_left_ <= PACKET_SIZE" in
          guard* 0 <? packet_in_transit_bytes_left_ l
            else AssertFail "packet_in_transit_bytes_left_ > 0" in
          guard* packet_in_transit_bytes_left_ l <=? psize (packet_in_transit_ l)
            else AssertFail "packet_in_transit_bytes_left_ <= packet_in_transit_.contents.size()" in
          (* how many bytes of the delivery opportunity can we use? *)
          let amount_to_send := Z.min bytes_left (packet_in_transit_bytes_left_ l) in
          let l := send_bytes amount_to_send l in
          let bytes_left := u32 (bytes_left - amount_to_send) in
          use_opportunity fuel this_delivery_time bytes_left l w
      end
  end.

Definition opportunity_fuel : nat := Z.to_nat PACKET_SIZE.

Fixpoint rationalize_loop (fuel : nat) (now : Z) (l : Link Q) (w : W) : outcome (Link Q * W) :=
  let* this_delivery_time := next_delivery_time l in
  if negb (this_delivery_time <=? now) then Ok (l, w) else
  match fuel with
  | O => Err Diverges
  | S fuel =>
      (* burn a delivery opportunity *)
      let* l := use_a_delivery_opportunity l in
      let* (l, w) := use_opportunity opportunity_fuel this_delivery_time PACKET_SIZE l w in
      rationalize_loop fuel now l w
  end.

(** One pass over the schedule advances the base by at least a millisecond. *)
Definition rationalize_fuel (now : Z) (l : Link Q) : nat :=
  Z.to_nat (len (heavy_pdo_schedule_ l) * (now - link_base_timestamp_ l + 1)).

Definition rationalize (now : Z) (l : Link Q) (w : W) : outcome (Link Q * W) :=
  rationalize_loop (rationalize_fuel now l) now l w.

Definition put_packet_to_link_queue (now : Z) (packet : DelayQueuePacket) (l : Link Q) (w : W) :
    outcome (Link Q * W) :=
  if PACKET_SIZE <? d_psize packet then Err (Throw "packet size is greater than maximum")
  else
    let* (l, w) := rationalize now l w in
    let* (q, w) := enqueue (QueuedPacket_make (d_contents packet) (d_ip_port_info packet)
                              (d_arrival_time packet) now (d_sequence_number packet) (d_release_time packet))
                     (packet_queue_ l) w in
    Ok (l <| packet_queue_ := q |> <| current_link_queue_size_ := u32 (current_link_queue_size_ l + 1) |>, w).

(** The difference is computed in 64 bits and stored in an [int]. *)
Definition wait_time_link_queue {clk : Clock W} (l : Link Q) (w : W) : outcome (Z * Link Q * W) :=
  let* (now, w) := timestamp w in
  let* (l, w) := rationalize now l w in
  let* t := next_delivery_time l in
  let wait_time := i32 (u64 (t - now)) in
  let wait_time := if wait_time <? 0 then 0 else wait_time in
  Ok (u32 wait_time, l, w).

End Operations.

(** * The abstract link *)

Section Abstract.
Context {W Q : Type} {apq : AbstractPacketQueue W Q} {fpq : FifoPacketQueue W Q}.
Implicit Types l : Link Q.

(** The time of the j-th opportunity still to come, counting from 0. *)
Definition opportunity_time l (j : Z) : Z :=
  let s := heavy_pdo_schedule_ l in
  link_base_timestamp_ l + last_or_0 s * ((next_delivery_ l + j) / len s)
  + nth_or_0 s ((next_delivery_ l + j) mod len s).

(** A schedule that is played once has no opportunity after its last. *)
Definition available l (j : Z) : Prop :=
  finished_ l = false /\ (repeat_ l = true \/ next_delivery_ l + j < len (heavy_pdo_schedule_ l)).

Definition due l (now j : Z) : Prop := available l j /\ opportunity_time l j <= now.

Definition in_transit l : list QueuedPacket :=
  if packet_in_transit_bytes_left_ l =? 0 then [] else [packet_in_transit_ l].

(** Packets the link has not sent, and all it holds, in order. *)
Definition unsent l : list QueuedPacket := in_transit l ++ packets (packet_queue_ l).
Definition link_packets l : list QueuedPacket := output_queue_ l ++ unsent l.

(** Bytes that wait to be sent. *)
Definition backlog l : Z := packet_in_transit_bytes_left_ l + total_bytes (packets (packet_queue_ l)).

Definition schedule_wf (s : list Z) : Prop :=
  s <> [] /\ Forall (fun t => 0 <= t < time_limit) s /\ nondecreasing s = true /\
  0 < last_or_0 s /\ len s < 2 ^ 32.

#[export] Instance schedule_wf_dec s : Decision (schedule_wf s).
Proof. unfold schedule_wf. apply _. Defined.

Definition packet_ok (p : QueuedPacket) : Prop := 0 < psize p <= PACKET_SIZE.

(** The packet queue and the packet in transit. *)
Definition transit_wf l : Prop :=
  queue_wf (packet_queue_ l) /\ Forall packet_ok (packets (packet_queue_ l)) /\
  0 <= packet_in_transit_bytes_left_ l <= PACKET_SIZE /\
  packet_in_transit_bytes_left_ l <= psize (packet_in_transit_ l).

Definition position_wf l : Prop :=
  schedule_wf (heavy_pdo_schedule_ l) /\
  0 <= next_delivery_ l < len (heavy_pdo_schedule_ l) /\
  0 <= link_base_timestamp_ l < time_limit.

(** No packet arrived after the next opportunity. *)
Definition arrivals_before l (t : Z) : Prop := Forall (fun p => arrival_time p <= t) (unsent l).

Definition link_wf l : Prop :=
  position_wf l /\ transit_wf l /\ (finished_ l = false -> arrivals_before l (opportunity_time l 0)).

(** What the loops leave alone. *)
Definition same_position l l' : Prop :=
  next_delivery_ l' = next_delivery_ l /\ heavy_pdo_schedule_ l' = heavy_pdo_schedule_ l /\
  link_base_timestamp_ l' = link_base_timestamp_ l /\ repeat_ l' = repeat_ l /\ finished_ l' = finished_ l.

(** ** The opportunities *)

Lemma schedule_len_pos s : schedule_wf s -> 0 < len s.
Proof. intros (H & _). pose proof (len_nonneg s). assert (len s <> 0) by by rewrite len_zero_iff. lia. Qed.

Lemma schedule_last_bound s : schedule_wf s -> 0 < last_or_0 s < time_limit.
Proof.
  intros Hs. pose proof (schedule_len_pos s Hs) as Hl. destruct Hs as (Hn & Hf & _ & Hp & _).
  split; [done|]. rewrite <- nth_or_0_last by done.
  apply (nth_or_0_Forall (fun t => t < time_limit)); [|lia].
  eapply Forall_impl; [exact Hf|]. simpl. lia.
Qed.

Lemma opportunity_time_0 l : position_wf l ->
  opportunity_time l 0 = link_base_timestamp_ l + nth_or_0 (heavy_pdo_schedule_ l) (next_delivery_ l).
Proof.
  intros (Hs & Hn & _). unfold opportunity_time. rewrite Z.add_0_r, Z.div_small, Z.mod_small by done. lia.
Qed.

Lemma next_delivery_time_Ok l : position_wf l ->
  next_delivery_time l = Ok (if finished_ l then 2 ^ 64 - 1 else opportunity_time l 0).
Proof.
  intros Hp. unfold next_delivery_time. destruct (finished_ l); [done|].
  pose proof Hp as (Hs & Hn & Hb).
  assert (E : vec_at (heavy_pdo_schedule_ l) (next_delivery_ l)
              = Ok (nth_or_0 (heavy_pdo_schedule_ l) (next_delivery_ l)))
    by (apply vec_at_Ok, znth_nth_or_0; done).
  rewrite E. cbn [bind]. rewrite opportunity_time_0 by done.
  destruct Hs as (_ & Hf & _). pose proof (nth_or_0_Forall _ _ _ Hf Hn) as Ht. simpl in Ht.
  unfold time_limit in *. rewrite u64_small by lia. f_equal. lia.
Qed.

Lemma opportunity_time_mono l : position_wf l -> opportunity_time l 0 <= opportunity_time l 1.
Proof.
  intros (Hs & Hn & _). pose proof (schedule_last_bound _ Hs) as [Hl _].
  assert (H0 : Forall (fun t => 0 <= t) (heavy_pdo_schedule_ l)).
  { destruct Hs as (_ & Hf & _). eapply Forall_impl; [exact Hf|]. simpl. lia. }
  pose proof Hs as (Hne & _ & Hm & _). unfold opportunity_time.
  set (s := heavy_pdo_schedule_ l) in *. rewrite Z.add_0_r, (Z.div_small (next_delivery_ l)), (Z.mod_small (next_delivery_ l)) by done.
  destruct (decide (next_delivery_ l + 1 < len s)) as [H|H].
  - rewrite Z.div_small, Z.mod_small by lia.
    pose proof (nth_or_0_mono s (next_delivery_ l) (next_delivery_ l + 1) Hm). lia.
  - replace (next_delivery_ l + 1) with (len s) by lia. rewrite Z.div_same, Z.mod_same by lia.
    replace (next_delivery_ l) with (len s - 1) by lia. rewrite nth_or_0_last by done.
    pose proof (nth_or_0_Forall (fun t => 0 <= t) s 0 H0 ltac:(lia)). simpl in *. lia.
Qed.

(** One step of the schedule. *)
Lemma use_a_delivery_opportunity_spec l :
  position_wf l -> finished_ l = false -> opportunity_time l 0 < time_limit ->
  exists l', use_a_delivery_opportunity l = Ok l' /\ position_wf l' /\
    l' = l <| next_delivery_ := (next_delivery_ l + 1) mod len (heavy_pdo_schedule_ l) |>
           <| link_base_timestamp_ := link_base_timestamp_ l' |> <| finished_ := finished_ l' |> /\
    link_base_timestamp_ l' = link_base_timestamp_ l +
      (if repeat_ l then last_or_0 (heavy_pdo_schedule_ l) * ((next_delivery_ l + 1) / len (heavy_pdo_schedule_ l)) else 0) /\
    finished_ l' = negb (repeat_ l) && (len (heavy_pdo_schedule_ l) <=? next_delivery_ l + 1).
Proof.
  intros Hp Hf Ht. pose proof Hp as (Hs & Hn & Hb). rewrite opportunity_time_0 in Ht by done.
  pose proof (schedule_last_bound _ Hs) as Hl. pose proof Hs as (Hne & _ & _ & _ & Hlen).
  unfold use_a_delivery_opportunity. set (s := heavy_pdo_schedule_ l) in *.
  assert (0 < len s) by lia. destruct (Z.eqb_spec (len s) 0); [lia|].
  rewrite u32_small by lia. cbn [next_delivery_ upd repeat_].
  destruct (decide (next_delivery_ l + 1 = len s)) as [E|E].
  - assert (Hnd : next_delivery_ l = len s - 1) by lia.
    rewrite Hnd, nth_or_0_last in Ht by done. rewrite E, Z.mod_same, Z.div_same by lia. cbn [Z.eqb].
    destruct (Z.leb_spec (len s) (len s)); [|lia]. destruct (repeat_ l) eqn:Er.
    + cbn [heavy_pdo_schedule_ upd]. fold s. rewrite back_Ok by done. cbn [bind].
      rewrite u64_small by (cbn; unfold time_limit in *; lia).
      eexists. split; [done|]. split; [|split; [|split]]; cbn; [|by rewrite ?Hf|lia|done].
      unfold position_wf. cbn. fold s. split; [done|]. lia.
    + eexists. split; [done|]. split; [|split; [|split]]; cbn; [|done|lia|done].
      unfold position_wf. cbn. fold s. split; [done|]. lia.
  - rewrite Z.mod_small, Z.div_small by lia. destruct (Z.eqb_spec (next_delivery_ l + 1) 0); [lia|].
    eexists. split; [done|]. split; [|split; [|split]]; cbn; [|by rewrite ?Hf|by destruct (repeat_ l); lia|].
    + unfold position_wf. cbn. fold s. split; [done|]. lia.
    + rewrite Hf. destruct (Z.leb_spec (len s) (next_delivery_ l + 1)); [lia|]. by destruct (repeat_ l).
Qed.

(** ** One opportunity *)

Definition same_frame l l' : Prop :=
  same_position l l' /\ current_link_queue_size_ l' = current_link_queue_size_ l.

(** Sending moves packets from the unsent ones to the output, in order. *)
Definition sends l l' : Prop :=
  exists o, output_queue_ l' = output_queue_ l ++ o /\ unsent l = o ++ unsent l'.

Lemma sends_refl l : sends l l.
Proof. exists []. by rewrite app_nil_r. Qed.

Lemma sends_trans l l' l'' : sends l l' -> sends l' l'' -> sends l l''.
Proof.
  intros (o & H1 & H2) (o' & H3 & H4). exists (o ++ o'). by rewrite H3, H1, H2, H4, !(assoc_L (++)).
Qed.

Lemma sends_packets l l' : sends l l' -> link_packets l' = link_packets l.
Proof. intros (o & H1 & H2). unfold link_packets. by rewrite H1, H2, (assoc_L (++)). Qed.

Lemma sends_arrivals l l' t : sends l l' -> arrivals_before l t -> arrivals_before l' t.
Proof. intros (o & _ & H2). unfold arrivals_before. rewrite H2. by intros [_ H]%Forall_app. Qed.

Lemma same_frame_trans l l' l'' : same_frame l l' -> same_frame l' l'' -> same_frame l l''.
Proof. unfold same_frame, same_position. intuition congruence. Qed.

(** What one step of sending keeps. *)
Definition send_step (sent : Z) l l' : Prop :=
  same_frame l l' /\ transit_wf l' /\ sends l l' /\ backlog l' = backlog l - sent.

Lemma load_packet_in_transit_spec l w : transit_wf l ->
  (unsent l = [] /\ load_packet_in_transit l w = Ok None) \/
  exists l', load_packet_in_transit l w = Ok (Some (l', w)) /\ send_step 0 l l' /\
    0 < packet_in_transit_bytes_left_ l'.
Proof.
  intros (Hq & Hok & Hb & Hp). unfold load_packet_in_transit, unsent, in_transit.
  destruct (Z.eqb_spec (packet_in_transit_bytes_left_ l) 0) as [E|E].
  - simpl. destruct (empty W (packet_queue_ l)) eqn:Ee.
    + left. split; [|done]. by apply empty_spec in Ee.
    + right. destruct (packets (packet_queue_ l)) as [|p k] eqn:Ek; [apply empty_spec in Ek; congruence|].
      destruct (dequeue_spec (packet_queue_ l) w p k Hq Ek) as (q' & -> & Hk & Hq'). cbn [bind].
      apply Forall_cons in Hok as [Hokp Hok]. unfold packet_ok, PACKET_SIZE in Hokp.
      eexists. split; [done|]. rewrite u32_small by lia. split; [|cbn; lia].
      split; [done|]. split; [|split].
      * unfold transit_wf. cbn. rewrite Hk. unfold PACKET_SIZE. split; [done|]. split; [done|]. lia.
      * exists []. cbn. rewrite app_nil_r. split; [done|]. unfold unsent, in_transit. cbn.
        rewrite E, Ek, Hk. cbn. by destruct (Z.eqb_spec (psize p) 0); [lia|].
      * unfold backlog. cbn. rewrite Hk, Ek, total_bytes_cons. lia.
  - right. exists l. split; [done|]. split; [|lia]. split; [done|]. split; [done|].
    split; [apply sends_refl|lia].
Qed.

Lemma send_bytes_spec a l : transit_wf l -> 0 < a <= packet_in_transit_bytes_left_ l ->
  send_step a l (send_bytes a l).
Proof.
  intros (Hq & Hok & Hb & Hp) Ha. unfold PACKET_SIZE in *. unfold send_bytes.
  rewrite u32_small by lia. cbn [packet_in_transit_bytes_left_ upd].
  destruct (Z.eqb_spec (packet_in_transit_bytes_left_ l - a) 0) as [E|E].
  - split; [done|]. split; [|split].
    + unfold transit_wf, PACKET_SIZE. cbn. split; [done|]. split; [done|]. lia.
    + exists [packet_in_transit_ l]. split; [done|]. unfold unsent, in_transit. cbn. rewrite E. cbn.
      by destruct (Z.eqb_spec (packet_in_transit_bytes_left_ l) 0); [lia|].
    + unfold backlog. cbn. lia.
  - split; [done|]. split; [|split].
    + unfold transit_wf, PACKET_SIZE. cbn. split; [done|]. split; [done|]. lia.
    + exists []. rewrite app_nil_r. split; [done|]. unfold unsent, in_transit. cbn.
      destruct (Z.eqb_spec (packet_in_transit_bytes_left_ l - a) 0); [done|].
      destruct (Z.eqb_spec (packet_in_transit_bytes_left_ l) 0); [lia|done].
    + unfold backlog. cbn. lia.
Qed.

Lemma send_step_trans a b l l' l'' : send_step a l l' -> send_step b l' l'' -> send_step (a + b) l l''.
Proof.
  intros (Hf & Ht & Hs & Hb) (Hf' & Ht' & Hs' & Hb'). split; [by eapply same_frame_trans|].
  split; [done|]. split; [by eapply sends_trans|lia].
Qed.

Lemma unsent_nil_backlog l : transit_wf l -> unsent l = [] -> backlog l = 0.
Proof.
  intros (_ & _ & Hb & _) H. unfold unsent, in_transit, backlog in *.
  destruct (Z.eqb_spec (packet_in_transit_bytes_left_ l) 0) as [E|E]; [|done].
  simpl in H. rewrite H, E. done.
Qed.

Lemma backlog_lower l : transit_wf l -> packet_in_transit_bytes_left_ l <= backlog l.
Proof. intros _. unfold backlog. pose proof (total_bytes_nonneg (packets (packet_queue_ l))). lia. Qed.

(** An opportunity of [b] bytes sends [b] bytes, or all there is. *)
Lemma use_opportunity_spec fuel t b l w :
  transit_wf l -> arrivals_before l t -> 0 <= b <= PACKET_SIZE -> (Z.to_nat b <= fuel)%nat ->
  exists l', use_opportunity fuel t b l w = Ok (l', w) /\ send_step (Z.min b (backlog l)) l l'.
Proof.
  revert b l. induction fuel as [|fuel IH]; intros b l Hwf Harr Hb Hfuel; cbn [use_opportunity].
  - destruct (Z.ltb_spec 0 b); [lia|]. exists l. split; [done|].
    pose proof Hwf as (_ & _ & H1 & _). pose proof (backlog_lower l Hwf).
    replace (Z.min b (backlog l)) with 0 by lia.
    split; [done|]. split; [done|]. split; [apply sends_refl|lia].
  - destruct (Z.ltb_spec 0 b) as [Hb0|Hb0]; cbn [negb].
    2: { exists l. split; [done|]. pose proof Hwf as (_ & _ & H1 & _). pose proof (backlog_lower l Hwf).
         replace (Z.min b (backlog l)) with 0 by lia.
         split; [done|]. split; [done|]. split; [apply sends_refl|lia]. }
    destruct (load_packet_in_transit_spec l w Hwf) as [[Hu ->]|(l1 & -> & Hs1 & Hpos)]; cbn [bind].
    { exists l. split; [done|]. pose proof (unsent_nil_backlog l Hwf Hu) as E. rewrite E, Z.min_r by lia.
      split; [done|]. split; [done|]. split; [apply sends_refl|lia]. }
    pose proof Hs1 as (_ & Hwf1 & Hsd1 & Hbl1). pose proof Hwf1 as (Hq1 & Hok1 & Hb1 & Hp1).
    pose proof (sends_arrivals _ _ _ Hsd1 Harr) as Harr1.
    assert (Hat : arrival_time (packet_in_transit_ l1) <= t).
    { unfold arrivals_before, unsent, in_transit in Harr1.
      destruct (Z.eqb_spec (packet_in_transit_bytes_left_ l1) 0); [lia|]. by apply Forall_cons in Harr1 as [? _]. }
    destruct (Z.leb_spec (arrival_time (packet_in_transit_ l1)) t); [|lia].
    destruct (Z.leb_spec (packet_in_transit_bytes_left_ l1) PACKET_SIZE); [|lia].
    destruct (Z.ltb_spec 0 (packet_in_transit_bytes_left_ l1)); [|lia].
    destruct (Z.leb_spec (packet_in_transit_bytes_left_ l1) (psize (packet_in_transit_ l1))); [|lia].
    set (a := Z.min b (packet_in_transit_bytes_left_ l1)). cbv zeta.
    pose proof (send_bytes_spec a l1 Hwf1 ltac:(lia)) as Hs2.
    pose proof (send_step_trans _ _ _ _ _ Hs1 Hs2) as Hs12. pose proof Hs12 as (_ & Hwf2 & Hsd2 & Hbl2).
    unfold PACKET_SIZE in *. rewrite u32_small by lia.
    destruct (IH (b - a) (send_bytes a l1)) as (l' & -> & Hs3); [done|by eapply sends_arrivals|lia|lia|].
    exists l'. split; [done|]. pose proof (send_step_trans _ _ _ _ _ Hs12 Hs3) as Hs123.
    pose proof (backlog_lower l1 Hwf1).
    replace (Z.min b (backlog l)) with (0 + a + Z.min (b - a) (backlog (send_bytes a l1))) by lia. done.
Qed.

(** ** The whole loop *)

(** What [rationalize now] makes of a link when [k] opportunities are due. *)
Record rationalized (now k : Z) l l' : Prop := {
  rz_wf : link_wf l';
  rz_sends : sends l l';
  rz_backlog : backlog l' = Z.max 0 (backlog l - PACKET_SIZE * k);
  rz_next : next_delivery_ l' = (next_delivery_ l + k) mod len (heavy_pdo_schedule_ l);
  rz_base : link_base_timestamp_ l' = link_base_timestamp_ l +
    (if repeat_ l then last_or_0 (heavy_pdo_schedule_ l) * ((next_delivery_ l + k) / len (heavy_pdo_schedule_ l)) else 0);
  rz_finished : finished_ l' = finished_ l || (negb (repeat_ l) && (len (heavy_pdo_schedule_ l) <=? next_delivery_ l + k));
  rz_same : heavy_pdo_schedule_ l' = heavy_pdo_schedule_ l /\ repeat_ l' = repeat_ l /\
    current_link_queue_size_ l' = current_link_queue_size_ l;
  rz_count : 0 <= k;
  rz_due j : 0 <= j < k -> due l now j;
  rz_stop : ~ due l now k;
  rz_idle : ~ due l' now 0;
}.

(** The link after one opportunity sees the same opportunities, one earlier. *)
Definition stepped l l1 : Prop :=
  next_delivery_ l1 = (next_delivery_ l + 1) mod len (heavy_pdo_schedule_ l) /\
  link_base_timestamp_ l1 = link_base_timestamp_ l +
    (if repeat_ l then last_or_0 (heavy_pdo_schedule_ l) * ((next_delivery_ l + 1) / len (heavy_pdo_schedule_ l)) else 0) /\
  finished_ l1 = negb (repeat_ l) && (len (heavy_pdo_schedule_ l) <=? next_delivery_ l + 1) /\
  heavy_pdo_schedule_ l1 = heavy_pdo_schedule_ l /\ repeat_ l1 = repeat_ l.

Lemma wrap_or_not l : position_wf l ->
  (next_delivery_ l + 1 < len (heavy_pdo_schedule_ l) /\
   (next_delivery_ l + 1) mod len (heavy_pdo_schedule_ l) = next_delivery_ l + 1 /\
   (next_delivery_ l + 1) / len (heavy_pdo_schedule_ l) = 0) \/
  (next_delivery_ l + 1 = len (heavy_pdo_schedule_ l) /\
   (next_delivery_ l + 1) mod len (heavy_pdo_schedule_ l) = 0 /\
   (next_delivery_ l + 1) / len (heavy_pdo_schedule_ l) = 1).
Proof.
  intros (Hs & Hn & _). destruct (decide (next_delivery_ l + 1 < len (heavy_pdo_schedule_ l))).
  - left. rewrite Z.mod_small, Z.div_small by lia. lia.
  - right. replace (next_delivery_ l + 1) with (len (heavy_pdo_schedule_ l)) by lia.
    rewrite Z.mod_same, Z.div_same by lia. lia.
Qed.

Lemma stepped_position l l1 k : position_wf l -> stepped l l1 ->
  let L := len (heavy_pdo_schedule_ l) in
  (next_delivery_ l1 + k) mod L = (next_delivery_ l + (1 + k)) mod L /\
  (repeat_ l = true -> (next_delivery_ l + 1) / L + (next_delivery_ l1 + k) / L = (next_delivery_ l + (1 + k)) / L) /\
  (finished_ l1 = false -> next_delivery_ l1 = next_delivery_ l + 1 \/ repeat_ l = true).
Proof.
  intros Hp (H1 & H2 & H3 & H4 & H5) L. pose proof (schedule_len_pos _ (proj1 Hp)).
  rewrite H1, H3. fold L.
  destruct (wrap_or_not l Hp) as [(Hw & Em & Ed)|(Hw & Em & Ed)]; fold L in Hw, Em, Ed; rewrite Em, Ed.
  - replace (next_delivery_ l + 1 + k) with (next_delivery_ l + (1 + k)) by lia. split; [done|].
    split; [lia|]. by left.
  - replace (next_delivery_ l + (1 + k)) with (k + 1 * L) by lia.
    rewrite Z.mod_add, Z.div_add by lia. split; [f_equal; lia|]. split; [intros _; rewrite Z.add_0_l; lia|].
    destruct (repeat_ l); [by right|]. destruct (Z.leb_spec L (next_delivery_ l + 1)); [done|lia].
Qed.

Lemma stepped_due l l1 now j : position_wf l -> finished_ l = false -> stepped l l1 -> 0 <= j ->
  due l1 now j <-> due l now (1 + j).
Proof.
  intros Hp Hf Hst Hj. pose proof (stepped_position l l1 j Hp Hst) as (Hm & Hd & Hfin).
  destruct Hst as (H1 & H2 & H3 & H4 & H5). unfold due, available, opportunity_time.
  rewrite H4, Hm, H5, Hf.
  destruct (wrap_or_not l Hp) as [(Hw & Em & Ed)|(Hw & Em & Ed)]; rewrite Em in H1; rewrite Ed in *.
  - rewrite H3, H2, H1. destruct (Z.leb_spec (len (heavy_pdo_schedule_ l)) (next_delivery_ l + 1)); [lia|].
    replace (next_delivery_ l + 1 + j) with (next_delivery_ l + (1 + j)) by lia.
    destruct (repeat_ l); simpl; rewrite ?Z.mul_0_r, ?Z.add_0_r; intuition lia.
  - rewrite H3, H2. destruct (Z.leb_spec (len (heavy_pdo_schedule_ l)) (next_delivery_ l + 1)); [|lia].
    destruct (repeat_ l); simpl.
    + rewrite <- Hd by done. split; intros [_ ?]; (split; [split; [done|by left]|lia]).
    + split; intros [[? [?|?]] ?]; (done || lia).
Qed.

Lemma rationalized_refl now l : link_wf l -> ~ due l now 0 -> rationalized now 0 l l.
Proof.
  intros Hwf Hd. pose proof Hwf as ((Hs & Hn & Hb) & (_ & _ & Hbl & _) & _).
  pose proof (backlog_lower l (proj1 (proj2 Hwf))).
  split; rewrite ?Z.add_0_r; [done|apply sends_refl|lia| | | |done|done|lia|done|done].
  - by rewrite Z.mod_small.
  - destruct (repeat_ l); [|lia]. rewrite Z.div_small by done. lia.
  - destruct (Z.leb_spec (len (heavy_pdo_schedule_ l)) (next_delivery_ l)); [lia|].
    by rewrite andb_false_r, orb_false_r.
Qed.

Lemma rationalized_step now k l l1 l' :
  link_wf l -> finished_ l = false -> due l now 0 -> stepped l l1 ->
  sends l l1 -> backlog l1 = backlog l - Z.min PACKET_SIZE (backlog l) -> current_link_queue_size_ l1 = current_link_queue_size_ l ->
  rationalized now k l1 l' -> rationalized now (1 + k) l l'.
Proof.
  intros Hwf Hf Hdue Hst Hsd Hbl Hcur Hr. pose proof Hwf as (Hp & Htw & _).
  pose proof (stepped_position l l1 k Hp Hst) as (Hm & Hd & Hfin).
  pose proof (fun j => stepped_due l l1 now j Hp Hf Hst) as Hdues.
  destruct Hst as (H1 & H2 & H3 & H4 & H5). destruct Hr as [R1 R2 R3 R4 R5 R6 (R7 & R8 & R9) R10 R11 R12 R13].
  rewrite H4 in *. rewrite H5 in *.
  split.
  - done.
  - by eapply sends_trans.
  - rewrite R3, Hbl. unfold PACKET_SIZE. lia.
  - by rewrite R4, Hm.
  - rewrite R5, H2. destruct (repeat_ l); [|lia]. rewrite <- Hd by done. lia.
  - rewrite R6, H3, Hf. rewrite orb_false_l. destruct (repeat_ l); [done|]. simpl.
    destruct (wrap_or_not l Hp) as [(Hw & Em & Ed)|(Hw & Em & Ed)]; rewrite H1, Em.
    + destruct (Z.leb_spec (len (heavy_pdo_schedule_ l)) (next_delivery_ l + 1)); [lia|]. simpl. f_equal. lia.
    + destruct (Z.leb_spec (len (heavy_pdo_schedule_ l)) (next_delivery_ l + 1)); [|lia]. simpl.
      symmetry. apply Z.leb_le. lia.
  - split; [congruence|]. split; [congruence|congruence].
  - lia.
  - intros j Hj. destruct (decide (j = 0)) as [->|]; [done|].
    replace j with (1 + (j - 1)) by lia. apply Hdues; [lia|]. apply R11. lia.
  - intros Hd'. apply R12. by apply Hdues.
  - done.
Qed.

Lemma due_0 l now : position_wf l -> due l now 0 <-> finished_ l = false /\ opportunity_time l 0 <= now.
Proof. intros (_ & Hn & _). unfold due, available. rewrite Z.add_0_r. intuition lia. Qed.

Lemma same_position_opportunity l l' j : same_position l l' -> opportunity_time l' j = opportunity_time l j.
Proof. unfold same_position, opportunity_time. by intros (-> & -> & -> & _). Qed.

Lemma same_position_wf l l' : same_position l l' -> position_wf l -> position_wf l'.
Proof. unfold same_position, position_wf. by intros (-> & -> & -> & _). Qed.

Lemma stepped_same l l1 l2 : stepped l l1 -> same_position l1 l2 -> stepped l l2.
Proof. unfold stepped, same_position. intuition congruence. Qed.

(** One opportunity that is due, taken. *)
Lemma rationalize_once now l w : link_wf l -> now < time_limit -> due l now 0 ->
  exists l1 l2, use_a_delivery_opportunity l = Ok l1 /\
    use_opportunity opportunity_fuel (opportunity_time l 0) PACKET_SIZE l1 w = Ok (l2, w) /\
    link_wf l2 /\ stepped l l2 /\ sends l l2 /\
    backlog l2 = backlog l - Z.min PACKET_SIZE (backlog l) /\
    current_link_queue_size_ l2 = current_link_queue_size_ l.
Proof.
  intros (Hp & Htw & Harr) Hnow Hdue. pose proof (proj1 (due_0 l now Hp) Hdue) as [Hf Ht].
  destruct (use_a_delivery_opportunity_spec l Hp Hf ltac:(lia)) as (l1 & E1 & Hp1 & El1 & Hb1 & Hf1).
  assert (Hst1 : stepped l l1) by (unfold stepped; rewrite Hb1, Hf1; by rewrite El1).
  assert (Htw1 : transit_wf l1) by by rewrite El1.
  assert (Hu1 : unsent l1 = unsent l) by by rewrite El1.
  assert (Ho1 : output_queue_ l1 = output_queue_ l) by by rewrite El1.
  assert (Hbl1 : backlog l1 = backlog l) by by rewrite El1.
  assert (Hc1 : current_link_queue_size_ l1 = current_link_queue_size_ l) by by rewrite El1.
  clear El1. specialize (Harr Hf).
  destruct (use_opportunity_spec opportunity_fuel (opportunity_time l 0) PACKET_SIZE l1 w Htw1)
    as (l2 & E2 & (Hsp & Hc2) & Htw2 & Hsd2 & Hbl2); [by unfold arrivals_before; rewrite Hu1|unfold PACKET_SIZE; lia|done|].
  assert (Hst2 : stepped l l2) by by eapply stepped_same.
  assert (Hp2 : position_wf l2) by by eapply same_position_wf.
  assert (Hsd : sends l l2) by (destruct Hsd2 as (o & H1 & H2); exists o; by rewrite <- Ho1, <- Hu1).
  exists l1, l2. split; [done|]. split; [done|]. split.
  - split; [done|]. split; [done|]. intros Hf2.
    assert (H0 : due l2 (opportunity_time l2 0) 0) by (apply due_0; [done|]; split; [done|lia]).
    apply (stepped_due l l2) in H0 as [_ H0]; [|done..].
    rewrite Z.add_0_r in H0. pose proof (opportunity_time_mono l Hp).
    apply (sends_arrivals l l2) in Harr; [|done]. unfold arrivals_before in *.
    eapply Forall_impl; [exact Harr|]. simpl. intros; lia.
  - split; [done|]. split; [done|]. rewrite Hbl1 in Hbl2. split; [done|congruence].
Qed.

Lemma rationalize_loop_stop fuel now l w : link_wf l -> now < time_limit -> ~ due l now 0 ->
  rationalize_loop fuel now l w = Ok (l, w).
Proof.
  intros (Hp & _) Hnow Hd.
  assert (E : exists t, next_delivery_time l = Ok t /\ now < t).
  { rewrite next_delivery_time_Ok by done. eexists. split; [done|].
    destruct (finished_ l) eqn:Ef; [unfold time_limit in *; lia|].
    destruct (Z.le_gt_cases (opportunity_time l 0) now); [|lia].
    exfalso. apply Hd. by apply due_0. }
  destruct E as (t & E & Ht). destruct fuel; cbn [rationalize_loop]; rewrite E; cbn [bind];
    (destruct (Z.leb_spec t now); [lia|done]).
Qed.

(** Opportunities that can be due before the loop ends. *)
Definition measure (now : Z) l : Z :=
  len (heavy_pdo_schedule_ l) * (now - link_base_timestamp_ l + 1) - next_delivery_ l.

Lemma stepped_measure now l l1 : position_wf l -> stepped l l1 -> finished_ l1 = false ->
  measure now l1 <= measure now l - 1.
Proof.
  intros Hp Hst Hf1. pose proof (schedule_last_bound _ (proj1 Hp)) as [Hl _].
  destruct Hst as (H1 & H2 & H3 & H4 & H5). unfold measure. rewrite H4, H1, H2. rewrite H3 in Hf1.
  destruct (wrap_or_not l Hp) as [(Hw & Em & Ed)|(Hw & Em & Ed)]; rewrite Em, Ed.
  - destruct (repeat_ l); lia.
  - destruct (Z.leb_spec (len (heavy_pdo_schedule_ l)) (next_delivery_ l + 1)); [|lia].
    destruct (repeat_ l); [|done]. rewrite Z.mul_1_r.
    set (L := len (heavy_pdo_schedule_ l)) in *. set (T := last_or_0 (heavy_pdo_schedule_ l)) in *.
    destruct Hp as (_ & Hn & _). fold L in Hn. assert (L * 1 <= L * T) by (apply Z.mul_le_mono_nonneg_l; lia). lia.
Qed.

Lemma due_measure now l : position_wf l -> due l now 0 -> 0 < measure now l.
Proof.
  intros Hp Hd. pose proof (proj1 (due_0 l now Hp) Hd) as [_ Ht]. rewrite opportunity_time_0 in Ht by done.
  pose proof Hp as (Hs & Hn & _).
  assert (H0 : 0 <= nth_or_0 (heavy_pdo_schedule_ l) (next_delivery_ l)).
  { destruct Hs as (_ & Hf & _). pose proof (nth_or_0_Forall _ _ _ Hf Hn) as H. simpl in H. lia. }
  unfold measure. assert (len (heavy_pdo_schedule_ l) * 1 <= len (heavy_pdo_schedule_ l) * (now - link_base_timestamp_ l + 1))
    by (apply Z.mul_le_mono_nonneg_l; lia). lia.
Qed.

Lemma due_dec l now : position_wf l -> due l now 0 \/ ~ due l now 0.
Proof.
  intros Hp. rewrite due_0 by done. destruct (finished_ l); [right; by intros []|].
  destruct (Z.le_gt_cases (opportunity_time l 0) now); [by left|right; intros []; lia].
Qed.

Lemma rationalize_loop_spec fuel now : forall l w,
  link_wf l -> now < time_limit -> (due l now 0 -> measure now l <= Z.of_nat fuel) ->
  exists k l', rationalize_loop fuel now l w = Ok (l', w) /\ rationalized now k l l'.
Proof.
  induction fuel as [|fuel IH]; intros l w Hwf Hnow Hfuel; pose proof Hwf as (Hp & _);
    destruct (due_dec l now Hp) as [Hd|Hd].
  - pose proof (due_measure now l Hp Hd). specialize (Hfuel Hd). lia.
  - exists 0, l. split; [by apply rationalize_loop_stop|by apply rationalized_refl].
  - pose proof (proj1 (due_0 l now Hp) Hd) as [Hf Ht].
    destruct (rationalize_once now l w Hwf Hnow Hd) as (l1 & l2 & E1 & E2 & Hwf2 & Hst & Hsd & Hbl & Hc).
    destruct (IH l2 w) as (k & l' & E & Hr); [done|done| |].
    { intros Hd2. pose proof (proj1 (due_0 l2 now (proj1 Hwf2)) Hd2) as [Hf2 _].
      pose proof (stepped_measure now l l2 Hp Hst Hf2). specialize (Hfuel Hd). lia. }
    exists (1 + k), l'. split; [|by eapply rationalized_step].
    cbn [rationalize_loop]. rewrite next_delivery_time_Ok, Hf by done. cbn [bind].
    destruct (Z.leb_spec (opportunity_time l 0) now); [|lia]. cbn [negb]. rewrite E1. cbn [bind].
    by rewrite E2.
  - exists 0, l. split; [by apply rationalize_loop_stop|by apply rationalized_refl].
Qed.

Lemma rationalize_spec now l w : link_wf l -> now < time_limit ->
  exists k l', rationalize now l w = Ok (l', w) /\ rationalized now k l l'.
Proof.
  intros Hwf Hnow. apply rationalize_loop_spec; [done..|]. intros Hd.
  pose proof (due_measure now l (proj1 Hwf) Hd). unfold rationalize_fuel, measure in *.
  destruct Hwf as ((_ & Hn & _) & _). lia.
Qed.

(** ** The fuel does not matter *)

Lemma rationalize_loop_fuel f1 f2 now l w r :
  rationalize_loop f1 now l w = Ok r -> (f1 <= f2)%nat -> rationalize_loop f2 now l w = Ok r.
Proof.
  revert f2 l w. induction f1 as [|f1 IH]; intros f2 l w; cbn [rationalize_loop].
  - intros H _. destruct f2; cbn [rationalize_loop]; destruct (next_delivery_time l) as [t|]; cbn [bind] in *; try done;
      by destruct (t <=? now).
  - intros H Hle. destruct f2 as [|f2]; [lia|]. cbn [rationalize_loop].
    destruct (next_delivery_time l) as [t|]; cbn [bind] in *; [|done].
    destruct (t <=? now); cbn [negb] in *; [|done].
    destruct (use_a_delivery_opportunity l) as [l1|]; cbn [bind] in *; [|done].
    destruct (use_opportunity opportunity_fuel t PACKET_SIZE l1 w) as [[l2 w2]|]; cbn [bind] in *; [|done].
    apply IH; [done|lia].
Qed.

(** Running up to [now1] and then up to [now2] is running up to [now2]. *)
Lemma rationalize_loop_split f1 f2 now1 now2 l w l1 w1 r :
  now1 <= now2 -> rationalize_loop f1 now1 l w = Ok (l1, w1) -> rationalize_loop f2 now2 l1 w1 = Ok r ->
  rationalize_loop (f1 + f2) now2 l w = Ok r.
Proof.
  intros Hnow. revert l w. induction f1 as [|f1 IH]; intros l w H1 H2.
  - cbn [rationalize_loop] in H1. destruct (next_delivery_time l) as [t|]; cbn [bind] in H1; [|done].
    destruct (t <=? now1); simpl in H1; by simplify_eq.
  - cbn [rationalize_loop Nat.add] in *. destruct (next_delivery_time l) as [t|] eqn:Et; cbn [bind] in *; [|done].
    destruct (Z.leb_spec t now1) as [Hle|Hgt]; cbn [negb] in H1.
    + destruct (Z.leb_spec t now2); [|lia]. cbn [negb].
      destruct (use_a_delivery_opportunity l) as [l2|]; cbn [bind] in *; [|done].
      destruct (use_opportunity opportunity_fuel t PACKET_SIZE l2 w) as [[l3 w3]|]; cbn [bind] in *; [|done].
      by apply IH.
    + simplify_eq. destruct f2 as [|f2]; cbn [rationalize_loop] in H2; rewrite Et in H2; cbn [bind] in H2;
        destruct (Z.leb_spec t now2); cbn [negb] in *; try done.
      destruct (use_a_delivery_opportunity l1) as [l2|]; cbn [bind] in *; [|done].
      destruct (use_opportunity opportunity_fuel t PACKET_SIZE l2 w1) as [[l3 w3]|]; cbn [bind] in *; [|done].
      eapply rationalize_loop_fuel; [done|lia].
Qed.

(** After [rationalize now] the next delivery is later than [now]. *)
Lemma idle_next_delivery now l : link_wf l -> now < time_limit -> ~ due l now 0 ->
  exists t, next_delivery_time l = Ok t /\ now < t /\
    t = (if finished_ l then 2 ^ 64 - 1 else opportunity_time l 0).
Proof.
  intros (Hp & _) Hnow Hd. eexists. split; [by apply next_delivery_time_Ok|]. split; [|done].
  destruct (finished_ l) eqn:Ef; [unfold time_limit in *; lia|].
  destruct (Z.le_gt_cases (opportunity_time l 0) now); [|lia]. exfalso. apply Hd. by apply due_0.
Qed.

(** ** A packet enters the link *)

(** There is room for one more packet: no counter of the queue overflows. *)
Definition link_room l : Prop := (len (link_packets l) + 1) * PACKET_SIZE < 2 ^ 31.

Lemma unsent_len l : len (packets (packet_queue_ l)) <= len (unsent l).
Proof. unfold unsent. rewrite len_app. pose proof (len_nonneg (in_transit l)). lia. Qed.

Lemma packets_total (k : list QueuedPacket) : Forall packet_ok k -> total_bytes k <= len k * PACKET_SIZE.
Proof.
  induction 1 as [|p k Hp _ IH]; [done|]. rewrite total_bytes_cons, len_cons.
  unfold packet_ok in Hp. lia.
Qed.

Lemma link_room_for l p : transit_wf l -> link_room l -> psize p <= PACKET_SIZE ->
  room_for (packets (packet_queue_ l)) p.
Proof.
  intros (_ & Hok & _) Hr Hp. pose proof (packets_total _ Hok). pose proof (unsent_len l).
  unfold link_room, link_packets in Hr. rewrite len_app in Hr. pose proof (len_nonneg (output_queue_ l)).
  unfold room_for, PACKET_SIZE in *. lia.
Qed.

Lemma enqueue_wf l q p (w : W) now : link_wf l -> ~ due l now 0 -> now < time_limit -> packet_ok p -> arrival_time p <= now ->
  queue_wf q -> packets q `sublist_of` packets (packet_queue_ l) ++ [p] -> forall n,
  link_wf (l <| packet_queue_ := q |> <| current_link_queue_size_ := n |>).
Proof.
  intros (Hp & (Hq & Hok & Hb) & Harr) Hd Hnow Hpok Hpa Hwf Hs n. split; [exact Hp|].
  assert (Hok' : Forall packet_ok (packets q)).
  { eapply Forall_sublist; [|exact Hs]. apply Forall_app. auto. }
  split; [done|]. intros Hf. specialize (Harr Hf). unfold arrivals_before, unsent, in_transit in *.
  apply Forall_app in Harr as [Ht Hu]. apply Forall_app. split; [exact Ht|].
  eapply Forall_sublist; [|exact Hs]. apply Forall_app. split; [exact Hu|]. apply Forall_singleton.
  rewrite due_0 in Hd by done. cbn in Hf. change (arrival_time p <= opportunity_time l 0).
  destruct (Z.le_gt_cases (opportunity_time l 0) now); [|lia]. exfalso. by apply Hd.
Qed.

Lemma put_packet_spec now packet l (w : W) :
  link_wf l -> now < time_limit -> 0 < d_psize packet <= PACKET_SIZE -> link_room l ->
  let p := QueuedPacket_make (d_contents packet) (d_ip_port_info packet)
             (d_arrival_time packet) now (d_sequence_number packet) (d_release_time packet) in
  exists l1 q, rationalize now l w = Ok (l1, w) /\ sends l l1 /\
    queue_wf (packet_queue_ l1) /\ room_for (packets (packet_queue_ l1)) p /\
    enqueue p (packet_queue_ l1) w = Ok (q, w) /\
    let l' := l1 <| packet_queue_ := q |> <| current_link_queue_size_ := u32 (current_link_queue_size_ l + 1) |> in
    put_packet_to_link_queue now packet l w = Ok (l', w) /\ link_wf l'.
Proof.
  intros Hwf Hnow Hs Hr p. destruct (rationalize_spec now l w Hwf Hnow) as (k & l1 & E & Hz).
  pose proof (rz_wf _ _ _ _ Hz) as Hwf1. pose proof (rz_sends _ _ _ _ Hz) as Hsd.
  pose proof (rz_same _ _ _ _ Hz) as (_ & _ & Hc).
  assert (Hroom : room_for (packets (packet_queue_ l1)) p).
  { apply link_room_for; [apply Hwf1| |apply Hs]. unfold link_room in *. by rewrite (sends_packets _ _ Hsd). }
  assert (Hq : queue_wf (packet_queue_ l1)) by apply Hwf1.
  destruct (enqueue_spec (packet_queue_ l1) w p Hq Hroom) as (q & Eq & Hq' & Hsub).
  exists l1, q. do 5 (split; [done|]). intros l'. split.
  - unfold put_packet_to_link_queue. destruct (Z.ltb_spec PACKET_SIZE (d_psize packet)); [lia|].
    rewrite E. cbn [bind]. fold p. rewrite Eq. cbn [bind]. unfold l'. by rewrite <- Hc.
  - apply (enqueue_wf l1 q p w now); try done. apply (rz_idle _ _ _ _ Hz).
Qed.

(** * Properties *)

(** C15: on a well-formed link [rationalize] always returns, no assertion of
    its loops fails, the link stays well-formed, and the next delivery is then
    later than [now]. *)
Theorem rationalize_returns (now : Z) l (w : W) : link_wf l -> now < time_limit ->
  exists l' t, rationalize now l w = Ok (l', w) /\ link_wf l' /\ next_delivery_time l' = Ok t /\ now < t.
Proof.
  intros Hwf Hnow. destruct (rationalize_spec now l w Hwf Hnow) as (k & l' & E & [R1 _ _ _ _ _ _ _ _ _ R]).
  destruct (idle_next_delivery now l' R1 Hnow R) as (t & Et & Ht & _). by exists l', t.
Qed.

(** C9: the link is a work-conserving server.  [rationalize now] uses exactly
    the k opportunities that are due, whose times are given in closed form by
    the schedule played over and over (or once); the position in the schedule
    is the closed form's; packets leave in the order in which they wait; and
    the bytes that wait shrink by 1400 per opportunity, down to none. *)
Theorem rationalize_serves (now : Z) l (w : W) : link_wf l -> now < time_limit ->
  exists k l', rationalize now l w = Ok (l', w) /\
    (forall j, 0 <= j < k -> due l now j) /\ ~ due l now k /\ 0 <= k /\
    next_delivery_ l' = (next_delivery_ l + k) mod len (heavy_pdo_schedule_ l) /\
    link_base_timestamp_ l' = link_base_timestamp_ l +
      (if repeat_ l
       then last_or_0 (heavy_pdo_schedule_ l) * ((next_delivery_ l + k) / len (heavy_pdo_schedule_ l)) else 0) /\
    sends l l' /\ backlog l' = Z.max 0 (backlog l - PACKET_SIZE * k).
Proof.
  intros Hwf Hnow. destruct (rationalize_spec now l w Hwf Hnow) as (k & l' & E & []).
  exists k, l'. auto 12.
Qed.

(** C16: how often the loop is polled does not change what the link does:
    [rationalize] up to [now1] and later up to [now2] gives the same link as
    [rationalize] up to [now2] at once. *)
Theorem rationalize_compose (now1 now2 : Z) l l1 (w : W) : link_wf l -> now1 <= now2 -> now2 < time_limit ->
  rationalize now1 l w = Ok (l1, w) ->
  rationalize now2 l1 w = rationalize now2 l w.
Proof.
  intros Hwf Hle Hnow E1. destruct (rationalize_spec now2 l w Hwf Hnow) as (k & l' & E & _).
  destruct (rationalize_spec now1 l w Hwf ltac:(lia)) as (k1 & l1' & E1' & [R1 _ _ _ _ _ _ _ _ _ _]).
  rewrite E1 in E1'. simplify_eq.
  destruct (rationalize_spec now2 l1' w R1 Hnow) as (k2 & l2 & E2 & _).
  rewrite E, E2. unfold rationalize in *.
  pose proof (rationalize_loop_split _ _ _ _ _ _ _ _ _ Hle E1 E2) as Es.
  set (f1 := (rationalize_fuel now1 l + rationalize_fuel now2 l1')%nat) in *.
  apply (rationalize_loop_fuel _ (f1 + rationalize_fuel now2 l)) in Es; [|lia].
  apply (rationalize_loop_fuel _ (f1 + rationalize_fuel now2 l)) in E; [|lia].
  congruence.
Qed.
End Abstract.

(** * Concrete runs *)

Definition packet_of_size (n : nat) (arrival seq : Z) : QueuedPacket :=
  QueuedPacket_make (repeat Byte.x45 n) "" arrival arrival seq arrival.

(** A link that is about to play the schedule 0, 1, 5 from time 10 on, with 900
    bytes of one packet in transit and two packets waiting. *)
Definition sample_link : Link InfinitePacketQueue := {|
  next_delivery_ := 0; heavy_pdo_schedule_ := [0; 1; 5]; link_base_timestamp_ := 10;
  packet_queue_ := {| inf_internal_queue_ := [packet_of_size 1000 8 1; packet_of_size 1200 9 2];
                      inf_queue_size_in_bytes_ := 2200; inf_queue_size_in_packets_ := 2 |};
  packet_in_transit_ := packet_of_size 1400 7 0; packet_in_transit_bytes_left_ := 900;
  output_queue_ := []; current_link_queue_size_ := 3; repeat_ := true; finished_ := false |}.

Lemma sample_link_wf : link_wf (W := unit) sample_link.
Proof.
  unfold link_wf, position_wf, transit_wf, arrivals_before. simpl queue_wf. unfold infinite_wf.
  repeat apply conj; by_computation.
Qed.

Lemma rationalize_returns_witness :
  exists l' t, rationalize 16 sample_link tt = Ok (l', tt) /\ link_wf (W := unit) l' /\
    next_delivery_time l' = Ok t /\ 16 < t.
Proof. apply (rationalize_returns 16 sample_link tt); [exact sample_link_wf|reflexivity]. Defined.

Lemma rationalize_serves_witness :
  exists k l', rationalize 16 sample_link tt = Ok (l', tt) /\
    (forall j, 0 <= j < k -> due sample_link 16 j) /\ ~ due sample_link 16 k /\ 0 <= k /\
    next_delivery_ l' = (0 + k) mod len [0; 1; 5] /\
    link_base_timestamp_ l' = 10 + last_or_0 [0; 1; 5] * ((0 + k) / len [0; 1; 5]) /\
    sends (W := unit) sample_link l' /\
    backlog (W := unit) l' = Z.max 0 (backlog (W := unit) sample_link - PACKET_SIZE * k).
Proof. apply (rationalize_serves 16 sample_link tt); [exact sample_link_wf|reflexivity]. Defined.

Lemma rationalize_compose_witness :
  exists l1, rationalize 11 sample_link tt = Ok (l1, tt) /\
    rationalize 16 l1 tt = rationalize 16 sample_link tt.
Proof.
  destruct (rationalize 11 sample_link tt) as [[l1 []]|] eqn:E; [|vm_compute in E; discriminate].
  exists l1. split; [done|].
  apply (rationalize_compose 11 16 sample_link l1 tt); [exact sample_link_wf|lia|reflexivity|exact E].
Defined.
