(* ===== verification/PacketHeader.v ===== *)
(** The description of a packet written to the log:
    [CellularQueue::get_pkt_header_info] (src/frontend/cellular_queue.cc).

    The function reads the IPv4 header through a pointer 4 bytes into the
    packet's contents (the tunnel device's prefix).  The characters of a C++
    string end with a NUL that may be read; reading beyond it is undefined
    behaviour, which [peek] makes explicit. *)
From S2P Require Import Prelude Ezio.
From Stdlib Require Import String Ascii Strings.Byte.

Definition byte_value (b : Byte.byte) : Z := Z.of_N (Byte.to_N b).

(** [contents.data()[ i ]] *)
Definition peek (c : bytes) (i : Z) : outcome Z :=
  match znth c i with
  | Some b => Ok (byte_value b)
  | None => if i =? len c then Ok 0 else Err (UndefinedBehaviour "read beyond the packet")
  end.

(** A 16-bit field in network byte order, after [ntohs]. *)
Definition peek16 (c : bytes) (i : Z) : outcome Z :=
  let* hi := peek c i in
  let* lo := peek c (i + 1) in
  Ok (hi * 256 + lo).

Definition INET_ADDRSTRLEN : Z := 16.

(** [inet_ntop( AF_INET, ... )] of the address at offset [i]: dotted decimal,
    and NULL when the result with its NUL does not fit the buffer. *)
Definition inet_ntop (c : bytes) (i size : Z) : outcome (option string) :=
  let* b0 := peek c i in
  let* b1 := peek c (i + 1) in
  let* b2 := peek c (i + 2) in
  let* b3 := peek c (i + 3) in
  let s := print_nonneg b0 +:+ "." +:+ print_nonneg b1 +:+ "." +:+ print_nonneg b2 +:+ "." +:+ print_nonneg b3 in
  Ok (if Z.of_nat (String.length s) + 1 <=? size then Some s else None).

Definition IPPROTO_ICMP : Z := 1.
Definition IPPROTO_TCP : Z := 6.
Definition IPPROTO_UDP : Z := 17.

Definition tab : string := String (ascii_of_nat 9) EmptyString.

(** Offset of the [iphdr] in the contents. *)
Definition header_offset : Z := 4.

(** [h->ihl], a bit-field of the first byte. *)
Definition ihl (c : bytes) : outcome Z :=
  let* b := peek c header_offset in Ok (Z.land b 15).

Definition checked_ntop (c : bytes) (i : Z) : outcome string :=
  let* s := inet_ntop c i INET_ADDRSTRLEN in
  match s with
  | None => Err (Throw "Invalid IP address encountered!")
  | Some s => Ok s
  end.

(** [src_ip:s_port] and [dst_ip:d_port]; the ports of a TCP and of a UDP header
    are at the same place. *)
Definition with_ports (c : bytes) (protocol src_ip dst_ip : string) : outcome string :=
  let* n := ihl c in
  let* s_port := peek16 c (header_offset + n * 4) in
  let* d_port := peek16 c (header_offset + n * 4 + 2) in
  Ok (protocol +:+ tab +:+ src_ip +:+ ":" +:+ print_nonneg s_port
      +:+ tab +:+ dst_ip +:+ ":" +:+ print_nonneg d_port).

Definition get_pkt_header_info (c : bytes) : outcome string :=
  let* src_ip := checked_ntop c (header_offset + 12) in
  let* dst_ip := checked_ntop c (header_offset + 16) in
  let* p := peek c (header_offset + 9) in
  if p =? IPPROTO_ICMP then Ok ("ICMP" +:+ tab +:+ src_ip +:+ tab +:+ dst_ip)
  else if p =? IPPROTO_TCP then with_ports c "TCP" src_ip dst_ip
  else if p =? IPPROTO_UDP then with_ports c "UDP" src_ip dst_ip
  else Ok ("OTHER" +:+ tab +:+ src_ip +:+ tab +:+ dst_ip).

(** * What may be read *)

Lemma byte_value_range b : 0 <= byte_value b < 256.
Proof.
  unfold byte_value. pose proof (Byte.to_N_bounded b). lia.
Qed.

Lemma peek_Ok c i : 0 <= i <= len c -> exists v, peek c i = Ok v /\ 0 <= v < 256.
Proof.
  intros Hi. unfold peek. destruct (znth c i) as [b|] eqn:E.
  - exists (byte_value b). split; [done|apply byte_value_range].
  - destruct (Z.eqb_spec i (len c)); [by exists 0|].
    destruct (znth_is_Some c i) as [x Hx]; [lia|congruence].
Qed.

Lemma peek_Err c i : len c < i -> peek c i = Err (UndefinedBehaviour "read beyond the packet").
Proof.
  intros Hi. unfold peek. destruct (znth c i) as [b|] eqn:E; [apply znth_range in E; lia|].
  destruct (Z.eqb_spec i (len c)); [lia|done].
Qed.

Lemma print_byte_length v : 0 <= v < 256 -> (String.length (print_nonneg v) <= 3)%nat.
Proof.
  intros Hv. assert (H : forallb (fun n => (String.length (print_nonneg (Z.of_nat n)) <=? 3)%nat) (seq 0 256) = true)
    by by vm_compute.
  rewrite forallb_forall in H. specialize (H (Z.to_nat v)). rewrite Z2Nat.id in H by lia.
  apply Nat.leb_le, H, in_seq. lia.
Qed.

Lemma string_length_app s t : String.length (s +:+ t) = (String.length s + String.length t)%nat.
Proof. induction s as [|a s IH]; [done|]. rewrite string_app_cons. simpl. by rewrite IH. Qed.

(** An address that can be read can be printed: the throws are never reached. *)
Lemma checked_ntop_Ok c i : 0 <= i -> i + 3 <= len c -> exists s, checked_ntop c i = Ok s.
Proof.
  intros Hi Hl. unfold checked_ntop, inet_ntop.
  destruct (peek_Ok c i) as (v0 & -> & H0); [lia|]. destruct (peek_Ok c (i + 1)) as (v1 & -> & H1); [lia|].
  destruct (peek_Ok c (i + 2)) as (v2 & -> & H2); [lia|]. destruct (peek_Ok c (i + 3)) as (v3 & -> & H3); [lia|].
  cbn [bind]. apply print_byte_length in H0, H1, H2, H3.
  match goal with |- context [if ?b then _ else _] => assert (b = true) as -> end; [|by eexists].
  apply Z.leb_le. rewrite !string_length_app. unfold INET_ADDRSTRLEN. simpl. lia.
Qed.

Lemma checked_ntop_Err c i : 0 <= i -> len c < i + 3 -> is_ok (checked_ntop c i) = false.
Proof.
  intros Hi Hl. unfold checked_ntop, inet_ntop.
  destruct (peek c i); [|done]. destruct (peek c (i + 1)); [|done]. destruct (peek c (i + 2)); [|done].
  by rewrite peek_Err.
Qed.

Lemma peek16_is_ok c i : 0 <= i -> is_ok (peek16 c i) = (i + 1 <=? len c).
Proof.
  intros Hi. unfold peek16. destruct (Z.leb_spec (i + 1) (len c)) as [H|H].
  - destruct (peek_Ok c i) as (v0 & -> & H0); [lia|]. by destruct (peek_Ok c (i + 1)) as (v1 & -> & H1); [lia|].
  - destruct (peek c i); [|done]. simpl. by rewrite peek_Err by lia.
Qed.

Lemma with_ports_is_ok c p s d n : ihl c = Ok n -> 0 <= n ->
  is_ok (with_ports c p s d) = (header_offset + n * 4 + 3 <=? len c).
Proof.
  intros E Hn. unfold with_ports. rewrite E. cbn [bind].
  pose proof (peek16_is_ok c (header_offset + n * 4)) as H1.
  pose proof (peek16_is_ok c (header_offset + n * 4 + 2)) as H2.
  unfold header_offset in *. specialize (H1 ltac:(lia)). specialize (H2 ltac:(lia)).
  replace (4 + n * 4 + 2 + 1) with (4 + n * 4 + 3) in H2 by lia. rewrite <- H2.
  destruct (peek16 c (4 + n * 4)) eqn:E1; cbn [bind]; [by destruct (peek16 c (4 + n * 4 + 2))|].
  simpl in *. symmetry in H1. apply Z.leb_gt in H1. rewrite H2. symmetry. apply Z.leb_gt. lia.
Qed.

Definition beyond (e : fault) : Prop := exists what, e = UndefinedBehaviour what.

Lemma peek_fault c i e : peek c i = Err e -> beyond e.
Proof. unfold peek. repeat case_match; intros; simplify_eq. by eexists. Qed.

Lemma peek16_fault c i e : peek16 c i = Err e -> beyond e.
Proof.
  unfold peek16. destruct (peek c i) eqn:E1; cbn [bind]; [|intros [= <-]; by eapply peek_fault].
  destruct (peek c (i + 1)) eqn:E2; cbn [bind]; [done|intros [= <-]; by eapply peek_fault].
Qed.

Lemma with_ports_fault c p s d e : with_ports c p s d = Err e -> beyond e.
Proof.
  unfold with_ports, ihl. destruct (peek c header_offset) eqn:E; cbn [bind]; [|intros [= <-]; by eapply peek_fault].
  do 2 (match goal with |- bind (peek16 c ?i) _ = _ -> _ => destruct (peek16 c i) eqn:? end; cbn [bind];
    [|intros [= <-]; by eapply peek16_fault]). done.
Qed.

Lemma checked_ntop_fault c i e : 0 <= i -> checked_ntop c i = Err e -> beyond e.
Proof.
  intros Hi H. destruct (Z.le_gt_cases (i + 3) (len c)) as [Hl|Hl].
  { destruct (checked_ntop_Ok c i Hi Hl) as [s Es]. congruence. }
  revert H. unfold checked_ntop, inet_ntop.
  destruct (peek c i) eqn:E0; cbn [bind]; [|intros [= <-]; by eapply peek_fault].
  destruct (peek c (i + 1)) eqn:E1; cbn [bind]; [|intros [= <-]; by eapply peek_fault].
  destruct (peek c (i + 2)) eqn:E2; cbn [bind]; [|intros [= <-]; by eapply peek_fault].
  rewrite peek_Err by lia. cbn [bind]. intros [= <-]. by eexists.
Qed.

(** The only way to fail is to read beyond the packet. *)
Lemma header_info_Err c : is_ok (get_pkt_header_info c) = false ->
  exists what, get_pkt_header_info c = Err (UndefinedBehaviour what).
Proof.
  destruct (get_pkt_header_info c) as [|e] eqn:E; [done|]. intros _.
  assert (beyond e) as [what ->]; [|by eexists]. revert E. unfold get_pkt_header_info.
  destruct (checked_ntop c (header_offset + 12)) eqn:E0; cbn [bind]; [|intros [= <-]; eapply checked_ntop_fault; [|eassumption]; unfold header_offset; lia].
  destruct (checked_ntop c (header_offset + 16)) eqn:E1; cbn [bind]; [|intros [= <-]; eapply checked_ntop_fault; [|eassumption]; unfold header_offset; lia].
  destruct (peek c (header_offset + 9)) eqn:E2; cbn [bind]; [|intros [= <-]; by eapply peek_fault].
  repeat case_match; try done; apply with_ports_fault.
Qed.

(** The packets whose header the function can read: the contents reach the last
    byte of the addresses, and those of a TCP or UDP packet the ports (the NUL
    that ends a C++ string may stand for the last byte). *)
Definition header_readable (c : bytes) : bool :=
  (header_offset + 19 <=? len c) &&
  match peek c (header_offset + 9), ihl c with
  | Ok p, Ok n =>
      negb ((p =? IPPROTO_TCP) || (p =? IPPROTO_UDP)) || (header_offset + n * 4 + 3 <=? len c)
  | _, _ => false
  end.

(** The header information of a packet exists exactly when the packet is long
    enough for the fields read. *)
Lemma header_info_exists (c : bytes) :
  is_ok (get_pkt_header_info c) = header_readable c.
Proof.
  unfold get_pkt_header_info, header_readable, header_offset in *.
  destruct (Z.leb_spec (4 + 19) (len c)) as [H|H]; cbn [andb].
  2: { destruct (checked_ntop c (4 + 12)); [|done]. cbn [bind].
       pose proof (checked_ntop_Err c (4 + 16) ltac:(lia) ltac:(lia)) as E.
       by destruct (checked_ntop c (4 + 16)). }
  destruct (checked_ntop_Ok c (4 + 12)) as [s ->]; [lia..|]. destruct (checked_ntop_Ok c (4 + 16)) as [d ->]; [lia..|].
  cbn [bind]. destruct (peek_Ok c (4 + 9)) as (p & -> & Hp); [lia|]. cbn [bind].
  assert (exists n, ihl c = Ok n /\ 0 <= n) as (n & En & Hn).
  { unfold ihl, header_offset. destruct (peek_Ok c 4) as (b & -> & Hb); [lia|]. cbn [bind].
    eexists. split; [done|]. apply Z.land_nonneg. lia. }
  rewrite En. unfold IPPROTO_ICMP, IPPROTO_TCP, IPPROTO_UDP.
  destruct (Z.eqb_spec p 1) as [->|]; [done|].
  destruct (Z.eqb_spec p 6); cbn [negb orb]; [by apply with_ports_is_ok|].
  destruct (Z.eqb_spec p 17); cbn [negb orb]; [by apply with_ports_is_ok|done].
Qed.

(** * A packet the function describes *)

(** [n] as a byte. *)
Definition byte_of (n : Z) : Byte.byte := default Byte.x00 (Byte.of_N (Z.to_N (n mod 256))).

Record ipv4_header := {
  protocol : Z;
  saddr : Z * Z * Z * Z;
  daddr : Z * Z * Z * Z;
  options : list Byte.byte;
}.

Definition addr_bytes (a : Z * Z * Z * Z) : bytes :=
  let '(b0, b1, b2, b3) := a in [byte_of b0; byte_of b1; byte_of b2; byte_of b3].

Definition addr_string (a : Z * Z * Z * Z) : string :=
  let '(b0, b1, b2, b3) := a in
  print_nonneg b0 +:+ "." +:+ print_nonneg b1 +:+ "." +:+ print_nonneg b2 +:+ "." +:+ print_nonneg b3.

Definition addr_ok (a : Z * Z * Z * Z) : Prop :=
  let '(b0, b1, b2, b3) := a in
  0 <= b0 < 256 /\ 0 <= b1 < 256 /\ 0 <= b2 < 256 /\ 0 <= b3 < 256.

(** A packet as the tunnel device delivers it: 4 bytes of prefix, the IPv4
    header with its options, and the payload.  [other] stands for the header
    fields that are not read. *)
Definition tun_packet (prefix : bytes) (h : ipv4_header) (other1 other2 payload : bytes) : bytes :=
  prefix ++ byte_of (64 + (5 + len (options h) / 4)) :: other1 ++ byte_of (protocol h) :: other2 ++
  addr_bytes (saddr h) ++ addr_bytes (daddr h) ++ options h ++ payload.

Definition header_ok (h : ipv4_header) : Prop :=
  0 <= protocol h < 256 /\ addr_ok (saddr h) /\ addr_ok (daddr h) /\
  len (options h) mod 4 = 0 /\ len (options h) <= 40.

Lemma byte_value_of n : 0 <= n < 256 -> byte_value (byte_of n) = n.
Proof.
  intros Hn. unfold byte_value, byte_of. rewrite Z.mod_small by done.
  destruct (Byte.of_N (Z.to_N n)) as [b|] eqn:E.
  - apply Byte.to_of_N in E. simpl. rewrite E. lia.
  - apply Byte.of_N_None_iff in E. lia.
Qed.

Lemma peek_app_r c d i : len c <= i -> peek (c ++ d) i = peek d (i - len c).
Proof.
  intros Hi. unfold peek, znth. pose proof (len_nonneg c). rewrite len_app.
  destruct (Z.ltb_spec i 0); [lia|]. destruct (Z.ltb_spec (i - len c) 0); [lia|].
  rewrite lookup_app_r by (unfold len in *; lia).
  replace (Z.to_nat i - Datatypes.length c)%nat with (Z.to_nat (i - len c)) by (unfold len; lia).
  destruct (d !! _); [done|]. case_Zbool; (done || lia).
Qed.

Lemma peek_cons b c i : 0 < i -> peek (b :: c) i = peek c (i - 1).
Proof. intros Hi. apply (peek_app_r [b] c i). unfold len. simpl. lia. Qed.

Lemma peek_here b c : peek (b :: c) 0 = Ok (byte_value b).
Proof. done. Qed.

Lemma length_addr a : len (addr_bytes a) = 4.
Proof. by destruct a as [[[]]]. Qed.

(** Where the fields of [tun_packet] are. *)
Lemma peek_tun_packet prefix h o1 o2 payload :
  len prefix = 4 -> len o1 = 8 -> len o2 = 2 ->
  peek (tun_packet prefix h o1 o2 payload) 4 = Ok (byte_value (byte_of (64 + (5 + len (options h) / 4)))) /\
  peek (tun_packet prefix h o1 o2 payload) 13 = Ok (byte_value (byte_of (protocol h))) /\
  (forall i, 16 <= i -> peek (tun_packet prefix h o1 o2 payload) i =
                        peek (addr_bytes (saddr h) ++ addr_bytes (daddr h) ++ options h ++ payload) (i - 16)).
Proof.
  intros H1 H2 H3. unfold tun_packet. split; [|split].
  - rewrite peek_app_r, H1 by lia. done.
  - rewrite peek_app_r, H1, peek_cons, peek_app_r, H2 by lia. done.
  - intros i Hi. rewrite peek_app_r, H1, peek_cons, peek_app_r, H2, peek_cons, peek_app_r, H3 by lia.
    f_equal. lia.
Qed.

Lemma checked_ntop_addr c i a rest :
  addr_ok a -> (forall j, 0 <= j < 4 -> peek c (i + j) = peek (addr_bytes a ++ rest) j) ->
  checked_ntop c i = Ok (addr_string a).
Proof.
  destruct a as [[[b0 b1] b2] b3]. intros (H0 & H1 & H2 & H3) H. unfold checked_ntop, inet_ntop.
  pose proof (H 0 ltac:(lia)) as E0. pose proof (H 1 ltac:(lia)) as E1.
  pose proof (H 2 ltac:(lia)) as E2. pose proof (H 3 ltac:(lia)) as E3. rewrite Z.add_0_r in E0.
  rewrite E0, E1, E2, E3. simpl addr_bytes. simpl app.
  rewrite peek_here, (peek_cons _ _ 1), (peek_cons _ _ 2), (peek_cons _ _ (2 - 1)), (peek_cons _ _ 3),
    (peek_cons _ _ (3 - 1)), (peek_cons _ _ (3 - 1 - 1)) by lia.
  simpl Z.sub. rewrite !peek_here. cbn [bind]. rewrite !byte_value_of by done.
  match goal with |- context [if ?b then _ else _] => assert (b = true) as -> end; [|done].
  apply print_byte_length in H0, H1, H2, H3. apply Z.leb_le. rewrite !string_length_app.
  unfold INET_ADDRSTRLEN. simpl. lia.
Qed.

(** A port in network byte order. *)
Definition port_bytes (p : Z) : bytes := [byte_of (p / 256); byte_of (p mod 256)].

(** What the log shows of a packet with this header. *)
Definition header_string (h : ipv4_header) (sport dport : Z) : string :=
  let plain name := name +:+ tab +:+ addr_string (saddr h) +:+ tab +:+ addr_string (daddr h) in
  let ported name := name +:+ tab +:+ addr_string (saddr h) +:+ ":" +:+ print_nonneg sport
                     +:+ tab +:+ addr_string (daddr h) +:+ ":" +:+ print_nonneg dport in
  if protocol h =? 1 then plain "ICMP"
  else if protocol h =? 6 then ported "TCP"
  else if protocol h =? 17 then ported "UDP"
  else plain "OTHER".

Lemma ihl_tun_packet prefix h o1 o2 payload :
  len prefix = 4 -> len o1 = 8 -> len o2 = 2 -> header_ok h ->
  ihl (tun_packet prefix h o1 o2 payload) = Ok (5 + len (options h) / 4).
Proof.
  intros H1 H2 H3 (_ & _ & _ & Hm & Hl). unfold ihl, header_offset.
  destruct (peek_tun_packet prefix h o1 o2 payload H1 H2 H3) as (-> & _ & _). cbn [bind].
  pose proof (len_nonneg (options h)). assert (0 <= len (options h) / 4) by (apply Z.div_pos; lia).
  assert (len (options h) / 4 <= 10) by (apply Z.div_le_upper_bound; lia).
  rewrite byte_value_of by lia. change 15 with (Z.ones 4). rewrite Z.land_ones by lia. f_equal.
  replace (64 + (5 + len (options h) / 4)) with (5 + len (options h) / 4 + 4 * 2 ^ 4) by lia.
  rewrite Z.mod_add by lia. apply Z.mod_small. lia.
Qed.

Lemma peek16_port c i p rest : 0 <= p < 65536 ->
  (forall j, 0 <= j -> peek c (i + j) = peek (port_bytes p ++ rest) j) ->
  peek16 c i = Ok p.
Proof.
  intros Hp H. unfold peek16. pose proof (H 0 ltac:(lia)) as E0. rewrite Z.add_0_r in E0.
  rewrite E0, H by lia. unfold port_bytes. simpl app. rewrite peek_here, peek_cons by lia. simpl Z.sub.
  rewrite peek_here. cbn [bind].
  assert (0 <= p / 256 < 256) by (split; [apply Z.div_pos|apply Z.div_lt_upper_bound]; lia).
  pose proof (Z.mod_pos_bound p 256). rewrite !byte_value_of by lia. f_equal.
  pose proof (Z.div_mod p 256). lia.
Qed.

(** C24: a packet with a well-formed IPv4 header is described by its protocol,
    its addresses in dotted decimal and, for TCP and UDP, its ports, wherever
    the header's options put them. *)
Theorem header_info_correct (prefix o1 o2 payload : bytes) (h : ipv4_header) (sport dport : Z) :
  header_ok h -> len prefix = 4 -> len o1 = 8 -> len o2 = 2 ->
  0 <= sport < 65536 -> 0 <= dport < 65536 ->
  get_pkt_header_info (tun_packet prefix h o1 o2 (port_bytes sport ++ port_bytes dport ++ payload))
  = Ok (header_string h sport dport).
Proof.
  intros Hh H1 H2 H3 Hs Hd. set (c := tun_packet _ _ _ _ _). pose proof Hh as (Hp & Hsa & Hda & Hm & Hl).
  pose proof (peek_tun_packet prefix h o1 o2 (port_bytes sport ++ port_bytes dport ++ payload) H1 H2 H3)
    as (_ & Ep & Er). fold c in Ep, Er.
  pose proof (ihl_tun_packet prefix h o1 o2 (port_bytes sport ++ port_bytes dport ++ payload) H1 H2 H3 Hh) as Ei.
  fold c in Ei.
  set (rest := options h ++ port_bytes sport ++ port_bytes dport ++ payload) in *.
  pose proof (len_nonneg (options h)). assert (0 <= len (options h) / 4) by (apply Z.div_pos; lia).
  assert (Hopt : len (options h) = 4 * (len (options h) / 4)) by (pose proof (Z.div_mod (len (options h)) 4); lia).
  assert (Erest : forall i, 24 <= i -> peek c i = peek rest (i - 24)).
  { intros i Hi. rewrite Er by lia. rewrite peek_app_r, length_addr, peek_app_r, length_addr by (rewrite length_addr; lia).
    f_equal. lia. }
  unfold get_pkt_header_info, header_offset in *.
  rewrite (checked_ntop_addr c (4 + 12) (saddr h) (addr_bytes (daddr h) ++ rest)); [|done|].
  2: { intros j Hj. rewrite Er by lia. f_equal. lia. }
  rewrite (checked_ntop_addr c (4 + 16) (daddr h) rest); [|done|].
  2: { intros j Hj. rewrite Er, peek_app_r, length_addr by (rewrite ?length_addr; lia). f_equal. lia. }
  cbn [bind]. change (4 + 9) with 13. rewrite Ep. cbn [bind]. rewrite byte_value_of by done.
  assert (Hports : forall name s d, with_ports c name s d =
    Ok (name +:+ tab +:+ s +:+ ":" +:+ print_nonneg sport +:+ tab +:+ d +:+ ":" +:+ print_nonneg dport)).
  { intros name s d. unfold with_ports, header_offset. rewrite Ei. cbn [bind].
    rewrite (peek16_port c _ sport (port_bytes dport ++ payload)); [|done|].
    2: { intros j Hj. rewrite Erest by lia. unfold rest. rewrite peek_app_r by lia. f_equal. lia. }
    rewrite (peek16_port c _ dport payload); [done|done|].
    intros j Hj. rewrite Erest by lia. unfold rest.
    rewrite peek_app_r by lia. rewrite (peek_app_r (port_bytes sport)) by (change (len (port_bytes sport)) with 2; lia).
    f_equal. change (len (port_bytes sport)) with 2. lia. }
  unfold header_string, IPPROTO_ICMP, IPPROTO_TCP, IPPROTO_UDP.
  destruct (protocol h =? 1); [done|]. destruct (protocol h =? 6); [by rewrite Hports|].
  destruct (protocol h =? 17); [by rewrite Hports|done].
Qed.

Definition sample_header : ipv4_header :=
  {| protocol := 17; saddr := (10, 0, 0, 1); daddr := (192, 168, 100, 2); options := repeat Byte.x01 4 |}.

Lemma header_info_correct_witness :
  get_pkt_header_info (tun_packet (repeat Byte.x00 4) sample_header (repeat Byte.x00 8) (repeat Byte.x00 2)
                         (port_bytes 53 ++ port_bytes 40000 ++ []))
  = Ok (header_string sample_header 53 40000).
Proof. apply header_info_correct; try reflexivity; try lia. by_computation. Defined.
