(* ===== verification/PacketInfo.v ===== *)
(** Packets printed on the terminal: src/util/pktinfo.cc.

    The functions are given a pointer to an IPv4 header: here the memory around
    it, and the header's place in it.  What they print on [cerr] is kept with the
    result, also when they fail half way. *)
From Stdlib Require Import String Ascii Strings.Byte.
From S2P Require Import Prelude Ezio PacketHeader.

(** The result of a function, and the text that it has printed. *)
Abbreviation printed := (outcome unit * string)%type.

Definition print_end : printed := (Ok tt, EmptyString).
Definition print_text (s : string) (m : printed) : printed := (m.1, s +:+ m.2).
Definition print_with {A} (m : outcome A) (k : A -> printed) : printed :=
  match m with
  | Ok a => k a
  | Err e => (Err e, EmptyString)
  end.

Definition endl : string := String (ascii_of_nat 10) EmptyString.

(** [h->version] and [h->ihl], bit-fields of the first byte. *)
Definition ip_version (c : bytes) (h : Z) : outcome Z := let* b := peek c h in Ok (Z.shiftr b 4).
Definition ip_header_words (c : bytes) (h : Z) : outcome Z := let* b := peek c h in Ok (Z.land b 15).

(** [inet_ntop( AF_INET, ..., ip, INET_ADDRSTRLEN )], checked. *)
Definition printed_address (c : bytes) (i : Z) : outcome string :=
  let* ip := inet_ntop c i INET_ADDRSTRLEN in
  match ip with
  | None => Err (Throw "Invalid IPv4 source address!")
  | Some ip => Ok ip
  end.

(** Offsets in [struct iphdr], [struct tcphdr] and [struct udphdr]. *)
Definition SADDR : Z := 12.
Definition DADDR : Z := 16.
Definition TH_SPORT : Z := 0.
Definition TH_DPORT : Z := 2.
Definition UH_SPORT : Z := 0.
Definition UH_DPORT : Z := 2.

Definition print_src_dst_ips (c : bytes) (v : Z) : printed :=
  print_with (ip_version c v) (fun version =>
  if negb (version =? 4) then print_end
  else
    print_with (printed_address c (v + SADDR)) (fun ip =>
    print_text ("#- " +:+ ip)
    (print_with (printed_address c (v + DADDR)) (fun ip =>
    print_text (" => " +:+ ip +:+ endl) print_end)))).

Definition print_tcp_endpoints (c : bytes) (v : Z) (delay : Z) : printed :=
  print_with (ip_version c v) (fun version =>
  if negb (version =? 4) then print_end
  else
    print_with (ip_header_words c v) (fun ihl =>
    let tcph := v + ihl * 4 in
    print_with (printed_address c (v + SADDR)) (fun ip =>
    print_with (peek16 c (tcph + TH_SPORT)) (fun port =>
    print_text ("#- " +:+ ip +:+ ":" +:+ print_nonneg port)
    (print_with (printed_address c (v + DADDR)) (fun ip =>
    print_with (peek16 c (tcph + TH_DPORT)) (fun port =>
    print_text (" => " +:+ ip +:+ ":" +:+ print_nonneg port +:+ "  " +:+ print_nonneg delay +:+ " ms" +:+ endl)
      print_end))))))).

Definition print_udp_endpoints (c : bytes) (v : Z) (delay : Z) : printed :=
  print_with (ip_version c v) (fun version =>
  if negb (version =? 4) then print_end
  else
    print_with (ip_header_words c v) (fun ihl =>
    let udph := v + ihl * 4 in
    print_with (printed_address c (v + SADDR)) (fun ip =>
    print_with (peek16 c (udph + UH_SPORT)) (fun port =>
    print_text ("#- " +:+ ip +:+ ":" +:+ print_nonneg port)
    (print_with (printed_address c (v + DADDR)) (fun ip =>
    print_with (peek16 c (udph + UH_DPORT)) (fun port =>
    print_text (" => " +:+ ip +:+ ":" +:+ print_nonneg port +:+ "  " +:+ print_nonneg delay +:+ " ms" +:+ endl)
      print_end))))))).

(** * Facts *)

(** The buffer is long enough for every address: nothing is ever thrown. *)
Lemma printed_address_ntop c i s : checked_ntop c i = Ok s -> printed_address c i = Ok s.
Proof.
  unfold checked_ntop, printed_address. destruct (inet_ntop c i INET_ADDRSTRLEN) as [[ip|]|]; cbn [bind]; done.
Qed.

Lemma printed_address_fault c i e : 0 <= i -> printed_address c i = Err e -> beyond e.
Proof.
  intros Hi E. destruct (checked_ntop c i) as [s|e'] eqn:E'; [apply printed_address_ntop in E'; congruence|].
  pose proof (checked_ntop_fault c i e' Hi E') as Hb. revert E E'. unfold checked_ntop, printed_address.
  destruct (inet_ntop c i INET_ADDRSTRLEN) as [[ip|]|e2]; cbn [bind]; intros; simplify_eq; [|done].
  by destruct Hb as [what [=]].
Qed.

Lemma print_with_fault {A} (m : outcome A) k e : (print_with m k).1 = Err e ->
  (exists a, m = Ok a /\ (k a).1 = Err e) \/ m = Err e.
Proof. destruct m as [a|e']; cbn; intros E; [left; by exists a|right; by injection E as ->]. Qed.

Lemma words_nonneg c v n : ip_header_words c v = Ok n -> 0 <= n.
Proof.
  unfold ip_header_words. destruct (peek c v); cbn [bind]; [|done]. intros [= <-]. apply Z.land_nonneg. lia.
Qed.

(** The only way to fail is to read beyond the memory given. *)
Theorem print_tcp_endpoints_fault c v delay e : 0 <= v -> (print_tcp_endpoints c v delay).1 = Err e -> beyond e.
Proof.
  intros Hv H. unfold print_tcp_endpoints in H.
  apply print_with_fault in H as [(version & _ & H)|H].
  2: { unfold ip_version in H. destruct (peek c v) eqn:E; cbn [bind] in H; [done|]. simplify_eq. by eapply peek_fault. }
  destruct (negb _); [done|]. apply print_with_fault in H as [(n & _ & H)|H].
  2: { unfold ip_header_words in H. destruct (peek c v) eqn:E; cbn [bind] in H; [done|]. simplify_eq. by eapply peek_fault. }
  cbv zeta in H. apply print_with_fault in H as [(ip & _ & H)|H]; [|eapply printed_address_fault; [|exact H]; unfold SADDR; lia].
  apply print_with_fault in H as [(port & _ & H)|H]; [|by eapply peek16_fault].
  apply print_with_fault in H as [(ip2 & _ & H)|H]; [|eapply printed_address_fault; [|exact H]; unfold DADDR; lia].
  apply print_with_fault in H as [(port2 & _ & H)|H]; [done|by eapply peek16_fault].
Qed.

(** The ports of a TCP and of a UDP header are at the same place. *)
Theorem print_udp_endpoints_same c v delay : print_udp_endpoints c v delay = print_tcp_endpoints c v delay.
Proof. reflexivity. Qed.

(** A packet that is not IPv4 prints nothing. *)
Theorem other_versions_silent c v delay version : ip_version c v = Ok version -> version <> 4 ->
  print_src_dst_ips c v = (Ok tt, EmptyString) /\ print_tcp_endpoints c v delay = (Ok tt, EmptyString).
Proof.
  intros E Hv. unfold print_src_dst_ips, print_tcp_endpoints. rewrite E. cbn [print_with].
  by destruct (Z.eqb_spec version 4).
Qed.

(** ** The line of a well-formed packet *)

Section Packet.
Context (before o1 o2 payload : bytes) (h : ipv4_header).
Hypothesis h_ok : header_ok h.
Hypothesis o1_len : len o1 = 8.
Hypothesis o2_len : len o2 = 2.

Let v : Z := len before.
Let c : bytes := tun_packet before h o1 o2 payload.
Let c4 : bytes := tun_packet (repeat Byte.x00 4) h o1 o2 payload.

(** The header is read as behind the prefix of the tunnel device. *)
Lemma peek_header i : 0 <= i -> peek c (v + i) = peek c4 (4 + i).
Proof.
  intros Hi. unfold c, c4, v, tun_packet. rewrite peek_app_r by lia. rewrite (peek_app_r (repeat Byte.x00 4)).
  - f_equal. unfold len at 1 3. cbn [List.length repeat]. unfold len. lia.
  - unfold len. cbn [List.length repeat]. lia.
Qed.

Lemma first_byte : peek c v = Ok (64 + (5 + len (options h) / 4)).
Proof.
  pose proof (peek_header 0 ltac:(lia)) as E. rewrite Z.add_0_r in E. rewrite E.
  destruct (peek_tun_packet (repeat Byte.x00 4) h o1 o2 payload eq_refl o1_len o2_len) as (E' & _). fold c4 in E'.
  change (4 + 0) with 4. rewrite E'. destruct h_ok as (_ & _ & _ & _ & Hl). pose proof (len_nonneg (options h)).
  assert (0 <= len (options h) / 4 <= 10) by (split; [apply Z.div_pos|apply Z.div_le_upper_bound]; lia).
  rewrite byte_value_of by lia. done.
Qed.

Lemma words_range : 0 <= len (options h) / 4 <= 10.
Proof.
  destruct h_ok as (_ & _ & _ & _ & Hl). pose proof (len_nonneg (options h)).
  split; [apply Z.div_pos|apply Z.div_le_upper_bound]; lia.
Qed.

Lemma version_4 : ip_version c v = Ok 4.
Proof.
  unfold ip_version. rewrite first_byte. cbn [bind]. f_equal. rewrite Z.shiftr_div_pow2 by lia.
  pose proof words_range. change (2 ^ 4) with 16. symmetry. apply (Z.div_unique _ _ _ (5 + len (options h) / 4)); lia.
Qed.

Lemma header_words : ip_header_words c v = Ok (5 + len (options h) / 4).
Proof.
  unfold ip_header_words. rewrite first_byte. cbn [bind]. f_equal. change 15 with (Z.ones 4). rewrite Z.land_ones by lia.
  pose proof words_range. change (2 ^ 4) with 16. symmetry. apply (Z.mod_unique _ _ 4); lia.
Qed.

Lemma peek_rest i : 12 <= i ->
  peek c (v + i) = peek (addr_bytes (saddr h) ++ addr_bytes (daddr h) ++ options h ++ payload) (i - 12).
Proof.
  intros Hi. rewrite peek_header by lia.
  destruct (peek_tun_packet (repeat Byte.x00 4) h o1 o2 payload eq_refl o1_len o2_len) as (_ & _ & E). fold c4 in E.
  rewrite E by lia. f_equal. lia.
Qed.

Lemma source_address : printed_address c (v + SADDR) = Ok (addr_string (saddr h)).
Proof.
  apply printed_address_ntop, (checked_ntop_addr _ _ _ (addr_bytes (daddr h) ++ options h ++ payload)); [apply h_ok|].
  intros j Hj. unfold SADDR. rewrite <- Z.add_assoc, peek_rest by lia. f_equal. lia.
Qed.

Lemma destination_address : printed_address c (v + DADDR) = Ok (addr_string (daddr h)).
Proof.
  apply printed_address_ntop, (checked_ntop_addr _ _ _ (options h ++ payload)); [apply h_ok|].
  intros j Hj. unfold DADDR. rewrite <- Z.add_assoc, peek_rest, peek_app_r, length_addr by (rewrite ?length_addr; lia). f_equal. lia.
Qed.

Lemma peek_payload i : 0 <= i -> peek c (v + (5 + len (options h) / 4) * 4 + i) = peek payload i.
Proof.
  intros Hi. destruct h_ok as (_ & _ & _ & Hm & _). pose proof (Z.div_mod (len (options h)) 4). pose proof words_range.
  rewrite <- Z.add_assoc, peek_rest by lia. rewrite !peek_app_r, !length_addr by (rewrite ?length_addr; lia). f_equal. lia.
Qed.
End Packet.

(** The addresses of a well-formed packet are printed. *)
Theorem print_src_dst_ips_correct (before o1 o2 payload : bytes) (h : ipv4_header) :
  header_ok h -> len o1 = 8 -> len o2 = 2 ->
  print_src_dst_ips (tun_packet before h o1 o2 payload) (len before) =
  (Ok tt, "#- " +:+ addr_string (saddr h) +:+ " => " +:+ addr_string (daddr h) +:+ endl).
Proof.
  intros Hh H1 H2. unfold print_src_dst_ips. rewrite version_4, source_address, destination_address by done.
  cbn [print_with negb Z.eqb Pos.eqb]. unfold print_text, print_end. cbn [fst snd]. by rewrite !string_app_nil, !string_app_assoc.
Qed.

(** With the ports, wherever the header's options put them. *)
Theorem print_tcp_endpoints_correct (before o1 o2 payload : bytes) (h : ipv4_header) (sport dport delay : Z) :
  header_ok h -> len o1 = 8 -> len o2 = 2 -> 0 <= sport < 65536 -> 0 <= dport < 65536 ->
  print_tcp_endpoints (tun_packet before h o1 o2 (port_bytes sport ++ port_bytes dport ++ payload)) (len before) delay =
  (Ok tt, "#- " +:+ addr_string (saddr h) +:+ ":" +:+ print_nonneg sport +:+ " => " +:+ addr_string (daddr h) +:+ ":" +:+
          print_nonneg dport +:+ "  " +:+ print_nonneg delay +:+ " ms" +:+ endl).
Proof.
  intros Hh H1 H2 Hs Hd. unfold print_tcp_endpoints.
  rewrite version_4, header_words, source_address, destination_address by done. cbn [print_with negb Z.eqb Pos.eqb].
  rewrite (peek16_port _ (_ + TH_SPORT) sport (port_bytes dport ++ payload)); [|done|].
  2: { intros j Hj. unfold TH_SPORT. rewrite Z.add_0_r. by apply peek_payload. }
  rewrite (peek16_port _ (_ + TH_DPORT) dport payload); [|done|].
  2: { intros j Hj. unfold TH_DPORT. rewrite <- Z.add_assoc, peek_payload by (done || lia).
       rewrite peek_app_r by (change (len (port_bytes sport)) with 2; lia). f_equal. change (len (port_bytes sport)) with 2. lia. }
  cbn [print_with]. unfold print_text, print_end. cbn [fst snd]. by rewrite !string_app_nil, !string_app_assoc.
Qed.
