(* ===== verification/DelayTrace.v ===== *)
(** The release time of a packet from the packet-train trace:
    [CellularQueue::get_pkt_release_time_from_trace], [get_pkt_release_time]
    and [get_psize_latency_offset] (src/frontend/cellular_queue.cc).

    A line of the trace gives a base delay and the light delivery
    opportunities of a packet train.  The first packet of a train waits for the
    base delay, interpolated between two lines of the trace; the packets that
    follow share the train's opportunities, 1400 bytes each, and those beyond
    the last one go to the heavy opportunities of the link. *)
From Stdlib Require Import SpecFloat.
From S2P Require Import Prelude Floats Timestamp LinkQueue.

(** * State *)

Record DelayPDOInstance := {
  time : Z;
  delay : Z;
  pdo : list Z;
}.

Record DelayTrace := {
  delay_pdo_traces_ : list DelayPDOInstance;
  delay_base_timestamp_ : Z;
  curr_delivery_opportunity_ : Z;
  current_delay_pdo_idx_ : Z;
  current_pdo_idx_ : Z;
  current_pdo_size_ : Z;
  pdo_base_timestamp_ : Z;
  current_base_delay_ : Z;
  bypass_link_pdo_ : bool;
  psize_latency_offset_ : list real;
  long_to_short_timer_ : Z;
  last_delay_queue_release_time_ : Z;
}.

#[export] Instance eta_DelayTrace : Eta DelayTrace := fun s =>
  {| delay_pdo_traces_ := delay_pdo_traces_ s; delay_base_timestamp_ := delay_base_timestamp_ s;
     curr_delivery_opportunity_ := curr_delivery_opportunity_ s;
     current_delay_pdo_idx_ := current_delay_pdo_idx_ s; current_pdo_idx_ := current_pdo_idx_ s;
     current_pdo_size_ := current_pdo_size_ s; pdo_base_timestamp_ := pdo_base_timestamp_ s;
     current_base_delay_ := current_base_delay_ s; bypass_link_pdo_ := bypass_link_pdo_ s;
     psize_latency_offset_ := psize_latency_offset_ s; long_to_short_timer_ := long_to_short_timer_ s;
     last_delay_queue_release_time_ := last_delay_queue_release_time_ s |}.

(** The members as the constructor of [CellularQueue] leaves them. *)
Definition delay_trace_new (traces : list DelayPDOInstance) (offsets : list real)
    (long_to_short_timer base : Z) : DelayTrace :=
  {| delay_pdo_traces_ := traces; delay_base_timestamp_ := base; curr_delivery_opportunity_ := 1400;
     current_delay_pdo_idx_ := 0; current_pdo_idx_ := 0; current_pdo_size_ := 1; pdo_base_timestamp_ := 0;
     current_base_delay_ := -1; bypass_link_pdo_ := true; psize_latency_offset_ := offsets;
     long_to_short_timer_ := long_to_short_timer; last_delay_queue_release_time_ := 0 |}.

(** * Operations *)

(** [start_new_short_pdo_trace] *)
Definition start_new_short_pdo_trace (now : Z) (s : DelayTrace) : bool :=
  (current_base_delay_ s <? 0) ||
  (u64 (last_delay_queue_release_time_ s + long_to_short_timer_ s) <? u64 (now + current_base_delay_ s)).

(** The loop that searches for the instance of the trace; it returns the
    relative timestamp as the loop leaves it. *)
Fixpoint search_instance (fuel : nat) (now relative_timestamp_ms : Z) (s : DelayTrace) :
    outcome (Z * DelayTrace) :=
  let* next := vec_get (delay_pdo_traces_ s) (u32 (current_delay_pdo_idx_ s + 1)) in
  if negb (time next <=? u64 relative_timestamp_ms) then Ok (relative_timestamp_ms, s) else
  match fuel with
  | O => Err Diverges
  | S fuel =>
      let s := s <| current_delay_pdo_idx_ := u32 (current_delay_pdo_idx_ s + 1) |> in
      (* Repeat the trace if we already exceed the trace length *)
      if u64 (len (delay_pdo_traces_ s) - 1) <=? current_delay_pdo_idx_ s then
        let* cur := vec_get (delay_pdo_traces_ s) (current_delay_pdo_idx_ s) in
        (* Reset the trace *)
        let s := s <| delay_base_timestamp_ := u64 (delay_base_timestamp_ s + time cur) |> in
        let relative_timestamp_ms := i64 (u64 (now - delay_base_timestamp_ s)) in
        let s := s <| current_delay_pdo_idx_ := 0 |> in
        search_instance fuel now relative_timestamp_ms s
      else search_instance fuel now relative_timestamp_ms s
  end.

(** Every pass over the trace advances its base by at least a millisecond. *)
Definition search_fuel (now : Z) (s : DelayTrace) : nat :=
  Z.to_nat (len (delay_pdo_traces_ s) * (now - delay_base_timestamp_ s + 1)).

(** The difference of two [int]s: overflow is undefined behaviour. *)
Definition int_minus (a b : Z) : outcome Z :=
  if (- 2 ^ 31 <=? a - b) && (a - b <? 2 ^ 31) then Ok (a - b)
  else Err (UndefinedBehaviour "signed overflow").

(** The base delay, interpolated between two instances in [float]; the
    differences of the timestamps are computed in 64 bits. *)
Definition interpolate (relative_timestamp_ms : Z) (cur next : DelayPDOInstance) : outcome Z :=
  let ratio := fdiv (float_of_Z (u64 (relative_timestamp_ms - time cur)))
                    (float_of_Z (u64 (time next - time cur))) in
  let* difference := int_minus (delay next) (delay cur) in
  let adjusted_delay := fmul ratio (float_of_Z difference) in
  to_int (trunc (fadd (float_of_Z (delay cur)) adjusted_delay)).

(** The branch of a new train. *)
Definition new_train (now relative_timestamp_ms packet_size : Z) (s : DelayTrace) : outcome (Z * DelayTrace) :=
  let* (relative_timestamp_ms, s) := search_instance (search_fuel now s) now relative_timestamp_ms s in
  let* cur := vec_get (delay_pdo_traces_ s) (current_delay_pdo_idx_ s) in
  let s := s <| current_pdo_size_ := u32 (len (pdo cur)) |> in
  let* next := vec_get (delay_pdo_traces_ s) (u32 (current_delay_pdo_idx_ s + 1)) in
  let* d := interpolate relative_timestamp_ms cur next in
  let delay_ms := u64 d in
  let s := s <| current_base_delay_ := i32 delay_ms |> in
  let release_time := u64 (now + delay_ms) in
  let s := s <| bypass_link_pdo_ := true |>
             <| pdo_base_timestamp_ := u64 relative_timestamp_ms |>
             <| current_pdo_idx_ := 0 |>
             <| curr_delivery_opportunity_ := i32 (u32 (PACKET_SIZE - packet_size)) |> in
  Ok (release_time, s).

(** Find the light opportunity of the train that is not past. *)
Fixpoint search_pdo (fuel : nat) (timestamp_from_pdo_base : Z) (s : DelayTrace) : outcome DelayTrace :=
  if negb (current_pdo_idx_ s <? current_pdo_size_ s) then Ok s else
  let* cur := vec_get (delay_pdo_traces_ s) (current_delay_pdo_idx_ s) in
  let* p := vec_get (pdo cur) (current_pdo_idx_ s) in
  if negb (p <? timestamp_from_pdo_base) then Ok s else
  match fuel with
  | O => Err Diverges
  | S fuel =>
      search_pdo fuel timestamp_from_pdo_base
        (s <| current_pdo_idx_ := u32 (current_pdo_idx_ s + 1) |> <| curr_delivery_opportunity_ := PACKET_SIZE |>)
  end.

(** Take the packet's bytes from the current opportunity, or from the next one
    if they do not fit. *)
Definition burn_opportunity (packet_size : Z) (s : DelayTrace) : DelayTrace :=
  let s := if u32 (curr_delivery_opportunity_ s) <? packet_size
    then s <| current_pdo_idx_ := u32 (current_pdo_idx_ s + 1) |> <| curr_delivery_opportunity_ := PACKET_SIZE |>
    else s in
  s <| curr_delivery_opportunity_ := i32 (u32 (curr_delivery_opportunity_ s - packet_size)) |>.

(** The branch that uses the current train. *)
Definition same_train (now relative_timestamp_ms packet_size : Z) (s : DelayTrace) : outcome (Z * DelayTrace) :=
  let timestamp_from_pdo_base := i64 (u64 (relative_timestamp_ms - pdo_base_timestamp_ s)) in
  let* s := search_pdo (Z.to_nat (current_pdo_size_ s)) timestamp_from_pdo_base s in
  let s := burn_opportunity packet_size s in
  let* cur := vec_get (delay_pdo_traces_ s) (current_delay_pdo_idx_ s) in
  if current_pdo_size_ s <=? current_pdo_idx_ s then
    let s := s <| bypass_link_pdo_ := false |> in
    let* last := vec_get (pdo cur) (u32 (current_pdo_size_ s - 1)) in
    Ok (Z.max (u64 (now + current_base_delay_ s)) (u64 (now + last)), s)
  else
    let* p := vec_get (pdo cur) (current_pdo_idx_ s) in
    guard* timestamp_from_pdo_base <=? p
      else AssertFail "pdo[current_pdo_idx_] >= timestamp_from_pdo_base" in
    let release_time := u64 (now + current_base_delay_ s + (p - timestamp_from_pdo_base)) in
    Ok (release_time, s <| bypass_link_pdo_ := true |>).

Definition get_pkt_release_time_from_trace (now packet_size : Z) (s : DelayTrace) : outcome (Z * DelayTrace) :=
  let relative_timestamp_ms := i64 (u64 (now - delay_base_timestamp_ s)) in
  let* (release_time, s) :=
    if start_new_short_pdo_trace now s
    then new_train now relative_timestamp_ms packet_size s
    else same_train now relative_timestamp_ms packet_size s in
  Ok (release_time, s <| last_delay_queue_release_time_ := release_time |>).

Definition get_pkt_release_time (now : Z) (contents : bytes) (s : DelayTrace) : outcome (Z * DelayTrace) :=
  get_pkt_release_time_from_trace now (u32 (len contents)) s.

(** [idx >= size() - 1] compares an [int] with a [size_t]; [idx] is then
    nonnegative. *)
Definition get_psize_latency_offset (psize : Z) (s : DelayTrace) : outcome real :=
  let v := psize_latency_offset_ s in
  if len v =? 0 then Ok (double_of_Z 0)
  else
    let idx := i32 (u32 (psize / 100 - 1)) in
    let remainder := psize mod 100 in
    if idx <? 0 then vec_get v 0
    else if u64 (len v - 1) <=? u64 idx then back v
    else
      let* a := vec_get v idx in
      let* b := vec_get v (idx + 1) in
      Ok (dadd a (dmul (ddiv (double_of_Z remainder) (double_of_Z 100)) (dsub b a))).

(** [int( round( get_psize_latency_offset( psize ) ) )] *)
Definition latency_offset (psize : Z) (s : DelayTrace) : outcome Z :=
  let* x := get_psize_latency_offset psize s in
  to_int (round x).

(** * Well-formedness *)

(** The interpolation between two instances gives a base delay. *)
Definition interpolates (cur next : DelayPDOInstance) : Prop :=
  forall t, time cur <= t < time next -> exists d, interpolate t cur next = Ok d /\ 0 <= d < 2 ^ 31.

Definition instance_ok (x : DelayPDOInstance) : Prop :=
  0 <= time x < time_limit /\ pdo x <> [] /\ len (pdo x) < 2 ^ 31 /\
  Forall (fun p => 0 <= p < 2 ^ 31) (pdo x) /\ nondecreasing (pdo x) = true.

#[export] Instance instance_ok_dec x : Decision (instance_ok x).
Proof. unfold instance_ok. apply _. Defined.

Definition times (l : list DelayPDOInstance) : list Z := map time l.

Record trace_wf (l : list DelayPDOInstance) : Prop := {
  trace_long : 3 <= len l < 2 ^ 31;
  trace_instances : Forall instance_ok l;
  trace_nondecreasing : nondecreasing (times l) = true;
  trace_first : nth_or_0 (times l) 0 = 0;
  trace_lasts : 0 < last_or_0 (times l);
  trace_interpolates i cur next : l !! i = Some cur -> l !! S i = Some next -> interpolates cur next;
}.

Lemma len_times l : len (times l) = len l.
Proof. unfold len, times. by rewrite length_map. Qed.

Lemma trace_get l i : 0 <= i < len l ->
  exists x, vec_get l i = Ok x /\ l !! Z.to_nat i = Some x /\ time x = nth_or_0 (times l) i.
Proof.
  intros Hi. destruct (znth_is_Some l i Hi) as [x Hx]. exists x. split; [by apply vec_get_Ok|].
  apply znth_Some in Hx as [H0 Hx]. split; [done|]. unfold nth_or_0, znth, times.
  destruct (Z.ltb_spec i 0); [lia|]. by rewrite list_lookup_fmap, Hx.
Qed.

Lemma trace_time_range l i : trace_wf l -> 0 <= i < len l -> 0 <= nth_or_0 (times l) i < time_limit.
Proof.
  intros Hl Hi. destruct (trace_get l i Hi) as (x & _ & Hx & <-).
  pose proof (trace_instances l Hl) as H. rewrite Forall_lookup in H. by apply (H _ _ Hx).
Qed.

Lemma trace_last l : trace_wf l -> nth_or_0 (times l) (len l - 1) = last_or_0 (times l).
Proof.
  intros Hl. rewrite <- len_times. apply nth_or_0_last. intros E. pose proof (trace_long l Hl) as H.
  rewrite <- len_times, E in H. change (@len Z []) with 0 in H. lia.
Qed.

(** The position in the trace at time [now]: the base is not in the future and
    the current instance has begun. *)
Definition trace_position (now : Z) (s : DelayTrace) : Prop :=
  let l := delay_pdo_traces_ s in
  0 <= current_delay_pdo_idx_ s < len l - 1 /\
  0 <= delay_base_timestamp_ s <= now /\
  nth_or_0 (times l) (current_delay_pdo_idx_ s) <= now - delay_base_timestamp_ s.

(** What [search_instance] may change. *)
Definition searched (s s' : DelayTrace) : Prop :=
  s' = s <| current_delay_pdo_idx_ := current_delay_pdo_idx_ s' |>
         <| delay_base_timestamp_ := delay_base_timestamp_ s' |>.

Definition search_measure (now : Z) (s : DelayTrace) : Z :=
  len (delay_pdo_traces_ s) * (now - delay_base_timestamp_ s + 1) - current_delay_pdo_idx_ s.

Lemma search_measure_pos now s : trace_position now s -> 0 < search_measure now s.
Proof.
  intros (Hi & Hb & _). unfold search_measure.
  assert (len (delay_pdo_traces_ s) * 1 <= len (delay_pdo_traces_ s) * (now - delay_base_timestamp_ s + 1))
    by (apply Z.mul_le_mono_nonneg_l; lia). lia.
Qed.

(** One step of the search, when the next instance has begun. *)
Lemma search_step fuel now s : trace_wf (delay_pdo_traces_ s) -> trace_position now s -> now < time_limit ->
  nth_or_0 (times (delay_pdo_traces_ s)) (current_delay_pdo_idx_ s + 1) <= now - delay_base_timestamp_ s ->
  exists s1, search_instance (S fuel) now (now - delay_base_timestamp_ s) s =
             search_instance fuel now (now - delay_base_timestamp_ s1) s1 /\
    searched s s1 /\ trace_position now s1 /\ search_measure now s1 < search_measure now s /\
    (delay_base_timestamp_ s1 = delay_base_timestamp_ s \/
     delay_base_timestamp_ s1 = delay_base_timestamp_ s + last_or_0 (times (delay_pdo_traces_ s))).
Proof.
  intros Hl (Hi & Hb & Ht) Hnow Hnext. set (l := delay_pdo_traces_ s) in *.
  pose proof (trace_long l Hl) as Hlen. unfold time_limit in *. cbn [search_instance]. fold l.
  rewrite u32_small by lia. destruct (trace_get l (current_delay_pdo_idx_ s + 1)) as (x & -> & Hx & Ex); [lia|].
  cbn [bind]. rewrite Ex, u64_small by lia.
  destruct (Z.leb_spec (nth_or_0 (times l) (current_delay_pdo_idx_ s + 1)) (now - delay_base_timestamp_ s)); [|lia].
  cbn [negb]. cbn [current_delay_pdo_idx_ delay_pdo_traces_ upd]. fold l. rewrite (u64_small (len l - 1)) by lia.
  destruct (Z.leb_spec (len l - 1) (current_delay_pdo_idx_ s + 1)) as [Hw|Hw].
  - assert (E : current_delay_pdo_idx_ s + 1 = len l - 1) by lia.
    rewrite E in Hnext |- *. destruct (trace_get l (len l - 1)) as (y & -> & Hy & Ey); [lia|]. cbn [bind]. rewrite Ey.
    rewrite trace_last in Hnext |- * by done.
    pose proof (trace_lasts l Hl). cbn [delay_base_timestamp_ upd]. rewrite (u64_small (delay_base_timestamp_ s + _)) by lia.
    rewrite u64_small by lia. rewrite i64_small by lia.
    exists (s <| delay_base_timestamp_ := delay_base_timestamp_ s + last_or_0 (times l) |> <| current_delay_pdo_idx_ := 0 |>).
    split; [done|]. split; [done|].
    unfold trace_position, search_measure. cbn [upd delay_pdo_traces_ delay_base_timestamp_ current_delay_pdo_idx_]. fold l. rewrite (trace_first l Hl).
    split; [lia|]. split; [|by right]. set (L := len l) in *. set (T := last_or_0 (times l)) in *.
    assert (L * 1 <= L * T) by (apply Z.mul_le_mono_nonneg_l; lia). lia.
  - exists (s <| current_delay_pdo_idx_ := current_delay_pdo_idx_ s + 1 |>). split; [done|]. split; [done|].
    unfold trace_position, search_measure. cbn [upd delay_pdo_traces_ delay_base_timestamp_ current_delay_pdo_idx_]. fold l.
    split; [lia|]. split; [lia|by left].
Qed.

Lemma searched_trans s s1 s2 : searched s s1 -> searched s1 s2 -> searched s s2.
Proof. unfold searched. destruct s, s1, s2. cbn. intros [=] [=]. subst. done. Qed.

(** The search, in closed form: the base advances by whole passes over the
    trace, and the instance found is the one in progress. *)
Lemma search_instance_spec fuel : forall now s,
  trace_wf (delay_pdo_traces_ s) -> trace_position now s -> now < time_limit ->
  search_measure now s <= Z.of_nat fuel ->
  exists s' n, search_instance fuel now (now - delay_base_timestamp_ s) s = Ok (now - delay_base_timestamp_ s', s') /\
    searched s s' /\ trace_position now s' /\
    now - delay_base_timestamp_ s' < nth_or_0 (times (delay_pdo_traces_ s)) (current_delay_pdo_idx_ s' + 1) /\
    0 <= n /\ delay_base_timestamp_ s' = delay_base_timestamp_ s + n * last_or_0 (times (delay_pdo_traces_ s)).
Proof.
  induction fuel as [|fuel IH]; intros now s Hl Hp Hnow Hf.
  { pose proof (search_measure_pos now s Hp). lia. }
  destruct (Z.le_gt_cases (nth_or_0 (times (delay_pdo_traces_ s)) (current_delay_pdo_idx_ s + 1))
              (now - delay_base_timestamp_ s)) as [Hn|Hn].
  - destruct (search_step fuel now s Hl Hp Hnow Hn) as (s1 & -> & Hs & Hp1 & Hm & Hb).
    assert (El : delay_pdo_traces_ s1 = delay_pdo_traces_ s) by by rewrite Hs.
    destruct (IH now s1) as (s' & n & E & Hs' & Hp' & Hn' & Hn0 & Hb'); [by rewrite El|done|done|lia|].
    rewrite El in Hn', Hb'. exists s', (if delay_base_timestamp_ s1 =? delay_base_timestamp_ s then n else n + 1).
    split; [done|]. split; [by eapply searched_trans|]. split; [done|]. split; [done|].
    pose proof (trace_lasts _ Hl). destruct (Z.eqb_spec (delay_base_timestamp_ s1) (delay_base_timestamp_ s)); lia.
  - exists s, 0. split; [|split; [by destruct s|]; split; [done|]; lia]. cbn [search_instance].
    destruct Hp as (Hi & Hb & Ht). pose proof (trace_long _ Hl). rewrite u32_small by lia.
    destruct (trace_get (delay_pdo_traces_ s) (current_delay_pdo_idx_ s + 1)) as (x & -> & _ & Ex); [lia|].
    cbn [bind]. rewrite Ex, u64_small by (unfold time_limit in *; lia).
    destruct (Z.leb_spec (nth_or_0 (times (delay_pdo_traces_ s)) (current_delay_pdo_idx_ s + 1)) (now - delay_base_timestamp_ s)); [lia|done].
Qed.

(** The instance found is the one that a trace repeated forever has in
    progress. *)
Lemma search_position_mod now s s' n :
  trace_wf (delay_pdo_traces_ s) -> trace_position now s -> trace_position now s' -> searched s s' ->
  now - delay_base_timestamp_ s' < nth_or_0 (times (delay_pdo_traces_ s)) (current_delay_pdo_idx_ s' + 1) ->
  delay_base_timestamp_ s' = delay_base_timestamp_ s + n * last_or_0 (times (delay_pdo_traces_ s)) ->
  now - delay_base_timestamp_ s' = (now - delay_base_timestamp_ s) mod last_or_0 (times (delay_pdo_traces_ s)).
Proof.
  intros Hl Hp Hp' Hs Hn Hb. pose proof (trace_lasts _ Hl). apply (Z.mod_unique_pos _ _ n); [|lia].
  assert (El : delay_pdo_traces_ s' = delay_pdo_traces_ s) by by rewrite Hs.
  destruct Hp' as (Hi & Hb' & _). rewrite El in *. split; [lia|].
  rewrite <- trace_last by done.
  pose proof (nth_or_0_mono (times (delay_pdo_traces_ s)) (current_delay_pdo_idx_ s' + 1) (len (delay_pdo_traces_ s) - 1)
    (trace_nondecreasing _ Hl)) as Hm. rewrite len_times in Hm. lia.
Qed.

(** ** A new train *)

Lemma new_train_spec now psize s :
  trace_wf (delay_pdo_traces_ s) -> trace_position now s -> now < time_limit -> 0 < psize <= PACKET_SIZE ->
  exists d s' cur next, new_train now (now - delay_base_timestamp_ s) psize s = Ok (now + d, s') /\
    0 <= d < 2 ^ 31 /\
    vec_get (delay_pdo_traces_ s) (current_delay_pdo_idx_ s') = Ok cur /\
    vec_get (delay_pdo_traces_ s) (current_delay_pdo_idx_ s' + 1) = Ok next /\
    interpolate ((now - delay_base_timestamp_ s) mod last_or_0 (times (delay_pdo_traces_ s))) cur next = Ok d /\
    trace_position now s' /\
    pdo_base_timestamp_ s' = now - delay_base_timestamp_ s' /\
    s' = s <| current_delay_pdo_idx_ := current_delay_pdo_idx_ s' |>
           <| delay_base_timestamp_ := delay_base_timestamp_ s' |>
           <| current_pdo_size_ := len (pdo cur) |> <| current_base_delay_ := d |>
           <| bypass_link_pdo_ := true |> <| pdo_base_timestamp_ := pdo_base_timestamp_ s' |>
           <| current_pdo_idx_ := 0 |> <| curr_delivery_opportunity_ := PACKET_SIZE - psize |>.
Proof.
  intros Hl Hp Hnow Hs. unfold PACKET_SIZE in *.
  destruct (search_instance_spec (search_fuel now s) now s Hl Hp Hnow) as (s1 & n & E & Hs1 & Hp1 & Hn & _ & Hb).
  { pose proof (search_measure_pos now s Hp). destruct Hp as (Hi & _). unfold search_fuel, search_measure in *. lia. }
  pose proof (search_position_mod now s s1 n Hl Hp Hp1 Hs1 Hn Hb) as Hmod.
  assert (El : delay_pdo_traces_ s1 = delay_pdo_traces_ s) by by rewrite Hs1.
  pose proof Hp1 as (Hi & Hb1 & Ht). rewrite El in *. set (l := delay_pdo_traces_ s) in *.
  pose proof (trace_long l Hl) as Hlen.
  destruct (trace_get l (current_delay_pdo_idx_ s1)) as (cur & Ec & Lc & Tc); [lia|].
  destruct (trace_get l (current_delay_pdo_idx_ s1 + 1)) as (next & En & Ln & Tn); [lia|].
  assert (Hint : exists d, interpolate (now - delay_base_timestamp_ s1) cur next = Ok d /\ 0 <= d < 2 ^ 31).
  { apply (trace_interpolates l Hl (Z.to_nat (current_delay_pdo_idx_ s1))); [done| |lia].
    rewrite <- Ln. f_equal. lia. }
  destruct Hint as (d & Ed & Hd).
  assert (Hpdo : len (pdo cur) < 2 ^ 31).
  { pose proof (trace_instances l Hl) as HF. rewrite Forall_lookup in HF. by apply (HF _ _ Lc). }
  exists d, (s1 <| current_pdo_size_ := len (pdo cur) |> <| current_base_delay_ := d |>
           <| bypass_link_pdo_ := true |> <| pdo_base_timestamp_ := now - delay_base_timestamp_ s1 |>
           <| current_pdo_idx_ := 0 |> <| curr_delivery_opportunity_ := 1400 - psize |>), cur, next.
  split; [|split; [done|]; split; [done|]; split; [done|]; split; [by rewrite <- Hmod|];
           split; [exact Hp1|]; split; [done|]; rewrite Hs1; done].
  unfold new_train. rewrite E. cbn [bind]. rewrite El. fold l. rewrite Ec. cbn [bind].
  clear E Hs1 Hp1 Hn Hb Hmod. pose proof (len_nonneg (pdo cur)). unfold time_limit in *.
  destruct s1 as [l1 base1 curr1 idx1 pidx1 psz1 pbase1 cbd1 byp1 off1 timer1 last1].
  cbn in El, Ec, En, Ed, Hi, Hb1 |- *. subst l1. fold l.
  rewrite (u32_small (idx1 + 1)) by lia. rewrite En. cbn [bind]. rewrite Ed. cbn [bind].
  rewrite !(u64_small d) by lia. rewrite (u64_small (now + d)) by lia. rewrite (u64_small (now - _)) by lia.
  rewrite (u32_small (len (pdo cur))) by lia. unfold PACKET_SIZE. rewrite (u32_small (1400 - psize)) by lia.
  rewrite !i32_small by lia. done.
Qed.

(** ** The current train *)

(** The opportunity at or after [i] that is not past at offset [o]. *)
Definition opportunity_at (ps : list Z) (o i i' : Z) : Prop :=
  i <= i' /\ (forall k, i <= k < i' -> nth_or_0 ps k < o) /\ (i' < len ps -> o <= nth_or_0 ps i').

Lemma search_pdo_spec fuel : forall o cur s,
  vec_get (delay_pdo_traces_ s) (current_delay_pdo_idx_ s) = Ok cur ->
  current_pdo_size_ s = len (pdo cur) -> len (pdo cur) < 2 ^ 31 -> 0 <= current_pdo_idx_ s ->
  current_pdo_size_ s - current_pdo_idx_ s <= Z.of_nat fuel ->
  exists i, search_pdo fuel o s =
      Ok (s <| current_pdo_idx_ := i |>
            <| curr_delivery_opportunity_ := if i =? current_pdo_idx_ s then curr_delivery_opportunity_ s else PACKET_SIZE |>) /\
    opportunity_at (pdo cur) o (current_pdo_idx_ s) i /\ i <= Z.max (current_pdo_idx_ s) (len (pdo cur)).
Proof.
  assert (Hstop : forall o cur s, current_pdo_size_ s = len (pdo cur) ->
    (current_pdo_idx_ s < current_pdo_size_ s -> o <= nth_or_0 (pdo cur) (current_pdo_idx_ s)) ->
    exists i, Ok s = Ok (s <| current_pdo_idx_ := i |>
            <| curr_delivery_opportunity_ := if i =? current_pdo_idx_ s then curr_delivery_opportunity_ s else PACKET_SIZE |>) /\
    opportunity_at (pdo cur) o (current_pdo_idx_ s) i /\ i <= Z.max (current_pdo_idx_ s) (len (pdo cur))).
  { intros o cur s Hsz Ho. exists (current_pdo_idx_ s). rewrite Z.eqb_refl. split; [by destruct s|].
    unfold opportunity_at. split; [|lia]. split; [lia|]. split; [lia|]. rewrite <- Hsz. exact Ho. }
  induction fuel as [|fuel IH]; intros o cur s Hc Hsz Hlen Hi Hf; cbn [search_pdo];
    (destruct (Z.ltb_spec (current_pdo_idx_ s) (current_pdo_size_ s)); [|apply Hstop; [done|lia]]); [lia|].
  cbn [negb]. rewrite Hc. cbn [bind].
  assert (E : vec_get (pdo cur) (current_pdo_idx_ s) = Ok (nth_or_0 (pdo cur) (current_pdo_idx_ s)))
    by (apply vec_get_Ok, znth_nth_or_0; lia).
  rewrite E. cbn [bind]. destruct (Z.ltb_spec (nth_or_0 (pdo cur) (current_pdo_idx_ s)) o) as [Hp|Hp]; cbn [negb];
    [|by apply Hstop].
  rewrite u32_small by lia. set (s1 := s <| current_pdo_idx_ := _ |> <| curr_delivery_opportunity_ := _ |>).
  destruct (IH o cur s1) as (i & -> & (H1 & H2 & H3) & H4); [exact Hc|exact Hsz|done|simpl; lia|simpl; lia|].
  unfold s1 in *. cbn [upd current_pdo_idx_ curr_delivery_opportunity_] in *. exists i.
  destruct (Z.eqb_spec i (current_pdo_idx_ s)); [lia|]. split; [|split; [|lia]].
  - destruct (Z.eqb_spec i (current_pdo_idx_ s + 1)); done.
  - split; [lia|]. split; [|done]. intros k Hk. destruct (decide (k = current_pdo_idx_ s)) as [->|]; [done|]. apply H2. lia.
Qed.

(** The state of a train at time [now], after [n] packets of the queue. *)
Definition train_wf (n now : Z) (s : DelayTrace) : Prop :=
  exists cur, vec_get (delay_pdo_traces_ s) (current_delay_pdo_idx_ s) = Ok cur /\
    current_pdo_size_ s = len (pdo cur) /\
    0 <= pdo_base_timestamp_ s <= now - delay_base_timestamp_ s /\
    0 <= current_pdo_idx_ s <= current_pdo_size_ s + n /\
    0 <= current_base_delay_ s < 2 ^ 31.

Definition delay_wf (n now : Z) (s : DelayTrace) : Prop :=
  trace_wf (delay_pdo_traces_ s) /\ trace_position now s /\ 0 <= n /\
  0 <= long_to_short_timer_ s < 2 ^ 31 /\
  0 <= curr_delivery_opportunity_ s <= PACKET_SIZE /\
  (current_base_delay_ s < 0 \/ train_wf n now s).

Lemma delay_wf_le n now now' s : delay_wf n now s -> now <= now' -> delay_wf n now' s.
Proof.
  intros (H1 & (H2 & H3 & H4) & H5 & H6 & Hopp & H7) Hle. unfold delay_wf, trace_position.
  split; [done|]. split; [split; [done|]; lia|]. split; [done|]. split; [done|]. split; [done|].
  destruct H7 as [?|(cur & Hc & ?)]; [by left|right]. exists cur. split; [done|]. lia.
Qed.

(** The release times of a train: the first packet's is its arrival plus the
    base delay; the slot [i] of the train opens [nth_or_0 ps i] later. *)
Definition train_start (s : DelayTrace) : Z := delay_base_timestamp_ s + pdo_base_timestamp_ s.

Definition slot_time (s : DelayTrace) (ps : list Z) (i : Z) : Z :=
  train_start s + current_base_delay_ s + nth_or_0 ps i.

(** What a packet of the current train gets: the first opportunity that is
    neither past nor too full, its release time, and whether it is a light
    one. *)
Record train_step (now psize : Z) (ps : list Z) (s s' : DelayTrace) (release_time : Z) : Prop := {
  step_frame : s' = s <| current_pdo_idx_ := current_pdo_idx_ s' |>
                     <| curr_delivery_opportunity_ := curr_delivery_opportunity_ s' |>
                     <| bypass_link_pdo_ := bypass_link_pdo_ s' |>;
  step_slot : exists i, opportunity_at ps (now - train_start s) (current_pdo_idx_ s) i /\
    let room := if i =? current_pdo_idx_ s then curr_delivery_opportunity_ s else PACKET_SIZE in
    current_pdo_idx_ s' = (if room <? psize then i + 1 else i) /\
    curr_delivery_opportunity_ s' = (if room <? psize then PACKET_SIZE else room) - psize /\
    i <= Z.max (current_pdo_idx_ s) (len ps);
  step_light : bypass_link_pdo_ s' = (current_pdo_idx_ s' <? len ps);
  step_release : release_time =
    if current_pdo_idx_ s' <? len ps then slot_time s ps (current_pdo_idx_ s')
    else now + Z.max (current_base_delay_ s) (last_or_0 ps);
  step_future : now <= release_time < now + 2 ^ 32;
}.

Lemma instance_of_trace l i x : trace_wf l -> vec_get l i = Ok x -> instance_ok x.
Proof.
  intros Hl Hx%vec_get_Ok. apply znth_Some in Hx as [_ Hx].
  pose proof (trace_instances l Hl) as HF. rewrite Forall_lookup in HF. by apply (HF _ _ Hx).
Qed.

Lemma burn_opportunity_spec psize s : 0 <= current_pdo_idx_ s -> current_pdo_idx_ s + 1 < 2 ^ 32 ->
  0 <= curr_delivery_opportunity_ s <= PACKET_SIZE -> 0 < psize <= PACKET_SIZE ->
  let fits := negb (curr_delivery_opportunity_ s <? psize) in
  burn_opportunity psize s =
    s <| current_pdo_idx_ := if fits then current_pdo_idx_ s else current_pdo_idx_ s + 1 |>
      <| curr_delivery_opportunity_ := (if fits then curr_delivery_opportunity_ s else PACKET_SIZE) - psize |>.
Proof.
  unfold PACKET_SIZE. intros Hi Hi' Hc Hp. unfold burn_opportunity. rewrite (u32_small (curr_delivery_opportunity_ s)) by lia.
  destruct (Z.ltb_spec (curr_delivery_opportunity_ s) psize); cbn [negb upd curr_delivery_opportunity_ current_pdo_idx_].
  - unfold PACKET_SIZE. rewrite (u32_small (_ + 1)), (u32_small (1400 - psize)), i32_small by lia. done.
  - rewrite u32_small, i32_small by lia. by destruct s.
Qed.

Lemma same_train_spec n now psize s cur :
  delay_wf n now s -> 0 <= current_base_delay_ s -> n < 2 ^ 31 -> now < time_limit -> 0 < psize <= PACKET_SIZE ->
  vec_get (delay_pdo_traces_ s) (current_delay_pdo_idx_ s) = Ok cur ->
  exists r s', same_train now (now - delay_base_timestamp_ s) psize s = Ok (r, s') /\
    train_step now psize (pdo cur) s s' r.
Proof.
  intros (Hl & (Hi & Hb & Ht) & Hn0 & _ & Hopp & [?|(cur' & Hc' & Hsz & Hpb & Hidx & Hbd)]) Hd Hn Hnow Hp Hc; [lia|].
  rewrite Hc in Hc'. simplify_eq. pose proof (instance_of_trace _ _ _ Hl Hc) as (_ & Hne & Hlen & Hran & Hmon).
  unfold same_train, time_limit in *.
  rewrite (u64_small (_ - pdo_base_timestamp_ s)), i64_small by lia.
  set (o := now - delay_base_timestamp_ s - pdo_base_timestamp_ s).
  assert (Eo : o = now - train_start s) by (unfold o, train_start; lia).
  destruct (search_pdo_spec (Z.to_nat (current_pdo_size_ s)) o cur' s) as (i & -> & Hat & Hmax); [done|done|done|lia|lia|].
  cbn [bind]. set (room := if i =? current_pdo_idx_ s then curr_delivery_opportunity_ s else PACKET_SIZE).
  assert (Hroom : 0 <= room <= PACKET_SIZE) by (unfold room, PACKET_SIZE in *; destruct (i =? _); lia).
  pose proof Hat as (Hle & Hpast & Hnext).
  rewrite burn_opportunity_spec by (cbn; (done || lia)).
  cbn [upd delay_pdo_traces_ current_delay_pdo_idx_ current_pdo_size_ current_pdo_idx_ curr_delivery_opportunity_ current_base_delay_].
  rewrite Hc. cbn [bind]. rewrite if_negb. rewrite if_negb. set (i' := if room <? psize then i + 1 else i).
  assert (Hii : i <= i') by (unfold i'; destruct (room <? psize); lia).
  destruct (Z.leb_spec (current_pdo_size_ s) i') as [Hfull|Hlight]; rewrite Hsz in Hfull || rewrite Hsz in Hlight.
  - assert (El : vec_get (pdo cur') (u32 (current_pdo_size_ s - 1)) = Ok (last_or_0 (pdo cur'))).
    { pose proof (len_pos _ Hne).
      rewrite Hsz, u32_small by lia. apply vec_get_Ok. rewrite znth_nth_or_0 by lia. by rewrite nth_or_0_last. }
    assert (Hlast : 0 <= last_or_0 (pdo cur') < 2 ^ 31).
    { rewrite <- nth_or_0_last by done. apply (nth_or_0_Forall (fun p => 0 <= p < 2 ^ 31)); [done|].
      pose proof (len_pos _ Hne). lia. }
    rewrite El. cbn [bind]. rewrite !u64_small by lia. eexists _, _. split; [done|].
    split; cbn [upd current_pdo_idx_ curr_delivery_opportunity_ bypass_link_pdo_]; [done| | | |].
    + exists i. rewrite <- Eo. split; [done|]. fold room. fold i'. by destruct (room <? psize).
    + symmetry. by apply Z.ltb_ge.
    + destruct (Z.ltb_spec i' (len (pdo cur'))); [lia|]. lia.
    + lia.
  - assert (Hi0 : 0 <= i) by lia.
    assert (Hpi : o <= nth_or_0 (pdo cur') i').
    { etrans; [apply Hnext; lia|]. apply nth_or_0_mono; [done|lia|lia]. }
    pose proof (nth_or_0_Forall (fun p => 0 <= p < 2 ^ 31) (pdo cur') i' Hran ltac:(lia)) as Hpr. simpl in Hpr.
    assert (Ep : vec_get (pdo cur') i' = Ok (nth_or_0 (pdo cur') i')) by (apply vec_get_Ok, znth_nth_or_0; lia).
    rewrite Ep. cbn [bind]. destruct (Z.leb_spec o (nth_or_0 (pdo cur') i')); [|lia].
    rewrite u64_small by lia. eexists _, _. split; [done|].
    split; cbn [upd current_pdo_idx_ curr_delivery_opportunity_ bypass_link_pdo_]; [done| | | |].
    + exists i. rewrite <- Eo. split; [done|]. fold room. fold i'. by destruct (room <? psize).
    + symmetry. by apply Z.ltb_lt.
    + destruct (Z.ltb_spec i' (len (pdo cur'))); [|lia]. unfold slot_time, train_start. unfold o. lia.
    + lia.
Qed.

Lemma train_step_slot now psize ps s s' r : train_step now psize ps s s' r -> psize <= PACKET_SIZE ->
  (current_pdo_idx_ s' = current_pdo_idx_ s /\
   curr_delivery_opportunity_ s' = curr_delivery_opportunity_ s - psize /\ psize <= curr_delivery_opportunity_ s) \/
  (current_pdo_idx_ s < current_pdo_idx_ s' <= Z.max (current_pdo_idx_ s) (len ps) + 1 /\
   curr_delivery_opportunity_ s' = PACKET_SIZE - psize).
Proof.
  intros Hst Hp. destruct (step_slot _ _ _ _ _ _ Hst) as (i & (Hle & _) & -> & -> & Hmax).
  destruct (Z.eqb_spec i (current_pdo_idx_ s)) as [->|Hne].
  - destruct (Z.ltb_spec (curr_delivery_opportunity_ s) psize); [right|left]; lia.
  - right. destruct (Z.ltb_spec PACKET_SIZE psize); lia.
Qed.

(** * The release time *)

(** What [get_pkt_release_time_from_trace] does with a packet. *)
Definition release_step (now psize : Z) (s s' : DelayTrace) (r : Z) : Prop :=
  if start_new_short_pdo_trace now s then
    exists cur next,
      vec_get (delay_pdo_traces_ s) (current_delay_pdo_idx_ s') = Ok cur /\
      vec_get (delay_pdo_traces_ s) (current_delay_pdo_idx_ s' + 1) = Ok next /\
      interpolate ((now - delay_base_timestamp_ s) mod last_or_0 (times (delay_pdo_traces_ s))) cur next
        = Ok (current_base_delay_ s') /\
      r = now + current_base_delay_ s' /\ bypass_link_pdo_ s' = true /\ train_start s' = now /\
      current_pdo_idx_ s' = 0 /\ curr_delivery_opportunity_ s' = PACKET_SIZE - psize
  else
    exists cur, vec_get (delay_pdo_traces_ s) (current_delay_pdo_idx_ s) = Ok cur /\
      train_step now psize (pdo cur) s (s' <| last_delay_queue_release_time_ := last_delay_queue_release_time_ s |>) r.

Lemma position_relative now s : trace_position now s -> now < time_limit ->
  i64 (u64 (now - delay_base_timestamp_ s)) = now - delay_base_timestamp_ s.
Proof.
  intros (_ & Hb & _) Hnow. unfold time_limit in *. rewrite u64_small by lia. apply i64_small. lia.
Qed.

Lemma release_time_ok n t now psize s :
  delay_wf n t s -> t <= now -> now < time_limit -> n < 2 ^ 31 -> 0 < psize <= PACKET_SIZE ->
  exists r s', get_pkt_release_time_from_trace now psize s = Ok (r, s') /\ now <= r < now + 2 ^ 32 /\
    delay_wf (n + 1) now s' /\ 0 <= current_base_delay_ s' /\ release_step now psize s s' r /\
    delay_pdo_traces_ s' = delay_pdo_traces_ s /\ psize_latency_offset_ s' = psize_latency_offset_ s.
Proof.
  intros Hwf Hle Hnow Hn Hp. pose proof (delay_wf_le n t now s Hwf Hle) as Hwf'. clear Hwf Hle t.
  pose proof Hwf' as (Hl & Hpos & Hn0 & Htimer & Hopp & Htr).
  unfold get_pkt_release_time_from_trace, release_step. rewrite position_relative by done.
  destruct (start_new_short_pdo_trace now s) eqn:Est.
  - destruct (new_train_spec now psize s Hl Hpos Hnow Hp) as (d & s' & cur & next & -> & Hd & Hc & Hnx & Hint & Hp' & Hpb & Es).
    cbn [bind]. eexists _, _. split; [done|]. split; [lia|].
    cbn [upd current_base_delay_ current_delay_pdo_idx_ bypass_link_pdo_ current_pdo_idx_ curr_delivery_opportunity_ delay_pdo_traces_ psize_latency_offset_].
    assert (El : delay_pdo_traces_ s' = delay_pdo_traces_ s) by by rewrite Es.
    assert (Ed : current_base_delay_ s' = d) by by rewrite Es.
    assert (E0 : current_pdo_idx_ s' = 0) by by rewrite Es.
    assert (Eo : curr_delivery_opportunity_ s' = PACKET_SIZE - psize) by by rewrite Es.
    split; [|split; [lia|split; [|by rewrite Es]]].
    + unfold delay_wf, trace_position. cbn. rewrite El. split; [done|].
      split; [unfold trace_position in Hp'; by rewrite El in Hp'|]. split; [lia|].
      split; [by rewrite Es|]. split; [unfold PACKET_SIZE in *; lia|right].
      exists cur. cbn. rewrite E0, Ed, Hpb. split; [done|].
      destruct Hp' as (_ & Hb' & _). pose proof (len_nonneg (pdo cur)).
      split; [by rewrite Es|]. rewrite Es. cbn. lia.
    + exists cur, next. rewrite Ed. repeat (split; [done|]).
      split; [by rewrite Es|]. split; [unfold train_start; cbn; lia|done].
  - assert (Hd : 0 <= current_base_delay_ s).
    { unfold start_new_short_pdo_trace in Est. apply orb_false_iff in Est as [Est _]. apply Z.ltb_ge in Est. done. }
    destruct Htr as [?|(cur & Hc & Hsz & Hpb & Hidx & Hbd)]; [lia|].
    destruct (same_train_spec n now psize s cur Hwf' Hd Hn Hnow Hp Hc) as (r & s' & -> & Hst).
    cbn [bind]. eexists _, _. split; [done|]. split; [by apply (step_future _ _ _ _ _ _ Hst)|].
    pose proof (step_frame _ _ _ _ _ _ Hst) as Es.
    pose proof (train_step_slot _ _ _ _ _ _ Hst (proj2 Hp)) as Hslot.
    assert (Ed : current_base_delay_ s' = current_base_delay_ s) by by rewrite Es.
    split; [|split; [simpl; lia|split; [|by rewrite Es]]].
    + unfold delay_wf, trace_position, train_wf. rewrite Es. cbn.
      split; [done|]. split; [done|]. split; [lia|]. split; [done|]. split; [unfold PACKET_SIZE in *; lia|right].
      exists cur. split; [done|]. split; [done|]. split; [done|]. split; [|done]. pose proof (len_nonneg (pdo cur)). lia.
    + exists cur. split; [done|].
      replace (_ <| last_delay_queue_release_time_ := last_delay_queue_release_time_ s |>) with s'; [done|].
      rewrite Es. done.
Qed.

(** * The capacity of the light opportunities *)

(** The opportunity a packet was given: its train, the slot of the train, and
    the packet's size. *)
Record assignment := { a_train : nat; a_slot : Z; a_size : Z; a_light : bool }.

(** The packets of a run, each an arrival time with a size. *)
Fixpoint trace_run (train : nat) (arrivals : list (Z * Z)) (s : DelayTrace) :
    outcome (list assignment * DelayTrace) :=
  match arrivals with
  | [] => Ok ([], s)
  | (now, psize) :: arrivals =>
      let train := if start_new_short_pdo_trace now s then S train else train in
      let* (_, s) := get_pkt_release_time_from_trace now psize s in
      let a := {| a_train := train; a_slot := current_pdo_idx_ s; a_size := psize; a_light := bypass_link_pdo_ s |} in
      let* (out, s) := trace_run train arrivals s in
      Ok (a :: out, s)
  end.

Definition bytes_in (train : nat) (slot : Z) (out : list assignment) : Z :=
  zsum (fun a => if (a_train a =? train)%nat && (a_slot a =? slot) then a_size a else 0) out.

(** Arrivals in the order of time, with sizes that fit an opportunity. *)
Fixpoint arrivals_ok (t : Z) (arrivals : list (Z * Z)) : Prop :=
  match arrivals with
  | [] => True
  | (now, psize) :: arrivals => t <= now < time_limit /\ 0 < psize <= PACKET_SIZE /\ arrivals_ok now arrivals
  end.

Lemma bytes_in_cons train slot a out :
  bytes_in train slot (a :: out) =
  (if (a_train a =? train)%nat && (a_slot a =? slot) then a_size a else 0) + bytes_in train slot out.
Proof. done. Qed.

(** What the packets of a run, from a state with current train [k], put in each
    slot. *)
Definition assigned (k : nat) (s : DelayTrace) (out : list assignment) : Prop :=
  (forall t i, ((t < k)%nat \/ t = k /\ i < current_pdo_idx_ s) -> bytes_in t i out = 0) /\
  bytes_in k (current_pdo_idx_ s) out <= curr_delivery_opportunity_ s /\
  (forall t i, bytes_in t i out <= PACKET_SIZE).

Lemma assigned_step k k1 s s1 a out : 0 <= a_size a <= PACKET_SIZE -> 0 <= curr_delivery_opportunity_ s ->
  a_train a = k1 -> a_slot a = current_pdo_idx_ s1 -> assigned k1 s1 out ->
  (k1 = S k /\ curr_delivery_opportunity_ s1 = PACKET_SIZE - a_size a \/
   k1 = k /\ current_pdo_idx_ s < current_pdo_idx_ s1 /\ curr_delivery_opportunity_ s1 = PACKET_SIZE - a_size a \/
   k1 = k /\ current_pdo_idx_ s1 = current_pdo_idx_ s /\ curr_delivery_opportunity_ s <= PACKET_SIZE /\
     curr_delivery_opportunity_ s1 = curr_delivery_opportunity_ s - a_size a) ->
  assigned k s (a :: out).
Proof.
  intros Ha Hc Et Es (H0 & Hcur & Hall) Hcase. unfold assigned. rewrite <- Et, <- Es in *.
  split; [|split].
  - intros t i Hti. rewrite bytes_in_cons.
    destruct (Nat.eqb_spec (a_train a) t) as [E1|E1]; [destruct (Z.eqb_spec (a_slot a) i) as [E2|E2]|]; cbn [andb];
      [subst; lia| |]; rewrite H0; lia.
  - rewrite bytes_in_cons.
    destruct (Nat.eqb_spec (a_train a) k) as [E1|E1]; [destruct (Z.eqb_spec (a_slot a) (current_pdo_idx_ s)) as [E2|E2]|]; cbn [andb].
    + subst k. rewrite <- E2. lia.
    + rewrite H0; lia.
    + rewrite H0; lia.
  - intros t i. rewrite bytes_in_cons. specialize (Hall t i).
    destruct (Nat.eqb_spec (a_train a) t) as [E1|E1]; [destruct (Z.eqb_spec (a_slot a) i) as [E2|E2]|]; cbn [andb]; [|lia..].
    subst. lia.
Qed.

Lemma trace_run_assigned arrivals : forall n k t s,
  delay_wf n t s -> arrivals_ok t arrivals -> n + len arrivals <= 2 ^ 31 ->
  exists out s', trace_run k arrivals s = Ok (out, s') /\ map a_size out = map snd arrivals /\ assigned k s out.
Proof.
  induction arrivals as [|[now psize] arrivals IH]; intros n k t s Hwf Harr Hn.
  - exists [], s. split; [done|]. split; [done|]. destruct Hwf as (_ & _ & _ & _ & Hopp & _). unfold assigned, PACKET_SIZE in *.
    repeat split; intros; change (bytes_in _ _ []) with 0; lia.
  - destruct Harr as (Hnow & Hp & Harr). rewrite len_cons in Hn. pose proof (len_nonneg arrivals).
    destruct (release_time_ok n t now psize s) as (r & s1 & E & _ & Hwf1 & _ & Hst & _); [done|lia|lia|lia|done|].
    cbn [trace_run]. rewrite E. cbn [bind].
    set (k1 := if start_new_short_pdo_trace now s then S k else k).
    destruct (IH (n + 1) k1 now s1) as (out & s' & -> & Hsz & Has); [done|done|lia|].
    cbn [bind]. eexists _, _. split; [done|]. split; [by rewrite !map_cons, Hsz|]. pose proof Hwf as (_ & _ & _ & _ & Hopp & _).
    apply (assigned_step k k1 s s1); cbn [a_size a_train a_slot]; [lia|lia|done|done|done|].
    unfold release_step, k1 in *. destruct (start_new_short_pdo_trace now s).
    + left. destruct Hst as (? & ? & ? & ? & ? & ? & ? & ? & ? & Hc). done.
    + right. destruct Hst as (cur & _ & Hst). apply train_step_slot in Hst; [|lia]. simpl in Hst. lia.
Qed.

(** * Properties *)

(** C11: on a well-formed trace the release time of a packet is always defined
    and not before its arrival: the search of the trace ends, the assertion
    about the light opportunities holds, no vector is indexed out of range, and
    the state stays well-formed.  The first packet of a train waits for the
    base delay interpolated at the time of arrival in the trace repeated
    forever; the next ones get the first opportunity of the train that is
    neither past nor too full. *)
Theorem release_time_defined (n t now psize : Z) (s : DelayTrace) :
  delay_wf n t s -> t <= now -> now < time_limit -> n < 2 ^ 31 -> 0 < psize <= PACKET_SIZE ->
  exists r s', get_pkt_release_time_from_trace now psize s = Ok (r, s') /\ now <= r < now + 2 ^ 32 /\
    delay_wf (n + 1) now s' /\ release_step now psize s s' r.
Proof.
  intros Hwf Hle Hnow Hn Hp. destruct (release_time_ok n t now psize s Hwf Hle Hnow Hn Hp)
    as (r & s' & E & Hr & Hwf' & _ & Hst & _). by exists r, s'.
Qed.

(** C12: no light delivery opportunity carries more than 1400 bytes, however
    the packets arrive: in a run of any length the bytes of the packets given
    the same opportunity of the same train never exceed its size, and every
    packet is given one. *)
Theorem light_opportunity_capacity (n t : Z) (train : nat) (arrivals : list (Z * Z)) (s : DelayTrace) :
  delay_wf n t s -> arrivals_ok t arrivals -> n + len arrivals <= 2 ^ 31 ->
  exists out s', trace_run train arrivals s = Ok (out, s') /\
    map a_size out = map snd arrivals /\ forall (k : nat) (slot : Z), bytes_in k slot out <= 1400.
Proof.
  intros Hwf Harr Hn. destruct (trace_run_assigned arrivals n train t s Hwf Harr Hn) as (out & s' & E & Hsz & _ & _ & H).
  by exists out, s'.
Qed.

(** * Concrete runs *)

Definition interpolates_at (cur next : DelayPDOInstance) (t : Z) : bool :=
  match interpolate t cur next with Ok d => (0 <=? d) && (d <? 2 ^ 31) | Err _ => false end.

(** [interpolates] for instances a small time apart. *)
Lemma interpolates_check cur next :
  forallb (fun k => interpolates_at cur next (time cur + Z.of_nat k)) (seq 0 (Z.to_nat (time next - time cur))) = true ->
  interpolates cur next.
Proof.
  intros H t Ht. rewrite forallb_forall in H. specialize (H (Z.to_nat (t - time cur))).
  rewrite in_seq, Z2Nat.id in H by lia. replace (time cur + (t - time cur)) with t in H by lia.
  unfold interpolates_at in H. destruct (interpolate t cur next) as [d|]; [|by specialize (H ltac:(lia))].
  exists d. split; [done|]. specialize (H ltac:(lia)). lia.
Qed.

Definition sample_trace : list DelayPDOInstance :=
  [ {| time := 0; delay := 20; pdo := [0; 3; 7] |};
    {| time := 40; delay := 35; pdo := [0; 0; 10; 12] |};
    {| time := 90; delay := 20; pdo := [1; 2] |} ].

Lemma sample_trace_wf : trace_wf sample_trace.
Proof.
  split; try by_computation.
  intros i cur next Hc Hn. destruct i as [|[|[|i]]]; simplify_eq/=;
    apply interpolates_check; vm_compute; reflexivity.
Qed.

Definition sample_delay : DelayTrace := delay_trace_new sample_trace [] 50 0.

Lemma sample_delay_wf : delay_wf 0 0 sample_delay.
Proof.
  split; [exact sample_trace_wf|]. split; [by_computation|]. repeat (split; [by_computation|]). left. by_computation.
Qed.

Lemma release_time_defined_witness :
  exists r s', get_pkt_release_time_from_trace 5 1400 sample_delay = Ok (r, s') /\ 5 <= r < 5 + 2 ^ 32 /\
    delay_wf (0 + 1) 5 s' /\ release_step 5 1400 sample_delay s' r.
Proof. apply (release_time_defined 0 0 5 1400 sample_delay); [exact sample_delay_wf|reflexivity || lia..|by_computation]. Defined.

Lemma light_opportunity_capacity_witness :
  exists out s', trace_run 0 [(3, 1000); (3, 300); (3, 200); (9, 1400); (60, 1)] sample_delay = Ok (out, s') /\
    map a_size out = [1000; 300; 200; 1400; 1] /\ forall (k : nat) (slot : Z), bytes_in k slot out <= 1400.
Proof.
  apply (light_opportunity_capacity 0 0 0 [(3, 1000); (3, 300); (3, 200); (9, 1400); (60, 1)] sample_delay);
    [exact sample_delay_wf|simpl; unfold time_limit, PACKET_SIZE; lia|by_computation].
Defined.
