(* ===== verification/FileDescriptor.v ===== *)
(** File descriptors: src/util/file_descriptor.hh/.cc, with [SystemCall] of
    src/util/exception.hh.

    The operating system is the class [Kernel]; the object's own state is the
    record [FileDescriptor].  [PacketSink] is the interface the queue writes to: it
    takes each packet whole or throws, as a write to a tunnel device does. *)
From S2P Require Import Prelude.

(** * The operating system *)

(** System calls as the program sees them: the return value, and the bytes
    read ([None]: the call failed). *)
Class Kernel (OS : Type) := {
  sys_read : Z -> Z -> OS -> option bytes * OS;
  sys_write : Z -> bytes -> OS -> Z * OS;
  sys_set_cloexec : Z -> OS -> Z * OS;
  sys_close : Z -> OS -> Z * OS;
}.

(** [SystemCall( s_attempt, return_value )]: the parameter is an [int]. *)
Definition SystemCall (s_attempt : string) (return_value : Z) : outcome Z :=
  if 0 <=? i32 return_value then Ok (i32 return_value) else Err (UnixError s_attempt).

(** * State *)

Record FileDescriptor := {
  fd_ : Z;
  eof_ : bool;
  read_count_ : Z;
  write_count_ : Z;
}.

#[export] Instance eta_FileDescriptor : Eta FileDescriptor := fun f =>
  {| fd_ := fd_ f; eof_ := eof_ f; read_count_ := read_count_ f; write_count_ := write_count_ f |}.

Definition BUFFER_SIZE : Z := 1024 * 1024.

Definition register_read (f : FileDescriptor) : FileDescriptor := f <| read_count_ := u32 (read_count_ f + 1) |>.
Definition register_write (f : FileDescriptor) : FileDescriptor := f <| write_count_ := u32 (write_count_ f + 1) |>.
Definition set_eof (f : FileDescriptor) : FileDescriptor := f <| eof_ := true |>.
Definition reset_eof (f : FileDescriptor) : FileDescriptor := f <| eof_ := false |>.

Section Operations.
Context {OS : Type} {kernel : Kernel OS}.

(** [if ( fd_ <= 2 ) throw ...; fcntl( fd_, F_SETFD, FD_CLOEXEC )] *)
Definition check_and_set_cloexec (f : FileDescriptor) (o : OS) : outcome (FileDescriptor * OS) :=
  if fd_ f <=? 2 then Err (UnixError "FileDescriptor: fd <= 2")
  else
    let (r, o) := sys_set_cloexec (fd_ f) o in
    let* _ := SystemCall "fcntl FD_CLOEXEC" r in
    Ok (f, o).

Definition fd_new (fd : Z) (o : OS) : outcome (FileDescriptor * OS) :=
  check_and_set_cloexec {| fd_ := fd; eof_ := false; read_count_ := 0; write_count_ := 0 |} o.

(** The move constructor: the new object and the inactive one. *)
Definition fd_move (other : FileDescriptor) : FileDescriptor * FileDescriptor :=
  (other, other <| fd_ := -1 |>).

(** The destructor; a failure of [close] is printed, not thrown. *)
Definition fd_destroy (f : FileDescriptor) (o : OS) : OS :=
  if fd_ f <? 0 then o (* has already been moved away *)
  else snd (sys_close (fd_ f) o).

(** Attempt to write a portion of a string: what is left to write. *)
Definition write_some (rest : bytes) (f : FileDescriptor) (o : OS) : outcome (bytes * FileDescriptor * OS) :=
  match rest with
  | [] => Err (Throw "nothing to write")
  | _ =>
      let (r, o) := sys_write (fd_ f) rest o in
      let* bytes_written := SystemCall "write" r in
      if bytes_written =? 0 then Err (Throw "write returned 0")
      else if len rest <? bytes_written then Err (UndefinedBehaviour "iterator past the end")
      else Ok (drop (Z.to_nat bytes_written) rest, register_write f, o)
  end.

(** The loop of [write( buffer, write_all )]. *)
Fixpoint write_loop (fuel : nat) (rest : bytes) (write_all : bool) (f : FileDescriptor) (o : OS) :
    outcome (bytes * FileDescriptor * OS) :=
  match fuel with
  | O => Err Diverges
  | S fuel =>
      let* (rest, f, o) := write_some rest f o in
      if write_all && negb (len rest =? 0) then write_loop fuel rest write_all f o
      else Ok (rest, f, o)
  end.

Definition write (buffer : bytes) (write_all : bool) (f : FileDescriptor) (o : OS) :
    outcome (bytes * FileDescriptor * OS) :=
  write_loop (S (length buffer)) buffer write_all f o.

Definition read (limit : Z) (f : FileDescriptor) (o : OS) : outcome (bytes * FileDescriptor * OS) :=
  let (r, o) := sys_read (fd_ f) (Z.min BUFFER_SIZE limit) o in
  match r with
  | None => Err (UnixError "read")
  | Some s =>
      let f := if len s =? 0 then set_eof f else f in
      Ok (s, register_read f, o)
  end.

Definition replace_fd (new_fd : Z) (f : FileDescriptor) (o : OS) : outcome (FileDescriptor * OS) :=
  if fd_ f <? 0 then Ok (f, o) (* has already been moved away *)
  else
    (* a failure of close is printed *)
    let o := snd (sys_close (fd_ f) o) in
    check_and_set_cloexec {| fd_ := new_fd; eof_ := false; read_count_ := 0; write_count_ := 0 |} o.

End Operations.

(** * Laws *)

(** A descriptor that a blocking write of a nonempty buffer gives at least one
    byte of the buffer, and never more than the buffer: POSIX [write] on a
    stream or a device that has not failed. *)
Class StreamKernel (OS : Type) `{Kernel OS} := {
  stream : Z -> OS -> bytes;
  sys_write_spec fd b o : b <> [] -> len b < 2 ^ 31 ->
    exists n o', sys_write fd b o = (n, o') /\ 1 <= n <= len b /\
      stream fd o' = stream fd o ++ take (Z.to_nat n) b;
}.

(** The interface of the queue's output: a sink of whole packets.  A write to a
    sink that is ready takes the packet whole, or throws one of the exceptions
    [write_fails]; all of them are derived from [std::exception]. *)
Class PacketSink (F : Type) := {
  fd_write : bytes -> F -> outcome F;
  delivered : F -> list bytes;
  sink_ready : F -> Prop;
  write_fails : fault -> Prop;
  fd_write_spec c f : sink_ready f -> c <> [] -> len c < 2 ^ 31 ->
    (exists f', fd_write c f = Ok f' /\ sink_ready f' /\ delivered f' = delivered f ++ [c]) \/
    (exists e, fd_write c f = Err e /\ write_fails e);
  write_fails_caught e : write_fails e -> caught_as_exception e = true;
  fd_write_empty f : fd_write [] f = Err (Throw "nothing to write");
}.

(** A sink whose writes do not fail. *)
Class SureSink (F : Type) `{PacketSink F} := {
  sink_sure f : sink_ready f;
  never_fails e : ~ write_fails e;
}.

(** The operation ends with what a write has thrown. *)
Definition write_error {A F} `{PacketSink F} (m : outcome (A * F)) : Prop := exists e, m = Err e /\ write_fails e.

(** A tunnel device takes a whole packet with each write that succeeds, and
    nothing with one that fails, for instance because the interface is down.
    [tun_device fd]: the descriptor is one of a tunnel device; [offered c]: the
    system may give the packet [c] to a reader of one.  Nothing is assumed of the
    packets offered. *)
Class TunKernel (OS : Type) `{Kernel OS} := {
  tun_device : Z -> Prop;
  offered : bytes -> Prop;
  datagrams : Z -> OS -> list bytes;
  sys_write_datagram fd b o : tun_device fd -> b <> [] -> len b < 2 ^ 31 ->
    exists r o', sys_write fd b o = (r, o') /\
      (r = len b /\ datagrams fd o' = datagrams fd o ++ [b] \/ r = -1 /\ datagrams fd o' = datagrams fd o);
}.

Lemma SystemCall_Ok a n : 0 <= n < 2 ^ 31 -> SystemCall a n = Ok n.
Proof. intros Hn. unfold SystemCall. rewrite i32_small by lia. destruct (Z.leb_spec 0 n); [done|lia]. Qed.

Section Laws.
Context {OS : Type} {kernel : Kernel OS}.

Lemma write_some_Ok b f (o : OS) n o' : b <> [] -> len b < 2 ^ 31 -> 1 <= n <= len b ->
  sys_write (fd_ f) b o = (n, o') ->
  write_some b f o = Ok (drop (Z.to_nat n) b, register_write f, o').
Proof.
  intros Hb Hl Hn E. unfold write_some. destruct b as [|x b]; [done|]. rewrite E, SystemCall_Ok by lia. cbn [bind].
  destruct (Z.eqb_spec n 0); [lia|]. destruct (Z.ltb_spec (len (x :: b)) n); [lia|done].
Qed.

Lemma write_loop_delivers {stream_kernel : StreamKernel OS} fuel : forall b f (o : OS),
  b <> [] -> len b < 2 ^ 31 -> (length b <= fuel)%nat ->
  exists f' o', write_loop fuel b true f o = Ok ([], f', o') /\ fd_ f' = fd_ f /\ eof_ f' = eof_ f /\
    stream (fd_ f) o' = stream (fd_ f) o ++ b.
Proof.
  induction fuel as [|fuel IH]; intros b f o Hb Hl Hf.
  { destruct b; [done|simpl in Hf; lia]. }
  destruct (sys_write_spec (fd_ f) b o Hb Hl) as (n & o1 & E & Hn & Hs).
  cbn [write_loop]. rewrite (write_some_Ok b f o n o1) by done. cbn [bind andb].
  destruct (drop (Z.to_nat n) b) as [|y r] eqn:Er.
  - cbn. eexists _, _. split; [done|]. split; [done|]. split; [done|]. rewrite Hs. f_equal.
    by rewrite <- (take_drop (Z.to_nat n) b) at 2; rewrite Er, app_nil_r.
  - rewrite len_cons. pose proof (len_nonneg r). destruct (Z.eqb_spec (len r + 1) 0); [lia|]. cbn [negb].
    assert (Hlr : length (y :: r) = (length b - Z.to_nat n)%nat) by by rewrite <- Er, length_drop.
    destruct (IH (y :: r) (register_write f) o1) as (f' & o' & -> & H1 & H2 & H3); [done|unfold len in *; lia|lia|].
    eexists _, _. split; [done|]. split; [done|]. split; [done|]. cbn in H3. rewrite H3, Hs, <- (assoc_L (++)). f_equal.
    by rewrite <- Er, take_drop.
Qed.


End Laws.

(** * A descriptor as a packet sink *)

Definition fd_sink_write {OS} `{Kernel OS} (c : bytes) (s : FileDescriptor * OS) : outcome (FileDescriptor * OS) :=
  let* (_, f, o) := write c true s.1 s.2 in Ok (f, o).

#[export] Program Instance fd_sink (OS : Type) `{TunKernel OS} : PacketSink (FileDescriptor * OS) := {
  fd_write := fd_sink_write;
  delivered s := datagrams (fd_ s.1) s.2;
  sink_ready s := tun_device (fd_ s.1);
  write_fails e := e = UnixError "write";
}.
Next Obligation.
  intros OS k tun c [f o] Hf Hc Hl. destruct (sys_write_datagram (fd_ f) c o Hf Hc Hl) as (r & o' & E & [[-> Hd]|[-> Hd]]);
    unfold fd_sink_write, write; cbn [write_loop fst snd].
  - left. exists (register_write f, o'). split; [|by split]. assert (0 < len c) by by apply len_pos.
    rewrite (write_some_Ok c f o (len c) o') by (done || lia). cbn [bind].
    rewrite drop_ge by (unfold len; lia). done.
  - right. eexists. split; [|reflexivity]. unfold write_some. destruct c; [done|]. by rewrite E.
Qed.
Next Obligation. by intros OS k tun e ->. Qed.
Next Obligation. done. Qed.

(** * Concrete kernels *)

(** One descriptor, to which every call writes at most 2 bytes. *)
Definition slow_kernel : Kernel bytes := {|
  sys_read fd n o := (Some [], o);
  sys_write fd b o := (Z.min 2 (len b), o ++ take 2 b);
  sys_set_cloexec fd o := (0, o);
  sys_close fd o := (0, o) |}.

Lemma slow_write_spec (fd : Z) (b o : bytes) : b <> [] -> len b < 2 ^ 31 ->
  exists n o', @sys_write _ slow_kernel fd b o = (n, o') /\ 1 <= n <= len b /\ o' = o ++ take (Z.to_nat n) b.
Proof.
  intros Hb Hl. exists (Z.min 2 (len b)), (o ++ take 2 b). pose proof (len_pos b Hb).
  split; [done|]. split; [lia|]. f_equal. destruct (Z.min_spec 2 (len b)) as [[? ->]|[? ->]]; [done|].
  rewrite !take_ge by (unfold len in *; lia). done.
Qed.

Definition slow_stream : @StreamKernel bytes slow_kernel :=
  @Build_StreamKernel bytes slow_kernel (fun _ o => o) slow_write_spec.


(** A sink that records the packets, for concrete runs. *)
Definition list_write (c : bytes) (f : list bytes) : outcome (list bytes) :=
  match c with [] => Err (Throw "nothing to write") | _ => Ok (f ++ [c]) end.

Lemma list_write_spec c (f : list bytes) : True -> c <> [] -> len c < 2 ^ 31 ->
  (exists f', list_write c f = Ok f' /\ True /\ f' = f ++ [c]) \/ (exists e, list_write c f = Err e /\ False).
Proof. intros _ Hc _. left. exists (f ++ [c]). by destruct c. Qed.

#[export] Instance list_sink : PacketSink (list bytes) := {
  fd_write := list_write;
  delivered f := f;
  sink_ready _ := True;
  write_fails _ := False;
  fd_write_spec := list_write_spec;
  write_fails_caught e := False_ind _;
  fd_write_empty f := eq_refl;
}.

#[export] Instance list_sink_sure : SureSink (list bytes).
Proof. split; [done|intros e []]. Qed.
