(* ===== verification/CellularQueue.v ===== *)
(** The queue of one direction of the emulated link:
    [CellularQueue::read_packet], [write_packets], [wait_time],
    [pending_output] and what they call (src/frontend/cellular_queue.hh/.cc).

    A packet read from the tunnel device waits in the delay queue until the
    release time the packet-train trace gives it.  It then goes out at once if
    it used a light opportunity and the link is empty, and to the link
    otherwise.  The record [CellularQueue] holds the object's members, those of
    the link and of the trace as the records of their own files. *)
From Stdlib Require Import String.
From S2P Require Import Prelude Ezio Timestamp Packets PacketQueue DroppingQueue LinkQueue DelayTrace PacketHeader FileDescriptor.

(** * State *)

Record CellularQueue (Q : Type) := {
  link : Link Q;
  trace : DelayTrace;
  delay_packet_queue_ : list DelayQueuePacket;
  start_tick_ : bool;
  end_release_time_ : Z;
  packet_log_enabled_ : bool;
  packet_logs_ : list string;
  pkt_counter_ : Z;
}.
Arguments Build_CellularQueue {Q}.
Arguments link {Q}.
Arguments trace {Q}.
Arguments delay_packet_queue_ {Q}.
Arguments start_tick_ {Q}.
Arguments end_release_time_ {Q}.
Arguments packet_log_enabled_ {Q}.
Arguments packet_logs_ {Q}.
Arguments pkt_counter_ {Q}.

#[export] Instance eta_CellularQueue Q : Eta (CellularQueue Q) := fun s =>
  {| link := link s; trace := trace s; delay_packet_queue_ := delay_packet_queue_ s;
     start_tick_ := start_tick_ s; end_release_time_ := end_release_time_ s;
     packet_log_enabled_ := packet_log_enabled_ s; packet_logs_ := packet_logs_ s;
     pkt_counter_ := pkt_counter_ s |}.

(** The members as the constructor leaves them, given the traces it has read
    (see TraceLoader) and its two readings of the clock. *)
Definition cellular_new {Q} (schedule : list Z) (traces : list DelayPDOInstance) (offsets : list Floats.real)
    (long_to_short_timer : Z) (repeat log_enabled : bool) (header : list string) (queue : Q)
    (link_base delay_base : Z) : CellularQueue Q :=
  {| link := {| next_delivery_ := 0; heavy_pdo_schedule_ := schedule; link_base_timestamp_ := link_base;
                packet_queue_ := queue; packet_in_transit_ := QueuedPacket_of [] 0;
                packet_in_transit_bytes_left_ := 0; output_queue_ := []; current_link_queue_size_ := 0;
                repeat_ := repeat; finished_ := false |};
     trace := delay_trace_new traces offsets long_to_short_timer delay_base;
     delay_packet_queue_ := []; start_tick_ := false; end_release_time_ := 0;
     packet_log_enabled_ := log_enabled; packet_logs_ := header; pkt_counter_ := 0 |}.

(** * Operations *)

(** Lines of the packet log: fields separated by tabs. *)
Definition log_line (fields : list string) : string :=
  match fields with
  | [] => ""
  | x :: l => fold_left (fun s y => s +:+ tab +:+ y) l x
  end.

Definition write_log {Q} (fields : list string) (s : CellularQueue Q) : CellularQueue Q :=
  if packet_log_enabled_ s then s <| packet_logs_ := packet_logs_ s ++ [log_line fields] |> else s.

Section Operations.
Context {W Q F : Type} {clock : Clock W} {apq : AbstractPacketQueue W Q} {sink : PacketSink F}.
Implicit Types s : CellularQueue Q.

(** The clock is read only when the queue is not empty. *)
Definition get_next_from_delay_queue s (w : W) : outcome (DelayQueuePacket * CellularQueue Q * W) :=
  match delay_packet_queue_ s with
  | [] => Ok (DelayQueuePacket_of [] 0, s, w)
  | ret :: rest =>
      let* (now, w) := timestamp w in
      if d_release_time ret <=? now
      then Ok (ret, s <| delay_packet_queue_ := rest |>, w)
      else Ok (DelayQueuePacket_of [] 0, s, w)
  end.

(** [int x = now - y] of two 64-bit times. *)
Definition time_difference (now y : Z) : Z := i32 (u64 (now - y)).

(** The loop of [write_packets_from_link_queue] over the output queue [o]. *)
Fixpoint write_output (o : list QueuedPacket) (now : Z) s (fd : F) : outcome (CellularQueue Q * F) :=
  match o with
  | [] => Ok (s, fd)
  | packet :: rest =>
      let* fd := fd_write (contents packet) fd in
      let s := s <| link := (link s) <| output_queue_ := rest |> |> in
      guard* 0 <? current_link_queue_size_ (link s) else AssertFail "current_link_queue_size_ > 0" in
      let s := s <| link := (link s) <| current_link_queue_size_ := u32 (current_link_queue_size_ (link s) - 1) |> |> in
      let s := write_log [print_nonneg (sequence_number packet); ip_port_info packet;
                          print_nonneg (initial_arrival_time packet); print_nonneg now;
                          print_int (time_difference now (initial_arrival_time packet)); "false"%string;
                          print_int (time_difference now (arrival_time packet))] s in
      write_output rest now s fd
  end.

Definition write_packets_from_link_queue s (w : W) (fd : F) : outcome (CellularQueue Q * W * F) :=
  let* (now, w) := timestamp w in
  let* (s, fd) := write_output (output_queue_ (link s)) now s fd in
  Ok (s, w, fd).

(** One turn of the loop of [write_packets]: a packet whose release time has
    come goes to the endpoint or to the link. *)
Definition forward_packet (now : Z) (next_packet : DelayQueuePacket) s (w : W) (fd : F) :
    outcome (CellularQueue Q * W * F) :=
  if d_is_bypass_link_queue next_packet && (current_link_queue_size_ (link s) =? 0) then
    let* fd := fd_write (d_contents next_packet) fd in
    let s := write_log [print_nonneg (d_sequence_number next_packet); d_ip_port_info next_packet;
                        print_nonneg (d_arrival_time next_packet); print_nonneg now;
                        print_int (time_difference now (d_arrival_time next_packet)); "true"%string; "0"%string] s in
    Ok (s, w, fd)
  else
    let* (l, w) := put_packet_to_link_queue now next_packet (link s) w in
    Ok (s <| link := l |>, w, fd).

Fixpoint forward_loop (fuel : nat) (now : Z) (next_packet : DelayQueuePacket) s (w : W) (fd : F) :
    outcome (CellularQueue Q * W * F) :=
  if len (d_contents next_packet) =? 0 then Ok (s, w, fd) else
  match fuel with
  | O => Err Diverges
  | S fuel =>
      let* (s, w, fd) := forward_packet now next_packet s w fd in
      let* (next_packet, s, w) := get_next_from_delay_queue s w in
      forward_loop fuel now next_packet s w fd
  end.

Definition write_packets s (w : W) (fd : F) : outcome (CellularQueue Q * W * F) :=
  (* Move packets from delay_queue to link_queue *)
  let* (next_packet, s, w) := get_next_from_delay_queue s w in
  let* (now, w) := timestamp w in
  let* (s, w, fd) := forward_loop (S (List.length (delay_packet_queue_ s))) now next_packet s w fd in
  (* Write out packets from link_queue into fd (if any) *)
  write_packets_from_link_queue s w fd.

Definition wait_time_delay_queue s (w : W) : outcome (Z * W) :=
  match delay_packet_queue_ s with
  | [] => Ok (2 ^ 16 - 1, w)
  | top :: _ =>
      let* (now, w) := timestamp w in
      if d_release_time top <=? now then Ok (0, w)
      else Ok (u32 (u64 (d_release_time top - now)), w)
  end.

Definition wait_time s (w : W) : outcome (Z * CellularQueue Q * W) :=
  let* (wait_time_delay, w) := wait_time_delay_queue s w in
  let* (wait_time_link, l, w) := wait_time_link_queue (link s) w in
  Ok (Z.min wait_time_delay wait_time_link, s <| link := l |>, w).

Definition pending_output s (w : W) : outcome (bool * W) :=
  match output_queue_ (link s) with
  | _ :: _ => Ok (true, w)
  | [] => let* (t, w) := wait_time_delay_queue s w in Ok (t <=? 0, w)
  end.

Definition finished s : bool := finished_ (link s).

(** The trace is started by the first packet. *)
Definition start_traces (now : Z) s : CellularQueue Q :=
  if start_tick_ s then s
  else s <| start_tick_ := true |>
         <| link := (link s) <| link_base_timestamp_ := now |> |>
         <| trace := (trace s) <| delay_base_timestamp_ := now |> |>.

(** Apply the latency offset if it does not put the packet before the last one,
    and never release a packet before it; the second result is the bypass
    flag. *)
Definition ordered_release (release_time offset end_release_time : Z) (bypass : bool) : Z * bool :=
  let release_time := if end_release_time <=? u64 (release_time + offset) then u64 (release_time + offset) else release_time in
  if release_time <? end_release_time then (end_release_time, false) else (release_time, bypass).

Definition read_packet (c : bytes) s (w : W) : outcome (CellularQueue Q * W) :=
  if len c <? 20 (* sizeof(struct iphdr) *) then Err (ThrowPointer "Packet is too small!")
  else if PACKET_SIZE <? len c then
    Err (ThrowPointer ("Packet size (" +:+ print_nonneg (len c) +:+ ")  exceeds the maximum allowed ("
                       +:+ print_nonneg PACKET_SIZE +:+ ")"))
  else
    let* (now, w) := timestamp w in
    let* ip_port_info := get_pkt_header_info c in
    let s := start_traces now s in
    (* Packet release time from base delay + light PDOs *)
    let* (release_time, t) := get_pkt_release_time now c (trace s) in
    let* offset := latency_offset (u32 (len c)) t in
    let (release_time, bypass) := ordered_release release_time offset (end_release_time_ s) (bypass_link_pdo_ t) in
    let s := s <| trace := t <| bypass_link_pdo_ := bypass |> |> in
    guard* end_release_time_ s <=? release_time else AssertFail "release_time >= end_release_time_" in
    let s := s <| end_release_time_ := release_time |> in
    let delay_ms := u64 (release_time - now) in
    let s := s <| delay_packet_queue_ :=
      emplace (DelayQueuePacket_make c ip_port_info now (pkt_counter_ s) release_time bypass) (delay_packet_queue_ s) |> in
    let* s :=
      if packet_log_enabled_ s then
        let* info := get_pkt_header_info c in
        Ok (write_log [print_nonneg (pkt_counter_ s); print_nonneg now; info; print_nonneg (len c);
                       print_nonneg delay_ms; if bypass then "true"%string else "false"%string] s)
      else Ok s in
    Ok (s <| pkt_counter_ := u64 (pkt_counter_ s + 1) |>, w).

End Operations.

(** * What becomes of the packets *)

(** [flow l k]: the packets [l] come from the packets [k].  A queue that drops
    nothing keeps them all, in order; another keeps a subsequence.
    [flow_count] relates the numbers of packets accordingly. *)
Class FlowRelation := {
  flow : list bytes -> list bytes -> Prop;
  flow_count : Z -> Z -> Prop;
  flow_refl l : flow l l;
  flow_trans l k m : flow l k -> flow k m -> flow l m;
  flow_app l l' k k' : flow l l' -> flow k k' -> flow (l ++ k) (l' ++ k');
  flow_len l k : flow l k -> flow_count (len l) (len k);
  flow_count_trans a b c : flow_count a b -> flow_count b c -> flow_count a c;
  flow_count_shift a b c : flow_count a b -> flow_count (a + c) (b + c);
  flow_count_le a b : flow_count a b -> a <= b;
}.

(** What a queue makes of the packets it is given. *)
Class FlowingQueue (W Q : Type) `{FifoPacketQueue W Q} (fl : FlowRelation) :=
  enqueue_flows q w p q' w' : queue_wf q -> room_for (packets q) p -> enqueue p q w = Ok (q', w') ->
    flow (map contents (packets q')) (map contents (packets q) ++ [contents p]).

Definition lossless_flow : FlowRelation.
Proof.
  refine {| flow := eq; flow_count := eq |}; intros; subst; try done; try lia.
Defined.

Definition dropping_flow : FlowRelation.
Proof.
  refine {| flow := fun l k => l `sublist_of` k; flow_count := Z.le |}; intros; try lia; try done.
  - by etrans.
  - by apply sublist_app.
  - by apply sublist_len.
Defined.

Lemma lossless_flows {W Q} `{LosslessPacketQueue W Q} : FlowingQueue W Q lossless_flow.
Proof. intros q w p q' w' Hwf Hr E. simpl. rewrite (enqueue_lossless q w p q' w') by done. by rewrite map_app. Qed.

Lemma fifo_flows {W Q} `{FifoPacketQueue W Q} : FlowingQueue W Q dropping_flow.
Proof.
  intros q w p q' w' Hwf Hr E. simpl. destruct (enqueue_spec q w p Hwf Hr) as (q'' & E' & _ & Hs).
  rewrite E in E'. simplify_eq. apply (sublist_map contents) in Hs. by rewrite map_app in Hs.
Qed.

(** The contents of the packets inside the queue, in the order in which they
    will leave. *)
Definition in_flight {W Q} `{FifoPacketQueue W Q} (s : CellularQueue Q) : list bytes :=
  map contents (link_packets (link s)) ++ map d_contents (delay_packet_queue_ s).

(** * The invariant *)

Section Invariant.
Context {W Q F : Type} {clock : Clock W} {laws : ClockLaws W} {apq : AbstractPacketQueue W Q}
  {fpq : FifoPacketQueue W Q} {sink : PacketSink F} {fl : FlowRelation} {flowing : FlowingQueue W Q fl}.
Implicit Types s : CellularQueue Q.
Implicit Types t : Z.

(** The packets in the delay queue leave in the order of their release times
    and numbers. *)
Definition delay_packet_ok s (p : DelayQueuePacket) : Prop :=
  20 <= d_psize p <= PACKET_SIZE /\ d_sequence_number p < pkt_counter_ s /\
  d_release_time p <= end_release_time_ s.

Definition delay_queue_wf s : Prop :=
  nondecreasing (map d_release_time (delay_packet_queue_ s)) = true /\
  Forall (delay_packet_ok s) (delay_packet_queue_ s).

(** Before the first packet the traces stand at their beginning. *)
Definition started_wf t s : Prop :=
  if start_tick_ s then delay_wf (pkt_counter_ s) t (trace s)
  else
    let d := trace s in
    trace_wf (delay_pdo_traces_ d) /\ current_delay_pdo_idx_ d = 0 /\ current_base_delay_ d < 0 /\
    0 <= long_to_short_timer_ d < 2 ^ 31 /\ 0 <= curr_delivery_opportunity_ d <= PACKET_SIZE /\
    pkt_counter_ s = 0 /\ link_packets (link s) = [] /\ delay_packet_queue_ s = [].

(** The offsets of the packet sizes delay packets by less than [2 ^ 31] ms. *)
Definition offsets_ok (d : DelayTrace) : Prop :=
  forall psize, 20 <= psize <= PACKET_SIZE -> exists o, latency_offset psize d = Ok o /\ 0 <= o < 2 ^ 31.

(** The link's packet count is at least the number of its packets, and equal
    to it when the queue drops nothing. *)
Definition counts_wf s : Prop :=
  flow_count (len (link_packets (link s))) (current_link_queue_size_ (link s)) /\
  0 <= end_release_time_ s < time_limit + 2 ^ 33 /\ 0 <= pkt_counter_ s.

Record queue_inv t s : Prop := {
  inv_link : link_wf (link s);
  inv_started : started_wf t s;
  inv_delay : delay_queue_wf s;
  inv_offsets : offsets_ok (trace s);
  inv_counts : counts_wf s;
  inv_sizes : Forall packet_ok (link_packets (link s));
  inv_total : current_link_queue_size_ (link s) + len (delay_packet_queue_ s) <= pkt_counter_ s;
}.

(** No counter overflows when one more packet comes. *)
Definition room s : Prop :=
  (len (in_flight s) + 1) * PACKET_SIZE < 2 ^ 31 /\ pkt_counter_ s + 1 < 2 ^ 31.

Lemma queue_inv_le t t' s : queue_inv t s -> t <= t' -> queue_inv t' s.
Proof.
  intros [H1 H2 H3 H4 H5 Hsz H6] Hle. split; [done| |done..].
  unfold started_wf in *. destruct (start_tick_ s); [by eapply delay_wf_le|done].
Qed.

Lemma write_log_eq fields s : exists logs, write_log fields s = s <| packet_logs_ := logs |>.
Proof. unfold write_log. destruct (packet_log_enabled_ s); [by eexists|]. exists (packet_logs_ s). by destruct s. Qed.

Lemma in_flight_len s : len (in_flight s) = len (link_packets (link s)) + len (delay_packet_queue_ s).
Proof. unfold in_flight. rewrite len_app. unfold len. by rewrite !length_map. Qed.

(** ** Taking a packet from the delay queue *)

Definition no_packet : DelayQueuePacket := DelayQueuePacket_of [] 0.

Lemma inv_pop t s p rest : queue_inv t s -> delay_packet_queue_ s = p :: rest ->
  queue_inv t (s <| delay_packet_queue_ := rest |>) /\ delay_packet_ok s p /\ start_tick_ s = true /\
  current_link_queue_size_ (link s) + len rest + 1 <= pkt_counter_ s.
Proof.
  intros [H1 H2 [H3 H3'] H4 H5 Hsz H6] E. rewrite E in *. rewrite len_cons in H6.
  change (map d_release_time (p :: rest)) with (d_release_time p :: map d_release_time rest) in H3.
  apply nondecreasing_cons in H3 as [_ H3]. apply Forall_cons in H3' as [Hp H3'].
  assert (Hst : start_tick_ s = true).
  { unfold started_wf in H2. destruct (start_tick_ s); [done|]. destruct H2 as (_ & _ & _ & _ & _ & _ & _ & H2). congruence. }
  split; [|split; [done|]; split; [done|]; lia].
  split; [done| |by split|done|done|done|cbn; lia].
  unfold started_wf in *. cbn. by rewrite Hst in *.
Qed.

Lemma get_next_ok t s (w : W) : queue_inv t s -> clock_from w t ->
  exists p s' w' t', get_next_from_delay_queue s w = Ok (p, s', w') /\ t <= t' /\ clock_from w' t' /\
    ((p = no_packet /\ s' = s /\ (delay_packet_queue_ s = [] \/ exists q k, delay_packet_queue_ s = q :: k /\ t' < d_release_time q)) \/
     (exists rest, delay_packet_queue_ s = p :: rest /\ s' = s <| delay_packet_queue_ := rest |> /\ d_release_time p <= t')).
Proof.
  intros Hinv Hw. unfold get_next_from_delay_queue. destruct (delay_packet_queue_ s) as [|p rest] eqn:E.
  - exists no_packet, s, w, t. split; [done|]. split; [lia|]. split; [done|]. left. auto.
  - destruct (timestamp_spec w t Hw) as (t1 & w1 & -> & Ht & Hw1). cbn [bind].
    destruct (Z.leb_spec (d_release_time p) t1).
    + exists p, (s <| delay_packet_queue_ := rest |>), w1, t1. split; [done|]. split; [lia|]. split; [done|].
      right. by exists rest.
    + exists no_packet, s, w1, t1. split; [done|]. split; [lia|]. split; [done|]. left.
      split; [done|]. split; [done|]. right. by exists p, rest.
Qed.

(** ** Writing the link's output *)

Definition delivered_from (f : F) s : list bytes := delivered f ++ in_flight s.

Lemma write_output_ok t o : forall now s (f : F),
  queue_inv t s -> sink_ready f -> output_queue_ (link s) = o -> Forall packet_ok o -> current_link_queue_size_ (link s) < 2 ^ 32 ->
  (exists s' f', write_output o now s f = Ok (s', f') /\ queue_inv t s' /\ sink_ready f' /\
    delivered f' = delivered f ++ map contents o /\ in_flight s = map contents o ++ in_flight s' /\
    output_queue_ (link s') = [] /\ delay_packet_queue_ s' = delay_packet_queue_ s /\
    pkt_counter_ s' = pkt_counter_ s) \/ write_error (write_output o now s f).
Proof.
  induction o as [|p o IH]; intros now s f Hinv Hf Eo Hok Hsz; cbn [write_output].
  { left. exists s, f. split; [done|]. split; [done|]. split; [done|]. cbn [map app]. rewrite app_nil_r. done. }
  apply Forall_cons in Hok as [Hp Hok]. unfold packet_ok, psize in Hp.
  destruct (fd_write_spec (contents p) f) as [(f1 & -> & Hf1 & Hd)|(e & -> & He)];
    [done|intros E%len_zero_iff; lia|unfold PACKET_SIZE in Hp; lia| |right; by exists e].
  cbn [bind link upd current_link_queue_size_].
  destruct Hinv as [H1 H2 H3 H4 (H5 & H5') Hszs H6].
  assert (El : link_packets (link s) = p :: o ++ unsent (link s)) by (unfold link_packets; by rewrite Eo).
  assert (Hpos : 0 < current_link_queue_size_ (link s)).
  { apply flow_count_le in H5. rewrite El, len_cons in H5. pose proof (len_nonneg (o ++ unsent (link s))). lia. }
  destruct (Z.ltb_spec 0 (current_link_queue_size_ (link s))); [|lia].
  match goal with |- context [write_log ?l ?x] => destruct (write_log_eq l x) as [logs ->] end.
  rewrite u32_small by lia. set (s1 := _ <| packet_logs_ := logs |>).
  assert (Hinv1 : queue_inv t s1).
  { unfold s1. split; cbn; [exact H1| |exact H3|exact H4| | |lia].
    - unfold started_wf in *. cbn. destruct (start_tick_ s); [done|]. destruct H2 as (_ & _ & _ & _ & _ & _ & H2 & _). congruence.
    - split; [|done]. cbn. rewrite El, len_cons in H5. apply (flow_count_shift _ _ (-1)) in H5.
      replace (len (o ++ unsent (link s)) + 1 + -1) with (len (o ++ unsent (link s))) in H5 by lia. exact H5.
    - rewrite El in Hszs. by apply Forall_cons in Hszs as [_ Hszs]. }
  destruct (IH now s1 f1) as [(s' & f' & -> & Hinv' & Hr' & Hd' & Hf' & Ho' & Hdq & Hpc)|He];
    [done|done|done|done|unfold s1; cbn; lia| |by right].
  left. exists s', f'. split; [done|]. split; [done|]. split; [done|]. split; [by rewrite Hd', Hd, <- (assoc_L (++))|].
  split; [|done]. cbn [map app]. rewrite <- Hf'. unfold in_flight. rewrite El. done.
Qed.

(** ** Forwarding released packets *)

(** What forwarding packets from the delay queue keeps. *)
Definition forwards t s s' (f f' : F) (hand : list DelayQueuePacket) : Prop :=
  queue_inv t s' /\ sink_ready f' /\ start_tick_ s' = start_tick_ s /\ pkt_counter_ s' = pkt_counter_ s /\
  delay_packet_queue_ s' = delay_packet_queue_ s /\
  current_link_queue_size_ (link s') <= current_link_queue_size_ (link s) + len hand /\
  flow (delivered f' ++ map contents (link_packets (link s')))
       (delivered f ++ map contents (link_packets (link s)) ++ map d_contents hand) /\
  len (link_packets (link s')) <= len (link_packets (link s)) + len hand.

Lemma put_packet_flows now p l (w : W) l1 q n :
  enqueue (QueuedPacket_make (d_contents p) (d_ip_port_info p) (d_arrival_time p) now (d_sequence_number p) (d_release_time p))
    (packet_queue_ l1) w = Ok (q, w) ->
  queue_wf (packet_queue_ l1) ->
  room_for (packets (packet_queue_ l1))
    (QueuedPacket_make (d_contents p) (d_ip_port_info p) (d_arrival_time p) now (d_sequence_number p) (d_release_time p)) ->
  sends l l1 ->
  flow (map contents (link_packets (l1 <| packet_queue_ := q |> <| current_link_queue_size_ := n |>)))
       (map contents (link_packets l) ++ [d_contents p]).
Proof.
  intros Eq Hq Hr Hs. rewrite <- (sends_packets _ _ Hs).
  pose proof (enqueue_flows _ _ _ _ _ Hq Hr Eq) as Hf. unfold link_packets, unsent, in_transit. cbn.
  rewrite !map_app, <- !(assoc_L (++)). cbn in Hf. by repeat apply flow_app; try apply flow_refl.
Qed.

Lemma Forall_app3 {A} (P : A -> Prop) l k m : Forall P (l ++ k ++ m) <-> Forall P l /\ Forall P k /\ Forall P m.
Proof. by rewrite !Forall_app. Qed.

Lemma put_packet_sizes p l l1 (w : W) q n :
  enqueue p (packet_queue_ l1) w = Ok (q, w) -> queue_wf (packet_queue_ l1) ->
  room_for (packets (packet_queue_ l1)) p -> sends l l1 -> packet_ok p -> Forall packet_ok (link_packets l) ->
  Forall packet_ok (link_packets (l1 <| packet_queue_ := q |> <| current_link_queue_size_ := n |>)).
Proof.
  intros Eq Hq Hr Hs Hp. rewrite <- (sends_packets _ _ Hs).
  destruct (enqueue_spec (packet_queue_ l1) w p Hq Hr) as (q' & Eq' & _ & Hsub).
  rewrite Eq in Eq'. injection Eq' as <-. unfold link_packets, unsent, in_transit. cbn.
  intros (Ho & Ht & Hk)%Forall_app3. apply Forall_app3. split; [done|]. split; [done|].
  eapply Forall_sublist; [|exact Hsub]. apply Forall_app. auto.
Qed.

Lemma forward_packet_ok t now p s (w : W) (f : F) :
  queue_inv t s -> sink_ready f -> start_tick_ s = true -> now < time_limit -> 20 <= d_psize p <= PACKET_SIZE ->
  current_link_queue_size_ (link s) + len (delay_packet_queue_ s) + 1 <= pkt_counter_ s ->
  link_room (link s) -> pkt_counter_ s < 2 ^ 31 ->
  (exists s' f', forward_packet now p s w f = Ok (s', w, f') /\ forwards t s s' f f' [p]) \/
  write_error (forward_packet now p s w f).
Proof.
  intros Hinv Hf Hst Hnow Hp Htot Hroom Hpc. unfold forward_packet.
  pose proof Hinv as [H1 H2 H3 H4 (H5 & H5' & H5'') Hszs H6]. pose proof (flow_count_le _ _ H5) as Hle.
  pose proof (len_nonneg (link_packets (link s))). pose proof (len_nonneg (delay_packet_queue_ s)).
  destruct (d_is_bypass_link_queue p && (current_link_queue_size_ (link s) =? 0)) eqn:Eb.
  - apply andb_true_iff in Eb as [_ Eb]. apply Z.eqb_eq in Eb.
    destruct (fd_write_spec (d_contents p) f) as [(f1 & -> & Hf1 & Hd)|(e & -> & He)];
      [done|intros E%len_zero_iff; unfold d_psize in Hp; lia|unfold d_psize, PACKET_SIZE in Hp; lia| |right; by exists e].
    left.
    cbn [bind]. match goal with |- context [write_log ?l ?x] => destruct (write_log_eq l x) as [logs ->] end.
    eexists _, _. split; [done|]. unfold forwards. cbn.
    assert (El : link_packets (link s) = []) by (apply len_zero_iff; lia).
    split; [by destruct Hinv; split|]. repeat (split; [done || (unfold len; simpl; lia)|]).
    split; [|unfold len; simpl; lia]. rewrite El, Hd. cbn [map app]. rewrite app_nil_r. apply flow_refl.
  - destruct (put_packet_spec now p (link s) w H1 Hnow) as (l1 & q & Er & Hs & Hq & Hrm & Eq & Ep & Hwf'); [lia|done|].
    rewrite Ep. cbn [bind]. left. eexists _, _. split; [done|].
    pose proof (put_packet_flows now p (link s) w l1 q (u32 (current_link_queue_size_ (link s) + 1)) Eq Hq Hrm Hs) as Hfl.
    rewrite u32_small in * by lia. set (l' := l1 <| packet_queue_ := q |> <| current_link_queue_size_ := _ |>) in *.
    pose proof (flow_len _ _ Hfl) as Hc. rewrite len_app in Hc. unfold len in Hc at 1 2. rewrite !length_map in Hc.
    fold (len (link_packets l')) (len (link_packets (link s))) in Hc. change (len [d_contents p]) with 1 in Hc.
    unfold forwards. cbn [upd link start_tick_ pkt_counter_ delay_packet_queue_]. split.
    { split; cbn; [exact Hwf'| |exact H3|exact H4| |eapply put_packet_sizes; [exact Eq|done|done|exact Hs|change (0 < d_psize p <= PACKET_SIZE); lia|done]|lia].
      - unfold started_wf in *. cbn. by rewrite Hst in *.
      - split; [|done]. cbn. eapply flow_count_trans; [exact Hc|]. by apply flow_count_shift. }
    repeat (split; [done || (unfold len; simpl; lia)|]).
    split; [|apply flow_count_le in Hc; unfold len in *; simpl; lia].
    apply flow_app; [apply flow_refl|]. exact Hfl.
Qed.

(** The size of the contents ends the loop. *)
Lemma no_packet_size : len (d_contents no_packet) = 0.
Proof. done. Qed.

(** The packet that [get_next_from_delay_queue] returned. *)
Definition in_hand (p : DelayQueuePacket) : list DelayQueuePacket := if len (d_contents p) =? 0 then [] else [p].

Lemma in_hand_none : in_hand no_packet = [].
Proof. done. Qed.

Lemma in_hand_some p : 20 <= d_psize p -> in_hand p = [p].
Proof. unfold in_hand, d_psize. intros H. destruct (Z.eqb_spec (len (d_contents p)) 0); [lia|done]. Qed.

(** The state between two turns of the loop. *)
Definition hand_ok s (p : DelayQueuePacket) : Prop :=
  p = no_packet \/
  (start_tick_ s = true /\ 20 <= d_psize p <= PACKET_SIZE /\
   current_link_queue_size_ (link s) + len (delay_packet_queue_ s) + 1 <= pkt_counter_ s).

(** No packet's release time has come at time [t]. *)
Definition drained t s : Prop :=
  delay_packet_queue_ s = [] \/ exists q k, delay_packet_queue_ s = q :: k /\ t < d_release_time q.

Lemma get_next_hand t s (w : W) : queue_inv t s -> clock_from w t ->
  exists p s' w' t', get_next_from_delay_queue s w = Ok (p, s', w') /\ t <= t' /\ clock_from w' t' /\
    queue_inv t' s' /\ hand_ok s' p /\ link s' = link s /\ pkt_counter_ s' = pkt_counter_ s /\
    delay_packet_queue_ s = in_hand p ++ delay_packet_queue_ s' /\
    (p = no_packet -> drained t' s') /\
    (p <> no_packet -> d_release_time p <= t').
Proof.
  intros Hinv Hw. destruct (get_next_ok t s w Hinv Hw) as (p & s' & w' & t' & -> & Ht & Hw' & [(-> & -> & Hr)|(rest & E & -> & Hr)]);
    exists p || exists no_packet; eexists _, w', t'; (split; [done|]; split; [done|]; split; [done|]).
  - split; [by eapply queue_inv_le|]. split; [by left|]. by repeat (split; [done|]).
  - destruct (inv_pop t s p rest Hinv E) as (Hinv' & (Hp & _) & Hst & Htot).
    split; [by eapply queue_inv_le|]. split; [right; cbn; split; [done|]; split; [done|lia]|].
    split; [done|]. split; [done|]. rewrite in_hand_some by lia. split; [done|]. split; [|done].
    intros ->. unfold d_psize in Hp. rewrite no_packet_size in Hp. lia.
Qed.

Lemma forward_loop_ok fuel : forall t now p s (w : W) (f : F),
  queue_inv t s -> sink_ready f -> hand_ok s p -> (p = no_packet -> drained t s) -> clock_from w t -> now < time_limit ->
  (p <> no_packet -> (List.length (delay_packet_queue_ s) < fuel)%nat) ->
  (len (link_packets (link s)) + len (in_hand p) + len (delay_packet_queue_ s) + 1) * PACKET_SIZE < 2 ^ 31 ->
  pkt_counter_ s < 2 ^ 31 ->
  (exists s' w' f' t', forward_loop fuel now p s w f = Ok (s', w', f') /\ t <= t' /\ clock_from w' t' /\
    queue_inv t' s' /\ sink_ready f' /\ pkt_counter_ s' = pkt_counter_ s /\ drained t' s' /\
    flow (delivered f' ++ in_flight s')
         (delivered f ++ map contents (link_packets (link s)) ++ map d_contents (in_hand p ++ delay_packet_queue_ s))) \/
  write_error (forward_loop fuel now p s w f).
Proof.
  induction fuel as [|fuel IH]; intros t now p s w f Hinv Hf Hh Hdr Hw Hnow Hfuel Hroom Hpc;
    cbn [forward_loop]; (destruct Hh as [->|(Hst & Hp & Htot)]; [|
      assert (Hne : p <> no_packet) by (intros ->; unfold d_psize in Hp; rewrite no_packet_size in Hp; lia);
      specialize (Hfuel Hne)]); [|lia|..].
  1, 2: rewrite no_packet_size, in_hand_none; left; cbn; exists s, w, f, t; (split; [done|]); (split; [lia|]);
    (split; [done|]); (split; [done|]); (split; [done|]); (split; [done|]); (split; [by apply Hdr|]); apply flow_refl.
  destruct (Z.eqb_spec (len (d_contents p)) 0); [unfold d_psize in Hp; lia|].
  rewrite (in_hand_some p) in * by lia. change (len [p]) with 1 in Hroom.
  pose proof (len_nonneg (delay_packet_queue_ s)). pose proof (len_nonneg (link_packets (link s))).
  destruct (forward_packet_ok t now p s w f) as [(s1 & f1 & -> & Hinv1 & Hf1 & Hst1 & Hpc1 & Hdq1 & Hsz1 & Hfl1 & Hlen1)|(e & -> & He)];
    [done..|unfold link_room, PACKET_SIZE in *; lia|done| |right; by exists e]. cbn [bind].
  change (len [p]) with 1 in *.
  destruct (get_next_hand t s1 w Hinv1 Hw) as (p2 & s2 & w2 & t2 & -> & Ht2 & Hw2 & Hinv2 & Hh2 & El2 & Hpc2 & Hdq2 & Hdr2 & _).
  cbn [bind]. rewrite Hdq1 in Hdq2.
  assert (Hlen2 : len (delay_packet_queue_ s) = len (in_hand p2) + len (delay_packet_queue_ s2)) by (rewrite Hdq2, len_app; done).
  pose proof (len_nonneg (in_hand p2)).
  destruct (IH t2 now p2 s2 w2 f1) as [(s' & w' & f' & t' & -> & Ht' & Hw' & Hinv' & Hf' & Hpc' & Hdr' & Hfl')|He]; try done.
  { intros Hne2. destruct Hh2 as [?|(_ & Hp2 & _)]; [done|].
    rewrite in_hand_some in Hlen2 by lia. change (len [p2]) with 1 in Hlen2. unfold len in *. lia. }
  { rewrite El2. unfold PACKET_SIZE in *. lia. }
  { lia. }
  2: { by right. }
  left. exists s', w', f', t'. split; [done|]. split; [lia|]. do 3 (split; [done|]). split; [lia|]. split; [done|].
  eapply flow_trans; [exact Hfl'|]. rewrite El2, <- Hdq2.
  replace (delivered f ++ map contents (link_packets (link s)) ++ map d_contents ([p] ++ delay_packet_queue_ s))
    with ((delivered f ++ map contents (link_packets (link s)) ++ map d_contents [p]) ++ map d_contents (delay_packet_queue_ s))
    by (rewrite map_app, <- !(assoc_L (++)); done).
  rewrite (assoc_L (++)). apply flow_app; [exact Hfl1|apply flow_refl].
Qed.

(** ** The operations *)

Lemma write_packets_ok t s (w : W) (f : F) : queue_inv t s -> sink_ready f -> clock_from w t -> room s ->
  (exists s' w' f' t', write_packets s w f = Ok (s', w', f') /\ t <= t' /\ clock_from w' t' /\ queue_inv t' s' /\ sink_ready f' /\
    pkt_counter_ s' = pkt_counter_ s /\ output_queue_ (link s') = [] /\
    (exists t1, t <= t1 <= t' /\ drained t1 s') /\
    flow (delivered f' ++ in_flight s') (delivered f ++ in_flight s)) \/ write_error (write_packets s w f).
Proof.
  intros Hinv Hf Hw [Hroom Hpc]. unfold write_packets.
  destruct (get_next_hand t s w Hinv Hw) as (p & s1 & w1 & t1 & -> & Ht1 & Hw1 & Hinv1 & Hh1 & El1 & Hpc1 & Hdq1 & Hdr1 & _).
  cbn [bind]. destruct (timestamp_spec w1 t1 Hw1) as (t2 & w2 & -> & Ht2 & Hw2). cbn [bind].
  assert (Hlen : len (delay_packet_queue_ s) = len (in_hand p) + len (delay_packet_queue_ s1)) by (rewrite Hdq1, len_app; done).
  rewrite in_flight_len, Hlen in Hroom.
  destruct (forward_loop_ok (S (List.length (delay_packet_queue_ s1))) t1 t2 p s1 w2 f)
    as [(s3 & w3 & f3 & t3 & -> & Ht3 & Hw3 & Hinv3 & Hf3 & Hpc3 & Hdr3 & Hfl3)|(e & -> & He)]; try done.
  { eapply clock_from_le; [exact Hw2|lia]. }
  { lia. }
  { intros _. lia. }
  { rewrite El1. lia. }
  { lia. }
  2: { right. by exists e. }
  cbn [bind]. unfold write_packets_from_link_queue.
  destruct (timestamp_spec w3 t3 Hw3) as (t4 & w4 & -> & Ht4 & Hw4). cbn [bind].
  pose proof Hinv3 as [H1 H2 H3 H4 (H5 & _) Hsz H6]. pose proof (len_nonneg (delay_packet_queue_ s3)).
  assert (Hok : Forall packet_ok (output_queue_ (link s3))) by (unfold link_packets in Hsz; by apply Forall_app in Hsz as [? _]).
  destruct (write_output_ok t3 (output_queue_ (link s3)) t4 s3 f3) 
    as [(s' & f' & -> & Hinv' & Hf' & Hd & Hif & Ho & Hdq & Hpc')|(e & -> & He)]; [done..|lia| |right; by exists e].
  cbn [bind]. left. exists s', w4, f', t4. split; [done|]. split; [lia|]. split; [done|].
  split; [eapply queue_inv_le; [exact Hinv'|lia]|]. split; [done|]. split; [lia|]. split; [done|]. split.
  - exists t3. split; [lia|]. unfold drained in *. by rewrite Hdq.
  - rewrite Hd, <- (assoc_L (++)), <- Hif. unfold in_flight at 2. rewrite Hdq1, <- El1. exact Hfl3.
Qed.

Lemma start_traces_ok t now s : queue_inv t s -> t <= now -> 0 <= now < time_limit ->
  queue_inv now (start_traces now s) /\ start_tick_ (start_traces now s) = true /\
  link_packets (link (start_traces now s)) = link_packets (link s) /\
  delay_packet_queue_ (start_traces now s) = delay_packet_queue_ s /\ pkt_counter_ (start_traces now s) = pkt_counter_ s /\
  end_release_time_ (start_traces now s) = end_release_time_ s.
Proof.
  intros Hinv Hle Hnow. unfold start_traces. destruct (start_tick_ s) eqn:Est.
  { split; [by eapply queue_inv_le|done]. }
  destruct Hinv as [(Hp & Ht & _) H2 H3 H4 H5 Hsz H6]. unfold started_wf in H2. rewrite Est in H2.
  destruct H2 as (Hl & Hi & Hd & Htm & Hopp & Hpc & Hlp & Hdq).
  split; [|done]. split; [| |done|done|done|done|done].
  - split; [|split; [exact Ht|]].
    + destruct Hp as (Hs & Hn & _). split; [exact Hs|]. split; [exact Hn|exact Hnow].
    + intros _. unfold arrivals_before. unfold link_packets in Hlp. apply app_eq_nil in Hlp as [_ Hlp].
      match goal with |- Forall _ ?u => change u with (unsent (link s)) end. by rewrite Hlp.
  - unfold started_wf. cbn. split; [exact Hl|]. pose proof (trace_long _ Hl).
    split; [|split; [lia|]; split; [exact Htm|]; split; [exact Hopp|by left]].
    unfold trace_position. cbn [upd delay_pdo_traces_ current_delay_pdo_idx_ delay_base_timestamp_].
    rewrite Hi, (trace_first _ Hl). lia.
Qed.

Lemma ordered_release_ok now r o e b : 0 <= now < time_limit -> now <= r < now + 2 ^ 32 -> 0 <= o < 2 ^ 31 ->
  0 <= e < time_limit + 2 ^ 33 ->
  exists b', ordered_release r o e b = (Z.max e (r + o), b') /\ (b' = b \/ b' = false).
Proof.
  intros Hnow Hr Ho He. unfold ordered_release, time_limit in *. rewrite u64_small by lia.
  destruct (Z.leb_spec e (r + o)).
  - destruct (Z.ltb_spec (r + o) e); [lia|]. exists b. split; [|by left]. f_equal. lia.
  - destruct (Z.ltb_spec r e); [|lia]. exists false. split; [|by right]. f_equal. lia.
Qed.

Lemma latency_offset_same d d' psize : psize_latency_offset_ d' = psize_latency_offset_ d ->
  latency_offset psize d' = latency_offset psize d.
Proof. intros E. unfold latency_offset, get_psize_latency_offset. by rewrite E. Qed.

(** A packet the queue accepts. *)
Definition packet_readable (c : bytes) : Prop :=
  20 <= len c <= PACKET_SIZE /\ header_readable c = true.

#[export] Instance packet_readable_dec c : Decision (packet_readable c).
Proof. unfold packet_readable. apply _. Defined.

Lemma read_packet_ok t s (w : W) c : 0 <= t -> queue_inv t s -> clock_from w t -> room s -> packet_readable c ->
  exists s' w' t' p, read_packet c s w = Ok (s', w') /\ t <= t' /\ clock_from w' t' /\ queue_inv t' s' /\
    pkt_counter_ s' = pkt_counter_ s + 1 /\ link_packets (link s') = link_packets (link s) /\
    delay_packet_queue_ s' = delay_packet_queue_ s ++ [p] /\ d_contents p = c /\
    d_arrival_time p = t' /\ d_sequence_number p = pkt_counter_ s /\ t' <= d_release_time p /\
    end_release_time_ s <= d_release_time p /\ end_release_time_ s' = d_release_time p.
Proof.
  intros Ht Hinv Hw [Hroom Hpc] [Hc Hh]. unfold read_packet.
  destruct (Z.ltb_spec (len c) 20); [lia|]. destruct (Z.ltb_spec PACKET_SIZE (len c)); [lia|].
  destruct (timestamp_spec w t Hw) as (now & w' & -> & Hnow & Hw'). cbn [bind].
  rewrite <- header_info_exists in Hh. destruct (get_pkt_header_info c) as [info|]; [|done]. cbn [bind].
  destruct (start_traces_ok t now s) as (Hinv1 & Hst & Elp & Edq & Hpc1 & He1); [done|lia|lia|].
  set (s1 := start_traces now s) in *. clearbody s1. clear Hinv.
  destruct Hinv1 as [H1 H2 [H3 H3'] H4 (H5 & H5' & H5'') Hsz H6]. unfold started_wf in H2. rewrite Hst in H2.
  unfold get_pkt_release_time. assert (Hu : u32 (len c) = len c) by (apply u32_small; unfold PACKET_SIZE in *; lia).
  rewrite !Hu.
  destruct (release_time_ok (pkt_counter_ s1) now now (len c) (trace s1)) as
    (r & d & -> & Hr & Hwf & _ & _ & Etr & Eoff); [done|lia|lia|lia|lia|]. cbn [bind].
  rewrite (latency_offset_same (trace s1) d) by done.
  destruct (H4 (len c) Hc) as (o & -> & Ho). cbn [bind].
  destruct (ordered_release_ok now r o (end_release_time_ s1) (bypass_link_pdo_ d)) as (b & -> & _); [lia|done..|].
  cbn [upd end_release_time_]. set (rel := Z.max (end_release_time_ s1) (r + o)).
  destruct (Z.leb_spec (end_release_time_ s1) rel); [|lia].
  cbn [upd delay_packet_queue_ pkt_counter_]. set (p := DelayQueuePacket_make _ _ _ _ _ _).
  assert (Eem : emplace p (delay_packet_queue_ s1) = delay_packet_queue_ s1 ++ [p]).
  { apply emplace_last. eapply Forall_impl; [exact H3'|]. intros x (_ & Hx1 & Hx2). simpl. lia. }
  rewrite Eem.
  match goal with |- context [if packet_log_enabled_ ?x then ?a else Ok ?x] =>
    assert (Elog : exists logs, (if packet_log_enabled_ x then a else Ok x) = Ok (x <| packet_logs_ := logs |>)) end.
  { match goal with |- context [if ?b then _ else Ok ?x] => destruct b; [|exists (packet_logs_ x); by destruct x] end.
    cbn [bind]. match goal with |- context [write_log ?l ?x] => destruct (write_log_eq l x) as [logs ->] end. by exists logs. }
  destruct Elog as (logs & ->). cbn [bind pkt_counter_ upd]. rewrite u64_small by lia.
  assert (Hp : d_release_time p = rel /\ d_contents p = c /\ d_arrival_time p = now /\ d_sequence_number p = pkt_counter_ s1) by done.
  clearbody p. destruct Hp as (Erel & Ecn & Earr & Eseq).
  assert (Hrel : end_release_time_ s1 <= rel < time_limit + 2 ^ 33 /\ now <= rel) by (unfold rel, time_limit in *; lia).
  eexists _, w', now, p. split; [done|]. split; [lia|]. split; [done|]. split.
  { split; cbn [upd link trace delay_packet_queue_ pkt_counter_ end_release_time_].
    - exact H1.
    - unfold started_wf. cbn [upd start_tick_ trace pkt_counter_]. rewrite Hst. exact Hwf.
    - unfold delay_queue_wf. cbn [upd delay_packet_queue_]. rewrite map_app, Forall_app, Forall_singleton. split; [|split].
      + apply nondecreasing_snoc. split; [exact H3|]. apply Forall_map. eapply Forall_impl; [exact H3'|].
        intros x (_ & _ & Hx). simpl. lia.
      + eapply Forall_impl; [exact H3'|]. intros x (Hx1 & Hx2 & Hx3). unfold delay_packet_ok. simpl. lia.
      + unfold delay_packet_ok, d_psize. simpl. rewrite Ecn. lia.
    - intros psize Hps. destruct (H4 psize Hps) as (o' & Eo' & Ho'). exists o'. by rewrite (latency_offset_same (trace s1)).
    - split; [exact H5|]. simpl. lia.
    - exact Hsz.
    - rewrite len_app. change (len [p]) with 1. lia. }
  cbn [upd pkt_counter_ link delay_packet_queue_ end_release_time_]. rewrite Elp, Edq, Hpc1, <- He1 in *.
  repeat (split; [done || lia|]). lia.
Qed.

(** What [read_packet] ends with for another packet. *)
Definition packet_too_large (c : bytes) : string := "Packet size (" +:+ print_nonneg (len c) +:+ ")  exceeds the maximum allowed (1400)".

Definition read_fault (c : bytes) (e : fault) : Prop :=
  if len c <? 20 then e = ThrowPointer "Packet is too small!"
  else if PACKET_SIZE <? len c then e = ThrowPointer (packet_too_large c)
  else header_readable c = false /\ exists field, e = UndefinedBehaviour field.

Lemma read_packet_fault t s (w : W) c : clock_from w t -> ~ packet_readable c ->
  exists e, read_packet c s w = Err e /\ read_fault c e.
Proof.
  intros Hw Hc. unfold read_packet, read_fault. destruct (Z.ltb_spec (len c) 20); [by eexists|].
  destruct (Z.ltb_spec PACKET_SIZE (len c)); [by eexists|].
  destruct (timestamp_spec w t Hw) as (now & w' & -> & _). cbn [bind].
  assert (Hh : header_readable c = false) by (destruct (header_readable c) eqn:E; [by destruct Hc; split|done]).
  pose proof Hh as Hi. rewrite <- header_info_exists in Hi. destruct (header_info_Err c Hi) as [field ->]. eexists. by split; [|split; [|exists field]].
Qed.

(** How long the delay queue can wait at time [now]. *)
Definition delay_wait now s : Z :=
  match delay_packet_queue_ s with
  | [] => 65535
  | p :: _ => Z.max 0 (d_release_time p - now)
  end.

Lemma wait_time_delay_ok t s (w : W) : 0 <= t -> queue_inv t s -> clock_from w t ->
  exists n w' t', wait_time_delay_queue s w = Ok (n, w') /\ t <= t' < time_limit + 1 /\ clock_from w' t' /\
    n = u32 (delay_wait t' s).
Proof.
  intros Ht0 Hinv Hw. unfold wait_time_delay_queue, delay_wait. destruct (delay_packet_queue_ s) as [|p q] eqn:E.
  - destruct (timestamp_spec w t Hw) as (t1 & w1 & _ & Ht & _).
    exists (2 ^ 16 - 1), w, t. split; [done|]. split; [lia|]. by split.
  - destruct (timestamp_spec w t Hw) as (t1 & w1 & -> & Ht & Hw1). cbn [bind].
    destruct (Z.leb_spec (d_release_time p) t1).
    + exists 0, w1, t1. split; [done|]. split; [lia|]. split; [done|]. rewrite Z.max_l by lia. done.
    + eexists _, w1, t1. split; [done|]. split; [lia|]. split; [done|]. rewrite Z.max_r by lia.
      destruct Hinv as [_ _ [_ Hd] _ (_ & He & _) _ _]. rewrite E in Hd. apply Forall_cons in Hd as [(_ & _ & Hd) _].
      rewrite (u64_small (_ - _)) by (unfold time_limit in *; lia). done.
Qed.

(** How long the link can wait at time [now], once it has caught up. *)
Definition link_wait now (l : Link Q) : Z :=
  let d := (if finished_ l then 2 ^ 64 - 1 else opportunity_time l 0) - now in
  Z.max 0 (i32 d).

Lemma wait_time_link_ok t s (w : W) : 0 <= t -> queue_inv t s -> clock_from w t ->
  exists l w' t' k, wait_time_link_queue (link s) w = Ok (link_wait t' l, l, w') /\ t <= t' < time_limit /\ clock_from w' t' /\
    rationalized t' k (link s) l.
Proof.
  intros Ht0 Hinv Hw. unfold wait_time_link_queue.
  destruct (timestamp_spec w t Hw) as (t1 & w1 & -> & Ht & Hw1). cbn [bind].
  destruct (rationalize_spec t1 (link s) w1 (inv_link _ _ Hinv)) as (k & l & -> & Hz); [lia|]. cbn [bind].
  exists l, w1, t1, k. split; [|done].
  destruct (idle_next_delivery t1 l (rz_wf _ _ _ _ Hz) ltac:(lia) (rz_idle _ _ _ _ Hz)) as (nt & -> & Hnt & Ent). cbn [bind].
  unfold link_wait. rewrite <- Ent.
  assert (E : i32 (u64 (nt - t1)) = i32 (nt - t1)) by apply i32_u64. rewrite E.
  pose proof (i32_range (nt - t1)).
  assert (E2 : (if i32 (nt - t1) <? 0 then 0 else i32 (nt - t1)) = Z.max 0 (i32 (nt - t1))) by (destruct (Z.ltb_spec (i32 (nt - t1)) 0); lia).
  rewrite E2, u32_small by lia. done.
Qed.

Lemma link_rationalized_inv t t' k s l : queue_inv t s -> t <= t' -> rationalized t' k (link s) l ->
  queue_inv t' (s <| link := l |>) /\ link_packets l = link_packets (link s).
Proof.
  intros Hinv Hle Hz. pose proof (sends_packets _ _ (rz_sends _ _ _ _ Hz)) as E.
  pose proof (rz_same _ _ _ _ Hz) as (_ & _ & Ec).
  destruct (queue_inv_le t t' s Hinv Hle) as [H1 H2 H3 H4 (H5 & H5') Hsz H6]. split; [|done]. split; cbn.
  - apply (rz_wf _ _ _ _ Hz).
  - unfold started_wf in *. cbn. by rewrite E.
  - exact H3.
  - exact H4.
  - split; [|exact H5']. cbn. by rewrite E, Ec.
  - by rewrite E.
  - by rewrite Ec.
Qed.

Lemma wait_time_ok t s (w : W) : 0 <= t -> queue_inv t s -> clock_from w t ->
  exists s' w' t1 t2, wait_time s w = Ok (Z.min (u32 (delay_wait t1 s)) (link_wait t2 (link s')), s', w') /\
    t <= t1 <= t2 /\ t2 < time_limit /\ clock_from w' t2 /\ queue_inv t2 s' /\
    (exists k, rationalized t2 k (link s) (link s')) /\ s' = s <| link := link s' |> /\ in_flight s' = in_flight s.
Proof.
  intros Ht0 Hinv Hw. unfold wait_time.
  destruct (wait_time_delay_ok t s w Ht0 Hinv Hw) as (n & w1 & t1 & -> & Ht1 & Hw1 & ->). cbn [bind].
  destruct (wait_time_link_ok t1 s w1) as (l & w2 & t2 & k & -> & Ht2 & Hw2 & Hz); [lia|eapply queue_inv_le; [done|lia]|done|].
  cbn [bind]. destruct (link_rationalized_inv t t2 k s l) as [Hinv2 El]; [done|lia|done|].
  exists (s <| link := l |>), w2, t1, t2. split; [done|]. split; [lia|]. split; [lia|]. split; [done|]. split; [done|].
  split; [by exists k|]. split; [done|]. unfold in_flight. cbn. by rewrite El.
Qed.

Lemma pending_output_ok t s (w : W) : 0 <= t -> queue_inv t s -> clock_from w t ->
  exists b w' t', pending_output s w = Ok (b, w') /\ t <= t' /\ clock_from w' t' /\
    (b = true <-> output_queue_ (link s) <> [] \/ u32 (delay_wait t' s) = 0).
Proof.
  intros Ht0 Hinv Hw. unfold pending_output. destruct (output_queue_ (link s)) as [|p q] eqn:E.
  - destruct (wait_time_delay_ok t s w Ht0 Hinv Hw) as (n & w1 & t1 & -> & Ht1 & Hw1 & ->). cbn [bind].
    eexists _, w1, t1. split; [done|]. split; [lia|]. split; [done|]. rewrite Z.leb_le.
    pose proof (u32_range (delay_wait t1 s)). split; [right; lia|intros [?|?]; [done|lia]].
  - exists true, w, t. split; [done|]. split; [lia|]. split; [done|]. split; [by left|done].
Qed.

End Invariant.

(** * The endpoint *)

(** What every write to the endpoint keeps, [write_packets] keeps. *)
Section SinkFrame.
Context {W Q F : Type} {clock : Clock W} {apq : AbstractPacketQueue W Q} {sink : PacketSink F}.
Context (P : F -> F -> Prop).
Hypothesis P_refl : forall f, P f f.
Hypothesis P_trans : forall f g h, P f g -> P g h -> P f h.
Hypothesis P_write : forall c f f', fd_write c f = Ok f' -> P f f'.

Lemma write_output_frame o : forall now (s : CellularQueue Q) f s' f', write_output o now s f = Ok (s', f') -> P f f'.
Proof.
  induction o as [|p o IH]; intros now s f s' f'; cbn [write_output]; intros E; [by simplify_eq|].
  apply bind_Ok in E as (f1 & Hw & E). eapply P_trans; [by eapply P_write|].
  match type of E with (if ?b then _ else _) = _ => destruct b; [|done] end. by eapply IH.
Qed.

Lemma forward_packet_frame now p (s : CellularQueue Q) w f s' w' f' :
  forward_packet now p s w f = Ok (s', w', f') -> P f f'.
Proof.
  unfold forward_packet. intros E. destruct (_ && _).
  - apply bind_Ok in E as (f1 & Hw & E). simplify_eq. by eapply P_write.
  - apply bind_Ok in E as ([l w1] & _ & E). by simplify_eq.
Qed.

Lemma forward_loop_frame fuel : forall now p (s : CellularQueue Q) w f s' w' f',
  forward_loop fuel now p s w f = Ok (s', w', f') -> P f f'.
Proof.
  induction fuel as [|fuel IH]; intros now p s w f s' w' f'; cbn [forward_loop]; destruct (_ =? 0); intros E; try by simplify_eq.
  apply bind_Ok in E as ([[s1 w1] f1] & Hf & E). apply bind_Ok in E as ([[p2 s2] w2] & _ & E).
  eapply P_trans; [by eapply forward_packet_frame|by eapply IH].
Qed.

Lemma write_packets_frame (s : CellularQueue Q) w f s' w' f' : write_packets s w f = Ok (s', w', f') -> P f f'.
Proof.
  unfold write_packets, write_packets_from_link_queue. intros E.
  apply bind_Ok in E as ([[p s1] w1] & _ & E). apply bind_Ok in E as ([now w2] & _ & E).
  apply bind_Ok in E as ([[s2 w3] f1] & Hf & E). apply bind_Ok in E as ([now' w4] & _ & E).
  apply bind_Ok in E as ([s3 f2] & Ho & E). simplify_eq.
  eapply P_trans; [by eapply forward_loop_frame|by eapply write_output_frame].
Qed.
End SinkFrame.

(** * Runs *)

(** The calls that the event loop makes, in any order. *)
Inductive event :=
| ReadPacket (c : bytes)
| WritePackets
| WaitTime
| PendingOutput.

Section Runs.
Context {W Q F : Type} {clock : Clock W} {apq : AbstractPacketQueue W Q} {sink : PacketSink F}.

Definition exec (e : event) (x : CellularQueue Q * W * F) : outcome (CellularQueue Q * W * F) :=
  let '(s, w, f) := x in
  match e with
  | ReadPacket c => let* (s, w) := read_packet c s w in Ok (s, w, f)
  | WritePackets => write_packets s w f
  | WaitTime => let* (_, s, w) := wait_time s w in Ok (s, w, f)
  | PendingOutput => let* (_, w) := pending_output s w in Ok (s, w, f)
  end.

Fixpoint run (es : list event) (x : CellularQueue Q * W * F) : outcome (CellularQueue Q * W * F) :=
  match es with
  | [] => Ok x
  | e :: es => let* x := exec e x in run es x
  end.
End Runs.

(** The packets that a run reads. *)
Fixpoint reads (es : list event) : list bytes :=
  match es with
  | [] => []
  | ReadPacket c :: es => c :: reads es
  | _ :: es => reads es
  end.

Section RunFacts.
Context {W Q F : Type} {clock : Clock W} {laws : ClockLaws W} {apq : AbstractPacketQueue W Q}
  {fpq : FifoPacketQueue W Q} {sink : PacketSink F} {fl : FlowRelation} {flowing : FlowingQueue W Q fl}.
Implicit Types s : CellularQueue Q.

(** Fewer packets than would overflow a counter. *)
Definition run_small (es : list event) s : Prop :=
  (pkt_counter_ s + len (reads es) + 1) * PACKET_SIZE < 2 ^ 31.

Lemma inv_room t s : queue_inv t s -> (pkt_counter_ s + 1) * PACKET_SIZE < 2 ^ 31 -> room s.
Proof.
  intros [_ _ _ _ (H5 & _) _ H6] H. apply flow_count_le in H5. unfold room. rewrite in_flight_len.
  unfold PACKET_SIZE in *. lia.
Qed.

Lemma exec_ok e t s (w : W) (f : F) : 0 <= t -> queue_inv t s -> sink_ready f -> clock_from w t -> run_small [e] s ->
  Forall packet_readable (reads [e]) ->
  (exists s' w' f' t', exec e (s, w, f) = Ok (s', w', f') /\ t <= t' /\ clock_from w' t' /\ queue_inv t' s' /\ sink_ready f' /\
    pkt_counter_ s' = pkt_counter_ s + len (reads [e]) /\
    flow (delivered f' ++ in_flight s') (delivered f ++ in_flight s ++ reads [e])) \/
  write_error (exec e (s, w, f)).
Proof.
  intros Ht Hinv Hf Hw Hsm Hok. unfold run_small in Hsm. pose proof (len_nonneg (reads [e])).
  assert (Hroom : room s) by (eapply inv_room; [exact Hinv|unfold PACKET_SIZE in *; lia]).
  destruct e as [c| | |]; cbn [exec reads] in *.
  - rewrite Forall_singleton in Hok.
    destruct (read_packet_ok t s w c Ht Hinv Hw Hroom Hok) as (s' & w' & t' & p & -> & Ht' & Hw' & Hinv' & Hpc & El & Ed & Ec & _).
    cbn [bind]. left. exists s', w', f, t'. do 5 (split; [done|]). split; [done|].
    unfold in_flight. rewrite El, Ed, map_app. cbn [map]. rewrite Ec, !(assoc_L (++)). apply flow_refl.
  - destruct (write_packets_ok t s w f Hinv Hf Hw Hroom) as [(s' & w' & f' & t' & -> & Ht' & Hw' & Hinv' & Hf' & Hpc & _ & _ & Hfl)|He];
      [left|by right].
    exists s', w', f', t'. do 5 (split; [done|]). rewrite app_nil_r. split; [change (len (@nil bytes)) with 0; lia|done].
  - destruct (wait_time_ok t s w Ht Hinv Hw) as (s' & w' & t1 & t2 & -> & Ht1 & Ht2 & Hw' & Hinv' & _ & Es & Eif).
    cbn [bind]. left. exists s', w', f, t2. split; [done|]. split; [lia|]. do 3 (split; [done|]).
    rewrite app_nil_r, Eif. split; [rewrite Es; cbn; change (len (@nil bytes)) with 0; lia|apply flow_refl].
  - destruct (pending_output_ok t s w Ht Hinv Hw) as (b & w' & t' & -> & Ht' & Hw' & _).
    cbn [bind]. left. exists s, w', f, t'. split; [done|]. split; [lia|]. split; [done|].
    split; [by eapply queue_inv_le|]. split; [done|]. rewrite app_nil_r. split; [change (len (@nil bytes)) with 0; lia|apply flow_refl].
Qed.

Lemma reads_cons e es : reads (e :: es) = reads [e] ++ reads es.
Proof. by destruct e. Qed.

Lemma run_ok es : forall t s (w : W) (f : F), 0 <= t -> queue_inv t s -> sink_ready f -> clock_from w t -> run_small es s ->
  Forall packet_readable (reads es) ->
  (exists s' w' f' t', run es (s, w, f) = Ok (s', w', f') /\ t <= t' /\ clock_from w' t' /\ queue_inv t' s' /\
    pkt_counter_ s' = pkt_counter_ s + len (reads es) /\
    flow (delivered f' ++ in_flight s') (delivered f ++ in_flight s ++ reads es)) \/
  write_error (run es (s, w, f)).
Proof.
  induction es as [|e es IH]; intros t s w f Ht Hinv Hf Hw Hsm Hok.
  - left. exists s, w, f, t. split; [done|]. split; [lia|]. do 2 (split; [done|]). cbn [reads]. rewrite app_nil_r.
    split; [change (len (@nil bytes)) with 0; lia|apply flow_refl].
  - rewrite reads_cons in *. apply Forall_app in Hok as [Hok1 Hok2]. unfold run_small in Hsm. rewrite reads_cons, len_app in Hsm.
    pose proof (len_nonneg (reads es)). pose proof (len_nonneg (reads [e])). unfold PACKET_SIZE in Hsm.
    cbn [run].
    destruct (exec_ok e t s w f Ht Hinv Hf Hw) as [(s1 & w1 & f1 & t1 & -> & Ht1 & Hw1 & Hinv1 & Hf1 & Hpc1 & Hfl1)|(x & -> & He)];
      [unfold run_small, PACKET_SIZE; lia|done| |right; by exists x]. cbn [bind].
    destruct (IH t1 s1 w1 f1) as [(s' & w' & f' & t' & E' & Ht' & Hw' & Hinv' & Hpc' & Hfl')|He];
      [lia|done|done|done|unfold run_small, PACKET_SIZE; lia|done|left|by right].
    exists s', w', f', t'. split; [done|]. split; [lia|]. do 2 (split; [done|]).
    split; [rewrite len_app; lia|]. eapply flow_trans; [exact Hfl'|].
    rewrite !(assoc_L (++)) in *. apply flow_app; [exact Hfl1|apply flow_refl].
Qed.

(** ** The initial state *)

Record config_ok (schedule : list Z) (traces : list DelayPDOInstance) (offsets : list Floats.real) (timer : Z) : Prop := {
  config_schedule : schedule_wf schedule;
  config_traces : trace_wf traces;
  config_offsets base : offsets_ok (delay_trace_new traces offsets timer base);
  config_timer : 0 <= timer < 2 ^ 31;
}.

Lemma cellular_new_inv schedule traces offsets timer repeat log header (q : Q) link_base delay_base t :
  config_ok schedule traces offsets timer -> queue_wf q -> packets q = [] -> 0 <= link_base < time_limit ->
  let s := cellular_new schedule traces offsets timer repeat log header q link_base delay_base in
  queue_inv t s /\ in_flight s = [] /\ pkt_counter_ s = 0.
Proof.
  intros [Hs Ht Ho Htm] Hq Hp Hb s.
  assert (El : link_packets (link s) = []) by (unfold link_packets, unsent, in_transit; cbn; exact Hp).
  split; [|split; [unfold in_flight; by rewrite El|done]].
  pose proof (schedule_len_pos _ Hs) as Hl. split.
  - split; [split; [exact Hs|]; split; [change (0 <= 0 < len schedule); lia|exact Hb]|]. split.
    + unfold transit_wf, PACKET_SIZE. cbn. rewrite Hp. split; [done|]. split; [done|]. split; [lia|by vm_compute].
    + intros _. unfold arrivals_before. unfold link_packets in El. apply app_eq_nil in El as [_ ->]. done.
  - unfold started_wf. cbn. split; [done|]. unfold PACKET_SIZE. do 5 (split; [lia|]). done.
  - split; [done|]. apply Forall_nil_2.
  - apply Ho.
  - split; [|cbn; unfold time_limit; lia]. rewrite El. change (current_link_queue_size_ (link s)) with (len (@nil bytes)).
    apply (flow_len [] []), flow_refl.
  - rewrite El. apply Forall_nil_2.
  - cbn. done.
Qed.
End RunFacts.

(** * Properties *)

(** C8: with a queue that drops nothing, one direction of the emulated link is
    a FIFO channel.  From the state the constructor leaves, with a well-formed
    configuration, take any sequence of reads, writes and polls that reads
    readable packets only ([packet_readable]: of 20 to 1400 bytes, with complete
    headers) and at most about 1.5 million of them, so that no counter wraps.  It
    runs without a failed assertion or another error than what a write to the
    endpoint throws; when no write has failed, the packets written to the
    endpoint followed by those still inside are exactly the packets read, in
    order, and the link counts its packets rightly. *)
Theorem cellular_queue_fifo {W Q F : Type} `{ClockLaws W, LosslessPacketQueue W Q, PacketSink F}
    schedule traces offsets timer repeat log header (q : Q) link_base delay_base (es : list event) t (w : W) (f : F) :
  config_ok schedule traces offsets timer -> queue_wf q -> packets q = [] ->
  0 <= link_base < time_limit -> 0 <= t -> clock_from w t -> sink_ready f ->
  (len (reads es) + 1) * PACKET_SIZE < 2 ^ 31 -> Forall packet_readable (reads es) ->
  match run es (cellular_new schedule traces offsets timer repeat log header q link_base delay_base, w, f) with
  | Ok (s', w', f') =>
      delivered f' ++ in_flight s' = delivered f ++ reads es /\
      current_link_queue_size_ (link s') = len (link_packets (link s'))
  | Err e => write_fails (F := F) e
  end.
Proof.
  intros Hcfg Hq Hp Hb Ht Hw Hf Hsm Hok. pose proof (lossless_flows (W := W) (Q := Q)) as Hflow.
  destruct (cellular_new_inv (fl := lossless_flow) schedule traces offsets timer repeat log header q link_base delay_base t Hcfg Hq Hp Hb)
    as (Hinv & Hif & Hpc).
  destruct (run_ok (fl := lossless_flow) es t _ w f Ht Hinv Hf Hw) as [(s' & w' & f' & t' & -> & _ & _ & Hinv' & _ & Hfl)|(e & -> & He)];
    [unfold run_small; by rewrite Hpc|done| |done].
  simpl in Hfl. rewrite Hif in Hfl. split; [exact Hfl|]. symmetry. apply (inv_counts _ _ Hinv').
Qed.

(** C10: the same with a packet queue that may drop packets, as long as it is a
    [FifoPacketQueue]: the infinite queue, droptail, and drophead without a limit
    in bytes, that is, those that the command line can name, less drophead with
    that limit; CoDel and PIE are not instances.  Under the conditions of the
    FIFO property the run has no failed assertion and no other error than what a
    write to the endpoint throws; when no write has failed, the packets written
    and those still inside are a subsequence of the packets read: such a queue
    loses packets, but never reorders, duplicates or alters one. *)
Theorem cellular_queue_subsequence {W Q F : Type} `{ClockLaws W, FifoPacketQueue W Q, PacketSink F}
    schedule traces offsets timer repeat log header (q : Q) link_base delay_base (es : list event) t (w : W) (f : F) :
  config_ok schedule traces offsets timer -> queue_wf q -> packets q = [] ->
  0 <= link_base < time_limit -> 0 <= t -> clock_from w t -> sink_ready f ->
  (len (reads es) + 1) * PACKET_SIZE < 2 ^ 31 -> Forall packet_readable (reads es) ->
  match run es (cellular_new schedule traces offsets timer repeat log header q link_base delay_base, w, f) with
  | Ok (s', w', f') => (delivered f' ++ in_flight s') `sublist_of` (delivered f ++ reads es)
  | Err e => write_fails (F := F) e
  end.
Proof.
  intros Hcfg Hq Hp Hb Ht Hw Hf Hsm Hok. pose proof (fifo_flows (W := W) (Q := Q)) as Hflow.
  destruct (cellular_new_inv (fl := dropping_flow) schedule traces offsets timer repeat log header q link_base delay_base t Hcfg Hq Hp Hb)
    as (Hinv & Hif & Hpc).
  destruct (run_ok (fl := dropping_flow) es t _ w f Ht Hinv Hf Hw) as [(s' & w' & f' & t' & -> & _ & _ & _ & _ & Hfl)|(e & -> & He)];
    [unfold run_small; by rewrite Hpc|done| |done].
  simpl in Hfl. rewrite Hif in Hfl. exact Hfl.
Qed.

Section Properties.
Context {W Q F : Type} {clock : Clock W} {laws : ClockLaws W} {apq : AbstractPacketQueue W Q}
  {fpq : FifoPacketQueue W Q} {sink : PacketSink F} {sure : SureSink F} {fl : FlowRelation} {flowing : FlowingQueue W Q fl}.
Implicit Types s : CellularQueue Q.


(** C14: [read_packet] accepts every readable packet of 20 to 1400 bytes: the
    packet joins the end of the delay queue with the next sequence number, its
    release time is neither before its arrival nor before the last packet's,
    the assertion on the release time holds, and the link is left alone. *)
Theorem read_packet_accepts t s (w : W) (c : bytes) :
  0 <= t -> queue_inv t s -> clock_from w t -> room s -> packet_readable c ->
  exists s' w' t' p, read_packet c s w = Ok (s', w') /\ clock_from w' t' /\ queue_inv t' s' /\
    delay_packet_queue_ s' = delay_packet_queue_ s ++ [p] /\ d_contents p = c /\
    d_sequence_number p = pkt_counter_ s /\ pkt_counter_ s' = pkt_counter_ s + 1 /\
    d_arrival_time p <= d_release_time p /\ end_release_time_ s <= d_release_time p /\
    link_packets (link s') = link_packets (link s).
Proof.
  intros Ht Hinv Hw Hr Hc. destruct (read_packet_ok t s w c Ht Hinv Hw Hr Hc)
    as (s' & w' & t' & p & E & _ & Hw' & Hinv' & Hpc & El & Ed & Ec & Ea & Es & Hr1 & Hr2 & _).
  exists s', w', t', p. rewrite Ea. auto 12.
Qed.

(** C17: [wait_time] is the time to the next event: the smaller of the time to
    the earliest release (65535 when no packet waits) and the time to the next
    delivery opportunity, each taken at its own reading of the clock, with the
    widths of the C++ types; the packets inside stay the same. *)
Theorem wait_time_next_event t s (w : W) : 0 <= t -> queue_inv t s -> clock_from w t ->
  exists s' w' t1 t2, wait_time s w = Ok (Z.min (u32 (delay_wait t1 s)) (link_wait t2 (link s')), s', w') /\
    t <= t1 <= t2 /\ clock_from w' t2 /\ queue_inv t2 s' /\ ~ due (link s') t2 0 /\ in_flight s' = in_flight s.
Proof.
  intros Ht Hinv Hw. destruct (wait_time_ok t s w Ht Hinv Hw) as (s' & w' & t1 & t2 & E & H1 & H2 & Hw' & Hinv' & (k & Hz) & _ & Hif).
  exists s', w', t1, t2. repeat (split; [done|]). split; [apply (rz_idle _ _ _ _ Hz)|done].
Qed.

(** C18: what [read_packet] does with a packet that it does not accept.  Too
    short and too long packets throw a pointer to a string, of which no handler
    for [const exception &] is one.  Of a packet of the right size that ends
    before a header field that is to be printed, it reads bytes beyond the
    packet's end: C++ does not say what happens then (the program may go on with
    whatever bytes are there), and the property says no more. *)
Theorem read_packet_rejects t s (w : W) (c : bytes) : clock_from w t ->
  (len c < 20 -> read_packet c s w = Err (ThrowPointer "Packet is too small!")) /\
  (PACKET_SIZE < len c ->
     read_packet c s w = Err (ThrowPointer ("Packet size (" +:+ print_nonneg (len c) +:+ ")  exceeds the maximum allowed (1400)"))) /\
  (20 <= len c <= PACKET_SIZE -> header_readable c = false -> exists field, read_packet c s w = Err (UndefinedBehaviour field)).
Proof.
  intros Hw. pose proof (read_packet_fault t s w c Hw) as H. unfold read_fault, packet_readable, packet_too_large in H. unfold PACKET_SIZE in *.
  destruct (Z.ltb_spec (len c) 20), (Z.ltb_spec 1400 (len c)); try lia; repeat split; try lia; intros;
    destruct H as (e & -> & He); try lia; try congruence.
  - intros [_ E]. congruence.
  - destruct He as [_ [field ->]]. by exists field.
Qed.
End Properties.

(** * Concrete runs *)

Lemma no_offsets_ok traces timer base : offsets_ok (delay_trace_new traces [] timer base).
Proof. intros psize _. exists 0. by vm_compute. Qed.

Lemma sample_config_ok : config_ok [0; 1; 5] sample_trace [] 50.
Proof. split; [by_computation|exact sample_trace_wf|intros; apply no_offsets_ok|lia]. Qed.

Definition empty_infinite : InfinitePacketQueue :=
  {| inf_internal_queue_ := []; inf_queue_size_in_bytes_ := 0; inf_queue_size_in_packets_ := 0 |}.

Definition sample_contents (sport : Z) (n : nat) : bytes :=
  tun_packet (repeat Byte.x00 4) sample_header (repeat Byte.x00 8) (repeat Byte.x00 2)
    (port_bytes sport ++ port_bytes 53 ++ repeat Byte.x2e n).

Definition sample_events : list event :=
  [WaitTime; ReadPacket (sample_contents 1000 8); PendingOutput; ReadPacket (sample_contents 1001 1300); WaitTime;
   ReadPacket (sample_contents 1002 200); WritePackets; WaitTime; WritePackets] ++
  repeat WaitTime 20 ++ [WritePackets].

Definition sample_start {Q} (q : Q) : CellularQueue Q :=
  cellular_new [0; 1; 5] sample_trace [] 50 true true [] q 0 0.

Lemma cellular_queue_fifo_witness :
  match run sample_events (sample_start empty_infinite, ticking, []) with
  | Ok (s', w', f') =>
      delivered (F := list bytes) f' ++ in_flight (W := World) s' = delivered (F := list bytes) [] ++ reads sample_events /\
      current_link_queue_size_ (link s') = len (link_packets (W := World) (link s'))
  | Err e => write_fails (F := list bytes) e
  end.
Proof.
  apply (cellular_queue_fifo (F := list bytes) [0; 1; 5] sample_trace [] 50 true true [] empty_infinite 0 0 sample_events 0 ticking []);
    [exact sample_config_ok|by_computation|done|by_computation|lia|exact ticking_from|done|by_computation|by_computation].
Defined.

Definition empty_droptail : DropTailPacketQueue :=
  {| tail_queue := sample_queue 1500 0 |}.

Lemma cellular_queue_subsequence_witness :
  match run sample_events (sample_start empty_droptail, ticking, []) with
  | Ok (s', w', f') =>
      (delivered (F := list bytes) f' ++ in_flight (W := World) s') `sublist_of` (delivered (F := list bytes) [] ++ reads sample_events)
  | Err e => write_fails (F := list bytes) e
  end.
Proof.
  apply (cellular_queue_subsequence (F := list bytes) [0; 1; 5] sample_trace [] 50 true true [] empty_droptail 0 0 sample_events 0 ticking []);
    [exact sample_config_ok|by_computation|done|by_computation|lia|exact ticking_from|done|by_computation|by_computation].
Defined.

(** The run does write packets, in its own time. *)
Lemma sample_run_delivers :
  match run sample_events (sample_start empty_infinite, ticking, []) with
  | Ok (s', _, f') => (List.length f', List.length (in_flight (W := World) s'))
  | Err _ => (0, 0)%nat
  end = (3, 0)%nat.
Proof. vm_compute. reflexivity. Qed.

Lemma sample_start_inv : queue_inv (W := World) (fl := lossless_flow) 0 (sample_start empty_infinite) /\
  room (W := World) (sample_start empty_infinite).
Proof.
  destruct (cellular_new_inv (W := World) (fl := lossless_flow) [0; 1; 5] sample_trace [] 50 true true [] empty_infinite 0 0 0
    sample_config_ok) as (H & Hif & Hpc); [by_computation|done|by_computation|].
  split; [exact H|]. unfold room, sample_start. rewrite Hif, Hpc. by_computation.
Qed.


Lemma read_packet_accepts_witness :
  exists s' w' t' p, read_packet (sample_contents 1000 8) (sample_start empty_infinite) ticking = Ok (s', w') /\
    clock_from w' t' /\ queue_inv (W := World) (fl := lossless_flow) t' s' /\
    delay_packet_queue_ s' = delay_packet_queue_ (sample_start empty_infinite) ++ [p] /\
    d_contents p = sample_contents 1000 8 /\ d_sequence_number p = pkt_counter_ (sample_start empty_infinite) /\
    pkt_counter_ s' = pkt_counter_ (sample_start empty_infinite) + 1 /\ d_arrival_time p <= d_release_time p /\
    end_release_time_ (sample_start empty_infinite) <= d_release_time p /\
    link_packets (W := World) (link s') = link_packets (W := World) (link (sample_start empty_infinite)).
Proof.
  apply (read_packet_accepts (fl := lossless_flow) 0 (sample_start empty_infinite) ticking (sample_contents 1000 8));
    [lia|exact (proj1 sample_start_inv)|exact ticking_from|exact (proj2 sample_start_inv)|by_computation].
Defined.

Lemma wait_time_next_event_witness :
  exists s' w' t1 t2, wait_time (sample_start empty_infinite) ticking =
      Ok (Z.min (u32 (delay_wait t1 (sample_start empty_infinite))) (link_wait t2 (link s')), s', w') /\
    0 <= t1 <= t2 /\ clock_from w' t2 /\ queue_inv (W := World) (fl := lossless_flow) t2 s' /\ ~ due (link s') t2 0 /\
    in_flight (W := World) s' = in_flight (W := World) (sample_start empty_infinite).
Proof.
  apply (wait_time_next_event (fl := lossless_flow) 0 (sample_start empty_infinite) ticking);
    [lia|exact (proj1 sample_start_inv)|exact ticking_from].
Defined.

Lemma read_packet_rejects_witness :
  let c := sample_contents 1000 1500 in
  (len c < 20 -> read_packet c (sample_start empty_infinite) ticking = Err (ThrowPointer "Packet is too small!")) /\
  (PACKET_SIZE < len c -> read_packet c (sample_start empty_infinite) ticking =
     Err (ThrowPointer ("Packet size (" +:+ print_nonneg (len c) +:+ ")  exceeds the maximum allowed (1400)"))) /\
  (20 <= len c <= PACKET_SIZE -> header_readable c = false ->
     exists field, read_packet c (sample_start empty_infinite) ticking = Err (UndefinedBehaviour field)).
Proof. intros c. apply (read_packet_rejects 0 (sample_start empty_infinite) ticking c). exact ticking_from. Defined.
