(* ===== verification/ByteStreamQueue.v ===== *)
(** The ring buffer between two file descriptors: [ByteStreamQueue] of
    src/util/bytestream_queue.hh/.cc.

    One byte of the buffer stays free, so that equal positions mean an empty
    queue.  [contents] is the abstraction: the bytes pushed and not yet popped.
    The refinement is to a byte list bounded by the size of the buffer less
    one. *)
From S2P Require Import Prelude FileDescriptor.

Record ByteStreamQueue := {
  buffer_ : bytes;
  next_byte_to_push : Z;
  next_byte_to_pop : Z;
}.

#[export] Instance eta_ByteStreamQueue : Eta ByteStreamQueue := fun q =>
  {| buffer_ := buffer_ q; next_byte_to_push := next_byte_to_push q; next_byte_to_pop := next_byte_to_pop q |}.

Inductive Result := Success | EndOfFile.

Definition eof (r : Result) : bool := match r with EndOfFile => true | Success => false end.

(** * Operations *)

Definition bytestream_new (size : Z) : outcome ByteStreamQueue :=
  guard* 1 <? size else AssertFail "size > 1" in
  Ok {| buffer_ := repeat Byte.x00 (Z.to_nat size); next_byte_to_push := 0; next_byte_to_pop := 0 |}.

Definition available_to_pop (q : ByteStreamQueue) : Z :=
  u64 (next_byte_to_push q - next_byte_to_pop q
       + (if next_byte_to_push q <? next_byte_to_pop q then len (buffer_ q) else 0)).

Definition available_to_push (q : ByteStreamQueue) : Z :=
  u64 (next_byte_to_pop q - next_byte_to_push q - 1
       + (if next_byte_to_push q <? next_byte_to_pop q then 0 else len (buffer_ q))).

Definition space_available (q : ByteStreamQueue) : bool := 0 <? available_to_push q.
Definition non_empty (q : ByteStreamQueue) : bool := 0 <? available_to_pop q.

(** [memcpy( &buffer_.at( i ), chunk.data(), chunk.size() )] *)
Definition buffer_write (i : Z) (chunk buffer : bytes) : outcome bytes :=
  let* _ := vec_at buffer i in
  if len buffer <? i + len chunk then Err (UndefinedBehaviour "memcpy beyond the buffer")
  else Ok (take (Z.to_nat i) buffer ++ chunk ++ drop (Z.to_nat (i + len chunk)) buffer).

Definition contiguous_space_to_push (q : ByteStreamQueue) : Z :=
  let n := available_to_push q in
  if len (buffer_ q) <=? u64 (next_byte_to_push q + n) then u64 (len (buffer_ q) - next_byte_to_push q) else n.

Definition contiguous_space_to_pop (q : ByteStreamQueue) : Z :=
  let n := available_to_pop q in
  if len (buffer_ q) <=? u64 (next_byte_to_pop q + n) then u64 (len (buffer_ q) - next_byte_to_pop q) else n.

Section Operations.
Context {OS : Type} {kernel : Kernel OS}.

Definition push (q : ByteStreamQueue) (fd : FileDescriptor) (o : OS) :
    outcome (Result * ByteStreamQueue * FileDescriptor * OS) :=
  guard* space_available q else AssertFail "space_available()" in
  guard* 0 <? contiguous_space_to_push q else AssertFail "contiguous_space_to_push > 0" in
  (* read from the fd *)
  let* (new_chunk, fd, o) := read (contiguous_space_to_push q) fd o in
  if len new_chunk =? 0 then Ok (EndOfFile, q, fd, o)
  else
    guard* len new_chunk <=? u64 (len (buffer_ q) - next_byte_to_push q)
      else AssertFail "new_chunk.size() <= buffer_.size() - next_byte_to_push" in
    let* b := buffer_write (next_byte_to_push q) new_chunk (buffer_ q) in
    let q := q <| buffer_ := b |> <| next_byte_to_push := u64 (next_byte_to_push q + len new_chunk) |> in
    guard* next_byte_to_push q <=? len (buffer_ q) else AssertFail "next_byte_to_push <= buffer_.size()" in
    let q := if next_byte_to_push q =? len (buffer_ q) then q <| next_byte_to_push := 0 |> else q in
    guard* non_empty q else AssertFail "non_empty()" in
    Ok (Success, q, fd, o).

Definition pop (q : ByteStreamQueue) (fd : FileDescriptor) (o : OS) :
    outcome (ByteStreamQueue * FileDescriptor * OS) :=
  guard* non_empty q else AssertFail "non_empty()" in
  let n := contiguous_space_to_pop q in
  let chunk := take (Z.to_nat n) (drop (Z.to_nat (next_byte_to_pop q)) (buffer_ q)) in
  let* (rest, fd, o) := write_some chunk fd o in
  let q := q <| next_byte_to_pop := u64 (next_byte_to_pop q + (len chunk - len rest)) |> in
  guard* next_byte_to_pop q <=? len (buffer_ q) else AssertFail "next_byte_to_pop <= buffer_.size()" in
  Ok (if next_byte_to_pop q =? len (buffer_ q) then q <| next_byte_to_pop := 0 |> else q, fd, o).
End Operations.

(** * The queue as a byte list *)

Definition contents (q : ByteStreamQueue) : bytes :=
  let i := Z.to_nat (next_byte_to_pop q) in
  let j := Z.to_nat (next_byte_to_push q) in
  if next_byte_to_push q <? next_byte_to_pop q
  then drop i (buffer_ q) ++ take j (buffer_ q)
  else take (j - i) (drop i (buffer_ q)).

Definition bytestream_wf (q : ByteStreamQueue) : Prop :=
  1 < len (buffer_ q) < 2 ^ 62 /\ 0 <= next_byte_to_push q < len (buffer_ q) /\
  0 <= next_byte_to_pop q < len (buffer_ q).

Lemma len_take {A} (l : list A) n : 0 <= n -> len (take (Z.to_nat n) l) = Z.min n (len l).
Proof. intros H. unfold len. rewrite length_take. lia. Qed.

Lemma len_drop {A} (l : list A) n : 0 <= n -> len (drop (Z.to_nat n) l) = Z.max 0 (len l - n).
Proof. intros H. unfold len. rewrite length_drop. lia. Qed.

Lemma available_to_pop_spec q : bytestream_wf q -> available_to_pop q = len (contents q).
Proof.
  intros (Hs & Hj & Hi). unfold available_to_pop, contents. destruct (Z.ltb_spec (next_byte_to_push q) (next_byte_to_pop q)).
  - rewrite u64_small by lia. rewrite len_app, len_drop, len_take by lia. lia.
  - rewrite u64_small by lia. rewrite <- Z2Nat.inj_sub by lia. rewrite len_take, len_drop by lia. lia.
Qed.

Lemma available_to_push_spec q : bytestream_wf q -> available_to_push q = len (buffer_ q) - 1 - len (contents q).
Proof.
  intros Hwf. rewrite <- available_to_pop_spec by done. destruct Hwf as (Hs & Hj & Hi).
  unfold available_to_pop, available_to_push. destruct (Z.ltb_spec (next_byte_to_push q) (next_byte_to_pop q));
    rewrite !u64_small by lia; lia.
Qed.

Lemma contiguous_push_spec q : bytestream_wf q -> space_available q = true ->
  1 <= contiguous_space_to_push q <= len (buffer_ q) - next_byte_to_push q /\
  contiguous_space_to_push q <= len (buffer_ q) - 1 - len (contents q) /\
  (next_byte_to_push q < next_byte_to_pop q -> next_byte_to_push q + contiguous_space_to_push q < next_byte_to_pop q).
Proof.
  intros Hwf Hsp. unfold space_available in Hsp. apply Z.ltb_lt in Hsp.
  unfold contiguous_space_to_push. pose proof (available_to_push_spec q Hwf) as E. rewrite E in *.
  pose proof (available_to_pop_spec q Hwf) as E2. pose proof (len_nonneg (contents q)).
  destruct Hwf as (Hs & Hj & Hi). unfold available_to_pop in E2.
  destruct (Z.ltb_spec (next_byte_to_push q) (next_byte_to_pop q)); rewrite u64_small in E2 by lia;
    rewrite (u64_small (next_byte_to_push q + _)) by lia;
    destruct (Z.leb_spec (len (buffer_ q)) (next_byte_to_push q + (len (buffer_ q) - 1 - len (contents q))));
    rewrite ?u64_small by lia; lia.
Qed.

(** ** Pushing *)

Lemma buffer_write_Ok i chunk b : 0 <= i < len b -> i + len chunk <= len b ->
  buffer_write i chunk b = Ok (take (Z.to_nat i) b ++ chunk ++ drop (Z.to_nat (i + len chunk)) b).
Proof.
  intros Hi Hl. unfold buffer_write. destruct (znth_is_Some b i Hi) as [x Hx].
  rewrite (proj2 (vec_at_Ok b i x) Hx). cbn [bind]. destruct (Z.ltb_spec (len b) (i + len chunk)); [lia|done].
Qed.

(** The queue after [chunk] is copied in. *)
Definition pushed (chunk : bytes) (q : ByteStreamQueue) : ByteStreamQueue :=
  let i := next_byte_to_push q in
  let n := i + len chunk in
  {| buffer_ := take (Z.to_nat i) (buffer_ q) ++ chunk ++ drop (Z.to_nat n) (buffer_ q);
     next_byte_to_push := if n =? len (buffer_ q) then 0 else n;
     next_byte_to_pop := next_byte_to_pop q |}.

Lemma splice_len {A} i (chunk b : list A) : 0 <= i -> i + len chunk <= len b ->
  len (take (Z.to_nat i) b ++ chunk ++ drop (Z.to_nat (i + len chunk)) b) = len b.
Proof.
  intros Hi Hl. pose proof (len_nonneg chunk). rewrite !len_app, len_take, len_drop by lia. lia.
Qed.

Lemma splice_take {A} i n (chunk b : list A) : 0 <= i -> i + len chunk <= len b -> n = i + len chunk ->
  take (Z.to_nat n) (take (Z.to_nat i) b ++ chunk ++ drop (Z.to_nat n) b) = take (Z.to_nat i) b ++ chunk.
Proof.
  intros Hi Hl ->. pose proof (len_nonneg chunk). rewrite (assoc_L (++)).
  rewrite take_app_le, take_ge; [done|rewrite length_app, length_take; unfold len in *; lia..].
Qed.

Lemma take_drop_sub {A} (l : list A) i j : (i <= j)%nat -> take (j - i) (drop i l) = drop i (take j l).
Proof. intros H. rewrite skipn_firstn_comm. done. Qed.

Lemma pushed_contents chunk q : bytestream_wf q -> 0 < len chunk ->
  next_byte_to_push q + len chunk <= len (buffer_ q) -> len chunk <= len (buffer_ q) - 1 - len (contents q) ->
  (next_byte_to_push q < next_byte_to_pop q -> next_byte_to_push q + len chunk < next_byte_to_pop q) ->
  bytestream_wf (pushed chunk q) /\ contents (pushed chunk q) = contents q ++ chunk.
Proof.
  intros Hwf Hc Hl Hroom Hbefore. pose proof (available_to_pop_spec q Hwf) as Ea. destruct Hwf as (Hs & Hj & Hi).
  unfold available_to_pop in Ea. unfold pushed, bytestream_wf, contents. cbn [buffer_ next_byte_to_push next_byte_to_pop].
  set (b := buffer_ q) in *. set (j := next_byte_to_push q) in *. set (i := next_byte_to_pop q) in *.
  rewrite splice_len by lia. set (n := j + len chunk) in *.
  pose proof (splice_take j n chunk b ltac:(lia) ltac:(lia) eq_refl) as Et.
  set (b' := take (Z.to_nat j) b ++ chunk ++ drop (Z.to_nat n) b) in *.
  assert (Hlb' : len b' = len b) by (unfold b', n; apply splice_len; lia).
  split; [split; [done|]; split; [|done]; destruct (Z.eqb_spec n (len b)); lia|].
  destruct (Z.ltb_spec j i) as [Hlt|Hge].
  - destruct (Z.eqb_spec n (len b)); [lia|]. destruct (Z.ltb_spec n i); [|lia].
    rewrite Et, <- (assoc_L (++)). f_equal.
    unfold b'. rewrite (assoc_L (++)), drop_app_ge.
    + rewrite length_app, length_take. rewrite drop_drop. f_equal. unfold n, len in *. lia.
    + rewrite length_app, length_take. unfold n, len in *. lia.
  - assert (Htail : drop (Z.to_nat i) (take (Z.to_nat n) b') = drop (Z.to_nat i) (take (Z.to_nat j) b) ++ chunk).
    { rewrite Et, drop_app_le; [done|]. rewrite length_take. unfold len in *. lia. }
    rewrite (take_drop_sub b) by lia.
    destruct (Z.eqb_spec n (len b)) as [E|E].
    + destruct (Z.ltb_spec 0 i).
      * rewrite <- Htail, take_0, app_nil_r. f_equal. rewrite take_ge; [done|]. unfold len in *. lia.
      * (* the whole buffer cannot be full *) rewrite u64_small in Ea by lia. lia.
    + destruct (Z.ltb_spec n i); [lia|]. rewrite take_drop_sub by lia. by rewrite Htail.
Qed.

(** ** Popping *)

Definition popped (n : Z) (q : ByteStreamQueue) : ByteStreamQueue :=
  q <| next_byte_to_pop := if next_byte_to_pop q + n =? len (buffer_ q) then 0 else next_byte_to_pop q + n |>.

Definition pop_chunk (q : ByteStreamQueue) : bytes :=
  take (Z.to_nat (contiguous_space_to_pop q)) (drop (Z.to_nat (next_byte_to_pop q)) (buffer_ q)).

Lemma contiguous_pop_spec q : bytestream_wf q ->
  contiguous_space_to_pop q = Z.min (len (contents q)) (len (buffer_ q) - next_byte_to_pop q).
Proof.
  intros Hwf. unfold contiguous_space_to_pop. rewrite available_to_pop_spec by done.
  pose proof (available_to_pop_spec q Hwf) as E. pose proof (len_nonneg (contents q)).
  destruct Hwf as (Hs & Hj & Hi). unfold available_to_pop in E.
  destruct (Z.ltb_spec (next_byte_to_push q) (next_byte_to_pop q)); rewrite u64_small in E by lia;
    rewrite (u64_small (next_byte_to_pop q + _)) by lia;
    destruct (Z.leb_spec (len (buffer_ q)) (next_byte_to_pop q + len (contents q))); rewrite ?u64_small by lia; lia.
Qed.

Lemma pop_chunk_len q : bytestream_wf q -> len (pop_chunk q) = contiguous_space_to_pop q.
Proof.
  intros Hwf. pose proof (contiguous_pop_spec q Hwf). pose proof (len_nonneg (contents q)).
  destruct Hwf as (Hs & Hj & Hi). unfold pop_chunk. rewrite len_take, len_drop by lia. lia.
Qed.

(** Popping [n] bytes of the contiguous ones takes them off the front. *)
Lemma popped_contents n q : bytestream_wf q -> 0 < n <= contiguous_space_to_pop q ->
  bytestream_wf (popped n q) /\ contents q = take (Z.to_nat n) (pop_chunk q) ++ contents (popped n q).
Proof.
  intros Hwf Hn. pose proof (contiguous_pop_spec q Hwf) as Ec. pose proof (available_to_pop_spec q Hwf) as Ea.
  assert (Hn1 : 0 < n <= len (contents q)) by lia. assert (Hn2 : next_byte_to_pop q + n <= len (buffer_ q)) by lia.
  unfold pop_chunk. rewrite take_take. replace (Z.to_nat n `min` Z.to_nat (contiguous_space_to_pop q))%nat with (Z.to_nat n) by lia.
  clear Ec. rewrite <- Ea in Hn1. destruct Hwf as (Hs & Hj & Hi). clear Ea.
  unfold available_to_pop in Hn1. unfold popped, bytestream_wf, contents. cbn [upd buffer_ next_byte_to_push next_byte_to_pop].
  set (b := buffer_ q) in *. set (j := next_byte_to_push q) in *. set (i := next_byte_to_pop q) in *.
  split; [split; [done|]; split; [done|]; destruct (Z.eqb_spec (i + n) (len b)); lia|].
  assert (Hd : forall l : bytes, take (Z.to_nat n) (drop (Z.to_nat i) l) ++ drop (Z.to_nat (i + n)) l = drop (Z.to_nat i) l).
  { intros l. rewrite Z2Nat.inj_add by lia. rewrite <- drop_drop. apply take_drop. }
  destruct (Z.ltb_spec j i) as [Hlt|Hge].
  - destruct (Z.eqb_spec (i + n) (len b)) as [E|E].
    + destruct (Z.ltb_spec j 0); [lia|]. rewrite <- (Hd b) at 1. rewrite (drop_ge b (Z.to_nat (i + n))) by (unfold len in *; lia).
      rewrite app_nil_r. change (Z.to_nat 0) with 0%nat. by rewrite Nat.sub_0_r.
    + destruct (Z.ltb_spec j (i + n)); [|lia]. by rewrite (assoc_L (++)), Hd.
  - rewrite u64_small in Hn1 by lia. destruct (Z.eqb_spec (i + n) (len b)); [lia|].
    destruct (Z.ltb_spec j (i + n)); [lia|].
    rewrite (take_drop_sub b) by lia. rewrite (take_drop_sub b (Z.to_nat (i + n))) by lia.
    rewrite <- (Hd (take (Z.to_nat j) b)). f_equal.
    rewrite <- !take_drop_sub by lia. rewrite take_take. f_equal. lia.
Qed.

(** * The kernel's side *)

(** Two streams: the bytes still to be read from each descriptor, and those
    written to it.  A read returns at most as many bytes as it is asked for,
    and none at the end of the file; a write takes at least one byte. *)
Class PipeKernel (OS : Type) `{StreamKernel OS} := {
  input : Z -> OS -> bytes;
  sys_read_spec fd n o : 0 < n -> exists c o', sys_read fd n o = (Some c, o') /\ len c <= n /\
    input fd o = c ++ input fd o' /\ (forall fd', fd' <> fd -> input fd' o' = input fd' o) /\
    (forall fd', stream fd' o' = stream fd' o);
  sys_write_frame fd b o : (forall fd', input fd' (sys_write fd b o).2 = input fd' o) /\
    (forall fd', fd' <> fd -> stream fd' (sys_write fd b o).2 = stream fd' o);
}.

(** Nothing is read only at the end of the file, and marking a descriptor to be
    closed on exec succeeds and moves no bytes. *)
Class EofKernel (OS : Type) `{PipeKernel OS} : Prop := {
  sys_read_eof fd n o o' : 0 < n -> sys_read fd n o = (Some [], o') -> input fd o = [];
  sys_set_cloexec_spec fd o : exists o', sys_set_cloexec fd o = (0, o') /\
    (forall fd', input fd' o' = input fd' o) /\ (forall fd', stream fd' o' = stream fd' o);
}.

Section Laws.
Context {OS : Type} {kernel : Kernel OS} {stream_kernel : StreamKernel OS} {pipe : PipeKernel OS}.

Lemma push_ok q f (o : OS) : bytestream_wf q -> space_available q = true ->
  exists r q' f' o' c, push q f o = Ok (r, q', f', o') /\ bytestream_wf q' /\ contents q' = contents q ++ c /\
    input (fd_ f) o = c ++ input (fd_ f) o' /\ (forall fd, fd <> fd_ f -> input fd o' = input fd o) /\
    (forall fd, stream fd o' = stream fd o) /\ fd_ f' = fd_ f /\ (r = EndOfFile <-> c = []).
Proof.
  intros Hwf Hsp. destruct (contiguous_push_spec q Hwf Hsp) as (Hn1 & Hn2 & Hn3). unfold push. rewrite Hsp.
  destruct (Z.ltb_spec 0 (contiguous_space_to_push q)); [|lia]. unfold read.
  destruct (sys_read_spec (fd_ f) (Z.min BUFFER_SIZE (contiguous_space_to_push q)) o) as (c & o' & -> & Hc & Hin & Hin' & Hst);
    [unfold BUFFER_SIZE; lia|]. cbn [bind].
  destruct (Z.eqb_spec (len c) 0) as [E|E].
  { apply len_zero_iff in E. subst c. eexists EndOfFile, q, _, o', []. split; [done|]. split; [done|].
    rewrite app_nil_r. do 5 (split; [done|]). done. }
  pose proof (len_nonneg c). pose proof Hwf as (Hs & Hj & Hi). rewrite u64_small by lia.
  destruct (Z.leb_spec (len c) (len (buffer_ q) - next_byte_to_push q)); [|lia].
  rewrite buffer_write_Ok by lia. cbn [bind upd next_byte_to_push buffer_]. rewrite (u64_small (_ + len c)) by lia.
  rewrite splice_len by lia. destruct (Z.leb_spec (next_byte_to_push q + len c) (len (buffer_ q))); [|lia].
  destruct (pushed_contents c q Hwf) as [Hwf' Hct]; [lia..|].
  match goal with |- context [non_empty ?x] => assert (Eq : x = pushed c q) end.
  { unfold pushed. by destruct (_ =? _). }
  rewrite Eq. unfold non_empty. rewrite available_to_pop_spec, Hct, len_app by done.
  pose proof (len_nonneg (contents q)). destruct (Z.ltb_spec 0 (len (contents q) + len c)); [|lia].
  eexists Success, (pushed c q), _, o', c. split; [done|]. do 2 (split; [done|]). do 4 (split; [done|]).
  split; [done|]. intros ->. done.
Qed.

Lemma pop_ok q f (o : OS) : bytestream_wf q -> non_empty q = true -> len (buffer_ q) < 2 ^ 31 ->
  exists q' f' o' c, pop q f o = Ok (q', f', o') /\ bytestream_wf q' /\ contents q = c ++ contents q' /\ c <> [] /\
    stream (fd_ f) o' = stream (fd_ f) o ++ c /\ (forall fd, fd <> fd_ f -> stream fd o' = stream fd o) /\
    (forall fd, input fd o' = input fd o) /\ fd_ f' = fd_ f.
Proof.
  intros Hwf Hne Hlen. unfold non_empty in Hne. rewrite available_to_pop_spec in Hne by done. apply Z.ltb_lt in Hne.
  unfold pop, non_empty. rewrite available_to_pop_spec by done. destruct (Z.ltb_spec 0 (len (contents q))); [|lia].
  fold (pop_chunk q). pose proof (pop_chunk_len q Hwf) as Hcl. pose proof (contiguous_pop_spec q Hwf) as Hcs.
  pose proof Hwf as (Hs & Hj & Hi).
  assert (Hcn : pop_chunk q <> []) by (intros E; rewrite E, len_nil in Hcl; lia).
  destruct (sys_write_spec (fd_ f) (pop_chunk q) o) as (n & o' & E & Hn & Hst); [done|lia|].
  destruct (sys_write_frame (fd_ f) (pop_chunk q) o) as [Hin Hst']. rewrite E in Hin, Hst'.
  rewrite (write_some_Ok (pop_chunk q) f o n o') by (done || lia). cbn [bind].
  rewrite len_drop by lia. replace (len (pop_chunk q) - Z.max 0 (len (pop_chunk q) - n)) with n by lia.
  cbn [upd next_byte_to_pop buffer_]. rewrite u64_small by lia.
  destruct (Z.leb_spec (next_byte_to_pop q + n) (len (buffer_ q))); [|lia].
  destruct (popped_contents n q Hwf) as [Hwf' Hct]; [lia|].
  exists (popped n q), (register_write f), o', (take (Z.to_nat n) (pop_chunk q)).
  split; [unfold popped; by destruct (_ =? _)|]. split; [done|]. split; [done|].
  split; [|by split]. intros E0. apply (f_equal len) in E0. rewrite len_take, len_nil in E0 by lia. lia.
Qed.
End Laws.

(** ** The end of the input *)

Lemma push_eof {OS} {kernel : Kernel OS} {sk : StreamKernel OS} {pipe : PipeKernel OS} {ek : EofKernel OS} q f (o : OS) r q' f' o' :
  bytestream_wf q -> push q f o = Ok (r, q', f', o') ->
  eof_ f' = eof r || eof_ f /\ (r = EndOfFile -> input (fd_ f) o = []).
Proof.
  intros Hwf. unfold push. destruct (space_available q) eqn:Hsp; [|done].
  destruct (contiguous_push_spec q Hwf Hsp) as (Hn1 & _). destruct (Z.ltb_spec 0 (contiguous_space_to_push q)); [|done]. unfold read.
  destruct (sys_read _ _ o) as [[c|] o1] eqn:Er; [|done]. cbn [bind]. destruct (Z.eqb_spec (len c) 0) as [E|E].
  - intros [= <- <- <- <-]. split; [done|]. intros _. apply len_zero_iff in E as ->.
    eapply sys_read_eof, Er. unfold BUFFER_SIZE. lia.
  - repeat case_match; try done; try (intros [= <- <- <- <-]; done).
    intros H1. apply bind_Ok in H1 as (b & _ & H1). repeat case_match; try done; injection H1 as <- <- <- <-; done.
Qed.

Lemma pop_eof {OS} {kernel : Kernel OS} q f (o : OS) q' f' o' : pop q f o = Ok (q', f', o') -> eof_ f' = eof_ f.
Proof.
  unfold pop. destruct (non_empty q); [|done]. intros H. apply bind_Ok in H as ([[rest f1] o1] & Hw & H).
  assert (Hf : eof_ f1 = eof_ f).
  { unfold write_some in Hw. destruct (take _ _) as [|x l]; [done|]. destruct (sys_write _ _ o) as [n o2].
    apply bind_Ok in Hw as (m & _ & Hw). repeat case_match; try done; by injection Hw as <- <- <-. }
  repeat case_match; try done; by injection H as <- <- <-.
Qed.

(** * Runs *)

Inductive transfer := Push | Pop.

Section Runs.
Context {OS : Type} {kernel : Kernel OS}.

(** One callback of the event loop, if its condition holds: bytes are pushed
    from the descriptor [fi] and popped to [fo]. *)
Definition transfer_step (a : transfer) (x : ByteStreamQueue * FileDescriptor * FileDescriptor * OS) :
    outcome (ByteStreamQueue * FileDescriptor * FileDescriptor * OS) :=
  let '(q, fi, fo, o) := x in
  match a with
  | Push => if space_available q then let* (_, q, fi, o) := push q fi o in Ok (q, fi, fo, o) else Ok x
  | Pop => if non_empty q then let* (q, fo, o) := pop q fo o in Ok (q, fi, fo, o) else Ok x
  end.

Fixpoint transfer_run (l : list transfer) (x : ByteStreamQueue * FileDescriptor * FileDescriptor * OS) :
    outcome (ByteStreamQueue * FileDescriptor * FileDescriptor * OS) :=
  match l with
  | [] => Ok x
  | a :: l => let* x := transfer_step a x in transfer_run l x
  end.
End Runs.

Lemma push_size {OS} {kernel : Kernel OS} {sk : StreamKernel OS} {pipe : PipeKernel OS} q f (o : OS) r q' f' o' :
  bytestream_wf q -> space_available q = true -> push q f o = Ok (r, q', f', o') -> len (buffer_ q') = len (buffer_ q).
Proof.
  intros Hwf Hsp. destruct (contiguous_push_spec q Hwf Hsp) as (Hn1 & _). unfold push. rewrite Hsp.
  destruct (Z.ltb_spec 0 (contiguous_space_to_push q)); [|done]. unfold read.
  destruct (sys_read_spec (fd_ f) (Z.min BUFFER_SIZE (contiguous_space_to_push q)) o) as (c & o1 & -> & Hc & _);
    [unfold BUFFER_SIZE; lia|]. cbn [bind].
  pose proof Hwf as (Hs & Hj & Hi). destruct (Z.eqb_spec (len c) 0); [by intros [= _ <- _ _]|].
  rewrite u64_small by lia. destruct (Z.leb_spec (len c) (len (buffer_ q) - next_byte_to_push q)); [|lia].
  rewrite buffer_write_Ok by lia. cbn [bind upd next_byte_to_push buffer_].
  repeat case_match; try done; intros [= _ <- _ _]; cbn; (apply splice_len; lia).
Qed.

Lemma pop_size {OS} {kernel : Kernel OS} q f (o : OS) q' f' o' :
  pop q f o = Ok (q', f', o') -> len (buffer_ q') = len (buffer_ q).
Proof.
  unfold pop. destruct (non_empty q); [|done]. destruct (write_some _ f o) as [[[rest f1] o1]|]; [|done]. cbn [bind].
  repeat case_match; try done; by intros [= <- _ _].
Qed.

Section Properties.
Context {OS : Type} {kernel : Kernel OS} {stream_kernel : StreamKernel OS} {pipe : PipeKernel OS}.

(** C33: the ring buffer is a lossless pipe.  However pushes and pops are
    interleaved, and however the kernel splits reads and writes, no assertion
    fails and the bytes written out, those in the buffer and those still to be
    read make up the same stream, in order. *)
Theorem bytestream_conserves (l : list transfer) (q : ByteStreamQueue) (fi fo : FileDescriptor) (o : OS) :
  bytestream_wf q -> len (buffer_ q) < 2 ^ 31 -> fd_ fi <> fd_ fo ->
  exists q' fi' fo' o', transfer_run l (q, fi, fo, o) = Ok (q', fi', fo', o') /\ bytestream_wf q' /\
    stream (fd_ fo) o' ++ contents q' ++ input (fd_ fi) o' = stream (fd_ fo) o ++ contents q ++ input (fd_ fi) o.
Proof.
  revert q fi fo o. induction l as [|a l IH]; intros q fi fo o Hwf Hlen Hne; [by exists q, fi, fo, o|].
  cbn [transfer_run transfer_step]. destruct a.
  - destruct (space_available q) eqn:Hsp; [|by apply IH].
    destruct (push_ok q fi o Hwf Hsp) as (r & q1 & f1 & o1 & c & E & Hwf1 & Hc & Hin & _ & Hst & Hfd & _).
    pose proof (push_size _ _ _ _ _ _ _ Hwf Hsp E) as Hl. rewrite E. cbn [bind].
    destruct (IH q1 f1 fo o1) as (q' & fi' & fo' & o' & -> & Hwf' & Heq); [done|lia|congruence|].
    exists q', fi', fo', o'. split; [done|]. split; [done|]. rewrite Hfd, Hst, Hc in Heq. rewrite Heq, Hin.
    by rewrite !(assoc_L (++)).
  - destruct (non_empty q) eqn:Hnn; [|by apply IH].
    destruct (pop_ok q fo o Hwf Hnn Hlen) as (q1 & f1 & o1 & c & E & Hwf1 & Hc & _ & Hst & _ & Hin & Hfd).
    pose proof (pop_size _ _ _ _ _ _ E) as Hl. rewrite E. cbn [bind].
    destruct (IH q1 fi f1 o1) as (q' & fi' & fo' & o' & -> & Hwf' & Heq); [done|lia|congruence|].
    exists q', fi', fo', o'. split; [done|]. split; [done|]. rewrite Hfd, Hst, Hin in Heq. rewrite Heq, Hc.
    by rewrite !(assoc_L (++)).
Qed.
End Properties.

Lemma bytestream_spec (q : ByteStreamQueue) : bytestream_wf q ->
  (non_empty q = true <-> contents q <> []) /\ (space_available q = true <-> len (contents q) < len (buffer_ q) - 1).
Proof.
  intros Hwf. unfold space_available, non_empty. rewrite available_to_push_spec, available_to_pop_spec by done.
  rewrite !Z.ltb_lt, <- len_zero_iff. pose proof (len_nonneg (contents q)). lia.
Qed.

(** The two counts agree with the contents and add up to the size of the
    buffer less one, so that the queue is a buffer bounded by that size: it
    accepts bytes exactly when it holds fewer, and has bytes to pop exactly
    when it holds some. *)
Theorem bytestream_bounded (q : ByteStreamQueue) : bytestream_wf q ->
  available_to_pop q = len (contents q) /\ available_to_push q + available_to_pop q = len (buffer_ q) - 1 /\
  (space_available q = true <-> len (contents q) < len (buffer_ q) - 1) /\
  (non_empty q = true <-> contents q <> []).
Proof.
  intros Hwf. unfold space_available, non_empty. rewrite available_to_push_spec, available_to_pop_spec by done.
  rewrite !Z.ltb_lt, <- len_zero_iff. pose proof (len_nonneg (contents q)). lia.
Qed.

(** * Concrete runs *)

(** A kernel that keeps, for each descriptor, what is left to read and what was
    written, and writes at most 2 bytes at a time. *)
Definition Pipes : Type := Z -> bytes * bytes.

Definition set_pipe (fd : Z) (p : bytes * bytes) (o : Pipes) : Pipes := fun x => if x =? fd then p else o x.

#[export] Instance pipes_kernel : Kernel Pipes := {
  sys_read fd n o := (Some (take (Z.to_nat n) (o fd).1), set_pipe fd (drop (Z.to_nat n) (o fd).1, (o fd).2) o);
  sys_write fd b o := (Z.min 2 (len b), set_pipe fd ((o fd).1, (o fd).2 ++ take 2 b) o);
  sys_set_cloexec fd o := (0, o);
  sys_close fd o := (0, o);
}.

#[export] Program Instance pipes_stream : StreamKernel Pipes := { stream fd o := (o fd).2 }.
Next Obligation.
  intros fd b o Hb Hl. pose proof (len_pos b Hb). eexists _, _. split; [done|]. split; [lia|].
  unfold set_pipe. rewrite Z.eqb_refl. cbn. f_equal.
  destruct (Z.min_spec 2 (len b)) as [[? ->]|[? ->]]; [done|]. rewrite !take_ge by (unfold len in *; lia). done.
Qed.

#[export] Program Instance pipes_pipe : PipeKernel Pipes := { input fd o := (o fd).1 }.
Next Obligation.
  intros fd n o Hn. eexists _, _. split; [done|]. split; [rewrite len_take by lia; lia|].
  unfold set_pipe. rewrite Z.eqb_refl. cbn. split; [by rewrite take_drop|].
  split; intros fd'; destruct (Z.eqb_spec fd' fd); (done || by subst).
Qed.
Next Obligation.
  intros fd b o. cbn. unfold set_pipe. split; intros fd'; destruct (Z.eqb_spec fd' fd); (done || by subst).
Qed.

#[export] Program Instance pipes_eof : EofKernel Pipes.
Next Obligation. intros fd n o o' Hn [= E _]. cbn. destruct (o fd).1; [done|]. destruct (Z.to_nat n) eqn:En; [lia|done]. Qed.
Next Obligation. intros fd o. by exists o. Qed.

Definition sample_bytestream : ByteStreamQueue :=
  {| buffer_ := repeat Byte.x2e 5; next_byte_to_push := 1; next_byte_to_pop := 3 |}.

Definition sample_fd (n : Z) : FileDescriptor := {| fd_ := n; eof_ := false; read_count_ := 0; write_count_ := 0 |}.

Definition sample_pipes : Pipes := set_pipe 7 (repeat Byte.x41 9, []) (fun _ => ([], [])).

Lemma bytestream_conserves_witness :
  exists q' fi' fo' o', transfer_run [Pop; Push; Pop; Pop; Push; Push; Pop]
      (sample_bytestream, sample_fd 7, sample_fd 8, sample_pipes) = Ok (q', fi', fo', o') /\ bytestream_wf q' /\
    stream 8 o' ++ contents q' ++ input 7 o' =
    stream 8 sample_pipes ++ contents sample_bytestream ++ input 7 sample_pipes.
Proof.
  apply (bytestream_conserves [Pop; Push; Pop; Pop; Push; Push; Pop] sample_bytestream (sample_fd 7) (sample_fd 8) sample_pipes);
    [repeat split; by_computation|by_computation|by_computation].
Defined.

Lemma bytestream_bounded_witness :
  available_to_pop sample_bytestream = len (contents sample_bytestream) /\
  available_to_push sample_bytestream + available_to_pop sample_bytestream = len (buffer_ sample_bytestream) - 1 /\
  (space_available sample_bytestream = true <-> len (contents sample_bytestream) < len (buffer_ sample_bytestream) - 1) /\
  (non_empty sample_bytestream = true <-> contents sample_bytestream <> []).
Proof. apply (bytestream_bounded sample_bytestream). repeat split; by_computation. Defined.
