(* ===== verification/TraceLoader.v ===== *)
(** The trace files: the constructor of [CellularQueue]
    (src/frontend/cellular_queue.cc, lines 27 to 209).

    A file is its characters, or absent when it cannot be opened.  [split]
    gives the pieces that [getline] delivers, of a file's lines or of a line's
    words.  A schedule that is loaded is nondecreasing and not empty, and lasts
    for a nonzero time: what the link relies on. *)
From Stdlib Require Import String Ascii.
From S2P Require Import Prelude Ezio Floats Timestamp Packets PacketQueue LinkQueue DelayTrace PacketHeader CellularQueue.

(** * Lines and words *)

Definition newline : ascii := ascii_of_nat 10.
Definition space : ascii := ascii_of_nat 32.

(** The pieces that successive calls of [getline( stream, piece, delim )]
    deliver: the characters up to each delimiter, and those after the last one
    if there are any.  [cur] holds the characters of the piece being read. *)
Fixpoint split (delim : ascii) (cur : option string) (s : string) : list string :=
  match s with
  | EmptyString => match cur with None => [] | Some w => [w] end
  | String c s =>
      if Ascii.eqb c delim then default EmptyString cur :: split delim None s
      else split delim (Some (default EmptyString cur +:+ String c EmptyString)) s
  end.

Definition lines_of (file : string) : list string := split newline None file.
Definition words_of (line : string) : list string := split space None line.

(** * The heavy delivery opportunities *)

(** The checks that a time makes of the last one accepted:
    [( ms - start_timestamp_ ) < back]. *)
Definition append_time (error : string) (start_timestamp ms : Z) (schedule : list Z) : outcome (list Z) :=
  if start_timestamp <=? ms then
    let time := u64 (ms - start_timestamp) in
    match schedule with
    | [] => Ok [time]
    | _ =>
        let* b := back schedule in
        if time <? b then Err (Throw error) else Ok (schedule ++ [time])
    end
  else Ok schedule.

Fixpoint load_heavy_lines (name : string) (start_timestamp : Z) (ls : list string) (schedule : list Z) :
    outcome (list Z) :=
  match ls with
  | [] => Ok schedule
  | line :: ls =>
      if String.eqb line "" then Err (Throw (name +:+ ": invalid empty line"))
      else
        let* v := myatoi line in
        let ms := u64 v in
        let* schedule :=
          append_time (name +:+ ": timestamps must be monotonically nondecreasing") start_timestamp ms schedule in
        load_heavy_lines name start_timestamp ls schedule
  end.

Definition load_heavy_pdo (name : string) (start_timestamp : Z) (file : option string) : outcome (list Z) :=
  match file with
  | None => Err (Throw (name +:+ ": error opening for reading"))
  | Some file =>
      let* schedule := load_heavy_lines name start_timestamp (lines_of file) [] in
      match schedule with
      | [] => Err (Throw (name +:+ ": no valid timestamps found"))
      | _ =>
          let* b := back schedule in
          if b =? 0 then Err (Throw (name +:+ ": trace must last for a nonzero amount of time"))
          else Ok schedule
      end
  end.

(** * The packet trains *)

(** The columns of a line: the time, the base delay, the light
    opportunities. *)
Fixpoint parse_columns (col : Z) (ws : list string) (time_ms first_packet_delay_ms : Z) (pdos : list Z) :
    outcome (Z * Z * list Z) :=
  match ws with
  | [] => Ok (time_ms, first_packet_delay_ms, pdos)
  | word :: ws =>
      let* v := myatoi word in
      if col =? 0 then parse_columns (col + 1) ws (u64 v) first_packet_delay_ms pdos
      else if col =? 1 then parse_columns (col + 1) ws time_ms (i32 v) pdos
      else parse_columns (col + 1) ws time_ms first_packet_delay_ms (pdos ++ [i32 v])
  end.

Definition append_instance (error : string) (start_timestamp time_ms first_packet_delay_ms : Z) (pdos : list Z)
    (traces : list DelayPDOInstance) : outcome (list DelayPDOInstance) :=
  if start_timestamp <=? time_ms then
    let instance := {| time := u64 (time_ms - start_timestamp); delay := first_packet_delay_ms; pdo := pdos |} in
    match traces with
    | [] => Ok [instance]
    | _ =>
        let* b := back traces in
        if u64 (time_ms - start_timestamp) <? time b then Err (Throw error) else Ok (traces ++ [instance])
    end
  else Ok traces.

Fixpoint load_train_lines (name : string) (start_timestamp : Z) (ls : list string) (traces : list DelayPDOInstance) :
    outcome (list DelayPDOInstance) :=
  match ls with
  | [] => Ok traces
  | line :: ls =>
      if String.eqb line "" then Err (Throw (name +:+ ": invalid empty line"))
      else
        let* (time_ms, first_packet_delay_ms, pdos) := parse_columns 0 (words_of line) 0 (-1) [] in
        guard* 0 <=? first_packet_delay_ms else AssertFail "first_packet_delay_ms >= 0" in
        let* traces :=
          append_instance (name +:+ ": timestamps must be monotonically nondecreasing")
            start_timestamp time_ms first_packet_delay_ms pdos traces in
        load_train_lines name start_timestamp ls traces
  end.

Definition load_packet_trains (name : string) (start_timestamp : Z) (file : option string) :
    outcome (list DelayPDOInstance) :=
  match file with
  | None => Err (Throw (name +:+ ": error opening for reading"))
  | Some file =>
      let* traces := load_train_lines name start_timestamp (lines_of file) [] in
      if len traces <=? 2 then Err (Throw (name +:+ ": there should be at least three lines")) else Ok traces
  end.

(** * The offsets of the packet sizes *)

Fixpoint parse_offset_words (name : string) (num : Z) (ws : list string) (curr_size : Z) (offsets : list real) :
    outcome (Z * list real) :=
  match ws with
  | [] => Ok (curr_size, offsets)
  | word :: ws =>
      if num =? 0 then
        let* v := myatoi word in
        if negb (i32 v =? curr_size)
        then Err (Throw (name +:+ ": packet size latency offset should be an increment of 100 bytes and start from 100 bytes"))
        else parse_offset_words name (num + 1) ws (curr_size + 100) offsets
      else if num =? 1 then
        let* x := myatof word in parse_offset_words name (num + 1) ws curr_size (offsets ++ [x])
      else parse_offset_words name (num + 1) ws curr_size offsets
  end.

Fixpoint load_offset_lines (name : string) (ls : list string) (curr_size : Z) (offsets : list real) : outcome (list real) :=
  match ls with
  | [] => Ok offsets
  | line :: ls =>
      let* (curr_size, offsets) := parse_offset_words name 0 (words_of line) curr_size offsets in
      load_offset_lines name ls curr_size offsets
  end.

(** No file is named by the empty string. *)
Definition load_offsets (name : string) (files : string -> option string) : outcome (list real) :=
  if String.eqb name "" then Ok []
  else
    match files name with
    | None => Err (Throw (name +:+ ": error opening for reading"))
    | Some file => load_offset_lines name (lines_of file) 100 []
    end.

(** * The constructor *)

(** [assert_not_root] (src/util/util.cc) *)
Definition assert_not_root (euid egid : Z) : outcome unit :=
  if (euid =? 0) || (egid =? 0) then Err (Throw "BUG: privileges not dropped in sensitive region") else Ok tt.

Definition log_filename (prefix : string) (uplink : bool) : string :=
  prefix +:+ "/packet-log-" +:+ (if uplink then "uplink" else "downlink").

(** The first lines of the log, if there is one. *)
Definition open_log (prefix train_name heavy_name : string) (uplink : bool) (can_create : string -> bool) :
    outcome (bool * list string) :=
  if String.eqb prefix "" then Ok (false, [])
  else if negb (can_create (log_filename prefix uplink))
  then Err (Throw (log_filename prefix uplink +:+ ": error opening for writing"))
  else Ok (true, ["Packet train trace filename=" +:+ train_name; "Link filename=" +:+ heavy_name;
                  "Seq_num " +:+ tab +:+ " packet_ip_port " +:+ tab +:+ " arrival_time_ms " +:+ tab +:+
                  " relase_time_ms " +:+ tab +:+ " total_delay_ms " +:+ tab +:+ " is_lightPDO_only " +:+ tab +:+
                  " heavyPDO_queue_delay"])%string.

(** The constructor of [CellularQueue]; [files] is what the readable files hold,
    [can_create] says which files can be created. *)
Definition cellular_construct {W Q} {clock : Clock W} (files : string -> option string) (can_create : string -> bool)
    (euid egid : Z) (train_name heavy_name log_prefix : string) (repeat : bool) (queue : Q) (uplink : bool)
    (start_timestamp : Z) (offset_name : string) (long_to_short_timer : Z) (w : W) :
    outcome (CellularQueue Q * W) :=
  let* (link_base, w) := timestamp w in
  let* (delay_base, w) := timestamp w in
  let* _ := assert_not_root euid egid in
  let* schedule := load_heavy_pdo heavy_name start_timestamp (files heavy_name) in
  let* traces := load_packet_trains train_name start_timestamp (files train_name) in
  let* (log_enabled, header) := open_log log_prefix train_name heavy_name uplink can_create in
  let* offsets := load_offsets offset_name files in
  Ok (cellular_new schedule traces offsets long_to_short_timer repeat log_enabled header queue link_base delay_base, w).

(** * What is loaded *)

(** The times of the lines, as the unsigned numbers the loop compares. *)
Definition parsed (ls : list string) (vs : list Z) : Prop :=
  Forall2 (fun line ms => line <> ""%string /\ exists v, myatoi line = Ok v /\ ms = u64 v) ls vs.

(** Times from the start on, relative to it. *)
Definition relative (start_timestamp : Z) (vs : list Z) : list Z :=
  map (fun ms => ms - start_timestamp) (List.filter (fun ms => start_timestamp <=? ms) vs).

Lemma nondecreasing_snoc_last l x : l <> [] -> nondecreasing l = true ->
  nondecreasing (l ++ [x]) = (last_or_0 l <=? x).
Proof.
  intros Hne Hl. apply eq_true_iff_eq. rewrite nondecreasing_snoc, Z.leb_le. split.
  - intros [_ H]. rewrite <- nth_or_0_last by done. apply (nth_or_0_Forall (fun y => y <= x)); [done|].
    pose proof (len_pos l Hne). lia.
  - intros H. split; [done|]. apply Forall_lookup. intros i y Hy.
    assert (Hi : (i < List.length l)%nat) by by eapply lookup_lt_Some.
    pose proof (nth_or_0_mono l (Z.of_nat i) (len l - 1) Hl) as Hm. rewrite nth_or_0_last in Hm by done.
    unfold nth_or_0 at 1, znth in Hm. destruct (Z.ltb_spec (Z.of_nat i) 0); [lia|].
    rewrite Nat2Z.id, Hy in Hm. unfold len in Hm. simpl in Hm. lia.
Qed.

Lemma nondecreasing_app_l l k : nondecreasing (l ++ k) = true -> nondecreasing l = true.
Proof.
  induction l as [|x l IH]; [done|]. rewrite <- app_comm_cons, !nondecreasing_cons, Forall_app. intros [[H _] Hk]. split; [done|by apply IH].
Qed.

Lemma append_time_spec e st ms s : 0 <= st -> 0 <= ms < 2 ^ 64 -> nondecreasing s = true ->
  append_time e st ms s =
    if nondecreasing (s ++ relative st [ms]) then Ok (s ++ relative st [ms]) else Err (Throw e).
Proof.
  intros Hst Hms Hs. unfold append_time, relative. cbn [List.filter].
  destruct (Z.leb_spec st ms); cbn [map]; [|by rewrite app_nil_r, Hs].
  rewrite u64_small by lia. destruct s as [|x s]; [done|].
  rewrite nondecreasing_snoc_last, back_Ok by done. cbn [bind].
  destruct (Z.ltb_spec (ms - st) (last_or_0 (x :: s))), (Z.leb_spec (last_or_0 (x :: s)) (ms - st)); (done || lia).
Qed.

Lemma relative_app st l k : relative st (l ++ k) = relative st l ++ relative st k.
Proof. unfold relative. by rewrite List.filter_app, map_app. Qed.

Lemma load_heavy_lines_spec name st ls : 0 <= st -> forall s0 s, nondecreasing s0 = true ->
  load_heavy_lines name st ls s0 = Ok s <->
  exists vs, parsed ls vs /\ s = s0 ++ relative st vs /\ nondecreasing s = true.
Proof.
  intros Hst. induction ls as [|line ls IH]; intros s0 s Hs0; cbn [load_heavy_lines].
  - split.
    + intros [= <-]. exists []. split; [constructor|]. by rewrite app_nil_r.
    + intros (vs & Hp & -> & _). apply Forall2_nil_inv_l in Hp as ->. by rewrite app_nil_r.
  - assert (Hcons : forall v, myatoi line = Ok v -> line <> ""%string ->
      bind (append_time (name +:+ ": timestamps must be monotonically nondecreasing") st (u64 v) s0)
        (fun s1 => load_heavy_lines name st ls s1) = Ok s <->
      exists vs, parsed ls vs /\ s = s0 ++ relative st (u64 v :: vs) /\ nondecreasing s = true).
    { intros v Hv Hne. pose proof (u64_range v). rewrite append_time_spec by done.
      assert (E : forall vs, s0 ++ relative st (u64 v :: vs) = (s0 ++ relative st [u64 v]) ++ relative st vs).
      { intros vs. change (u64 v :: vs) with ([u64 v] ++ vs). by rewrite relative_app, (assoc_L (++)). }
      destruct (nondecreasing (s0 ++ relative st [u64 v])) eqn:Hm; cbn [bind].
      - rewrite IH by done. split; intros (vs & Hp & Hs & Hn); exists vs; [by rewrite E|by rewrite <- E].
      - split; [done|]. intros (vs & _ & -> & Hs). rewrite E in Hs. apply nondecreasing_app_l in Hs. congruence. }
    destruct (String.eqb_spec line "") as [El|Hne].
    { split; [done|]. intros (vs & Hp & _). apply Forall2_cons_inv_l in Hp as (ms & vs' & (Hn & _) & _). done. }
    destruct (myatoi line) as [v|e] eqn:Hv; cbn [bind].
    + rewrite (Hcons v) by done. split.
      * intros (vs & Hp & Hs). exists (u64 v :: vs). split; [|done]. constructor; [|done]. split; [done|]. by exists v.
      * intros (vs & Hp & Hs). apply Forall2_cons_inv_l in Hp as (ms & vs' & (_ & v' & Hv' & ->) & Hp' & ->). rewrite Hv in Hv'. injection Hv' as <-. by exists vs'.
    + split; [done|]. intros (vs & Hp & _). apply Forall2_cons_inv_l in Hp as (ms & vs' & (_ & v' & Hv' & _) & _). congruence.
Qed.

Lemma relative_range st vs : 0 <= st -> Forall (fun ms => 0 <= ms < 2 ^ 64) vs ->
  Forall (fun t => 0 <= t < 2 ^ 64) (relative st vs).
Proof.
  intros Hst. unfold relative. induction 1 as [|ms vs Hms _ IH]; [done|]. cbn [List.filter].
  destruct (Z.leb_spec st ms); [|done]. cbn [map]. constructor; [lia|done].
Qed.

Lemma parsed_range ls vs : parsed ls vs -> Forall (fun ms => 0 <= ms < 2 ^ 64) vs.
Proof.
  induction 1 as [|line ms ls vs (_ & v & _ & ->) _ IH]; [done|]. constructor; [apply u64_range|done].
Qed.

Lemma load_heavy_pdo_iff (name : string) (start_timestamp : Z) (file : string) (s : list Z) :
  0 <= start_timestamp ->
  load_heavy_pdo name start_timestamp (Some file) = Ok s <->
  (exists vs, parsed (lines_of file) vs /\ s = relative start_timestamp vs) /\
  s <> [] /\ nondecreasing s = true /\ last_or_0 s <> 0.
Proof.
  intros Hst. unfold load_heavy_pdo.
  pose proof (fun s => load_heavy_lines_spec name start_timestamp (lines_of file) Hst [] s eq_refl) as H.
  destruct (load_heavy_lines name start_timestamp (lines_of file) []) as [s'|e]; cbn [bind].
  - destruct (proj1 (H s') eq_refl) as (vs & Hp & Es & Hm). cbn [app] in Es. destruct s' as [|x s'].
    + split; [done|]. intros ((vs' & Hp' & ->) & Hne & Hm' & _). destruct Hne.
      assert (Ok [] = Ok (relative start_timestamp vs')) as [= Eq] by (apply H; by exists vs'). done.
    + rewrite back_Ok by done. cbn [bind]. destruct (Z.eqb_spec (last_or_0 (x :: s')) 0) as [E|E].
      * split; [done|]. intros ((vs' & Hp' & ->) & Hne & Hm' & Hl).
        assert (Ok (x :: s') = Ok (relative start_timestamp vs')) as [= Eq] by (apply H; by exists vs').
        rewrite <- Eq in Hl. done.
      * split.
        -- intros [= <-]. split; [by exists vs|done].
        -- intros ((vs' & Hp' & ->) & _ & Hm' & _). apply H. by exists vs'.
  - split; [done|]. intros ((vs & Hp & ->) & _ & Hm & _).
    assert (Err e = Ok (relative start_timestamp vs)) by (apply H; by exists vs). done.
Qed.

(** C20: the heavy trace is loaded exactly when every line is a number and the
    times from the start timestamp on, at least one and the last one not 0,
    never decrease; the schedule is then those times, relative to the start. *)
Theorem load_heavy_pdo_spec (name : string) (start_timestamp : Z) (file : string) (s : list Z) :
  0 <= start_timestamp ->
  load_heavy_pdo name start_timestamp (Some file) = Ok s <->
  (exists vs, parsed (lines_of file) vs /\ s = relative start_timestamp vs) /\
  s <> [] /\ nondecreasing s = true /\ last_or_0 s <> 0.
Proof. apply load_heavy_pdo_iff. Qed.

(** * Files that are loaded back *)

Fixpoint avoids (delim : ascii) (s : string) : bool :=
  match s with
  | EmptyString => true
  | String c s => negb (Ascii.eqb c delim) && avoids delim s
  end.

Lemma split_piece delim w rest : forall cur, avoids delim w = true ->
  split delim cur (w +:+ String delim rest) = (default EmptyString cur +:+ w) :: split delim None rest.
Proof.
  induction w as [|c w IH]; intros cur Hw.
  - simpl. rewrite Ascii.eqb_refl. by rewrite string_app_nil.
  - simpl in Hw. apply andb_true_iff in Hw as [Hc Hw]. rewrite string_app_cons. cbn [split].
    apply negb_true_iff in Hc. rewrite Hc, IH by done. simpl default. by rewrite string_app_assoc, string_app_cons.
Qed.

Lemma split_last delim w : forall cur, avoids delim w = true -> w <> ""%string ->
  split delim cur w = [default EmptyString cur +:+ w].
Proof.
  induction w as [|c w IH]; intros cur Hw Hne; [done|].
  simpl in Hw. apply andb_true_iff in Hw as [Hc Hw]. apply negb_true_iff in Hc. cbn [split]. rewrite Hc.
  destruct w as [|c' w']; [done|]. rewrite IH by done. simpl default. by rewrite string_app_assoc, string_app_cons.
Qed.

(** Lines with their ends, and words with spaces between them. *)
Definition print_lines (ls : list string) : string := foldr (fun l s => l +:+ String newline s) EmptyString ls.
Fixpoint print_words (ws : list string) : string :=
  match ws with
  | [] => EmptyString
  | [w] => w
  | w :: ws => w +:+ String space (print_words ws)
  end.

Lemma lines_of_print ls : Forall (fun l => avoids newline l = true) ls -> lines_of (print_lines ls) = ls.
Proof.
  induction 1 as [|l ls Hl _ IH]; [done|]. unfold lines_of in *. cbn [print_lines foldr].
  rewrite split_piece by done. simpl. f_equal. exact IH.
Qed.

Lemma words_of_print ws : Forall (fun w => avoids space w = true /\ w <> ""%string) ws -> words_of (print_words ws) = ws.
Proof.
  induction 1 as [|w ws [Hw Hne] Hws IH]; [done|]. unfold words_of in *. destruct ws as [|w' ws].
  - cbn [print_words]. by rewrite split_last.
  - change (print_words (w :: w' :: ws)) with (w +:+ String space (print_words (w' :: ws))).
    rewrite split_piece by done. simpl. f_equal. exact IH.
Qed.

Lemma digits_avoid delim s : isdigit delim = false -> all_digits s = true -> avoids delim s = true.
Proof.
  intros Hd. induction s as [|c s IH]; [done|]. simpl. rewrite !andb_true_iff. intros [Hc Hs]. split; [|auto].
  apply negb_true_iff, Ascii.eqb_neq. intros ->. congruence.
Qed.

Lemma number_word delim n : isdigit delim = false -> avoids delim (print_nonneg n) = true.
Proof. intros Hd. by apply digits_avoid, print_nonneg_all. Qed.

Lemma relative_0 vs : Forall (fun t => 0 <= t) vs -> relative 0 vs = vs.
Proof.
  induction 1 as [|t vs Ht _ IH]; [done|]. unfold relative in *. cbn [List.filter].
  destruct (Z.leb_spec 0 t); [|lia]. cbn [map]. rewrite IH. f_equal. lia.
Qed.

Lemma heavy_trace_loads (name : string) (s : list Z) :
  s <> [] -> nondecreasing s = true -> last_or_0 s <> 0 -> Forall (fun t => 0 <= t < 2 ^ 63) s ->
  load_heavy_pdo name 0 (Some (print_lines (map print_nonneg s))) = Ok s.
Proof.
  intros Hne Hm Hl Hr. apply load_heavy_pdo_iff; [lia|]. split; [|done]. exists s. split.
  - rewrite lines_of_print.
    + clear Hne Hm Hl. induction Hr as [|t s Ht _ IH]; [constructor|]. cbn [map]. constructor; [|exact IH].
      split; [apply print_nonneg_not_empty|]. exists t. split; [by apply myatoi_print_nonneg|].
      rewrite u64_small; (done || lia).
    + apply Forall_map, Forall_true. intros t. by apply number_word.
  - symmetry. apply relative_0. eapply Forall_impl; [exact Hr|]. simpl. lia.
Qed.

(** C22: a schedule survives being written to a file, a number on each line, and
    loaded again. *)
Theorem heavy_trace_roundtrip (name : string) (s : list Z) :
  s <> [] -> nondecreasing s = true -> last_or_0 s <> 0 -> Forall (fun t => 0 <= t < 2 ^ 63) s ->
  load_heavy_pdo name 0 (Some (print_lines (map print_nonneg s))) = Ok s.
Proof. apply heavy_trace_loads. Qed.

(** ** The packet trains *)

Definition print_instance (x : DelayPDOInstance) : string :=
  print_words (map print_nonneg (time x :: delay x :: pdo x)).

Definition instance_printable (x : DelayPDOInstance) : Prop :=
  0 <= time x < 2 ^ 63 /\ 0 <= delay x < 2 ^ 31 /\ Forall (fun p => 0 <= p < 2 ^ 31) (pdo x).

#[export] Instance instance_printable_dec x : Decision (instance_printable x).
Proof. unfold instance_printable. apply _. Defined.

Lemma words_of_instance x : words_of (print_instance x) = map print_nonneg (time x :: delay x :: pdo x).
Proof.
  apply words_of_print, Forall_map, Forall_true. intros n. split; [by apply number_word|apply print_nonneg_not_empty].
Qed.

Lemma parse_pdos col ps t d acc : 1 < col -> Forall (fun p => 0 <= p < 2 ^ 31) ps ->
  parse_columns col (map print_nonneg ps) t d acc = Ok (t, d, acc ++ ps).
Proof.
  intros Hcol Hp. revert col acc Hcol. induction Hp as [|p ps Hp _ IH]; intros col acc Hcol; cbn [map parse_columns].
  - by rewrite app_nil_r.
  - rewrite myatoi_print_nonneg by lia. cbn [bind].
    destruct (Z.eqb_spec col 0); [lia|]. destruct (Z.eqb_spec col 1); [lia|].
    rewrite i32_small, IH by lia. by rewrite <- (assoc_L (++)).
Qed.

Lemma parse_instance x : instance_printable x ->
  parse_columns 0 (words_of (print_instance x)) 0 (-1) [] = Ok (time x, delay x, pdo x).
Proof.
  intros (Ht & Hd & Hp). rewrite words_of_instance. cbn [map parse_columns].
  rewrite !myatoi_print_nonneg by lia. cbn [bind]. change (0 =? 0) with true. change (0 + 1 =? 0) with false.
  change (0 + 1 =? 1) with true. cbn [bind]. rewrite u64_small, i32_small by lia. by rewrite parse_pdos.
Qed.

Lemma avoids_app delim s t : avoids delim (s +:+ t) = avoids delim s && avoids delim t.
Proof. induction s as [|c s IH]; [done|]. rewrite string_app_cons. simpl. by rewrite IH, andb_assoc. Qed.

Lemma print_words_avoid delim ws : Ascii.eqb space delim = false -> Forall (fun w => avoids delim w = true) ws ->
  avoids delim (print_words ws) = true.
Proof.
  intros Hs. induction 1 as [|w ws Hw Hws IH]; [done|]. destruct ws as [|w' ws]; [done|].
  change (print_words (w :: w' :: ws)) with (w +:+ String space (print_words (w' :: ws))).
  rewrite avoids_app, Hw. cbn [avoids]. rewrite Hs. exact IH.
Qed.

Lemma append_instance_spec e x traces : 0 <= time x < 2 ^ 64 -> nondecreasing (times traces) = true ->
  append_instance e 0 (time x) (delay x) (pdo x) traces =
    if nondecreasing (times (traces ++ [x])) then Ok (traces ++ [x]) else Err (Throw e).
Proof.
  intros Hx Hm. unfold append_instance. destruct (Z.leb_spec 0 (time x)); [|lia]. rewrite Z.sub_0_r, u64_small by lia.
  assert (Ex : {| time := time x; delay := delay x; pdo := pdo x |} = x) by by destruct x. rewrite Ex.
  assert (Et : times (traces ++ [x]) = times traces ++ [time x]) by (unfold times; by rewrite map_app).
  rewrite Et. destruct traces as [|y traces]; [done|].
  assert (Eb : exists z, back (y :: traces) = Ok z /\ time z = last_or_0 (times (y :: traces))).
  { assert (El : last (times (y :: traces)) = time <$> last (y :: traces)) by apply (fmap_last time (y :: traces)).
    unfold back, last_or_0.
    destruct (last (y :: traces)) as [z|] eqn:E; [|by apply last_None in E]. exists z. split; [done|].
    by rewrite El. }
  destruct Eb as (z & -> & Ez). cbn [bind].
  rewrite nondecreasing_snoc_last by done. rewrite Ez.
  destruct (Z.ltb_spec (time x) (last_or_0 (times (y :: traces)))), (Z.leb_spec (last_or_0 (times (y :: traces))) (time x)); (done || lia).
Qed.

Lemma load_printed_trains name xs : forall traces, Forall instance_printable xs ->
  nondecreasing (times (traces ++ xs)) = true ->
  load_train_lines name 0 (map print_instance xs) traces = Ok (traces ++ xs).
Proof.
  induction xs as [|x xs IH]; intros traces Hp Hm; cbn [map load_train_lines]; [by rewrite app_nil_r|].
  apply Forall_cons in Hp as [Hx Hp].
  assert (Hne : String.eqb (print_instance x) "" = false).
  { apply String.eqb_neq. intros E. pose proof (parse_instance x Hx) as H. pose proof (words_of_instance x) as Hw.
    rewrite E in Hw. done. }
  rewrite Hne, parse_instance by done. cbn [bind]. pose proof Hx as (Ht & Hd & _).
  destruct (Z.leb_spec 0 (delay x)); [|lia].
  replace (traces ++ x :: xs) with ((traces ++ [x]) ++ xs) in Hm |- * by by rewrite <- (assoc_L (++)).
  assert (Hm1 : nondecreasing (times (traces ++ [x])) = true).
  { unfold times in *. rewrite map_app in Hm. by eapply nondecreasing_app_l. }
  assert (Hm0 : nondecreasing (times traces) = true).
  { unfold times in *. rewrite map_app in Hm1. by eapply nondecreasing_app_l. }
  rewrite append_instance_spec, Hm1 by (done || lia). cbn [bind]. by apply IH.
Qed.

Lemma packet_trains_load (name : string) (traces : list DelayPDOInstance) :
  3 <= len traces -> Forall instance_printable traces -> nondecreasing (times traces) = true ->
  load_packet_trains name 0 (Some (print_lines (map print_instance traces))) = Ok traces.
Proof.
  intros Hl Hp Hm. unfold load_packet_trains. rewrite lines_of_print.
  - rewrite load_printed_trains by done. cbn [bind app]. destruct (Z.leb_spec (len traces) 2); [lia|done].
  - apply Forall_map. apply Forall_true. intros x. apply print_words_avoid; [done|].
    apply Forall_map, Forall_true. intros n. by apply number_word.
Qed.

(** C23: a packet-train trace survives being written to a file, an instance on
    each line, and loaded again. *)
Theorem packet_trains_roundtrip (name : string) (traces : list DelayPDOInstance) :
  3 <= len traces -> Forall instance_printable traces -> nondecreasing (times traces) = true ->
  load_packet_trains name 0 (Some (print_lines (map print_instance traces))) = Ok traces.
Proof. apply packet_trains_load. Qed.

(** What loading a packet-train trace guarantees of each instance. *)
Definition train_loaded (x : DelayPDOInstance) : Prop :=
  0 <= time x < 2 ^ 64 /\ 0 <= delay x < 2 ^ 31 /\ Forall (fun p => - 2 ^ 31 <= p < 2 ^ 31) (pdo x).

(** The instance that a line holds: its words are numbers, the time, the base
    delay and the light opportunities, which are cut to the widths of their
    types. *)
Definition instance_of (line : string) (x : DelayPDOInstance) : Prop :=
  exists v0 v1 vs, Forall2 (fun w v => myatoi w = Ok v) (words_of line) (v0 :: v1 :: vs) /\
    x = {| time := u64 v0; delay := i32 v1; pdo := map i32 vs |} /\ 0 <= i32 v1.

(** The instances from the start on, with their times from there. *)
Fixpoint after_start (start_timestamp : Z) (xs : list DelayPDOInstance) : list DelayPDOInstance :=
  match xs with
  | [] => []
  | x :: xs =>
      (if start_timestamp <=? time x then [{| time := time x - start_timestamp; delay := delay x; pdo := pdo x |}] else [])
      ++ after_start start_timestamp xs
  end.

Lemma instance_of_loaded line x : instance_of line x -> train_loaded x.
Proof.
  intros (v0 & v1 & vs & _ & -> & Hd). split; [apply u64_range|]. split; [pose proof (i32_range v1); cbn in *; lia|].
  apply Forall_map, Forall_true. intros v. pose proof (i32_range v). lia.
Qed.

Lemma after_start_loaded st xs : 0 <= st -> Forall train_loaded xs -> Forall train_loaded (after_start st xs).
Proof.
  intros Hst. induction 1 as [|x xs (Ht & Hd & Hp) _ IH]; cbn [after_start]; [done|]. apply Forall_app. split; [|done].
  destruct (Z.leb_spec st (time x)); [|done]. apply Forall_singleton. split; [cbn; lia|by split].
Qed.

Lemma append_instance_eq e st t d ps traces traces' :
  0 <= st -> 0 <= t < 2 ^ 64 -> nondecreasing (times traces) = true -> append_instance e st t d ps traces = Ok traces' ->
  traces' = traces ++ after_start st [{| time := t; delay := d; pdo := ps |}] /\ nondecreasing (times traces') = true.
Proof.
  intros Hst Ht Hm. unfold append_instance. cbn [after_start time delay pdo]. destruct (Z.leb_spec st t) as [Hle|].
  2: { intros [= <-]. by rewrite !app_nil_r. }
  pose proof (append_instance_spec e {| time := t - st; delay := d; pdo := ps |} traces) as Hs. cbn [time delay pdo] in Hs.
  unfold append_instance in Hs. destruct (Z.leb_spec 0 (t - st)); [|lia]. rewrite Z.sub_0_r in Hs. rewrite Hs by (done || lia).
  clear Hs. rewrite app_nil_r. match goal with |- context [if nondecreasing ?l then _ else _] => destruct (nondecreasing l) eqn:E end; [|done].
  by intros [= <-].
Qed.

Lemma parse_columns_pdos ws : forall col t d ps t' d' ps', 1 < col -> parse_columns col ws t d ps = Ok (t', d', ps') ->
  t' = t /\ d' = d /\ exists vs, Forall2 (fun w v => myatoi w = Ok v) ws vs /\ ps' = ps ++ map i32 vs.
Proof.
  induction ws as [|w ws IH]; intros col t d ps t' d' ps' Hcol; cbn [parse_columns].
  { intros [= -> -> ->]. split; [done|]. split; [done|]. exists []. by rewrite app_nil_r. }
  destruct (myatoi w) as [v|] eqn:Ev; cbn [bind]; [|done]. destruct (Z.eqb_spec col 0); [lia|]. destruct (Z.eqb_spec col 1); [lia|].
  intros E. apply IH in E as (-> & -> & vs & Hvs & ->); [|lia]. split; [done|]. split; [done|].
  exists (v :: vs). split; [by constructor|]. by rewrite <- (assoc_L (++)).
Qed.

Lemma parse_columns_instance line t d ps : parse_columns 0 (words_of line) 0 (-1) [] = Ok (t, d, ps) -> 0 <= d ->
  instance_of line {| time := t; delay := d; pdo := ps |}.
Proof.
  unfold instance_of. destruct (words_of line) as [|w0 [|w1 ws]]; cbn [parse_columns]; [by intros [= <- <- <-] ?| |].
  - destruct (myatoi w0); cbn [bind]; [|done]. by intros [= <- <- <-] ?.
  - destruct (myatoi w0) as [v0|] eqn:E0; cbn [bind]; [|done]. change (0 =? 0) with true. change (0 + 1 =? 0) with false.
    change (0 + 1 =? 1) with true. destruct (myatoi w1) as [v1|] eqn:E1; cbn [bind]; [|done]. intros E Hd.
    apply parse_columns_pdos in E as (-> & -> & vs & Hvs & ->); [|lia]. exists v0, v1, vs. by repeat constructor.
Qed.

Lemma load_train_lines_spec name st ls : forall acc out, 0 <= st -> nondecreasing (times acc) = true ->
  load_train_lines name st ls acc = Ok out ->
  nondecreasing (times out) = true /\ exists xs, Forall2 instance_of ls xs /\ out = acc ++ after_start st xs.
Proof.
  induction ls as [|line ls IH]; intros acc out Hst Hm; cbn [load_train_lines].
  { intros [= <-]. split; [done|]. exists []. split; [constructor|]. by rewrite app_nil_r. }
  destruct (String.eqb line ""); [done|].
  destruct (parse_columns 0 (words_of line) 0 (-1) []) as [[[t d] ps]|] eqn:Ep; cbn [bind]; [|done].
  destruct (Z.leb_spec 0 d) as [Hd|]; [|done]. pose proof (parse_columns_instance _ _ _ _ Ep Hd) as Hx.
  destruct (append_instance _ st t d ps acc) as [acc'|] eqn:Ea; cbn [bind]; [|done]. intros E.
  apply append_instance_eq in Ea as [-> Hm']; [|done|apply (instance_of_loaded _ _ Hx)|done].
  apply IH in E as [Hm2 (xs & Hxs & ->)]; [|done..]. split; [done|]. exists ({| time := t; delay := d; pdo := ps |} :: xs).
  split; [by constructor|]. rewrite <- (assoc_L (++)). cbn [after_start]. by rewrite app_nil_r.
Qed.

(** C21: a packet-train trace that is loaded is, whatever the file holds, what its
    lines say: the words of each line are numbers, the time, the base delay and
    the light delivery opportunities, and the trace has the instances of the
    lines from the start timestamp on, in the order of the lines, with the times
    from there.  It has at least three instances, in the order of time, each with
    a time of 64 bits, a base delay that is not negative and fits an [int], and
    light opportunities that do. *)
Theorem packet_trains_loaded (name : string) (start_timestamp : Z) (file : option string) (traces : list DelayPDOInstance) :
  0 <= start_timestamp -> load_packet_trains name start_timestamp file = Ok traces ->
  3 <= len traces /\ nondecreasing (times traces) = true /\ Forall train_loaded traces /\
  exists contents instances, file = Some contents /\ Forall2 instance_of (lines_of contents) instances /\
    traces = after_start start_timestamp instances.
Proof.
  intros Hst. unfold load_packet_trains. destruct file as [file|]; [|done].
  destruct (load_train_lines name start_timestamp (lines_of file) []) as [out|] eqn:E; cbn [bind]; [|done].
  apply load_train_lines_spec in E as [Hm (xs & Hxs & ->)]; [|done..]. cbn [app] in *.
  destruct (Z.leb_spec (len (after_start start_timestamp xs)) 2); [done|]. intros [= <-]. split; [lia|]. split; [done|].
  split; [|by exists file, xs]. apply after_start_loaded; [done|].
  clear -Hxs. induction Hxs; constructor; [by eapply instance_of_loaded|done].
Qed.

(** The constructor on files that hold a well-formed schedule and well-formed
    packet trains, without a packet log and latency offsets. *)
Lemma cellular_construct_ok {W Q : Type} `{ClockLaws W} (files : string -> option string) (can_create : string -> bool)
    (euid egid : Z) train_name heavy_name (repeat uplink : bool) (queue : Q) (long_to_short_timer : Z) schedule traces t (w : W) :
  files heavy_name = Some (print_lines (map print_nonneg schedule)) ->
  files train_name = Some (print_lines (map print_instance traces)) ->
  config_ok schedule traces [] long_to_short_timer -> Forall instance_printable traces -> clock_from w t ->
  euid <> 0 -> egid <> 0 ->
  exists link_base delay_base w' t',
    cellular_construct files can_create euid egid train_name heavy_name "" repeat queue uplink 0 "" long_to_short_timer w =
      Ok (cellular_new schedule traces [] long_to_short_timer repeat false [] queue link_base delay_base, w') /\
    t <= link_base < time_limit /\ t <= t' /\ clock_from w' t'.
Proof.
  intros Hh Ht Hcfg Hp Hw Hu Hg. unfold cellular_construct.
  destruct (timestamp_spec w t Hw) as (t1 & w1 & -> & Ht1 & Hw1). cbn [bind].
  destruct (timestamp_spec w1 t1 Hw1) as (t2 & w2 & -> & Ht2 & Hw2). cbn [bind]. unfold assert_not_root.
  destruct (Z.eqb_spec euid 0); [done|]. destruct (Z.eqb_spec egid 0); [done|]. cbn [orb bind].
  pose proof (config_schedule _ _ _ _ Hcfg) as (Hne & Hr & Hm & Hl & _).
  pose proof (config_traces _ _ _ _ Hcfg) as Htr.
  rewrite Hh, Ht, heavy_trace_loads, packet_trains_load; try done.
  - cbn [bind]. exists t1, t2, w2, t2. split; [done|]. split; [lia|]. split; [lia|done].
  - pose proof (trace_long _ Htr). lia.
  - apply trace_nondecreasing, Htr.
  - lia.
  - eapply Forall_impl; [exact Hr|]. unfold time_limit. simpl. lia.
Qed.

(** As root it throws before it opens a file. *)
Lemma cellular_construct_root {W Q : Type} `{ClockLaws W} (files : string -> option string) (can_create : string -> bool)
    (euid egid : Z) train_name heavy_name log_prefix (repeat : bool) (queue : Q) (uplink : bool) start_timestamp offset_name
    long_to_short_timer t (w : W) : clock_from w t -> (euid =? 0) || (egid =? 0) = true ->
  cellular_construct files can_create euid egid train_name heavy_name log_prefix repeat queue uplink start_timestamp offset_name
    long_to_short_timer w = Err (Throw "BUG: privileges not dropped in sensitive region").
Proof.
  intros Hw Hr. unfold cellular_construct. destruct (timestamp_spec w t Hw) as (t1 & w1 & -> & _ & Hw1). cbn [bind].
  destruct (timestamp_spec w1 t1 Hw1) as (t2 & w2 & -> & _ & _). cbn [bind]. unfold assert_not_root. by rewrite Hr.
Qed.

(** C19: the constructor.  Run as root (the user or the group) it throws the
    exception of [assert_not_root], whatever the files, options and names are, so
    that no file is opened before (a file that is absent or malformed would throw
    another exception).  Otherwise, when the two trace files and that of the
    latency offsets, if one is named, load with the start timestamp, the log, if
    one is asked for, can be created, and what has been loaded is well-formed, it
    builds the initial state of the queue with just these traces, and the
    invariant of the queue holds of it.  (What the loaders accept is stated of
    them: [load_heavy_pdo_spec], [packet_trains_loaded] and the round trips.) *)
Theorem cellular_construct_establishes {W Q : Type} `{ClockLaws W, FifoPacketQueue W Q} (fl : FlowRelation)
    (files : string -> option string) (can_create : string -> bool) (euid egid : Z) train_name heavy_name log_prefix
    (repeat : bool) (queue : Q) (uplink : bool) (start_timestamp : Z) offset_name (long_to_short_timer : Z) t (w : W) :
  clock_from w t ->
  let construct := cellular_construct files can_create euid egid train_name heavy_name log_prefix repeat queue uplink
    start_timestamp offset_name long_to_short_timer w in
  if (euid =? 0) || (egid =? 0) then construct = Err (Throw "BUG: privileges not dropped in sensitive region")
  else forall schedule traces offsets,
    load_heavy_pdo heavy_name start_timestamp (files heavy_name) = Ok schedule ->
    load_packet_trains train_name start_timestamp (files train_name) = Ok traces ->
    load_offsets offset_name files = Ok offsets ->
    log_prefix = ""%string \/ can_create (log_filename log_prefix uplink) = true ->
    config_ok schedule traces offsets long_to_short_timer -> queue_wf queue -> packets queue = [] -> 0 <= t ->
    exists s w' t', construct = Ok (s, w') /\ t <= t' /\ clock_from w' t' /\ queue_inv (W := W) (fl := fl) t' s /\
      in_flight (W := W) s = [] /\ heavy_pdo_schedule_ (link s) = schedule /\ delay_pdo_traces_ (trace s) = traces /\
      psize_latency_offset_ (trace s) = offsets /\ packet_log_enabled_ s = negb (String.eqb log_prefix "").
Proof.
  intros Hw construct. unfold construct. destruct ((euid =? 0) || (egid =? 0)) eqn:Hr; [by eapply cellular_construct_root|].
  intros schedule traces offsets Eh Et Eo Hlog Hcfg Hq He Ht0. unfold cellular_construct.
  destruct (timestamp_spec w t Hw) as (t1 & w1 & -> & Ht1 & Hw1). cbn [bind].
  destruct (timestamp_spec w1 t1 Hw1) as (t2 & w2 & -> & Ht2 & Hw2). cbn [bind]. unfold assert_not_root. rewrite Hr. cbn [bind].
  rewrite Eh, Et. cbn [bind]. unfold open_log. destruct (String.eqb_spec log_prefix ""); cbn [bind negb].
  2: { destruct Hlog as [?|Hlog]; [done|]. rewrite Hlog. cbn [bind negb]. rewrite Eo. cbn [bind].
       match goal with |- context [cellular_new _ _ _ _ _ ?lg ?hd _ _ _] =>
         destruct (cellular_new_inv (W := W) (fl := fl) schedule traces offsets long_to_short_timer repeat lg hd queue t1 t2 t2 Hcfg Hq He)
           as (Hinv & Hif & _); [lia|] end. eexists _, w2, t2. split; [done|]. split; [lia|]. by split. }
  rewrite Eo. cbn [bind].
  destruct (cellular_new_inv (W := W) (fl := fl) schedule traces offsets long_to_short_timer repeat false [] queue t1 t2 t2 Hcfg Hq He)
    as (Hinv & Hif & _); [lia|]. eexists _, w2, t2. split; [done|]. split; [lia|]. by split.
Qed.

(** * Concrete files *)

Definition sample_heavy_file : string := print_lines ["3"; "10"; "+12"; " 12"]%string.

Lemma sample_heavy_parsed : parsed (lines_of sample_heavy_file) [3; 10; 12; 12].
Proof.
  assert (E : lines_of sample_heavy_file = ["3"; "10"; "+12"; " 12"]%string) by (vm_compute; reflexivity). rewrite E.
  assert (H : forall l v, l <> ""%string -> myatoi l = Ok v -> u64 v = v -> l <> ""%string /\ exists v', myatoi l = Ok v' /\ v = u64 v')
    by (intros l v Hl Hv Hu; split; [done|]; by exists v).
  repeat apply Forall2_cons_2; try apply Forall2_nil_2; (apply H; [done|vm_compute; reflexivity..]).
Qed.

Lemma load_heavy_pdo_spec_witness : load_heavy_pdo "up.pdo" 5 (Some sample_heavy_file) = Ok [5; 7; 7].
Proof.
  apply (load_heavy_pdo_spec "up.pdo" 5 sample_heavy_file [5; 7; 7]); [lia|]. split; [|by_computation].
  exists [3; 10; 12; 12]. split; [|reflexivity].
  exact sample_heavy_parsed.
Defined.

Lemma heavy_trace_roundtrip_witness :
  load_heavy_pdo "up.pdo" 0 (Some (print_lines (map print_nonneg [0; 1; 1; 27]))) = Ok [0; 1; 1; 27].
Proof. apply (heavy_trace_roundtrip "up.pdo" [0; 1; 1; 27]); by_computation. Defined.

Lemma packet_trains_roundtrip_witness :
  load_packet_trains "up.trace" 0 (Some (print_lines (map print_instance sample_trace))) = Ok sample_trace.
Proof. apply (packet_trains_roundtrip "up.trace" sample_trace); by_computation. Defined.

Lemma packet_trains_loaded_witness :
  let file := print_lines ["1 5 7"; "3 20 1 2"; "10 30 1"; "9223372036854775807 0"]%string in
  let traces := [ {| time := 0; delay := 20; pdo := [1; 2] |}; {| time := 7; delay := 30; pdo := [1] |};
                  {| time := 9223372036854775804; delay := 0; pdo := [] |} ] in
  3 <= len traces /\ nondecreasing (times traces) = true /\ Forall train_loaded traces /\
  exists contents instances, Some file = Some contents /\ Forall2 instance_of (lines_of contents) instances /\
    traces = after_start 3 instances.
Proof.
  intros file traces. apply (packet_trains_loaded "up.trace" 3 (Some file) traces); [lia|vm_compute; reflexivity].
Defined.

Definition sample_files (name : string) : option string :=
  if String.eqb name "up.pdo" then Some (print_lines (map print_nonneg [0; 1; 5]))
  else if String.eqb name "up.trace" then Some (print_lines (map print_instance sample_trace))
  else None.

Lemma cellular_construct_establishes_witness :
  exists s w' t', cellular_construct sample_files (fun _ => true) 1000 1000 "up.trace" "up.pdo" "/tmp" true empty_infinite true 0 "" 50 ticking
       = Ok (s, w') /\ 0 <= t' /\ clock_from w' t' /\ queue_inv (W := World) (fl := lossless_flow) t' s /\
       in_flight (W := World) s = [] /\ heavy_pdo_schedule_ (link s) = [0; 1; 5] /\ delay_pdo_traces_ (trace s) = sample_trace /\
       psize_latency_offset_ (trace s) = [] /\ packet_log_enabled_ s = true.
Proof.
  apply (cellular_construct_establishes lossless_flow sample_files (fun _ => true) 1000 1000 "up.trace" "up.pdo" "/tmp" true
    empty_infinite true 0 "" 50 0 ticking ticking_from);
    [vm_compute; reflexivity|vm_compute; reflexivity|reflexivity|by right|exact sample_config_ok|by_computation|reflexivity|lia].
Defined.
