(* ===== verification/SignalFD.v ===== *)
(** Signal masks and the descriptor that delivers signals:
    src/util/signalfd.hh/.cc. *)
From S2P Require Import Prelude FileDescriptor.

(** * Masks *)

Definition SIGRTMAX : Z := 64.

Record SignalMask := { mask_ : list Z }.

(** [sigaddset] and [sigismember] of the C library. *)
Definition valid_signal (s : Z) : bool := (1 <=? s) && (s <=? SIGRTMAX).
Definition sigaddset (m : list Z) (s : Z) : Z * list Z := if valid_signal s then (0, s :: m) else (-1, m).
Definition sigismember (m : list Z) (s : Z) : Z :=
  if valid_signal s then (if existsb (Z.eqb s) m then 1 else 0) else -1.

Fixpoint add_signals (signals : list Z) (m : list Z) : outcome (list Z) :=
  match signals with
  | [] => Ok m
  | s :: signals =>
      let (r, m) := sigaddset m s in
      let* _ := SystemCall "sigaddset" r in
      add_signals signals m
  end.

Definition signal_mask_new (signals : list Z) : outcome SignalMask :=
  let* m := add_signals signals [] in Ok {| mask_ := m |}.

(** challenging to compare two sigset_t's for equality: the loop over the
    signal numbers below [SIGRTMAX]. *)
Definition mask_eqb (a b : SignalMask) : bool :=
  forallb (fun signum => sigismember (mask_ a) signum =? sigismember (mask_ b) signum) (seqZ 0 SIGRTMAX).

(** [sigprocmask] and [signalfd]. *)
Class SignalKernel (OS : Type) := {
  sys_sigprocmask_set : list Z -> OS -> Z * OS;
  sys_sigprocmask_get : OS -> Z * list Z * OS;
  sys_signalfd : list Z -> OS -> Z * OS;
}.

Section SignalFD.
Context {OS : Type} {sigs : SignalKernel OS} {kernel : Kernel OS}.

Definition set_as_mask (m : SignalMask) (o : OS) : outcome OS :=
  let (r, o) := sys_sigprocmask_set (mask_ m) o in
  let* _ := SystemCall "sigprocmask" r in
  Ok o.

Definition current_mask (o : OS) : outcome (SignalMask * OS) :=
  let '(r, m, o) := sys_sigprocmask_get o in
  let* _ := SystemCall "sigprocmask" r in
  Ok ({| mask_ := m |}, o).

Definition signal_fd_new (signals : SignalMask) (o : OS) : outcome (FileDescriptor * OS) :=
  let (r, o) := sys_signalfd (mask_ signals) o in
  let* fd := SystemCall "signalfd" r in
  fd_new fd o.

(** [sizeof( signalfd_siginfo )] *)
Definition siginfo_size : Z := 128.

(** [ssi_signo]: the first four bytes, little-endian. *)
Definition ssi_signo (s : bytes) : Z :=
  foldr (fun b v => Z.of_N (Byte.to_N b) + 256 * v) 0 (take 4 s).

(** read one signal: its number is all that the program uses of it. *)
Definition read_signal (f : FileDescriptor) (o : OS) : outcome (Z * FileDescriptor * OS) :=
  let* (delivered_signal_str, f, o) := read siginfo_size f o in
  if negb (len delivered_signal_str =? siginfo_size) then Err (Throw "signalfd read size mismatch")
  else Ok (ssi_signo delivered_signal_str, f, o).
End SignalFD.

(** * Facts *)

Lemma sigismember_eq a b s : 0 <= s < SIGRTMAX ->
  sigismember a s = sigismember b s <-> (1 <= s -> (s ∈ a <-> s ∈ b)).
Proof.
  intros Hs. assert (Hin : forall l, existsb (Z.eqb s) l = true <-> s ∈ l).
  { intros l. rewrite existsb_exists. split.
    - intros (x & Hx & ->%Z.eqb_eq). by apply list_elem_of_In.
    - intros Hx. exists s. rewrite Z.eqb_refl. by apply list_elem_of_In in Hx. }
  unfold sigismember, valid_signal. destruct (Z.leb_spec 1 s); cbn [andb]; [|split; [lia|done]].
  destruct (Z.leb_spec s SIGRTMAX); [|unfold SIGRTMAX in *; lia]. rewrite <- !Hin.
  destruct (existsb (Z.eqb s) a), (existsb (Z.eqb s) b); naive_solver.
Qed.

(** The comparison of signal masks decides equality of the signals from 1
    to 63; the loop ends before SIGRTMAX, so that masks that differ in that
    signal alone compare equal. *)
Theorem mask_eqb_spec (a b : SignalMask) :
  mask_eqb a b = true <-> (forall s, 1 <= s < SIGRTMAX -> (s ∈ mask_ a <-> s ∈ mask_ b)).
Proof.
  unfold mask_eqb. rewrite forallb_forall. setoid_rewrite Z.eqb_eq. setoid_rewrite <- list_elem_of_In.
  setoid_rewrite elem_of_seqZ. split.
  - intros H s Hs. apply (sigismember_eq (mask_ a) (mask_ b) s); [lia|apply H; lia|lia].
  - intros H s Hs. apply sigismember_eq; [lia|]. intros H1. apply H. lia.
Qed.

