(* ===== verification/Poller.v ===== *)
(** The poller: src/util/poller.hh/.cc.

    A poller holds actions: a descriptor, a direction, a callback and the
    condition under which it is of interest.  The descriptors and everything
    the callbacks touch are in a state of type [X]; the operating system's
    [poll] is the class [PollKernel]. *)
From S2P Require Import Prelude FileDescriptor.

(** * Actions and results *)

Inductive ActionType := Continue | ActionExit | Cancel.
Record ActionResult := { action_result : ActionType; action_exit_status : Z }.

Inductive PollType := PollSuccess | PollTimeout | PollExit.
Record PollResult := { poll_result : PollType; poll_exit_status : Z }.

Definition EXIT_SUCCESS : Z := 0.

(** [Result( type )] and [Result( type, status )] *)
Definition action (t : ActionType) : ActionResult := {| action_result := t; action_exit_status := EXIT_SUCCESS |}.
Definition polled (t : PollType) (status : Z) : PollResult := {| poll_result := t; poll_exit_status := status |}.

Inductive Direction := In | Out.

Definition POLLIN : Z := 1.
Definition POLLOUT : Z := 4.
Definition POLLERR : Z := 8.
Definition POLLHUP : Z := 16.
Definition POLLNVAL : Z := 32.

Definition direction_events (d : Direction) : Z := match d with In => POLLIN | Out => POLLOUT end.

Record pollfd := { pfd_fd : Z; pfd_events : Z; pfd_revents : Z }.

Record Action (X : Type) := {
  action_fd : X -> FileDescriptor;
  direction : Direction;
  callback : X -> outcome (ActionResult * X);
  when_interested : X -> outcome (bool * X);
  active : bool;
}.
Arguments Build_Action {X}.
Arguments action_fd {X}.
Arguments direction {X}.
Arguments callback {X}.
Arguments when_interested {X}.
Arguments active {X}.

Record Poller (X : Type) := { actions_ : list (Action X); pollfds_ : list pollfd }.
Arguments Build_Poller {X}.
Arguments actions_ {X}.
Arguments pollfds_ {X}.

(** [::poll( fds, n, timeout )]: its return value and the [revents]. *)
Class PollKernel (X : Type) := sys_poll : list pollfd -> Z -> X -> Z * list Z * X.

(** * Operations *)

Section Operations.
Context {X : Type} {pk : PollKernel X}.

(** The constructor of an action: active, and of interest unless told
    otherwise. *)
Definition action_new (fd : X -> FileDescriptor) (d : Direction) (cb : X -> outcome (ActionResult * X))
    (interested : X -> outcome (bool * X)) : Action X :=
  {| action_fd := fd; direction := d; callback := cb; when_interested := interested; active := true |}.

Definition always (x : X) : outcome (bool * X) := Ok (true, x).

Definition service_count (a : Action X) (x : X) : Z :=
  match direction a with In => read_count_ (action_fd a x) | Out => write_count_ (action_fd a x) end.

Definition poller_new : Poller X := {| actions_ := []; pollfds_ := [] |}.

Definition add_action (a : Action X) (x : X) (p : Poller X) : Poller X :=
  {| actions_ := actions_ p ++ [a];
     pollfds_ := pollfds_ p ++ [{| pfd_fd := fd_ (action_fd a x); pfd_events := 0; pfd_revents := 0 |}] |}.

(** Tell poll whether we care about each fd. *)
Fixpoint set_events (acts : list (Action X)) (pfds : list pollfd) (x : X) : outcome (list pollfd * X) :=
  match acts, pfds with
  | a :: acts, p :: pfds =>
      guard* pfd_fd p =? fd_ (action_fd a x) else AssertFail "pollfds_.at( i ).fd == actions_.at( i ).fd.fd_num()" in
      let* (interested, x) := if active a then when_interested a x else Ok (false, x) in
      let events := if interested then direction_events (direction a) else 0 in
      (* don't poll in on fds that have had EOF *)
      let events := match direction a with In => if eof_ (action_fd a x) then 0 else events | Out => events end in
      let* (pfds, x) := set_events acts pfds x in
      Ok ({| pfd_fd := pfd_fd p; pfd_events := events; pfd_revents := pfd_revents p |} :: pfds, x)
  | _, _ => Ok (pfds, x)
  end.

Fixpoint set_revents (revents : list Z) (pfds : list pollfd) : list pollfd :=
  match revents, pfds with
  | r :: revents, p :: pfds =>
      {| pfd_fd := pfd_fd p; pfd_events := pfd_events p; pfd_revents := r |} :: set_revents revents pfds
  | _, _ => pfds
  end.

Definition deactivate (a : Action X) : Action X :=
  {| action_fd := action_fd a; direction := direction a; callback := callback a;
     when_interested := when_interested a; active := false |}.

(** The loop over the descriptors that are ready: the poll's result, and the
    actions with those that were cancelled made inactive. *)
Fixpoint serve (acts : list (Action X)) (pfds : list pollfd) (x : X) : outcome (PollResult * list (Action X) * X) :=
  match acts, pfds with
  | a :: acts', p :: pfds =>
      if negb (Z.land (pfd_revents p) (Z.lor POLLERR (Z.lor POLLHUP POLLNVAL)) =? 0)
      then Ok (polled PollExit EXIT_SUCCESS, acts, x)
      else if negb (Z.land (pfd_revents p) (pfd_events p) =? 0) then
        (* we only want to call callback if revents includes the event we asked for *)
        let* (result, x) := callback a x in
        match action_result result with
        | ActionExit => Ok (polled PollExit (action_exit_status result), acts, x)
        | Cancel =>
            let* (r, acts', x) := serve acts' pfds x in Ok (r, deactivate a :: acts', x)
        | Continue =>
            let* (r, acts', x) := serve acts' pfds x in Ok (r, a :: acts', x)
        end
      else
        let* (r, acts', x) := serve acts' pfds x in Ok (r, a :: acts', x)
  | _, _ => Ok (polled PollSuccess EXIT_SUCCESS, acts, x)
  end.

Definition poll (timeout_ms : Z) (p : Poller X) (x : X) : outcome (PollResult * Poller X * X) :=
  guard* len (pollfds_ p) =? len (actions_ p) else AssertFail "pollfds_.size() == actions_.size()" in
  let* (pfds, x) := set_events (actions_ p) (pollfds_ p) x in
  (* Quit if no member in pollfds_ has a non-zero direction *)
  if forallb (fun q => pfd_events q =? 0) pfds
  then Ok (polled PollExit EXIT_SUCCESS, {| actions_ := actions_ p; pollfds_ := pfds |}, x)
  else
    let '(ret, revents, x) := sys_poll pfds timeout_ms x in
    let pfds := set_revents revents pfds in
    let* n := SystemCall "poll" ret in
    if n =? 0 then Ok (polled PollTimeout EXIT_SUCCESS, {| actions_ := actions_ p; pollfds_ := pfds |}, x)
    else
      let* (r, acts, x) := serve (actions_ p) pfds x in
      Ok (r, {| actions_ := acts; pollfds_ := pfds |}, x).

(** * What a poll calls *)

(** The descriptor is ready for the event asked for. *)
Definition ready (q : pollfd) : bool := negb (Z.land (pfd_revents q) (pfd_events q) =? 0).
Definition failed (q : pollfd) : bool := negb (Z.land (pfd_revents q) (Z.lor POLLERR (Z.lor POLLHUP POLLNVAL)) =? 0).

Definition ready_actions (acts : list (Action X)) (pfds : list pollfd) : list (Action X) :=
  map fst (filter (fun aq => ready (snd aq)) (zip acts pfds)).

(** The callbacks of a list of actions, one after the other. *)
Fixpoint run_callbacks (acts : list (Action X)) (x : X) : outcome (list ActionResult * X) :=
  match acts with
  | [] => Ok ([], x)
  | a :: acts =>
      let* (r, x) := callback a x in
      let* (rs, x) := run_callbacks acts x in
      Ok (r :: rs, x)
  end.

(** The conditions of the active actions, one after the other. *)
Fixpoint run_conditions (acts : list (Action X)) (x : X) : outcome (list bool * X) :=
  match acts with
  | [] => Ok ([], x)
  | a :: acts =>
      if active a then
        let* (b, x) := when_interested a x in
        let* (bs, x) := run_conditions acts x in
        Ok (b :: bs, x)
      else run_conditions acts x
  end.

(** The actions, less those whose callback has cancelled them; [results] are
    those of the callbacks called. *)
Fixpoint after_results (acts : list (Action X)) (pfds : list pollfd) (results : list ActionResult) : list (Action X) :=
  match acts, pfds, results with
  | a :: acts, q :: pfds, r :: results' =>
      if ready q then
        match action_result r with Cancel => deactivate a | _ => a end :: after_results acts pfds results'
      else a :: after_results acts pfds results
  | _, _, _ => acts
  end.

Definition is_exit (r : ActionResult) : bool := match action_result r with ActionExit => true | _ => false end.

(** The program asked for the event of this action: the action is active, its
    condition has just held, and its descriptor has not come to its end. *)
Definition asked_for (a : Action X) : Prop :=
  active a = true /\ (exists y y', when_interested a y = Ok (true, y') /\
    (direction a = In -> eof_ (action_fd a y') = false)).

Lemma set_events_asked acts : forall pfds x pfds' x', set_events acts pfds x = Ok (pfds', x') ->
  Forall (fun aq => pfd_events (snd aq) <> 0 -> asked_for (fst aq)) (zip acts pfds').
Proof.
  induction acts as [|a acts IH]; intros pfds x pfds' x' E; [done|].
  destruct pfds as [|q pfds]; cbn [set_events] in E; [by simplify_eq|].
  destruct (pfd_fd q =? _); [|done]. apply bind_Ok in E as ([b x1] & Ei & E). apply bind_Ok in E as ([pfds2 x2] & Er & E).
  injection E as <- <-. cbn [zip_with]. constructor; [|by eapply IH]. cbn [fst snd pfd_events]. intros He.
  destruct (active a) eqn:Ha; [|injection Ei as <- <-; by destruct (direction a), (eof_ (action_fd a x))].
  destruct b; [|by destruct (direction a), (eof_ (action_fd a x1))]. split; [done|]. exists x, x1. split; [done|].
  intros Hd. rewrite Hd in He. by destruct (eof_ (action_fd a x1)).
Qed.

Lemma set_revents_asked acts : forall revents pfds,
  Forall (fun aq => pfd_events (snd aq) <> 0 -> asked_for (fst aq)) (zip acts pfds) ->
  Forall (fun aq => pfd_events (snd aq) <> 0 -> asked_for (fst aq)) (zip acts (set_revents revents pfds)).
Proof.
  induction acts as [|a acts IH]; intros revents pfds H; [done|].
  destruct pfds as [|q pfds], revents as [|r revents]; cbn [set_revents zip_with] in *; try done.
  apply Forall_cons in H as [Hq H]. constructor; [exact Hq|by apply IH].
Qed.

Lemma ready_asked acts pfds : Forall (fun aq => pfd_events (snd aq) <> 0 -> asked_for (fst aq)) (zip acts pfds) ->
  Forall asked_for (ready_actions acts pfds).
Proof.
  unfold ready_actions. intros H. induction H as [|[a q] l Haq _ IH]; [done|]. rewrite filter_cons. cbn [snd].
  destruct (decide _) as [Hr|]; [|exact IH]. constructor; [|exact IH]. apply Haq. cbn [snd].
  intros E. unfold ready in Hr. rewrite E, Z.land_0_r in Hr. done.
Qed.

Lemma set_events_conditions acts : forall pfds x pfds' x', length acts = length pfds ->
  set_events acts pfds x = Ok (pfds', x') -> exists bs, run_conditions acts x = Ok (bs, x').
Proof.
  induction acts as [|a acts IH]; intros pfds x pfds' x' Hl E; destruct pfds as [|q pfds]; try done; [simplify_eq/=; by exists []|].
  injection Hl as Hl. cbn [set_events run_conditions] in *. destruct (pfd_fd q =? _); [|done].
  apply bind_Ok in E as ([b x1] & Ei & E). apply bind_Ok in E as ([pfds2 x2] & Er & E). simplify_eq.
  destruct (IH _ _ _ _ Hl Er) as [bs Hbs]. destruct (active a).
  - exists (b :: bs). rewrite Ei. cbn [bind]. by rewrite Hbs.
  - simplify_eq. by exists bs.
Qed.

Lemma after_results_nil acts pfds : after_results acts pfds [] = acts.
Proof. by destruct acts, pfds. Qed.

Lemma serve_success acts : forall pfds x acts' st x', length acts = length pfds ->
  serve acts pfds x = Ok ({| poll_result := PollSuccess; poll_exit_status := st |}, acts', x') ->
  exists results, run_callbacks (ready_actions acts pfds) x = Ok (results, x') /\ acts' = after_results acts pfds results /\
    Forall (fun r => is_exit r = false) results /\ Forall (fun q => failed q = false) pfds.
Proof.
  induction acts as [|a acts IH]; intros pfds x acts' st x' Hl E; destruct pfds as [|q pfds]; try done.
  { simplify_eq/=. by exists []. }
  unfold ready_actions. cbn [serve zip_with] in *. rewrite filter_cons. cbn [snd]. injection Hl as Hl.
  destruct (negb (Z.land (pfd_revents q) (Z.lor _ _) =? 0)) eqn:Hf; [done|].
  change (negb (Z.land (pfd_revents q) (pfd_events q) =? 0)) with (ready q) in E.
  destruct (decide (Is_true (ready q))) as [Hr|Hr]; [apply Is_true_true in Hr|apply Is_true_false in Hr]; rewrite Hr in E.
  - cbn [map fst run_callbacks]. apply bind_Ok in E as ([r x1] & -> & E). cbn [bind].
    destruct (action_result r) eqn:Et; [| done |];
      (apply bind_Ok in E as ([[res acts2] x2] & Es & E); injection E as -> <- <-;
       destruct (IH _ _ _ _ _ Hl Es) as (rs & Erun & -> & Hrs & Hq); fold (ready_actions acts pfds); rewrite Erun; cbn [bind];
       exists (r :: rs); split; [done|]; split; [cbn [after_results]; by rewrite Hr, Et|]; split; constructor; try done;
       unfold is_exit; by rewrite Et).
  - apply bind_Ok in E as ([[res acts2] x2] & Es & E). injection E as -> <- <-.
    destruct (IH _ _ _ _ _ Hl Es) as (rs & Erun & -> & Hrs & Hq). exists rs. split; [exact Erun|].
    split; [destruct rs; cbn [after_results]; rewrite ?Hr, ?after_results_nil; done|]. split; [done|]. by constructor.
Qed.

Lemma set_events_length acts : forall pfds x pfds' x', set_events acts pfds x = Ok (pfds', x') -> length pfds' = length pfds.
Proof.
  induction acts as [|a acts IH]; intros pfds x pfds' x' E; destruct pfds as [|q pfds]; cbn [set_events] in E; try by simplify_eq.
  destruct (pfd_fd q =? _); [|done]. apply bind_Ok in E as ([b x1] & Ei & E). apply bind_Ok in E as ([pfds2 x2] & Er & E).
  injection E as <- <-. cbn [length]. by rewrite (IH _ _ _ _ Er).
Qed.

Lemma set_revents_length revents : forall pfds, length (set_revents revents pfds) = length pfds.
Proof. induction revents as [|r l IH]; intros [|q pfds]; cbn [set_revents length]; [done..|]. by rewrite IH. Qed.

(** C35: A poll that ends normally has asked the conditions of the active actions
    once each, in the order in which the actions were added; has asked the system
    once; and has then called, in the same order and once each, exactly the
    callbacks of the actions whose descriptor the system reports ready for the
    event asked for: the state it leaves is that of these calls, one after the
    other, and nothing else.  An event is asked for only for an action that is
    active, of interest at that moment, and (for input) not at end of file.  The
    actions whose callback says so are inactive afterwards, and only those change;
    no callback asked to exit and no descriptor had an error. *)
Theorem poll_calls_ready (timeout : Z) (p p' : Poller X) (x x' : X) (st : Z) :
  poll timeout p x = Ok ({| poll_result := PollSuccess; poll_exit_status := st |}, p', x') ->
  exists interests x0 pfds ret revents x1 results,
    run_conditions (actions_ p) x = Ok (interests, x0) /\
    sys_poll pfds timeout x0 = (ret, revents, x1) /\ pollfds_ p' = set_revents revents pfds /\
    run_callbacks (ready_actions (actions_ p) (pollfds_ p')) x1 = Ok (results, x') /\
    Forall asked_for (ready_actions (actions_ p) (pollfds_ p')) /\
    actions_ p' = after_results (actions_ p) (pollfds_ p') results /\
    Forall (fun r => is_exit r = false) results /\ Forall (fun q => failed q = false) (pollfds_ p').
Proof.
  unfold poll. intros E. destruct (Z.eqb_spec (len (pollfds_ p)) (len (actions_ p))) as [Hl|]; [|done].
  assert (Hl' : length (actions_ p) = length (pollfds_ p)) by (unfold len in Hl; lia).
  apply bind_Ok in E as ([pfds x1] & Ee & E). destruct (forallb _ pfds); [done|].
  destruct (sys_poll pfds timeout x1) as [[ret revents] x2] eqn:Ep. apply bind_Ok in E as (n & _ & E).
  destruct (n =? 0); [done|]. apply bind_Ok in E as ([[r acts] x3] & Es & E). injection E as -> <- <-.
  cbn [pollfds_ actions_]. destruct (set_events_conditions _ _ _ _ _ Hl' Ee) as [bs Hbs].
  apply serve_success in Es as (results & Hrun & Hacts & Hres & Hf).
  - exists bs, x1, pfds, ret, revents, x2, results. split; [done|]. split; [done|]. split; [done|]. split; [done|].
    split; [eapply ready_asked, set_revents_asked, set_events_asked, Ee|done].
  - by rewrite set_revents_length, (set_events_length _ _ _ _ _ Ee).
Qed.

(** * Invariant *)

(** The descriptors polled are those of the actions. *)
Definition poller_wf (p : Poller X) (x : X) : Prop :=
  Forall2 (fun a q => pfd_fd q = fd_ (action_fd a x)) (actions_ p) (pollfds_ p).

Lemma poller_new_wf x : poller_wf poller_new x.
Proof. apply Forall2_nil_2. Qed.

Lemma add_action_wf a x p : poller_wf p x -> poller_wf (add_action a x p) x.
Proof. intros H. apply Forall2_app; [exact H|]. by repeat constructor. Qed.

(** A relation [R] between states that every condition and callback keeps, an
    invariant [I], and the faults [E] that may end them. *)
Section Keeps.
Context (R : X -> X -> Prop) (I : nat -> X -> Prop) (E : fault -> Prop).
Hypothesis R_refl : forall x, R x x.
Hypothesis R_trans : forall x y z, R x y -> R y z -> R x z.
Hypothesis I_weaken : forall n x, I (S n) x -> I n x.

(** The computation [m] ends in a state in [I n] related to [x], or with a fault
    in [E]. *)
Definition keeps {A} (n : nat) (x : X) (m : outcome (A * X)) : Prop :=
  match m with Ok (_, x') => R x x' /\ I n x' | Err e => E e end.

(** [I n] leaves a budget of [n] callbacks; [m] takes [k] of them. *)
Definition steps_well {A} (k : nat) (m : X -> outcome (A * X)) : Prop :=
  forall n x, I (k + n) x -> keeps n x (m x).

(** The actions of the program: their computations step well, and the
    descriptor numbers do not change. *)
Record action_ok (a : Action X) : Prop := {
  callback_ok : steps_well 1 (callback a);
  when_interested_ok : steps_well 0 (when_interested a);
  fd_stable : forall x x', R x x' -> fd_ (action_fd a x') = fd_ (action_fd a x);
}.

(** The operating system's [poll] fails with an exception at worst. *)
Definition sys_poll_keeps : Prop := forall pfds timeout n x, I n x ->
  let '(ret, _, x') := sys_poll pfds timeout x in
  R x x' /\ I n x' /\ match SystemCall "poll" ret with Ok _ => True | Err e => E e end.
Hypothesis sys_poll_ok : sys_poll_keeps.

Lemma I_drop k : forall n x, I (k + n)%nat x -> I n x.
Proof. induction k as [|k IH]; intros n x H; [done|]. by apply IH, I_weaken. Qed.

Lemma always_ok : steps_well 0 always.
Proof. intros n x HI. by split. Qed.

Definition same_fds (acts : list (Action X)) (x : X) (pfds : list pollfd) : Prop :=
  Forall2 (fun a q => pfd_fd q = fd_ (action_fd a x)) acts pfds.

Lemma same_fds_step acts x x' pfds : Forall action_ok acts -> R x x' -> same_fds acts x pfds -> same_fds acts x' pfds.
Proof.
  intros Hok HR H. induction H as [|a q acts pfds Hq _ IH]; constructor; apply Forall_cons in Hok as [Ha Hok].
  - by rewrite (fd_stable _ Ha _ _ HR).
  - by apply IH.
Qed.

Lemma set_revents_same acts x revents : forall pfds, same_fds acts x pfds -> same_fds acts x (set_revents revents pfds).
Proof.
  revert acts. induction revents as [|r revents IH]; intros acts pfds H; [by destruct pfds|].
  destruct H as [|a q acts pfds Hq H]; cbn [set_revents]; constructor; [done|by apply IH].
Qed.

Lemma set_events_ok acts : forall pfds n x, Forall action_ok acts -> same_fds acts x pfds -> I n x ->
  match set_events acts pfds x with
  | Ok (pfds', x') => R x x' /\ I n x' /\ same_fds acts x' pfds'
  | Err e => E e
  end.
Proof.
  induction acts as [|a acts IH]; intros pfds n x Hok Hfd Hx.
  - apply Forall2_nil_inv_l in Hfd as ->. split; [done|]. split; [done|]. constructor.
  - apply Forall2_cons_inv_l in Hfd as (q & pfds' & Hq & Hfd & ->). pose proof Hok as Hok'.
    apply Forall_cons in Hok' as [Ha Hok']. cbn [set_events]. rewrite Hq, Z.eqb_refl.
    assert (Hi : keeps n x (if active a then when_interested a x else Ok (false, x))).
    { destruct (active a); [by apply (when_interested_ok _ Ha)|by split]. }
    destruct (if active a then _ else _) as [[b x1]|e]; cbn [bind]; [|done]. destruct Hi as [HR HI].
    specialize (IH pfds' n x1 Hok' (same_fds_step _ _ _ _ Hok' HR Hfd) HI).
    destruct (set_events acts pfds' x1) as [[pfds2 x2]|e]; cbn [bind]; [|done]. destruct IH as (HR2 & HI2 & Hs).
    pose proof (R_trans _ _ _ HR HR2) as HR'. split; [done|]. split; [done|]. constructor; [|done].
    cbn [pfd_fd]. by rewrite (fd_stable _ Ha _ _ HR').
Qed.

Lemma serve_ok acts : forall pfds n x, Forall action_ok acts -> I (length acts + n)%nat x ->
  match serve acts pfds x with
  | Ok (_, acts', x') => R x x' /\ I n x' /\ Forall2 (fun a a' => a' = a \/ a' = deactivate a) acts acts'
  | Err e => E e
  end.
Proof.
  induction acts as [|a acts IH]; intros pfds n x Hok Hx; cbn [serve].
  { split; [done|]. split; [done|]. constructor. }
  assert (Hsame : forall l : list (Action X), Forall2 (fun a a' => a' = a \/ a' = deactivate a) l l).
  { intros l. induction l; constructor; auto. }
  assert (Hx0 : I n x) by by apply (I_drop (S (length acts))).
  cbn [length Nat.add] in Hx. apply Forall_cons in Hok as [Ha Hok].
  destruct pfds as [|q pfds]; [split; [done|]; split; [done|apply Hsame]|].
  destruct (negb _); [split; [done|]; split; [done|apply Hsame]|].
  destruct (negb _).
  - pose proof (callback_ok _ Ha (length acts + n)%nat x Hx) as Hc.
    destruct (callback a x) as [[res x1]|e]; cbn [bind]; [|done]. destruct Hc as [HR HI].
    specialize (IH pfds n x1 Hok HI).
    destruct (action_result res); [| split; [done|]; split; [by apply (I_drop (length acts))|apply Hsame] |];
      (destruct (serve acts pfds x1) as [[[r acts'] x2]|e]; cbn [bind]; [|done]; destruct IH as (HR2 & HI2 & Hacts);
       split; [by eapply R_trans|]; split; [done|]; constructor; auto).
  - specialize (IH pfds n x Hok (I_weaken _ _ Hx)).
    destruct (serve acts pfds x) as [[[r acts'] x2]|e]; cbn [bind]; [|done]. destruct IH as (HR2 & HI2 & Hacts).
    split; [done|]. split; [done|]. constructor; auto.
Qed.

Lemma action_ok_deactivate a : action_ok a -> action_ok (deactivate a).
Proof. intros [H1 H2 H3]. by split. Qed.

Lemma served_ok acts acts' x pfds : Forall2 (fun a a' => a' = a \/ a' = deactivate a) acts acts' ->
  Forall action_ok acts -> same_fds acts x pfds ->
  Forall action_ok acts' /\ same_fds acts' x pfds /\ length acts' = length acts.
Proof.
  intros H. revert pfds. induction H as [|a a' acts acts' Ha _ IH]; intros pfds Hok Hs.
  { split; [done|]. by split. }
  apply Forall2_cons_inv_l in Hs as (q & qs' & Hq & Hs & ->). apply Forall_cons in Hok as [Hoka Hok].
  destruct (IH qs' Hok Hs) as (H1 & H2 & H3). cbn [length]. rewrite H3.
  destruct Ha as [->| ->]; (split; [|split; [|done]]); constructor; try done. by apply action_ok_deactivate.
Qed.

(** One poll: the callbacks and conditions it calls are steps of [R] that keep
    [I], the poller stays well-formed, and only the faults in [E] end it. *)
Lemma poll_ok timeout p n x : Forall action_ok (actions_ p) -> poller_wf p x -> I (length (actions_ p) + n)%nat x ->
  match poll timeout p x with
  | Ok (_, p', x') => R x x' /\ I n x' /\ poller_wf p' x' /\ Forall action_ok (actions_ p') /\
      length (actions_ p') = length (actions_ p)
  | Err e => E e
  end.
Proof.
  intros Hok Hwf Hx. unfold poll, poller_wf in *.
  assert (Hlen : len (pollfds_ p) = len (actions_ p)) by (unfold len; by rewrite (Forall2_length _ _ _ Hwf)).
  rewrite Hlen, Z.eqb_refl. pose proof (set_events_ok (actions_ p) (pollfds_ p) _ x Hok Hwf Hx) as H1.
  destruct (set_events _ _ x) as [[pfds x1]|e]; cbn [bind]; [|done]. destruct H1 as (HR1 & HI1 & Hs1).
  destruct (forallb _ pfds).
  { split; [done|]. split; [by eapply I_drop|]. by split. }
  pose proof (sys_poll_ok pfds timeout _ x1 HI1) as H2. destruct (sys_poll pfds timeout x1) as [[ret revents] x2].
  destruct H2 as (HR2 & HI2 & Hret). pose proof (R_trans _ _ _ HR1 HR2) as HR12.
  destruct (SystemCall "poll" ret) as [m|e]; cbn [bind]; [|done].
  pose proof (set_revents_same _ _ revents _ (same_fds_step _ _ _ _ Hok HR2 Hs1)) as Hs2.
  destruct (m =? 0).
  { split; [done|]. split; [by eapply I_drop|]. by split. }
  pose proof (serve_ok (actions_ p) (set_revents revents pfds) n x2 Hok HI2) as H3.
  destruct (serve _ _ x2) as [[[r acts'] x3]|e]; cbn [bind]; [|done]. destruct H3 as (HR3 & HI3 & Hacts).
  split; [by eapply R_trans|]. split; [done|]. cbn [actions_ pollfds_].
  destruct (served_ok _ _ x3 _ Hacts Hok (same_fds_step _ _ _ _ Hok HR3 Hs2)) as (H1 & H2 & H4).
  by split.
Qed.
End Keeps.

(** * What every call keeps

    A preorder that the callbacks, the conditions and the system's [poll] keep
    when they return is kept by a poll that returns, whatever the actions are. *)
Section Frame.
Context (R : X -> X -> Prop).
Context `{!PreOrder R}.

Definition step_kept {A} (m : X -> outcome (A * X)) : Prop := forall x a x', m x = Ok (a, x') -> R x x'.

Definition action_kept (a : Action X) : Prop := step_kept (callback a) /\ step_kept (when_interested a).

Hypothesis sys_poll_kept : forall pfds timeout x, R x (sys_poll pfds timeout x).2.

Lemma set_events_kept acts : Forall action_kept acts -> forall pfds, step_kept (set_events acts pfds).
Proof.
  induction 1 as [|a acts [_ Hi] _ IH]; intros pfds x q x' E; [by simplify_eq/=|].
  destruct pfds as [|q0 pfds]; cbn [set_events] in E; [by simplify_eq|]. destruct (_ =? _); [|done].
  apply bind_Ok in E as ([b x1] & E1 & E). apply bind_Ok in E as ([pfds2 x2] & E2 & E). simplify_eq.
  transitivity x1; [|by eapply IH]. destruct (active a); [by eapply Hi|by simplify_eq].
Qed.

Lemma serve_kept acts : Forall action_kept acts -> forall pfds x r acts' x', serve acts pfds x = Ok (r, acts', x') ->
  R x x' /\ Forall action_kept acts'.
Proof.
  induction 1 as [|a acts Ha Hacts IH]; intros pfds x r acts' x' E; cbn [serve] in E; [by simplify_eq|].
  destruct pfds as [|q pfds]; [simplify_eq; split; [done|by constructor]|].
  destruct (negb _); [simplify_eq; split; [done|by constructor]|]. destruct (negb _).
  - apply bind_Ok in E as ([res x1] & E1 & E). apply (proj1 Ha) in E1. destruct (action_result res);
      [|by simplify_eq; split; [|constructor]|]; apply bind_Ok in E as ([[r2 acts2] x2] & E2 & E); simplify_eq;
      apply IH in E2 as [H1 H2]; (split; [by etransitivity|by constructor]).
  - apply bind_Ok in E as ([[r2 acts2] x2] & E2 & E). simplify_eq. apply IH in E2 as [H1 H2]. split; [done|by constructor].
Qed.

Lemma poll_kept timeout p x r p' x' : Forall action_kept (actions_ p) -> poll timeout p x = Ok (r, p', x') ->
  R x x' /\ Forall action_kept (actions_ p').
Proof.
  intros Hok. unfold poll. destruct (_ =? _); [|done]. intros E. apply bind_Ok in E as ([pfds x1] & E1 & E).
  apply set_events_kept in E1; [|done]. destruct (forallb _ _); [by simplify_eq|].
  pose proof (sys_poll_kept pfds timeout x1) as Hp. destruct (sys_poll pfds timeout x1) as [[ret revents] x2]. cbn [snd] in Hp.
  apply bind_Ok in E as (n & _ & E). destruct (n =? 0); [simplify_eq; split; [by etransitivity|done]|].
  apply bind_Ok in E as ([[r2 acts] x3] & E3 & E). simplify_eq. apply serve_kept in E3 as [H1 H2]; [|done].
  split; [|done]. transitivity x1; [done|]. by transitivity x2.
Qed.
End Frame.

(** * Callbacks with preconditions

    The callbacks of a relay assert what the conditions of their actions tested
    before the system was polled.  An action comes with the precondition of its
    callback, and with what is settled once the action has been cancelled. *)

Record Guard := { g_action : Action X; g_pre : X -> Prop; g_settled : X -> Prop }.

Section Guarded.
Context (R : X -> X -> Prop) (I : X -> Prop) (E : fault -> Prop).
Hypothesis R_refl : forall x, R x x.
Hypothesis R_trans : forall x y z, R x y -> R y z -> R x z.

(** The condition has no effects and gives the precondition; the callback,
    called under it, makes a step of [R] and does not ask to exit. *)
Record guard_ok (g : Guard) : Prop := {
  g_interest x : I x -> exists b, when_interested (g_action g) x = Ok (b, x) /\ (b = true -> g_pre g x);
  g_callback x : I x -> g_pre g x ->
    match callback (g_action g) x with
    | Ok (r, x') => R x x' /\ I x' /\ action_result r <> ActionExit /\ (action_result r = Cancel -> g_settled g x')
    | Err e => E e
    end;
  g_settled_stable x x' : R x x' -> g_settled g x -> g_settled g x';
  g_fd_stable x x' : R x x' -> fd_ (action_fd (g_action g) x') = fd_ (action_fd (g_action g) x);
}.

(** The callback of an earlier action keeps the precondition of a later one. *)
Definition undisturbed (g h : Guard) : Prop := forall x r x', I x -> g_pre g x ->
  callback (g_action g) x = Ok (r, x') -> g_pre h x -> g_pre h x'.

(** The action as it was added, or cancelled. *)
Definition guarded (x : X) (a : Action X) (g : Guard) : Prop :=
  a = g_action g \/ (a = deactivate (g_action g) /\ g_settled g x).

Definition idle (a : Action X) (x : X) : Prop :=
  active a = false \/ when_interested a x = Ok (false, x) \/ (direction a = In /\ eof_ (action_fd a x) = true).

Hypothesis sys_poll_ok : forall pfds timeout x, I x ->
  let '(ret, _, x') := sys_poll pfds timeout x in
  R x x' /\ I x' /\ match SystemCall "poll" ret with Ok _ => True | Err e => E e end.

Lemma guarded_stable x x' acts gs : Forall guard_ok gs -> R x x' -> Forall2 (guarded x) acts gs -> Forall2 (guarded x') acts gs.
Proof.
  intros Hok HR H. induction H as [|a g acts gs Ha _ IH]; constructor; apply Forall_cons in Hok as [Hg Hok]; [|by apply IH].
  destruct Ha as [->|[-> Hs]]; [by left|right]. split; [done|]. by eapply g_settled_stable.
Qed.

Lemma set_events_guarded x acts gs : Forall2 (guarded x) acts gs -> Forall guard_ok gs -> I x -> forall pfds,
  same_fds acts x pfds ->
  exists pfds', set_events acts pfds x = Ok (pfds', x) /\ same_fds acts x pfds' /\
    Forall2 (fun q g => pfd_events q <> 0 -> g_pre g x) pfds' gs /\ Forall2 (fun q a => pfd_events q = 0 -> idle a x) pfds' acts.
Proof.
  intros H Hok HI. induction H as [|a g acts gs Ha _ IH]; intros pfds Hs.
  - apply Forall2_nil_inv_l in Hs as ->. exists []. split; [done|]. repeat split; constructor.
  - apply Forall2_cons_inv_l in Hs as (q & pfds' & Hq & Hs & ->). apply Forall_cons in Hok as [Hg Hok].
    destruct (IH Hok pfds' Hs) as (pfds2 & Ep & Hs2 & Hpre & Hidle). destruct (g_interest g Hg x HI) as (b & Ei & Hb).
    cbn [set_events]. rewrite Hq, Z.eqb_refl.
    assert (Hb' : exists b', (if active a then when_interested a x else Ok (false, x)) = Ok (b', x) /\
      (b' = true -> g_pre g x) /\ (b' = false -> idle a x)).
    { destruct Ha as [->|[-> _]]; cbn [active deactivate].
      - unfold idle. destruct (active (g_action g)); [exists b|exists false]; (split; [done|]); split; auto; try done.
        intros ->. auto.
      - exists false. split; [done|]. split; [done|]. intros _. by left. }
    destruct Hb' as (b' & -> & Hpre' & Hidle'). cbn [bind]. rewrite Ep. cbn [bind].
    eexists. split; [reflexivity|]. split; [by constructor|].
    split; constructor; try done; cbn [pfd_events].
    + intros He. apply Hpre'. destruct b'; [done|]. by destruct (direction a), (eof_ (action_fd a x)).
    + intros He. destruct b'; [|by apply Hidle']. destruct (direction a) eqn:Hd; [|done].
      destruct (eof_ (action_fd a x)) eqn:Hf; [|done]. by right; right.
Qed.

Lemma serve_guarded gs : ForallOrdPairs undisturbed gs -> Forall guard_ok gs -> forall acts pfds x,
  Forall2 (guarded x) acts gs -> I x -> Forall2 (fun q g => pfd_events q <> 0 -> g_pre g x) pfds gs ->
  match serve acts pfds x with
  | Ok (r, acts', x') => R x x' /\ I x' /\ Forall2 (guarded x') acts' gs /\
      (poll_result r = PollExit -> Exists (fun q => failed q = true) pfds)
  | Err e => E e
  end.
Proof.
  induction 1 as [|g gs Hun _ IH]; intros Hok acts pfds x Hacts HI Hpre.
  { apply Forall2_nil_inv_r in Hacts as ->. by destruct pfds. }
  apply Forall2_cons_inv_r in Hacts as (a & acts' & Ha & Hacts & ->).
  apply Forall2_cons_inv_r in Hpre as (q & pfds' & Hq & Hpre & ->). apply Forall_cons in Hok as [Hg Hok].
  cbn [serve]. fold (failed q). destruct (failed q) eqn:Hf.
  { split; [done|]. split; [done|]. split; [by constructor|]. intros _. by constructor. }
  fold (ready q). destruct (ready q) eqn:Hr.
  - assert (Hgp : g_pre g x).
    { apply Hq. intros E0. unfold ready in Hr. by rewrite E0, Z.land_0_r in Hr. }
    assert (Hcb : callback a = callback (g_action g)) by by destruct Ha as [->|[-> _]].
    rewrite Hcb. pose proof (g_callback g Hg x HI Hgp) as Hc. destruct (callback (g_action g) x) as [[r x1]|e] eqn:Ec; [|done].
    destruct Hc as (HR1 & HI1 & Hne & Hset). cbn [bind].
    assert (Hpre1 : Forall2 (fun q g => pfd_events q <> 0 -> g_pre g x1) pfds' gs).
    { clear IH Hok Hacts. revert Hun. induction Hpre as [|q' h qs hs Hh _ IHp]; intros Hun; constructor;
        apply Forall_cons in Hun as [Hu Hun]; [|by apply IHp]. intros He. exact (Hu x r x1 HI Hgp Ec (Hh He)). }
    specialize (IH Hok acts' pfds' x1 (guarded_stable _ _ _ _ Hok HR1 Hacts) HI1 Hpre1).
    destruct (action_result r) eqn:Er; [|done|];
      (destruct (serve acts' pfds' x1) as [[[r2 acts2] x2]|e]; cbn [bind]; [|done]; destruct IH as (HR2 & HI2 & Hacts2 & Hex);
       split; [by eapply R_trans|]; split; [done|]; split; [|intros Hp; apply Exists_cons_tl; auto]; constructor; try done).
    + destruct Ha as [->|[-> Hs]]; [by left|right]. split; [done|]. exact (g_settled_stable g Hg x x2 (R_trans _ _ _ HR1 HR2) Hs).
    + right. split; [by destruct Ha as [->|[-> _]]|]. eapply (g_settled_stable g Hg); [exact HR2|by apply Hset].
  - specialize (IH Hok acts' pfds' x Hacts HI Hpre).
    destruct (serve acts' pfds' x) as [[[r2 acts2] x2]|e]; cbn [bind]; [|done]. destruct IH as (HR2 & HI2 & Hacts2 & Hex).
    split; [done|]. split; [done|]. split; [|intros Hp; apply Exists_cons_tl; auto]. constructor; [|done].
    destruct Ha as [->|[-> Hs]]; [by left|right]. split; [done|]. exact (g_settled_stable g Hg x x2 HR2 Hs).
Qed.

Lemma guarded_fds x y acts gs : Forall2 (guarded x) acts gs -> forall acts' z pfds,
  Forall2 (guarded y) acts' gs -> same_fds acts z pfds -> same_fds acts' z pfds.
Proof.
  induction 1 as [|a g acts gs Ha _ IH]; intros acts' z pfds H' Hs.
  - apply Forall2_nil_inv_r in H' as ->. exact Hs.
  - apply Forall2_cons_inv_r in H' as (a' & acts2 & Ha' & H' & ->). apply Forall2_cons_inv_l in Hs as (q & pfds' & Hq & Hs & ->).
    constructor; [|by eapply IH]. rewrite Hq. by destruct Ha as [->|[-> _]], Ha' as [->|[-> _]].
Qed.

(** One poll of guarded actions.  It exits only when no action is of interest,
    before it asks the system, or because a descriptor has failed. *)
Lemma poll_guarded timeout p x gs : Forall guard_ok gs -> ForallOrdPairs undisturbed gs ->
  Forall2 (guarded x) (actions_ p) gs -> poller_wf p x -> I x ->
  (forall g pfds, g ∈ gs -> let '(_, _, x') := sys_poll pfds timeout x in g_pre g x -> g_pre g x') ->
  match poll timeout p x with
  | Ok (r, p', x') => R x x' /\ I x' /\ Forall2 (guarded x') (actions_ p') gs /\ poller_wf p' x' /\
      (poll_result r = PollExit ->
       (x' = x /\ Forall (fun a => idle a x) (actions_ p)) \/ Exists (fun q => failed q = true) (pollfds_ p'))
  | Err e => E e
  end.
Proof.
  intros Hok Hun Hg Hwf HI Hkeep. unfold poll, poller_wf in *.
  assert (Hlen : len (pollfds_ p) = len (actions_ p)) by (unfold len; by rewrite (Forall2_length _ _ _ Hwf)).
  rewrite Hlen, Z.eqb_refl. destruct (set_events_guarded x _ gs Hg Hok HI (pollfds_ p) Hwf) as (pfds & -> & Hs & Hpre & Hidle).
  cbn [bind]. destruct (forallb _ pfds) eqn:Eall.
  { split; [done|]. split; [done|]. split; [done|]. split; [done|]. intros _. left. split; [done|].
    clear -Eall Hidle. induction Hidle as [|q a qs acts Ha _ IH]; [done|]. cbn [forallb] in Eall.
    apply andb_true_iff in Eall as [Eq Eall]. constructor; [apply Ha; lia|by apply IH]. }
  pose proof (sys_poll_ok pfds timeout x HI) as H2.
  assert (Hk : forall g, g ∈ gs -> g_pre g x -> g_pre g (sys_poll pfds timeout x).2).
  { intros g Hin. specialize (Hkeep g pfds Hin). by destruct (sys_poll pfds timeout x) as [[? ?] ?]. }
  destruct (sys_poll pfds timeout x) as [[ret revents] x2]. destruct H2 as (HR2 & HI2 & Hret). cbn [snd] in Hk.
  destruct (SystemCall "poll" ret) as [m|e]; cbn [bind]; [|done].
  assert (Hg2 : Forall2 (guarded x2) (actions_ p) gs) by by eapply guarded_stable.
  assert (Hfds : forall acts pfds y y', Forall2 (guarded y) acts gs -> R y y' -> same_fds acts y pfds -> same_fds acts y' pfds).
  { clear -Hok. intros acts pfds y y' Hg HR. revert pfds. induction Hg as [|a g acts gs Ha _ IH]; intros pfds H.
    - apply Forall2_nil_inv_l in H as ->. constructor.
    - apply Forall2_cons_inv_l in H as (q & pfds' & Hq & H & ->). apply Forall_cons in Hok as [Hg Hok].
      constructor; [|by apply IH]. rewrite Hq. symmetry. destruct Ha as [->|[-> _]]; by apply g_fd_stable. }
  pose proof (set_revents_same _ _ revents _ (Hfds _ _ _ _ Hg HR2 Hs)) as Hs2.
  destruct (m =? 0); [split; [done|]; split; [done|]; by split|].
  assert (Hpre2 : Forall2 (fun q g => pfd_events q <> 0 -> g_pre g x2) (set_revents revents pfds) gs).
  { clear -Hpre Hk. revert revents. induction Hpre as [|q g qs gs Hq _ IH]; intros revents; [destruct revents; constructor|].
    assert (Hq2 : pfd_events q <> 0 -> g_pre g x2) by (intros He; apply Hk; [by left|auto]).
    destruct revents as [|r revents]; cbn [set_revents]; constructor; try done.
    - exact (IH (fun g' Hg' => Hk g' (list_elem_of_further g' g gs Hg')) []).
    - apply IH. intros g' Hg'. apply Hk. by right. }
  pose proof (serve_guarded gs Hun Hok _ _ x2 Hg2 HI2 Hpre2) as H3.
  destruct (serve _ _ x2) as [[[r acts'] x3]|e] eqn:Es; cbn [bind]; [|done]. destruct H3 as (HR3 & HI3 & Hg3 & Hex).
  split; [by eapply R_trans|]. split; [done|]. split; [done|]. cbn [actions_ pollfds_]. split; [|auto].
  exact (guarded_fds _ _ _ _ Hg2 _ _ _ Hg3 (Hfds _ _ _ _ Hg2 HR3 Hs2)).
Qed.
End Guarded.
End Operations.

(** * A concrete poller

    Two descriptors, 3 to read and 4 to write, that are always ready; the state
    counts the calls. *)

Module TwoFds.
Definition fd3 : FileDescriptor := {| fd_ := 3; eof_ := false; read_count_ := 0; write_count_ := 0 |}.
Definition fd4 : FileDescriptor := {| fd_ := 4; eof_ := false; read_count_ := 0; write_count_ := 0 |}.

Definition count : Type := (nat * nat)%type.
Definition reader : Action count :=
  action_new (fun _ => fd3) In (fun x => Ok (action Continue, (S (fst x), snd x))) always.
Definition writer : Action count :=
  action_new (fun _ => fd4) Out (fun x => Ok (action Cancel, (fst x, S (snd x)))) (fun x => Ok (Nat.ltb 0 (fst x), x)).

#[local] Instance both_ready : PollKernel count := fun pfds _ x => (2, map pfd_events pfds, x).

Definition poller : Poller count := add_action writer (0, 0)%nat (add_action reader (0, 0)%nat poller_new).

(** The writer is of interest only once something has been read. *)
Lemma first_poll : poll 10 poller (0, 0)%nat = Ok (polled PollSuccess 0,
  {| actions_ := [reader; writer];
     pollfds_ := [ {| pfd_fd := 3; pfd_events := 1; pfd_revents := 1 |}; {| pfd_fd := 4; pfd_events := 0; pfd_revents := 0 |} ] |},
  (1, 0)%nat).
Proof. reflexivity. Qed.

(** The second poll calls both, and the writer cancels itself. *)
Definition ready_pollfds : list pollfd :=
  [ {| pfd_fd := 3; pfd_events := 1; pfd_revents := 1 |}; {| pfd_fd := 4; pfd_events := 4; pfd_revents := 4 |} ].

Lemma poll_calls_ready_witness :
  exists interests x0 pfds ret revents x1 results,
    run_conditions [reader; writer] (1, 0)%nat = Ok (interests, x0) /\
    both_ready pfds 10 x0 = (ret, revents, x1) /\ ready_pollfds = set_revents revents pfds /\
    run_callbacks (ready_actions [reader; writer] ready_pollfds) x1 = Ok (results, (2, 1)%nat) /\
    Forall asked_for (ready_actions [reader; writer] ready_pollfds) /\
    [reader; deactivate writer] = after_results [reader; writer] ready_pollfds results /\
    Forall (fun r => is_exit r = false) results /\ Forall (fun q => failed q = false) ready_pollfds.
Proof.
  apply (poll_calls_ready (pk := both_ready) 10 poller
    {| actions_ := [reader; deactivate writer]; pollfds_ := ready_pollfds |} (1, 0)%nat (2, 1)%nat 0).
  vm_compute. reflexivity.
Defined.
End TwoFds.
