(* ===== verification/ChildProcess.v ===== *)
(** Child processes: src/util/child_process.hh/.cc.

    The operating system's side of a process is the class [ProcessKernel]; the
    object's own state, the record [ChildProcess], follows the process from
    running and stopped to terminated.  [ChildLaws] states the documented
    behaviour of [waitid] and [kill] that the program relies on. *)
From S2P Require Import Prelude Ezio FileDescriptor SignalFD.

Definition SIGHUP : Z := 1.
Definition SIGINT : Z := 2.
Definition SIGQUIT : Z := 3.
Definition SIGABRT : Z := 6.
Definition SIGTERM : Z := 15.
Definition SIGCHLD : Z := 17.
Definition SIGCONT : Z := 18.
Definition SIGSTOP : Z := 19.

Definition CLD_EXITED : Z := 1.
Definition CLD_KILLED : Z := 2.
Definition CLD_DUMPED : Z := 3.
Definition CLD_STOPPED : Z := 5.
Definition CLD_CONTINUED : Z := 6.

Definition EXIT_FAILURE : Z := 1.

Record siginfo := { si_signo : Z; si_pid : Z; si_code : Z; si_status : Z }.

(** [zero( infop )] *)
Definition siginfo_zero : siginfo := {| si_signo := 0; si_pid := 0; si_code := 0; si_status := 0 |}.

(** [sys_waitid pid nohang nowait infop]: the return value and [infop] after the
    call [waitid( P_PID, pid, &infop, WEXITED | WSTOPPED | WCONTINUED | ... )].
    [sys_stat_task]: the return value of [stat( "/proc/self/task" )] and
    [st_nlink]. *)
Class ProcessKernel (OS : Type) := {
  sys_waitid : Z -> bool -> bool -> siginfo -> OS -> Z * siginfo * OS;
  sys_kill : Z -> Z -> OS -> Z * OS;
  sys_raise : Z -> OS -> Z * OS;
  sys_stat_task : OS -> Z * Z * OS;
  sys_clone : bool -> OS -> Z * OS;
}.

(** * State *)

Record ChildProcess := {
  name_ : string;
  pid_ : Z;
  running_ : bool;
  terminated_ : bool;
  exit_status_ : Z;
  died_on_signal_ : bool;
  graceful_termination_signal_ : Z;
  moved_away_ : bool;
}.

#[export] Instance eta_ChildProcess : Eta ChildProcess := fun c =>
  {| name_ := name_ c; pid_ := pid_ c; running_ := running_ c; terminated_ := terminated_ c;
     exit_status_ := exit_status_ c; died_on_signal_ := died_on_signal_ c;
     graceful_termination_signal_ := graceful_termination_signal_ c; moved_away_ := moved_away_ c |}.

(** The accessors, with their assertions. *)
Definition not_moved_away {A} (c : ChildProcess) (a : A) : outcome A :=
  guard* negb (moved_away_ c) else AssertFail "not moved_away_" in Ok a.
Definition if_terminated {A} (c : ChildProcess) (a : A) : outcome A :=
  guard* negb (moved_away_ c) else AssertFail "not moved_away_" in
  guard* terminated_ c else AssertFail "terminated_" in Ok a.

Definition name (c : ChildProcess) : outcome string := not_moved_away c (name_ c).
Definition pid (c : ChildProcess) : outcome Z := not_moved_away c (pid_ c).
Definition running (c : ChildProcess) : outcome bool := not_moved_away c (running_ c).
Definition terminated (c : ChildProcess) : outcome bool := not_moved_away c (terminated_ c).
Definition died_on_signal (c : ChildProcess) : outcome bool := if_terminated c (died_on_signal_ c).
Definition exit_status (c : ChildProcess) : outcome Z := if_terminated c (exit_status_ c).

(** * Operations *)

(** How the process that runs the child's procedure ends. *)
Inductive process_end := Exited (status : Z) | KilledBy (sig : Z).

(** The child's side of the constructor: the procedure's result is the exit
    status, unless the process has ended before; a [std::exception] is printed
    and turned into [EXIT_FAILURE], and [_exit] ends the process.  Anything else
    ends in [abort()]. *)
Definition child_side (result : outcome Z) : process_end :=
  match result with
  | Ok status => Exited status
  | Err (ProcessExit status) => Exited status
  | Err (ProcessKilled sig) => KilledBy sig
  | Err e => if caught_as_exception e then Exited EXIT_FAILURE else KilledBy SIGABRT
  end.

Section Operations.
Context {OS : Type} {kernel : ProcessKernel OS} {sigs : SignalKernel OS}.

Definition do_clone (new_namespace : bool) (o : OS) : outcome (Z * OS) :=
  (* Verify that process is single-threaded before forking *)
  let '(r, st_nlink, o) := sys_stat_task o in
  let* _ := SystemCall "stat" r in
  if negb (st_nlink =? 3) then Err (Throw "ChildProcess constructed in multi-threaded program")
  else
    let (r, o) := sys_clone new_namespace o in
    let* pid := SystemCall "clone" r in
    Ok (pid, o).

(** The child's side: no signal is blocked while the procedure runs. *)
Definition run_child (child_procedure : OS -> outcome Z) (o : OS) : process_end :=
  child_side (let* mask := signal_mask_new [] in
              let* o := set_as_mask mask o in
              child_procedure o).

(** Either side of the clone: the object of the parent, or the end of the
    child. *)
Definition child_new (name : string) (child_procedure : OS -> outcome Z) (new_namespace : bool)
    (termination_signal : Z) (o : OS) : outcome ((ChildProcess + process_end) * OS) :=
  let* (pid, o) := do_clone new_namespace o in
  if pid =? 0 then Ok (inr (run_child child_procedure o), o)
  else Ok (inl {| name_ := name; pid_ := pid; running_ := true; terminated_ := false; exit_status_ := 0;
                  died_on_signal_ := false; graceful_termination_signal_ := termination_signal;
                  moved_away_ := false |}, o).

(** is process in a waitable state? *)
Definition waitable (c : ChildProcess) (o : OS) : outcome (bool * OS) :=
  guard* negb (moved_away_ c) else AssertFail "!moved_away_" in
  guard* negb (terminated_ c) else AssertFail "!terminated_" in
  let '(r, infop, o) := sys_waitid (pid_ c) true true siginfo_zero o in
  let* _ := SystemCall "waitid" r in
  if si_pid infop =? 0 then Ok (false, o)
  else if si_pid infop =? pid_ c then Ok (true, o)
  else Err (Throw "waitid: unexpected value in siginfo_t si_pid field (not 0 or pid)").

(** how did the process change state? *)
Definition state_change (infop : siginfo) (c : ChildProcess) : outcome ChildProcess :=
  if si_code infop =? CLD_EXITED then Ok (c <| terminated_ := true |> <| exit_status_ := si_status infop |>)
  else if (si_code infop =? CLD_KILLED) || (si_code infop =? CLD_DUMPED) then
    Ok (c <| terminated_ := true |> <| exit_status_ := si_status infop |> <| died_on_signal_ := true |>)
  else if si_code infop =? CLD_STOPPED then Ok (c <| running_ := false |>)
  else if si_code infop =? CLD_CONTINUED then Ok (c <| running_ := true |>)
  else Err (Throw "waitid: unexpected siginfo_t si_code").

(** wait for process to change state *)
Definition wait (nonblocking : bool) (c : ChildProcess) (o : OS) : outcome (ChildProcess * OS) :=
  guard* negb (moved_away_ c) else AssertFail "!moved_away_" in
  guard* negb (terminated_ c) else AssertFail "!terminated_" in
  let '(r, infop, o) := sys_waitid (pid_ c) nonblocking false siginfo_zero o in
  let* _ := SystemCall "waitid" r in
  if nonblocking && (si_pid infop =? 0) then Err (Throw "nonblocking wait: process was not waitable")
  else if negb (si_pid infop =? pid_ c) then Err (Throw "waitid: unexpected value in siginfo_t si_pid field")
  else if negb (si_signo infop =? SIGCHLD) then
    Err (Throw "waitid: unexpected value in siginfo_t si_signo field (not SIGCHLD)")
  else
    let* c := state_change infop c in
    Ok (c, o).

(** send a signal to the child process *)
Definition signal (sig : Z) (c : ChildProcess) (o : OS) : outcome OS :=
  guard* negb (moved_away_ c) else AssertFail "!moved_away_" in
  if terminated_ c then Ok o
  else
    let (r, o) := sys_kill (pid_ c) sig o in
    let* _ := SystemCall "kill" r in
    Ok o.

(** if child process was suspended, resume it *)
Definition resume (c : ChildProcess) (o : OS) : outcome OS :=
  guard* negb (moved_away_ c) else AssertFail "!moved_away_" in
  if running_ c then Ok o else signal SIGCONT c o.

(** How a call that throws leaves the system: each makes one system call. *)
Definition signal_after (sig : Z) (c : ChildProcess) (o : OS) : OS :=
  if terminated_ c then o else (sys_kill (pid_ c) sig o).2.
Definition resume_after (c : ChildProcess) (o : OS) : OS :=
  if running_ c then o else signal_after SIGCONT c o.
Definition wait_after (nonblocking : bool) (c : ChildProcess) (o : OS) : OS :=
  (sys_waitid (pid_ c) nonblocking false siginfo_zero o).2.

(** The loop of the destructor, with the state that it ends or throws in. *)
Fixpoint terminate_loop (fuel : nat) (c : ChildProcess) (o : OS) : outcome unit * ChildProcess * OS :=
  if terminated_ c then (Ok tt, c, o) else
  match fuel with
  | O => (Err Diverges, c, o)
  | S fuel =>
      match resume c o with
      | Err e => (Err e, c, resume_after c o)
      | Ok o =>
          match signal (graceful_termination_signal_ c) c o with
          | Err e => (Err e, c, signal_after (graceful_termination_signal_ c) c o)
          | Ok o =>
              match wait false c o with
              | Err e => (Err e, c, wait_after false c o)
              | Ok (c, o) => terminate_loop fuel c o
              end
          end
      end
  end.

(** The destructor, with the object as it leaves it; an exception is printed. *)
Definition child_destroy (fuel : nat) (c : ChildProcess) (o : OS) : outcome (ChildProcess * OS) :=
  if moved_away_ c then Ok (c, o)
  else
    let '(r, c, o) := terminate_loop fuel c o in
    match r with
    | Ok _ => Ok (c, o)
    | Err e => if caught_as_exception e then Ok (c, o) else Err e
    end.

(** The move constructor: the new object and the one it was moved from. *)
Definition child_move (other : ChildProcess) : outcome (ChildProcess * ChildProcess) :=
  guard* negb (moved_away_ other) else AssertFail "!other.moved_away_" in
  Ok (other, other <| moved_away_ := true |>).

Definition throw_exception {A} (c : ChildProcess) : outcome A :=
  let* n := name c in
  let* d := died_on_signal c in
  let* st := exit_status c in
  Err (Throw ("`" +:+ n +:+ "': process " +:+ (if d : bool then "died on signal " else "exited with failure status ")
              +:+ print_int st)).

End Operations.

(** * Laws of the operating system *)

Definition dead (si : siginfo) : bool :=
  (si_code si =? CLD_EXITED) || (si_code si =? CLD_KILLED) || (si_code si =? CLD_DUMPED).

(** What [waitid] reports of process [pid]. *)
Definition change_ok (pid : Z) (si : siginfo) : Prop :=
  si_signo si = SIGCHLD /\ si_pid si = pid /\ - 2 ^ 31 <= si_status si < 2 ^ 31 /\
  si_code si ∈ [CLD_EXITED; CLD_KILLED; CLD_DUMPED; CLD_STOPPED; CLD_CONTINUED].

(** [unreaped pid o]: [pid] is a child whose termination has not been waited
    for.  [has_change pid o]: a change of its state has not been reported.
    [fate pid o] bounds the changes that it still goes through.  [signalable pid]:
    the program has the permission to signal it, as kill(2) gives it for a process
    whose real identity is that of the caller; a command that takes on another
    user's identities, as sudo does, is not one. *)
Class ChildLaws (OS : Type) `{ProcessKernel OS} := {
  unreaped : Z -> OS -> Prop;
  has_change : Z -> OS -> Prop;
  fate : Z -> OS -> nat;
  signalable : Z -> Prop;
  (* what calls about others leave of process [p] *)
  process_kept (p : Z) (o o' : OS) : Prop :=
    (unreaped p o <-> unreaped p o') /\ (has_change p o -> has_change p o') /\ (fate p o' <= fate p o)%nat;
  others (pid : Z) (o o' : OS) : Prop := forall p, p <> pid -> process_kept p o o';
  reported (pid : Z) (si : siginfo) (o o' : OS) : Prop :=
    change_ok pid si /\ others pid o o' /\
    (dead si = false -> unreaped pid o' /\ (fate pid o' < fate pid o)%nat) /\
    (dead si = true -> ~ unreaped pid o');
  waitid_blocking pid si o : unreaped pid o ->
    exists si' o', sys_waitid pid false false si o = (0, si', o') /\ reported pid si' o o';
  waitid_nonblocking pid si o : unreaped pid o -> has_change pid o ->
    exists si' o', sys_waitid pid true false si o = (0, si', o') /\ reported pid si' o o';
  waitid_nothing pid si o : unreaped pid o ->
    exists si' o', sys_waitid pid true false si o = (0, si', o') /\
      (reported pid si' o o' \/ si_pid si' = 0 /\ unreaped pid o' /\ others pid o o');
  waitid_peek pid si o : unreaped pid o ->
    exists si' o', sys_waitid pid true true si o = (0, si', o') /\
      unreaped pid o' /\ (fate pid o' <= fate pid o)%nat /\ others pid o o' /\
      (si_pid si' = 0 \/ si_pid si' = pid /\ has_change pid o');
  kill_spec pid sig o : signalable pid -> unreaped pid o -> 0 < sig <= 64 ->
    exists o', sys_kill pid sig o = (0, o') /\ unreaped pid o' /\ (fate pid o' <= fate pid o)%nat /\ others pid o o';
  raise_spec sig o : exists r o', sys_raise sig o = (r, o') /\ forall p, process_kept p o o';
}.

(** * Facts *)

Section Facts.
Context {OS : Type} {kernel : ProcessKernel OS} {laws : ChildLaws OS}.
Implicit Types c : ChildProcess.

(** An object stands for a process that may be signalled, and that has been reaped
    exactly when the object says that it has terminated. *)
Record child_inv c (o : OS) : Prop := {
  inv_pid : 0 < pid_ c;
  inv_signal : 0 < graceful_termination_signal_ c <= 64;
  inv_unreaped : unreaped (pid_ c) o <-> terminated_ c = false;
  inv_died : died_on_signal_ c = true -> terminated_ c = true;
  inv_signalable : signalable (OS := OS) (pid_ c);
}.

Lemma process_kept_refl p (o : OS) : process_kept p o o.
Proof. split; [done|]. split; [done|lia]. Qed.

Lemma process_kept_trans p (o1 o2 o3 : OS) : process_kept p o1 o2 -> process_kept p o2 o3 -> process_kept p o1 o3.
Proof. intros (A1 & A2 & A3) (B1 & B2 & B3). split; [by rewrite A1|]. split; [auto|lia]. Qed.

Lemma others_refl pid (o : OS) : others pid o o.
Proof. intros p _. apply process_kept_refl. Qed.
#[local] Hint Resolve process_kept_refl others_refl : core.

Lemma child_inv_others c pid o o' : child_inv c o -> pid_ c <> pid -> others pid o o' -> child_inv c o'.
Proof. intros [H1 H2 H3 H4 H5] Hp Ho. split; try done. rewrite <- H3. symmetry. by apply Ho. Qed.

(** Which reported change leads to which state. *)
Lemma state_change_ok pid si c : change_ok pid si -> terminated_ c = false ->
  exists c', state_change si c = Ok c' /\ terminated_ c' = dead si /\ pid_ c' = pid_ c /\ moved_away_ c' = moved_away_ c /\
    graceful_termination_signal_ c' = graceful_termination_signal_ c /\ name_ c' = name_ c /\
    (dead si = true -> exit_status_ c' = si_status si) /\
    (died_on_signal_ c' = true -> dead si = true \/ died_on_signal_ c = true).
Proof.
  intros (_ & _ & _ & Hc) Ht. unfold state_change, dead.
  rewrite !elem_of_cons, elem_of_nil in Hc.
  destruct Hc as [-> | [-> | [-> | [-> | [-> | []]]]]]; cbn;
    (eexists; split; [reflexivity|]; cbn; repeat split; auto; try done).
Qed.

Lemma wait_reported nonblocking c o si o' : moved_away_ c = false -> child_inv c o -> terminated_ c = false ->
  sys_waitid (pid_ c) nonblocking false siginfo_zero o = (0, si, o') -> reported (pid_ c) si o o' ->
  exists c', wait nonblocking c o = Ok (c', o') /\ state_change si c = Ok c' /\ child_inv c' o' /\
    terminated_ c' = dead si /\ pid_ c' = pid_ c /\ moved_away_ c' = false.
Proof.
  intros Hm [H1 H2 H3 H4 H5] Ht E ((Hs & Hp & Hst & Hc) & Ho & Hl). unfold wait. rewrite Hm, Ht, E, SystemCall_Ok by lia.
  cbn [negb bind]. rewrite Hp, Hs. destruct (Z.eqb_spec (pid_ c) 0); [lia|]. rewrite andb_false_r, !Z.eqb_refl.
  cbn [negb]. destruct (state_change_ok (pid_ c) si c) as (c' & -> & Ht' & Hpid & Hm' & Hg & Hn & _ & Hd); [done..|].
  exists c'. split; [done|]. split; [done|]. rewrite Hm'. split; [|done]. split.
  - by rewrite Hpid.
  - by rewrite Hg.
  - rewrite Hpid, Ht'. destruct Hl as [Hlive Hdead]. destruct (dead si).
    + split; [|done]. intros Hu. by destruct (Hdead eq_refl).
    + split; [done|]. intros _. by apply Hlive.
  - intros Hd'. rewrite Ht'. destruct (Hd Hd') as [|Hd'']; [done|]. apply H4 in Hd''. congruence.
  - by rewrite Hpid.
Qed.

Lemma signal_ok sig c o : moved_away_ c = false -> child_inv c o -> 0 < sig <= 64 ->
  exists o', signal sig c o = Ok o' /\ child_inv c o' /\ others (pid_ c) o o' /\
    (terminated_ c = false -> (fate (pid_ c) o' <= fate (pid_ c) o)%nat).
Proof.
  intros Hm Hi Hs. unfold signal. rewrite Hm. cbn [negb]. destruct (terminated_ c) eqn:Ht.
  { exists o. split; [done|]. split; [done|]. by split. }
  destruct (kill_spec (pid_ c) sig o) as (o' & -> & Hu & Hf & Ho); [apply Hi|by apply Hi|done|].
  rewrite SystemCall_Ok by lia. exists o'. split; [done|]. split; [|by split]. destruct Hi. by split.
Qed.

Lemma resume_ok c o : moved_away_ c = false -> child_inv c o ->
  exists o', resume c o = Ok o' /\ child_inv c o' /\ others (pid_ c) o o' /\
    (terminated_ c = false -> (fate (pid_ c) o' <= fate (pid_ c) o)%nat).
Proof.
  intros Hm Hi. unfold resume. rewrite Hm. cbn [negb]. destruct (running_ c).
  { exists o. split; [done|]. split; [done|]. by split. }
  apply signal_ok; [done..|]. unfold SIGCONT. lia.
Qed.

Lemma waitable_ok c o : moved_away_ c = false -> child_inv c o -> terminated_ c = false ->
  exists b o', waitable c o = Ok (b, o') /\ child_inv c o' /\ others (pid_ c) o o' /\
    (b = true -> has_change (pid_ c) o').
Proof.
  intros Hm [H1 H2 H3 H4 H5] Ht. unfold waitable. rewrite Hm, Ht. cbn [negb].
  destruct (waitid_peek (pid_ c) siginfo_zero o) as (si & o' & -> & Hu & Hf & Ho & Hsi); [by apply H3|].
  rewrite SystemCall_Ok by lia. cbn [bind].
  assert (Hi : child_inv c o') by by split.
  destruct Hsi as [->|[-> Hc]]; [by exists false, o'|].
  destruct (Z.eqb_spec (pid_ c) 0); [lia|]. rewrite Z.eqb_refl. by exists true, o'.
Qed.

(** Calls that succeed leave the system as [signal_after], [resume_after] and
    [wait_after] say, so that these are how a call leaves it in any case. *)
Lemma signal_after_ok sig c (o o' : OS) : signal sig c o = Ok o' -> signal_after sig c o = o'.
Proof.
  unfold signal, signal_after. destruct (moved_away_ c); [done|]. cbn [negb]. destruct (terminated_ c); [by intros [=]|].
  destruct (sys_kill _ _ o) as [r o1]. destruct (SystemCall _ r); cbn [bind]; [by intros [=]|done].
Qed.

Lemma resume_after_ok c (o o' : OS) : resume c o = Ok o' -> resume_after c o = o'.
Proof.
  unfold resume, resume_after. intros E. destruct (moved_away_ c); [done|]. cbn [negb] in E.
  destruct (running_ c); [by simplify_eq|by apply signal_after_ok].
Qed.

Lemma wait_after_ok b c (o : OS) r : wait b c o = Ok r -> wait_after b c o = r.2.
Proof.
  unfold wait, wait_after. destruct (moved_away_ c); [done|]. destruct (terminated_ c); [done|]. cbn [negb].
  destruct (sys_waitid _ _ _ _ o) as [[ret si] o1]. destruct (SystemCall _ ret); cbn [bind]; [|done].
  destruct (_ && _); [done|]. destruct (negb _); [done|]. destruct (negb _); [done|].
  destruct (state_change si c); cbn [bind]; [by intros [= <-]|done].
Qed.

Lemma others_trans pid (o1 o2 o3 : OS) : others pid o1 o2 -> others pid o2 o3 -> others pid o1 o3.
Proof. intros H1 H2 p Hp. eapply process_kept_trans; auto. Qed.

(** The destructor of a live object ends, with the process reaped. *)
Lemma child_destroy_ok (fuel : nat) c (o : OS) : moved_away_ c = false -> child_inv c o ->
  (fate (pid_ c) o <= fuel)%nat ->
  exists c' o', child_destroy (S fuel) c o = Ok (c', o') /\ terminated_ c' = true /\ pid_ c' = pid_ c /\
    child_inv c' o' /\ others (pid_ c) o o' /\ (terminated_ c = true -> c' = c /\ o' = o).
Proof.
  unfold child_destroy. intros Hm Hi Hf. rewrite Hm. revert c o Hm Hi Hf.
  induction fuel as [fuel IH] using lt_wf_ind. intros c o Hm Hi Hf. cbn [terminate_loop].
  destruct (terminated_ c) eqn:Ht; [by exists c, o|].
  destruct (resume_ok c o Hm Hi) as (o1 & -> & Hi1 & Ho1 & Hf1). cbn [bind].
  destruct (signal_ok (graceful_termination_signal_ c) c o1 Hm Hi1) as (o2 & -> & Hi2 & Ho2 & Hf2); [apply Hi1|].
  cbn [bind]. destruct (waitid_blocking (pid_ c) siginfo_zero o2) as (si & o3 & E & Hr); [by apply Hi2|].
  destruct (wait_reported false c o2 si o3 Hm Hi2 Ht E Hr) as (c' & -> & _ & Hi3 & Ht' & Hp & Hm'). cbn [bind].
  destruct Hr as (_ & Ho3 & Hlive & _).
  assert (Ho : others (pid_ c) o o3) by (eapply others_trans; [|exact Ho3]; by eapply others_trans).
  destruct (dead si) eqn:Hd.
  - exists c', o3. destruct fuel; cbn [terminate_loop]; rewrite Ht'; by repeat (split; [done|]).
  - destruct (Hlive eq_refl) as [_ Hlt]. specialize (Hf1 Ht). specialize (Hf2 Ht).
    destruct fuel as [|fuel]; [lia|].
    destruct (IH fuel ltac:(lia) c' o3 Hm' Hi3 ltac:(rewrite Hp; lia)) as (c2 & o4 & E2 & Ht2 & Hp2 & Hi4 & Ho4 & _).
    exists c2, o4. rewrite E2. split; [done|]. split; [done|]. split; [congruence|]. split; [done|].
    split; [|done]. eapply others_trans; [exact Ho|]. by rewrite <- Hp.
Qed.

(** The destructor of a live process object returns with the process
    terminated and reaped, however many times it first stops, continues or
    survives the termination signal, and reaps no other process; a process
    already known to be terminated is sent nothing and not waited for. *)
Theorem destructor_reaps (fuel : nat) c (o : OS) : moved_away_ c = false -> child_inv c o ->
  (fate (pid_ c) o <= fuel)%nat ->
  exists c' o', child_destroy (S fuel) c o = Ok (c', o') /\ terminated_ c' = true /\ ~ unreaped (pid_ c) o' /\
    (forall p, p <> pid_ c -> (unreaped p o <-> unreaped p o')) /\ (terminated_ c = true -> c' = c /\ o' = o).
Proof.
  intros Hm Hi Hf. destruct (child_destroy_ok fuel c o Hm Hi Hf) as (c' & o' & E & Ht & Hp & Hi' & Ho & Hsame).
  exists c', o'. split; [done|]. split; [done|]. split; [|by split; [intros p Hne; by apply Ho|]].
  rewrite <- Hp, (inv_unreaped _ _ Hi'), Ht. done.
Qed.

(** Operations that a program may make on a process object, in any order. *)
Inductive child_op := OpWaitable | OpWait (nonblocking : bool) | OpSignal (sig : Z) | OpResume.

Definition child_exec (op : child_op) (x : ChildProcess * OS) : outcome (ChildProcess * OS) :=
  let (c, o) := x in
  match op with
  | OpWaitable => let* (_, o) := waitable c o in Ok (c, o)
  | OpWait nonblocking => wait nonblocking c o
  | OpSignal sig => let* o := signal sig c o in Ok (c, o)
  | OpResume => let* o := resume c o in Ok (c, o)
  end.

Fixpoint child_run (ops : list child_op) (x : ChildProcess * OS) : outcome (ChildProcess * OS) :=
  match ops with
  | [] => Ok x
  | op :: ops => let* x := child_exec op x in child_run ops x
  end.

(** The ways an operation may fail: it asks a terminated process to change, or
    does not find the change it was told to take. *)
Definition child_fault (e : fault) : Prop :=
  e = AssertFail "!terminated_" \/ e = Throw "nonblocking wait: process was not waitable".

Definition op_ok (op : child_op) : Prop := match op with OpSignal sig => 0 < sig <= 64 | _ => True end.

Lemma child_exec_ok op c (o : OS) : moved_away_ c = false -> child_inv c o -> op_ok op ->
  match child_exec op (c, o) with
  | Ok (c', o') => moved_away_ c' = false /\ child_inv c' o' /\ pid_ c' = pid_ c /\
      (terminated_ c = true -> c' = c /\ o' = o)
  | Err e => child_fault e
  end.
Proof.
  intros Hm Hi Hop. destruct op as [|nonblocking|sig|]; cbn [child_exec].
  - destruct (terminated_ c) eqn:Ht.
    { unfold waitable. rewrite Hm, Ht. by left. }
    destruct (waitable_ok c o Hm Hi Ht) as (b & o' & -> & Hi' & _). cbn [bind]. split; [done|]. split; [done|]. by split.
  - destruct (terminated_ c) eqn:Ht.
    { unfold wait. rewrite Hm, Ht. by left. }
    assert (Hw : exists si o', sys_waitid (pid_ c) nonblocking false siginfo_zero o = (0, si, o') /\
      (reported (pid_ c) si o o' \/ nonblocking = true /\ si_pid si = 0)).
    { destruct nonblocking.
      - destruct (waitid_nothing (pid_ c) siginfo_zero o) as (si & o' & E & H); [by apply Hi|]. exists si, o'.
        split; [done|]. destruct H as [H|[H _]]; auto.
      - destruct (waitid_blocking (pid_ c) siginfo_zero o) as (si & o' & E & H); [by apply Hi|]. exists si, o'. auto. }
    destruct Hw as (si & o' & E & [Hr|[-> H0]]).
    + destruct (wait_reported nonblocking c o si o' Hm Hi Ht E Hr) as (c' & -> & _ & Hi' & _ & Hp & Hm').
      split; [done|]. split; [done|]. by split.
    + unfold wait. rewrite Hm, Ht, E, SystemCall_Ok by lia. cbn [negb bind]. rewrite H0. by right.
  - destruct (signal_ok sig c o Hm Hi Hop) as (o' & E & Hi' & _). rewrite E. cbn [bind]. split; [done|].
    split; [done|]. split; [done|]. intros Ht. unfold signal in E. rewrite Hm, Ht in E. cbn [negb] in E. by simplify_eq.
  - destruct (resume_ok c o Hm Hi) as (o' & E & Hi' & _). rewrite E. cbn [bind]. split; [done|].
    split; [done|]. split; [done|]. intros Ht. unfold resume, signal in E. rewrite Hm, Ht in E. cbn [negb] in E.
    destruct (running_ c); by simplify_eq.
Qed.

(** Whatever a program does with a process object (of a process that it may
    signal), the object never makes a system call about a process that has been
    reaped: no call fails with a [unix_error], and once the termination has been seen neither the object nor
    the system changes any more. *)
Theorem child_operations_safe (ops : list child_op) c (o : OS) : moved_away_ c = false -> child_inv c o ->
  Forall op_ok ops ->
  match child_run ops (c, o) with
  | Ok (c', o') => child_inv c' o' /\ pid_ c' = pid_ c /\ (terminated_ c = true -> c' = c /\ o' = o)
  | Err e => child_fault e
  end.
Proof.
  intros Hm Hi Hops. revert c o Hm Hi. induction Hops as [|op ops Hop _ IH]; intros c o Hm Hi; cbn [child_run]; [by split|].
  pose proof (child_exec_ok op c o Hm Hi Hop) as He. destruct (child_exec op (c, o)) as [[c1 o1]|e]; cbn [bind]; [|done].
  destruct He as (Hm1 & Hi1 & Hp1 & Ht1). specialize (IH c1 o1 Hm1 Hi1).
  destruct (child_run ops (c1, o1)) as [[c2 o2]|e]; [|done]. destruct IH as (Hi2 & Hp2 & Ht2).
  split; [done|]. split; [congruence|]. intros Ht. destruct (Ht1 Ht) as [-> ->]. by apply Ht2.
Qed.
End Facts.

(** * A process table

    A process is the list of the stops ([true]) and continuations ([false]) it
    still goes through before the hangup signal kills it, or the exit with its
    status; [None] when reaped. *)

Module ProcessTable.
Record fate_of := { stops : list bool; exits_with : option Z }.
Definition Table : Type := Z -> option fate_of.

Definition set_proc (pid : Z) (v : option fate_of) (t : Table) : Table := fun p => if p =? pid then v else t p.

Definition info (pid code status : Z) : siginfo :=
  {| si_signo := SIGCHLD; si_pid := pid; si_code := code; si_status := i32 status |}.

Definition next_change (pid : Z) (f : fate_of) : siginfo * option fate_of :=
  match stops f with
  | s :: l => (info pid (if s : bool then CLD_STOPPED else CLD_CONTINUED) (if s then SIGSTOP else SIGCONT),
               Some {| stops := l; exits_with := exits_with f |})
  | [] => (match exits_with f with
           | Some status => info pid CLD_EXITED status
           | None => info pid CLD_KILLED SIGHUP
           end, None)
  end.

#[export] Instance table_kernel : ProcessKernel Table := {
  sys_waitid := fun pid _ nowait si t =>
    match t pid with
    | None => (-1, si, t)
    | Some f => let (si, v) := next_change pid f in (0, si, if nowait : bool then t else set_proc pid v t)
    end;
  sys_kill := fun pid _ t => (match t pid with None => -1 | Some _ => 0 end, t);
  sys_raise := fun _ t => (0, t);
  sys_stat_task := fun t => (0, 3, t);
  sys_clone := fun _ t => (2, t);
}.

Lemma next_change_ok pid f : change_ok pid (fst (next_change pid f)).
Proof.
  unfold change_ok, next_change. destruct f as [[|[] l] [st|]]; cbn -[i32];
    (split; [done|]; split; [done|]; split; [apply i32_range|]); rewrite !elem_of_cons; tauto.
Qed.

Lemma set_proc_other pid v t p : p <> pid -> set_proc pid v t p = t p.
Proof. intros H. unfold set_proc. by destruct (Z.eqb_spec p pid). Qed.

Lemma set_proc_same pid v t : set_proc pid v t pid = v.
Proof. unfold set_proc. by rewrite Z.eqb_refl. Qed.

Definition alive (pid : Z) (t : Table) : Prop := is_Some (t pid).
Definition length_of_fate (pid : Z) (t : Table) : nat := match t pid with Some f => S (length (stops f)) | None => 0 end.

Lemma table_reports pid si nohang t : alive pid t ->
  exists si' t', sys_waitid pid nohang false si t = (0, si', t') /\
    change_ok pid si' /\ (forall p, p <> pid -> (alive p t <-> alive p t') /\ (alive p t -> alive p t') /\ (length_of_fate p t' <= length_of_fate p t)%nat) /\
    (dead si' = false -> alive pid t' /\ (length_of_fate pid t' < length_of_fate pid t)%nat) /\
    (dead si' = true -> ~ alive pid t').
Proof.
  intros [f E]. cbn [sys_waitid table_kernel]. rewrite E. pose proof (next_change_ok pid f) as Hok.
  destruct (next_change pid f) as [si' v] eqn:En. eexists _, _. split; [done|]. split; [done|]. split.
  { intros p Hp. unfold alive, length_of_fate. by rewrite set_proc_other. }
  unfold alive, length_of_fate. rewrite set_proc_same, E. unfold next_change in En.
  destruct f as [[|s l] ex]; cbn [stops exits_with] in *.
  - destruct ex; simplify_eq; (split; [done|]; intros _; by intros [? ?]).
  - simplify_eq. cbn [stops length]. split; [|by destruct s]. intros _. split; [by eexists|lia].
Qed.

#[export] Program Instance table_laws : ChildLaws Table := {
  unreaped := alive;
  has_change := alive;
  fate := length_of_fate;
  signalable _ := True;
}.
Next Obligation. intros pid si t H. by apply table_reports. Qed.
Next Obligation. intros pid si t H _. by apply table_reports. Qed.
Next Obligation.
  intros pid si t H. destruct (table_reports pid si true t H) as (si' & t' & E & Hr). exists si', t'. auto.
Qed.
Next Obligation.
  intros pid si t [f E]. cbn. rewrite E. pose proof (next_change_ok pid f) as (_ & Hp & _).
  destruct (next_change pid f) as [si' v]. exists si', t. split; [done|]. split; [by eexists|]. split; [lia|].
  split; [done|]. right. split; [done|]. by eexists.
Qed.
Next Obligation.
  intros pid sig t _ [f E] _. cbn. rewrite E. exists t. split; [done|]. split; [by eexists|]. by split; [lia|].
Qed.
Next Obligation. intros sig t. by eexists _, _. Qed.

(** A shell that is stopped once before the hangup ends it. *)
Definition shell : ChildProcess :=
  {| name_ := "shell"; pid_ := 7; running_ := true; terminated_ := false; exit_status_ := 0;
     died_on_signal_ := false; graceful_termination_signal_ := SIGHUP; moved_away_ := false |}.
Definition shell_table : Table := fun p => if p =? 7 then Some {| stops := [true]; exits_with := None |} else None.

Lemma shell_inv : child_inv shell shell_table.
Proof. split; try done. split; [done|]. intros _. by eexists. Qed.

Lemma destructor_reaps_witness :
  exists c' o', child_destroy 3 shell shell_table = Ok (c', o') /\ terminated_ c' = true /\ ~ unreaped 7 o' /\
    (forall p, p <> 7 -> (unreaped p shell_table <-> unreaped p o')) /\ (false = true -> c' = shell /\ o' = shell_table).
Proof. apply (destructor_reaps 2 shell shell_table); [done|apply shell_inv|by apply Nat.leb_le]. Defined.

(** A process table of another user: [kill] fails with [EPERM]. *)
Definition foreign_kernel : ProcessKernel Table := {|
  sys_waitid := sys_waitid; sys_kill := fun _ _ t => (-1, t); sys_raise := sys_raise;
  sys_stat_task := sys_stat_task; sys_clone := sys_clone |}.

(** The destructor prints that exception and leaves the child as it is. *)
Lemma unsignalable_child_left :
  match @child_destroy Table foreign_kernel 3 shell shell_table with
  | Ok (c, t) => negb (terminated_ c) && match t 7 with Some _ => true | None => false end
  | Err _ => false
  end = true.
Proof. vm_compute. reflexivity. Qed.

Lemma child_operations_safe_witness :
  match child_run [OpWaitable; OpWait true; OpResume; OpSignal SIGTERM; OpWait false] (shell, shell_table) with
  | Ok (c', o') => child_inv c' o' /\ pid_ c' = 7 /\ (false = true -> c' = shell /\ o' = shell_table)
  | Err e => child_fault e
  end.
Proof.
  apply (child_operations_safe [OpWaitable; OpWait true; OpResume; OpSignal SIGTERM; OpWait false] shell shell_table);
    [done|apply shell_inv|]. repeat constructor; unfold SIGTERM; lia.
Defined.

(** That run ends with the shell killed by the hangup. *)
Example shell_run_ends :
  match child_run [OpWaitable; OpWait true; OpResume; OpSignal SIGTERM; OpWait false] (shell, shell_table) with
  | Ok (c', _) => terminated_ c' && died_on_signal_ c' && (exit_status_ c' =? SIGHUP)
  | Err _ => false
  end = true.
Proof. reflexivity. Qed.
End ProcessTable.
