(* ===== verification/Privileges.v ===== *)
(** User and group identities: [drop_privileges], [TemporarilyUnprivileged],
    [assert_not_root] and [check_requirements] (src/util/util.hh/.cc).

    The programs are installed setuid root.  The class [CredKernel] is the
    system's side of the identities and [CredLaws] the rules of setreuid(2),
    seteuid(2) and credentials(7). *)
From S2P Require Import Prelude FileDescriptor.

Class CredKernel (OS : Type) := {
  sys_getuid : OS -> Z;
  sys_geteuid : OS -> Z;
  sys_getgid : OS -> Z;
  sys_getegid : OS -> Z;
  sys_seteuid : Z -> OS -> Z * OS;
  sys_setegid : Z -> OS -> Z * OS;
  sys_setreuid : Z -> Z -> OS -> Z * OS;
  sys_setregid : Z -> Z -> OS -> Z * OS;
}.

(** [open( path, O_RDONLY )] *)
Class OpenKernel (OS : Type) := sys_open : string -> OS -> Z * OS.

Definition quote_mark : string := String (Ascii.ascii_of_nat 34) "".

(** * Operations *)

Record TemporarilyUnprivileged := { orig_euid : Z; orig_egid : Z }.

Section Operations.
Context {OS : Type} {cred : CredKernel OS}.

Definition assert_not_root (o : OS) : outcome unit :=
  if (sys_geteuid o =? 0) || (sys_getegid o =? 0)
  then Err (Throw "BUG: privileges not dropped in sensitive region")
  else Ok tt.

Definition drop_privileges (o : OS) : outcome OS :=
  let real_gid := sys_getgid o in let eff_gid := sys_getegid o in
  let real_uid := sys_getuid o in let eff_uid := sys_geteuid o in
  (* change real group id if necessary *)
  let* o :=
    if negb (real_gid =? eff_gid) then
      let (r, o) := sys_setregid real_gid real_gid o in
      let* _ := SystemCall "setregid" r in Ok o
    else Ok o in
  (* change real user id if necessary *)
  let* o :=
    if negb (real_uid =? eff_uid) then
      let (r, o) := sys_setreuid real_uid real_uid o in
      let* _ := SystemCall "setreuid" r in Ok o
    else Ok o in
  (* verify that the changes were successful. if not, abort *)
  let* o :=
    if negb (real_gid =? eff_gid) then
      let (r, o) := sys_setegid eff_gid o in
      if negb (r =? -1) || negb (sys_getegid o =? real_gid) then Err (ProcessExit 1) else Ok o
    else Ok o in
  if negb (real_uid =? eff_uid) then
    let (r, o) := sys_seteuid eff_uid o in
    if negb (r =? -1) || negb (sys_geteuid o =? real_uid) then Err (ProcessExit 1) else Ok o
  else Ok o.

(** The constructor of [TemporarilyUnprivileged]. *)
Definition unprivileged_enter (o : OS) : outcome (TemporarilyUnprivileged * OS) :=
  let tu := {| orig_euid := sys_geteuid o; orig_egid := sys_getegid o |} in
  let (r, o) := sys_setegid (sys_getgid o) o in
  let* _ := SystemCall "setegid" r in
  let (r, o) := sys_seteuid (sys_getuid o) o in
  let* _ := SystemCall "seteuid" r in
  let* _ := assert_not_root o in
  Ok (tu, o).

(** An exception that leaves a destructor ends the program. *)
Definition in_destructor {A} (m : outcome A) : outcome A :=
  match m with
  | Err e => if caught_as_exception e then Err (Terminates "exception in a destructor") else Err e
  | Ok a => Ok a
  end.

(** The destructor of [TemporarilyUnprivileged]. *)
Definition unprivileged_leave (tu : TemporarilyUnprivileged) (o : OS) : outcome OS :=
  in_destructor
    (let (r, o) := sys_seteuid (orig_euid tu) o in
     let* _ := SystemCall "seteuid" r in
     let (r, o) := sys_setegid (orig_egid tu) o in
     let* _ := SystemCall "setegid" r in
     Ok o).

Context {kernel : Kernel OS} {opener : OpenKernel OS}.

(** [environ_set]: [environ] is not null. *)
Definition check_requirements (argc : Z) (argv0 : string) (environ_set : bool) (o : OS) : outcome OS :=
  if argc <=? 0 then Err (Throw "missing argv[ 0 ]: argc <= 0")
  else
    (* verify normal fds are present (stderr hasn't been closed) *)
    let (r, o) := sys_open "/dev/null" o in
    let* n := SystemCall "open /dev/null" r in
    let* (f, o) := fd_new n o in
    let o := fd_destroy f o in
    (* verify running as euid root, but not ruid root *)
    if negb (sys_geteuid o =? 0) then Err (Throw (argv0 +:+ ": needs to be installed setuid root"))
    else if (sys_getuid o =? 0) || (sys_getgid o =? 0) then Err (Throw (argv0 +:+ ": please run as non-root"))
    (* verify environment has been cleared *)
    else if environ_set then Err (Throw "BUG: environment not cleared in sensitive region")
    else
      (* verify IP forwarding is enabled *)
      let (r, o) := sys_open "/proc/sys/net/ipv4/ip_forward" o in
      let* n := SystemCall "open /proc/sys/net/ipv4/ip_forward" r in
      let* (ipf, o) := fd_new n o in
      let* (c, ipf, o) := read BUFFER_SIZE ipf o in
      if negb (bool_decide (c = [Byte.x31; Byte.x0a])) then
        Err (Throw (argv0 +:+ ": Please run " +:+ quote_mark +:+ "sudo sysctl -w net.ipv4.ip_forward=1"
                            +:+ quote_mark +:+ " to enable IP forwarding"))
      else Ok (fd_destroy ipf o).

End Operations.

(** * Laws *)

(** Real, effective and saved identity. *)
Record ids := { real_id : Z; effective_id : Z; saved_id : Z }.

Definition set_effective (v : Z) (i : ids) : ids := {| real_id := real_id i; effective_id := v; saved_id := saved_id i |}.
Definition all_ids (v : Z) : ids := {| real_id := v; effective_id := v; saved_id := v |}.
Definition one_of (v : Z) (i : ids) : bool := (v =? real_id i) || (v =? effective_id i) || (v =? saved_id i).

Definition real_or_effective (v : Z) (i : ids) : bool := (v =? real_id i) || (v =? effective_id i).

(** The rules of credentials(7): a process whose effective user is root may set
    any identity; another may only switch its effective identity among its three,
    and set its real one to its real or effective one.  Setting the real identity
    sets the saved one. *)
Class CredLaws (OS : Type) `{CredKernel OS} := {
  uids : OS -> ids;
  gids : OS -> ids;
  privileged (o : OS) : bool := effective_id (uids o) =? 0;
  getuid_spec o : sys_getuid o = real_id (uids o);
  geteuid_spec o : sys_geteuid o = effective_id (uids o);
  getgid_spec o : sys_getgid o = real_id (gids o);
  getegid_spec o : sys_getegid o = effective_id (gids o);
  seteuid_spec v o : exists r o', sys_seteuid v o = (r, o') /\ gids o' = gids o /\
    if privileged o || one_of v (uids o)
    then r = 0 /\ uids o' = set_effective v (uids o) else r = -1 /\ uids o' = uids o;
  setegid_spec v o : exists r o', sys_setegid v o = (r, o') /\ uids o' = uids o /\
    if privileged o || one_of v (gids o)
    then r = 0 /\ gids o' = set_effective v (gids o) else r = -1 /\ gids o' = gids o;
  setreuid_spec v o : exists r o', sys_setreuid v v o = (r, o') /\ gids o' = gids o /\
    if privileged o || real_or_effective v (uids o)
    then r = 0 /\ uids o' = all_ids v else r = -1 /\ uids o' = uids o;
  setregid_spec v o : exists r o', sys_setregid v v o = (r, o') /\ uids o' = uids o /\
    if privileged o || real_or_effective v (gids o)
    then r = 0 /\ gids o' = all_ids v else r = -1 /\ gids o' = gids o;
}.

Section Facts.
Context {OS : Type} {cred : CredKernel OS} {laws : CredLaws OS}.

(** As [exec] leaves a set-user-ID program: the saved identities are the
    effective ones. *)
Definition after_exec (o : OS) : Prop :=
  saved_id (uids o) = effective_id (uids o) /\ saved_id (gids o) = effective_id (gids o).

Lemma ids_eq v i : real_id i = v -> effective_id i = v -> saved_id i = v -> i = all_ids v.
Proof. destruct i. cbn. by intros -> -> ->. Qed.

Lemma not_root_spec o : effective_id (uids o) <> 0 -> effective_id (gids o) <> 0 -> assert_not_root o = Ok tt.
Proof.
  intros Hu Hg. unfold assert_not_root. rewrite geteuid_spec, getegid_spec.
  by apply Z.eqb_neq in Hu as ->; apply Z.eqb_neq in Hg as ->.
Qed.

(** The first half of [drop_privileges]. *)
Lemma drop_gid o : after_exec o -> exists o',
  (if negb (sys_getgid o =? sys_getegid o) then
      let (r, o) := sys_setregid (sys_getgid o) (sys_getgid o) o in
      let* _ := SystemCall "setregid" r in Ok o
    else Ok o) = Ok o' /\ uids o' = uids o /\ gids o' = all_ids (real_id (gids o)).
Proof.
  intros [_ Hg]. rewrite getgid_spec, getegid_spec. destruct (Z.eqb_spec (real_id (gids o)) (effective_id (gids o))) as [E|E].
  - exists o. split; [done|]. split; [done|]. apply ids_eq; congruence.
  - destruct (setregid_spec (real_id (gids o)) o) as (r & o' & -> & Hu & H). unfold real_or_effective in H. rewrite Z.eqb_refl, orb_true_r in H.
    destruct H as [-> H]. exists o'. by rewrite SystemCall_Ok by lia.
Qed.

Lemma drop_uid o u eff : real_id (uids o) = u -> effective_id (uids o) = eff -> saved_id (uids o) = eff -> exists o',
  (if negb (u =? eff) then
      let (r, o) := sys_setreuid u u o in
      let* _ := SystemCall "setreuid" r in Ok o
    else Ok o) = Ok o' /\ gids o' = gids o /\ uids o' = all_ids u.
Proof.
  intros Hr He Hs. destruct (Z.eqb_spec u eff) as [->|E].
  - exists o. split; [done|]. split; [done|]. by apply ids_eq.
  - destruct (setreuid_spec u o) as (r & o' & -> & Hg & H). unfold real_or_effective in H. rewrite Hr, Z.eqb_refl, orb_true_r in H.
    destruct H as [-> H]. exists o'. by rewrite SystemCall_Ok by lia.
Qed.

(** Without privilege, an identity that is none of the three cannot be taken. *)
Lemma no_return_uid o u v : uids o = all_ids u -> u <> 0 -> v <> u -> exists o', sys_seteuid v o = (-1, o') /\
  uids o' = uids o /\ gids o' = gids o.
Proof.
  intros E Hu Hv. destruct (seteuid_spec v o) as (r & o' & Es & Hg & H). unfold privileged, one_of in H. rewrite E in H. cbn in H.
  apply Z.eqb_neq in Hu. apply Z.eqb_neq in Hv. rewrite Hu, Hv in H. cbn in H. destruct H as [-> H].
  exists o'. rewrite E. auto.
Qed.

Lemma no_return_gid o u g v : uids o = all_ids u -> gids o = all_ids g -> u <> 0 -> v <> g ->
  exists o', sys_setegid v o = (-1, o') /\ uids o' = uids o /\ gids o' = gids o.
Proof.
  intros E Eg Hu Hv. destruct (setegid_spec v o) as (r & o' & Es & Hg & H). unfold privileged, one_of in H.
  rewrite E, Eg in H. cbn in H. apply Z.eqb_neq in Hu. apply Z.eqb_neq in Hv. rewrite Hu, Hv in H. cbn in H.
  destruct H as [-> H]. exists o'. rewrite Eg. auto.
Qed.

Lemma drop_privileges_ok (o : OS) : after_exec o -> real_id (uids o) <> 0 ->
  exists o', drop_privileges o = Ok o' /\ uids o' = all_ids (real_id (uids o)) /\ gids o' = all_ids (real_id (gids o)).
Proof.
  intros Ha Hr. unfold drop_privileges. destruct (drop_gid o Ha) as (o1 & -> & Hu1 & Hg1). cbn [bind].
  rewrite getuid_spec, geteuid_spec, getgid_spec, getegid_spec.
  set (u := real_id (uids o)) in *. set (g := real_id (gids o)) in *.
  destruct (drop_uid o1 u (effective_id (uids o))) as (o2 & -> & Hg2 & Hu2);
    [by rewrite Hu1|by rewrite Hu1|rewrite Hu1; apply Ha|]. cbn [bind]. rewrite Hg1 in Hg2.
  assert (H3 : exists o3,
    (if negb (g =? effective_id (gids o)) then
      let (r, o) := sys_setegid (effective_id (gids o)) o2 in
      if negb (r =? -1) || negb (sys_getegid o =? g) then Err (ProcessExit 1) else Ok o
    else Ok o2) = Ok o3 /\ uids o3 = all_ids u /\ gids o3 = all_ids g).
  { destruct (Z.eqb_spec g (effective_id (gids o))) as [|E]; [by exists o2|]. cbn [negb].
    destruct (no_return_gid o2 u g (effective_id (gids o))) as (o3 & -> & Hu3 & Hg3); try done.
    rewrite getegid_spec, Hg3, Hg2. cbn. rewrite Z.eqb_refl. exists o3. split; [done|]. split; congruence. }
  destruct H3 as (o3 & -> & Hu3 & Hg3). cbn [bind].
  destruct (Z.eqb_spec u (effective_id (uids o))) as [|E]; cbn [negb]; [by exists o3|].
  destruct (no_return_uid o3 u (effective_id (uids o))) as (o4 & -> & Hu4 & Hg4); try done.
  rewrite geteuid_spec, Hu4, Hu3. cbn. rewrite Z.eqb_refl. exists o4. split; [done|]. split; congruence.
Qed.

(** The scope of [TemporarilyUnprivileged]: its beginning and its end. *)
Lemma unprivileged_enter_ok (o : OS) : real_id (uids o) <> 0 -> real_id (gids o) <> 0 ->
  exists o1, unprivileged_enter o = Ok ({| orig_euid := effective_id (uids o); orig_egid := effective_id (gids o) |}, o1) /\
    uids o1 = set_effective (real_id (uids o)) (uids o) /\ gids o1 = set_effective (real_id (gids o)) (gids o).
Proof.
  intros Hu Hg. unfold unprivileged_enter. rewrite getgid_spec, geteuid_spec, getegid_spec.
  destruct (setegid_spec (real_id (gids o)) o) as (r & o1 & -> & Hu1 & H1).
  unfold one_of in H1. rewrite Z.eqb_refl, orb_true_r in H1. destruct H1 as [-> H1].
  rewrite SystemCall_Ok by lia. cbn [bind]. rewrite getuid_spec, Hu1.
  destruct (seteuid_spec (real_id (uids o)) o1) as (r & o2 & -> & Hg2 & H2).
  unfold one_of in H2. rewrite Hu1, Z.eqb_refl, orb_true_r in H2. destruct H2 as [-> H2].
  rewrite SystemCall_Ok by lia. cbn [bind]. rewrite not_root_spec by (rewrite ?Hg2, ?H2, ?H1; done). cbn [bind].
  exists o2. split; [done|]. split; congruence.
Qed.

Lemma unprivileged_leave_ok (u g : ids) (o : OS) : saved_id u = effective_id u -> saved_id g = effective_id g ->
  uids o = set_effective (real_id u) u -> gids o = set_effective (real_id g) g ->
  exists o', unprivileged_leave {| orig_euid := effective_id u; orig_egid := effective_id g |} o = Ok o' /\
    uids o' = u /\ gids o' = g.
Proof.
  intros Hsu Hsg Hu Hg. unfold unprivileged_leave. cbn [orig_euid orig_egid].
  destruct (seteuid_spec (effective_id u) o) as (r & o1 & -> & Hg1 & H1).
  unfold one_of in H1. rewrite Hu in H1. cbn [set_effective real_id effective_id saved_id] in H1. rewrite Hsu in H1.
  rewrite Z.eqb_refl, !orb_true_r in H1. destruct H1 as [-> H1]. rewrite SystemCall_Ok by lia. cbn [bind].
  destruct (setegid_spec (effective_id g) o1) as (r & o2 & -> & Hu2 & H2).
  unfold one_of in H2. rewrite Hg1, Hg in H2. cbn [set_effective real_id effective_id saved_id] in H2. rewrite Hsg in H2.
  rewrite Z.eqb_refl, !orb_true_r in H2. destruct H2 as [-> H2]. rewrite SystemCall_Ok by lia. cbn [bind in_destructor].
  exists o2. split; [done|]. rewrite Hu2, H1, H2. destruct u, g. cbn in *. by subst.
Qed.

(** C37: [drop_privileges] gives up every identity but the real one, for good:
    in a program started set-user-ID or set-group-ID by a user other than root,
    it succeeds, its own verification passes, and afterwards no [seteuid] or
    [setegid] to another identity does. *)
Theorem drop_privileges_permanent (o : OS) : after_exec o -> real_id (uids o) <> 0 ->
  exists o', drop_privileges o = Ok o' /\
    uids o' = all_ids (real_id (uids o)) /\ gids o' = all_ids (real_id (gids o)) /\
    (forall v, v <> real_id (uids o) -> (sys_seteuid v o').1 = -1) /\
    (forall v, v <> real_id (gids o) -> (sys_setegid v o').1 = -1).
Proof.
  intros Ha Hr. destruct (drop_privileges_ok o Ha Hr) as (o' & E & Hu & Hg). exists o'. split; [done|].
  split; [done|]. split; [done|]. split; intros v Hv.
  - by destruct (no_return_uid o' _ v Hu Hr Hv) as (? & -> & _).
  - by destruct (no_return_gid o' _ _ v Hu Hg Hr Hv) as (? & -> & _).
Qed.

(** [TemporarilyUnprivileged] runs its scope with the real identities,
    which are not root's, and gives back exactly the identities there were: the
    user first, since the group can only be taken back with privilege. *)
Theorem temporarily_unprivileged (o : OS) : after_exec o -> real_id (uids o) <> 0 -> real_id (gids o) <> 0 ->
  exists tu o1, unprivileged_enter o = Ok (tu, o1) /\
    effective_id (uids o1) = real_id (uids o) /\ effective_id (gids o1) = real_id (gids o) /\
    forall o2, uids o2 = uids o1 -> gids o2 = gids o1 ->
      exists o3, unprivileged_leave tu o2 = Ok o3 /\ uids o3 = uids o /\ gids o3 = gids o.
Proof.
  intros [Hsu Hsg] Hu Hg. destruct (unprivileged_enter_ok o Hu Hg) as (o1 & E & Hu1 & Hg1).
  eexists _, o1. split; [exact E|]. rewrite Hu1, Hg1. split; [done|]. split; [done|].
  intros o2 Hu2 Hg2. by apply unprivileged_leave_ok.
Qed.
End Facts.

(** * A system that keeps the identities *)

Module Setuid.
Record Creds := { users : ids; groups : ids }.

Definition root (c : Creds) : bool := effective_id (users c) =? 0.

#[export] Instance setuid_kernel : CredKernel Creds := {
  sys_getuid c := real_id (users c);
  sys_geteuid c := effective_id (users c);
  sys_getgid c := real_id (groups c);
  sys_getegid c := effective_id (groups c);
  sys_seteuid v c := if root c || one_of v (users c)
    then (0, {| users := set_effective v (users c); groups := groups c |}) else (-1, c);
  sys_setegid v c := if root c || one_of v (groups c)
    then (0, {| users := users c; groups := set_effective v (groups c) |}) else (-1, c);
  sys_setreuid v _ c := if root c || real_or_effective v (users c)
    then (0, {| users := all_ids v; groups := groups c |}) else (-1, c);
  sys_setregid v _ c := if root c || real_or_effective v (groups c)
    then (0, {| users := users c; groups := all_ids v |}) else (-1, c);
}.

#[export] Program Instance setuid_laws : CredLaws Creds := { uids := users; gids := groups }.
Next Obligation. done. Qed.
Next Obligation. done. Qed.
Next Obligation. done. Qed.
Next Obligation. done. Qed.
Next Obligation. intros v c. cbn. fold (root c). destruct (root c || one_of v (users c)); eexists _, _; by repeat split. Qed.
Next Obligation. intros v c. cbn. fold (root c). destruct (root c || one_of v (groups c)); eexists _, _; by repeat split. Qed.
Next Obligation. intros v c. cbn. fold (root c). destruct (root c || real_or_effective v _); eexists _, _; by repeat split. Qed.
Next Obligation. intros v c. cbn. fold (root c). destruct (root c || real_or_effective v _); eexists _, _; by repeat split. Qed.

(** User 1000 runs the program installed set-user-ID root. *)
Definition started : Creds :=
  {| users := {| real_id := 1000; effective_id := 0; saved_id := 0 |}; groups := all_ids 1000 |}.

Lemma drop_privileges_permanent_witness :
  exists o', drop_privileges started = Ok o' /\
    users o' = all_ids 1000 /\ groups o' = all_ids 1000 /\
    (forall v, v <> 1000 -> (sys_seteuid v o').1 = -1) /\ (forall v, v <> 1000 -> (sys_setegid v o').1 = -1).
Proof. apply (drop_privileges_permanent (laws := setuid_laws) started); [by split|done]. Defined.

Lemma temporarily_unprivileged_witness :
  exists tu o1, unprivileged_enter started = Ok (tu, o1) /\
    effective_id (users o1) = 1000 /\ effective_id (groups o1) = 1000 /\
    forall o2, users o2 = users o1 -> groups o2 = groups o1 ->
      exists o3, unprivileged_leave tu o2 = Ok o3 /\ users o3 = users started /\ groups o3 = groups started.
Proof. apply (temporarily_unprivileged (laws := setuid_laws) started); [by split|done|done]. Defined.
End Setuid.
