(* ===== verification/Address.v ===== *)
(** Socket addresses: src/util/address.hh/.cc.

    The name functions of the C library are the class [NameFunctions]; what the
    program relies on, that numbers are read and printed as such, is
    [NumericNames].  A [sockaddr_in] is its 16 bytes on a little-endian machine
    with the port and the IP address in network order. *)
From Stdlib Require Import String Ascii.
From S2P Require Import Prelude Ezio PacketHeader.

(** * The C library *)

(** [getaddrinfo] and [getnameinfo]: an error code that is not 0, or the result:
    the socket addresses found, and the host and service of one. *)
Class NameFunctions := {
  getaddrinfo : string -> string -> bool -> Z + list bytes;
  getnameinfo : bytes -> Z + string * string;
}.

(** * State *)

Record Address := { size_ : Z; addr_ : bytes }.

(** [sizeof( addr_ )], a [sockaddr_storage], and [sizeof( sockaddr_in )]. *)
Definition RAW_SIZE : Z := 128.
Definition SOCKADDR_IN_SIZE : Z := 16.

(** The zeroed member after [memcpy( &addr_, &addr, size_ )]. *)
Definition copied (addr : bytes) (size : Z) : bytes :=
  take (Z.to_nat size) addr ++ repeat Byte.x00 (Z.to_nat (RAW_SIZE - size)).

(** From a [sockaddr] with the bytes [addr] in memory. *)
Definition address_of_sockaddr (addr : bytes) (size : Z) : outcome Address :=
  if RAW_SIZE <? size then Err (Throw "invalid sockaddr size")
  else if len addr <? size then Err (UndefinedBehaviour "memcpy beyond the address")
  else Ok {| size_ := u32 size; addr_ := copied addr (u32 size) |}.

(** From a [sockaddr_in]. *)
Definition address_of_sockaddr_in (addr : bytes) : outcome Address := address_of_sockaddr addr SOCKADDR_IN_SIZE.

Section Operations.
Context {names : NameFunctions}.

(** The private constructor; of the hints, whether only numbers are allowed. *)
Definition address_resolve (node service : string) (numeric : bool) : outcome Address :=
  match getaddrinfo node service numeric with
  | inl _ => Err (UnixError ("getaddrinfo(" +:+ node +:+ ":" +:+ service +:+ ", numeric)"))
  | inr [] => Err (Throw "getaddrinfo returned successfully but with no results")
  | inr (a :: _) => address_of_sockaddr a (len a)
  end.

(** construct by resolving host name and service name *)
Definition address_of_names (hostname service : string) : outcome Address := address_resolve hostname service false.

(** construct with numerical IP address and numeral port number *)
Definition address_of_numbers (ip : string) (port : Z) : outcome Address := address_resolve ip (print_nonneg port) true.

Definition address_default : outcome Address := address_of_numbers "0" 0.

Definition ip_port (a : Address) : outcome (string * Z) :=
  match getnameinfo (take (Z.to_nat (size_ a)) (addr_ a)) with
  | inl _ => Err (UnixError "getnameinfo")
  | inr (ip, port) => let* p := myatoi port in Ok (ip, u16 p)
  end.

Definition ip (a : Address) : outcome string := let* x := ip_port a in Ok x.1.
Definition port (a : Address) : outcome Z := let* x := ip_port a in Ok x.2.

Definition str (a : Address) (port_separator : string) : outcome string :=
  let* (ip, port) := ip_port a in Ok (ip +:+ port_separator +:+ print_nonneg port).

(** generate carrier-grade NAT address *)
Definition cgnat (last_octet : Z) : outcome Address := address_of_numbers ("100.64.0." +:+ print_nonneg last_octet) 0.
End Operations.

(** ** Comparisons *)

(** The sign of [memcmp] of the first [n] bytes. *)
Fixpoint memcmp (n : nat) (a b : bytes) : comparison :=
  match n, a, b with
  | S n, x :: a, y :: b =>
      match Z.compare (byte_value x) (byte_value y) with Eq => memcmp n a b | c => c end
  | _, _, _ => Eq
  end.

Definition address_eqb (a b : Address) : bool :=
  match memcmp (Z.to_nat (size_ a)) (addr_ a) (addr_ b) with Eq => true | _ => false end.

Definition address_ltb (a b : Address) : bool :=
  match memcmp (Z.to_nat RAW_SIZE) (addr_ a) (addr_ b) with Lt => true | _ => false end.

(** * IPv4 addresses *)

Definition AF_INET : Z := 2.

Definition sockaddr_in (a : Z * Z * Z * Z) (port : Z) : bytes :=
  [Byte.x02; Byte.x00] ++ port_bytes port ++ addr_bytes a ++ repeat Byte.x00 8.

(** Dotted decimal addresses and decimal ports are read and printed as such,
    whatever the resolver does with other names. *)
Class NumericNames `{NameFunctions} : Prop := {
  getaddrinfo_numeric a port numeric : addr_ok a -> 0 <= port < 2 ^ 16 ->
    getaddrinfo (addr_string a) (print_nonneg port) numeric = inr [sockaddr_in a port];
  getnameinfo_numeric a port : addr_ok a -> 0 <= port < 2 ^ 16 ->
    getnameinfo (sockaddr_in a port) = inr (addr_string a, print_nonneg port);
  getaddrinfo_zero : getaddrinfo "0" "0" true = inr [sockaddr_in (0, 0, 0, 0) 0];
}.

(** The address object of an IPv4 address. *)
Definition ipv4 (a : Z * Z * Z * Z) (port : Z) : Address :=
  {| size_ := SOCKADDR_IN_SIZE; addr_ := copied (sockaddr_in a port) SOCKADDR_IN_SIZE |}.

Lemma len_sockaddr_in a p : len (sockaddr_in a p) = 16.
Proof. by destruct a as [[[? ?] ?] ?]. Qed.

Lemma address_of_ipv4 a p : address_of_sockaddr (sockaddr_in a p) 16 = Ok (ipv4 a p).
Proof. unfold address_of_sockaddr. by rewrite len_sockaddr_in. Qed.

Section Laws.
Context {names : NameFunctions} {laws : NumericNames}.

Lemma address_of_numbers_Ok a p : addr_ok a -> 0 <= p < 2 ^ 16 -> address_of_numbers (addr_string a) p = Ok (ipv4 a p).
Proof.
  intros Ha Hp. unfold address_of_numbers, address_resolve. rewrite getaddrinfo_numeric by done.
  rewrite len_sockaddr_in. apply address_of_ipv4.
Qed.

Lemma address_default_Ok : address_default = Ok (ipv4 (0, 0, 0, 0) 0).
Proof.
  unfold address_default, address_of_numbers, address_resolve. change (print_nonneg 0) with "0".
  rewrite getaddrinfo_zero, len_sockaddr_in. apply address_of_ipv4.
Qed.

Lemma ipv4_bytes a p : take (Z.to_nat (size_ (ipv4 a p))) (addr_ (ipv4 a p)) = sockaddr_in a p.
Proof. by destruct a as [[[? ?] ?] ?]. Qed.

Lemma ip_port_ipv4 a p : addr_ok a -> 0 <= p < 2 ^ 16 -> ip_port (ipv4 a p) = Ok (addr_string a, p).
Proof.
  intros Ha Hp. unfold ip_port. rewrite ipv4_bytes, getnameinfo_numeric by done.
  rewrite myatoi_print_nonneg by lia. cbn [bind]. by rewrite u16_small by lia.
Qed.

Lemma ip_ipv4 a p : addr_ok a -> 0 <= p < 2 ^ 16 -> ip (ipv4 a p) = Ok (addr_string a).
Proof. intros Ha Hp. unfold ip. by rewrite ip_port_ipv4 by done. Qed.

Lemma port_ipv4 a p : addr_ok a -> 0 <= p < 2 ^ 16 -> port (ipv4 a p) = Ok p.
Proof. intros Ha Hp. unfold port. by rewrite ip_port_ipv4 by done. Qed.

(** The carrier-grade NAT address 100.64.0.n. *)
Definition nat_address (n : Z) : Z * Z * Z * Z := (100, 64, 0, n).

Lemma nat_address_ok n : 0 <= n < 256 -> addr_ok (nat_address n).
Proof. intros H. unfold addr_ok, nat_address. lia. Qed.

Lemma cgnat_Ok n : 0 <= n < 256 -> cgnat n = Ok (ipv4 (nat_address n) 0).
Proof.
  intros H. unfold cgnat.
  change ("100.64.0." +:+ print_nonneg n) with (addr_string (nat_address n)).
  apply address_of_numbers_Ok; [by apply nat_address_ok|lia].
Qed.
End Laws.
