(* ===== verification/Interfaces.v ===== *)
(** Addresses for the emulated link: src/util/interfaces.hh/.cc.

    The shell takes two addresses of 100.64.0.0/24 that no interface and no
    route of the machine uses.  The system's interface list is the class
    [IfaddrKernel]; the routes are read from the file /proc/net/route. *)
From Stdlib Require Import String Ascii.
From S2P Require Import Prelude Ezio PacketHeader FileDescriptor ByteStreamQueue TraceLoader Privileges Address.

(** [getifaddrs]: the list, or a failure; of each interface, the address if it
    has one, as its family and its bytes. *)
Class IfaddrKernel (OS : Type) := sys_getifaddrs : OS -> option (list (option (Z * bytes))) * OS.

(** * State *)

Record Interfaces := { addresses_in_use_ : list Address }.

Definition add_address (addr : Address) (i : Interfaces) : Interfaces :=
  {| addresses_in_use_ := addresses_in_use_ i ++ [addr] |}.

(** * Reading the routes *)

(** [line.find( tab, pos )] *)
Definition find_tab (line : string) (pos : nat) : option nat := String.index pos tab line.

(** [sin_addr.s_addr = v]: the number as it lies in memory. *)
Definition little_endian32 (v : Z) : bytes :=
  [byte_of v; byte_of (v / 2 ^ 8); byte_of (v / 2 ^ 16); byte_of (v / 2 ^ 24)].

Definition route_sockaddr (v : Z) : bytes :=
  [Byte.x02; Byte.x00] ++ [Byte.x00; Byte.x00] ++ little_endian32 (u32 v) ++ repeat Byte.x00 8.

Definition parse_route (line : string) : outcome Address :=
  let dest_start := find_tab line 0 in
  let dest_end := match dest_start with Some n => find_tab line (S n) | None => find_tab line 0 (* npos + 1 *) end in
  match dest_start, dest_end with
  | Some dest_start, Some dest_end =>
      let dest_start := S dest_start in
      let len := (dest_end - dest_start)%nat in
      if negb (Nat.eqb len 8) then Err (Throw "/proc/net/route destination address: unknown format")
      else
        let dest_address := substring dest_start len line in
        let* v := myatoi_base dest_address 16 in
        address_of_sockaddr_in (route_sockaddr v)
  | _, _ => Err (Throw "/proc/net/route line: unknown format")
  end.

Fixpoint parse_routes (lines : list string) (i : Interfaces) : outcome Interfaces :=
  match lines with
  | [] => Ok i
  | line :: lines => let* a := parse_route line in parse_routes lines (add_address a i)
  end.

(** What follows the reading of the file. *)
Definition add_routes (all_routes : string) (i : Interfaces) : outcome Interfaces :=
  if String.eqb all_routes "" then Ok i (* there are no routes, so Linux does not even make a header line! *)
  else
    match lines_of all_routes with
    | header_line :: lines =>
        if String.prefix "Iface" header_line then parse_routes lines i
        else Err (Throw "/proc/net/route: unknown format")
    | [] => Err (Throw "/proc/net/route: unknown format")
    end.

(** * Operations *)

(** The addresses that [getifaddrs] finds. *)
Fixpoint add_interfaces (ifs : list (option (Z * bytes))) (i : Interfaces) : outcome Interfaces :=
  match ifs with
  | [] => Ok i
  | Some (family, addr) :: ifs =>
      if family =? AF_INET
      then let* a := address_of_sockaddr addr SOCKADDR_IN_SIZE in add_interfaces ifs (add_address a i)
      else add_interfaces ifs i
  | None :: ifs => add_interfaces ifs i
  end.

Section Operations.
Context {OS : Type} {kernel : Kernel OS} {opener : OpenKernel OS} {ifaddrs : IfaddrKernel OS}.

(** The loop [all_routes += routes.read()], until nothing is read. *)
Fixpoint read_all (fuel : nat) (f : FileDescriptor) (o : OS) (acc : bytes) : outcome (bytes * FileDescriptor * OS) :=
  match fuel with
  | O => Err Diverges
  | S fuel =>
      let* (new_chunk, f, o) := read BUFFER_SIZE f o in
      match new_chunk with [] => Ok (acc, f, o) | _ => read_all fuel f o (acc ++ new_chunk) end
  end.

(** The constructor; the descriptor is closed at its end. *)
Definition interfaces_new (fuel : nat) (o : OS) : outcome (Interfaces * OS) :=
  let (ifs, o) := sys_getifaddrs o in
  match ifs with
  | None => Err (UnixError "getifaddrs")
  | Some ifs =>
      let* i := add_interfaces ifs {| addresses_in_use_ := [] |} in
      let (r, o) := sys_open "/proc/net/route" o in
      let* n := SystemCall "open /proc/net/route" r in
      let* (routes, o) := fd_new n o in
      let* (all_routes, routes, o) := read_all fuel routes o [] in
      let* i := add_routes (string_of_list_byte all_routes) i in
      Ok (i, fd_destroy routes o)
  end.

Context {names : NameFunctions}.

Fixpoint in_use (candidate : Address) (l : list Address) : outcome bool :=
  match l with
  | [] => Ok false
  | x :: l =>
      let* a := ip candidate in
      let* b := ip x in
      if String.eqb a b then Ok true else in_use candidate l
  end.

Definition address_in_use (addr : Address) (i : Interfaces) : outcome bool := in_use addr (addresses_in_use_ i).

(** [last_octet] is a [uint16_t]: at most 256 turns. *)
Fixpoint first_unassigned (fuel : nat) (last_octet : Z) (i : Interfaces) : outcome (Address * Z) :=
  if last_octet <=? 255 then
    match fuel with
    | O => Err Diverges
    | S fuel =>
        let* candidate := cgnat last_octet in
        let* used := address_in_use candidate i in
        if negb used then
          let* p := port candidate in
          guard* p =? 0 else AssertFail "candidate.port() == 0" in
          Ok (candidate, last_octet)
        else first_unassigned fuel (u16 (last_octet + 1)) i
    end
  else Err (Throw "Interfaces: could not find free interface address").

Definition first_unassigned_address (last_octet : Z) (i : Interfaces) : outcome (Address * Z) :=
  first_unassigned 256 last_octet i.

Definition two_unassigned_addresses (fuel : nat) (avoid : Address) (o : OS) : outcome (Address * Address * OS) :=
  let* (i, o) := interfaces_new fuel o in
  let i := add_address avoid i in
  let* one := first_unassigned_address 1 i in
  let* two := first_unassigned_address (u16 (one.2 + 1)) i in
  Ok (one.1, two.1, o).
End Operations.

(** * Routes as the kernel prints them *)

Abbreviation ipaddr := (Z * Z * Z * Z)%type.

Definition le_number (a : ipaddr) : Z := let '(b0, b1, b2, b3) := a in b0 + b1 * 2 ^ 8 + b2 * 2 ^ 16 + b3 * 2 ^ 24.

Definition hex_char (k : Z) : ascii := ascii_of_nat (Z.to_nat (if k <? 10 then 48 + k else 55 + k)).

(** [%08X] *)
Fixpoint hex_digits (n : nat) (v : Z) (s : string) : string :=
  match n with O => s | S n => hex_digits n (v / 16) (String (hex_char (v mod 16)) s) end.

Definition print_hex8 (v : Z) : string := hex_digits 8 v "".

(** A line of the table: the interface, the destination and the other columns. *)
Record route := { iface : string; destination : ipaddr; columns : string }.

Definition print_route (r : route) : string :=
  iface r +:+ tab +:+ print_hex8 (le_number (destination r)) +:+ tab +:+ columns r.

Definition route_header : string := "Iface" +:+ tab +:+ "Destination" +:+ tab +:+ "Gateway".

Definition tab_char : ascii := ascii_of_nat 9.

Definition route_ok (r : route) : Prop :=
  addr_ok (destination r) /\ avoids tab_char (iface r) = true /\ avoids newline (iface r) = true /\ avoids newline (columns r) = true.

(** No routes give an empty file. *)
Definition route_file (routes : list route) : string :=
  match routes with [] => "" | _ => print_lines (route_header :: map print_route routes) end.

(** * Lemmas on strings *)

Lemma index_skip p t s : String.index (String.length p) t (p +:+ s) =
  match String.index 0 t s with Some n => Some (String.length p + n)%nat | None => None end.
Proof.
  induction p as [|c p IH]; cbn [String.length]; [change ("" +:+ s) with s; by destruct (String.index 0 t s)|].
  rewrite string_app_cons. cbn [String.index]. rewrite IH. by destruct (String.index 0 t s).
Qed.

Lemma index_tab p s : avoids tab_char p = true -> String.index 0 tab (p +:+ String tab_char s) = Some (String.length p).
Proof.
  induction p as [|c p IH]; intros H; [by destruct s|]. rewrite string_app_cons. cbn [avoids] in H.
  apply andb_true_iff in H as [Hc H]. cbn [String.index]. rewrite IH by done. unfold tab. cbn [String.prefix].
  destruct (ascii_dec (ascii_of_nat 9) c) as [<-|]; [|done]. by rewrite Ascii.eqb_refl in Hc.
Qed.

Lemma substring_skip p n s : substring (String.length p) n (p +:+ s) = substring 0 n s.
Proof. induction p as [|c p IH]; [done|]. rewrite string_app_cons. exact IH. Qed.

Lemma substring_take p s : substring 0 (String.length p) (p +:+ s) = p.
Proof. induction p as [|c p IH]; [by destruct s|]. rewrite string_app_cons. cbn. by rewrite IH. Qed.

(** ** Hexadecimal numbers *)

Lemma hex_char_cases (P : ascii -> Z -> Prop) k : 0 <= k < 16 ->
  (forall i, In i (seqZ 0 16) -> P (hex_char i) i) -> P (hex_char k) k.
Proof. intros Hk H. apply H, list_elem_of_In, elem_of_seqZ. lia. Qed.

Lemma hex_char_value k : 0 <= k < 16 -> digit_value 16 (hex_char k) = Some k.
Proof.
  intros Hk. apply (hex_char_cases (fun c i => digit_value 16 c = Some i) k Hk).
  intros i Hi. vm_compute in Hi. by repeat (destruct Hi as [<-|Hi]; [reflexivity|]).
Qed.

(** Neither a space, a sign, an [x], a tab nor a newline. *)
Definition plain (c : ascii) : bool :=
  negb (isspace c || Ascii.eqb c "-" || Ascii.eqb c "+" || Ascii.eqb c "x" || Ascii.eqb c "X" ||
        Ascii.eqb c tab_char || Ascii.eqb c newline).

Lemma hex_char_plain k : 0 <= k < 16 -> plain (hex_char k) = true.
Proof.
  intros Hk. apply (hex_char_cases (fun c _ => plain c = true) k Hk).
  intros i Hi. vm_compute in Hi. by repeat (destruct Hi as [<-|Hi]; [reflexivity|]).
Qed.

(** The digits of [v] in base 16, the first one first. *)
Fixpoint hex_list (n : nat) (v : Z) : list Z :=
  match n with O => [] | S n => hex_list n (v / 16) ++ [v mod 16] end.

Definition hex_string (l : list Z) : string := foldr (fun k s => String (hex_char k) s) "" l.

Lemma hex_string_cons k l : hex_string (k :: l) = String (hex_char k) (hex_string l).
Proof. done. Qed.

Lemma hex_digits_string n : forall v s, hex_digits n v s = hex_string (hex_list n v) +:+ s.
Proof.
  assert (Happ : forall l k s, hex_string (l ++ [k]) +:+ s = hex_string l +:+ String (hex_char k) s).
  { intros l k s. induction l as [|x l IH]; [done|]. by rewrite <- app_comm_cons, !hex_string_cons, !string_app_cons, IH. }
  induction n as [|n IH]; intros v s; [done|]. cbn [hex_digits hex_list]. by rewrite IH, Happ.
Qed.

Lemma hex_list_digits n : forall v, Forall (fun k => 0 <= k < 16) (hex_list n v).
Proof.
  induction n as [|n IH]; intros v; [constructor|]. apply Forall_app. split; [apply IH|].
  constructor; [apply Z.mod_pos_bound; lia|constructor].
Qed.

Lemma length_hex_list n v : length (hex_list n v) = n.
Proof. revert v. induction n as [|n IH]; intros v; [done|]. cbn. rewrite length_app, IH. cbn. lia. Qed.

Definition hex_value (acc : Z) (l : list Z) : Z := fold_left (fun a k => a * 16 + k) l acc.

Lemma hex_value_list n : forall v, 0 <= v < 16 ^ Z.of_nat n -> hex_value 0 (hex_list n v) = v.
Proof.
  unfold hex_value. induction n as [|n IH]; intros v Hv; [simpl in *; lia|].
  cbn [hex_list]. rewrite fold_left_app. cbn [fold_left]. rewrite IH.
  - pose proof (Z.div_mod v 16). lia.
  - rewrite Nat2Z.inj_succ, Z.pow_succ_r in Hv by lia. split; [apply Z.div_pos; lia|]. apply Z.div_lt_upper_bound; lia.
Qed.

Lemma scan_hex l : forall acc n, Forall (fun k => 0 <= k < 16) l ->
  scan_digits 16 acc n (hex_string l) = (hex_value acc l, (n + length l)%nat, "").
Proof.
  induction l as [|k l IH]; intros acc n H; [by rewrite Nat.add_0_r|]. apply Forall_cons in H as [Hk H].
  rewrite hex_string_cons. cbn [scan_digits]. rewrite hex_char_value by done. rewrite IH by done. cbn [length hex_value fold_left].
  by rewrite Nat.add_succ_r.
Qed.

Lemma strtol_hex k l : Forall (fun k => 0 <= k < 16) (k :: l) -> 0 <= hex_value 0 (k :: l) < 2 ^ 63 ->
  strtol (hex_string (k :: l)) 16 = (hex_value 0 (k :: l), false, "").
Proof.
  intros H Hv. pose proof H as [Hk Hl]%Forall_cons. pose proof (hex_char_plain k Hk) as Hp.
  unfold plain in Hp. rewrite negb_true_iff, !orb_false_iff in Hp. destruct Hp as ((((((Hsp & Hm) & Hpl) & _) & _) & _) & _).
  assert (Es : skip_spaces (hex_string (k :: l)) = hex_string (k :: l)).
  { rewrite hex_string_cons. cbn [skip_spaces]. by rewrite Hsp. }
  assert (Esg : scan_sign (hex_string (k :: l)) = (false, hex_string (k :: l))).
  { rewrite hex_string_cons. cbn [scan_sign]. by rewrite Hm, Hpl. }
  assert (Ehx : skip_hex_prefix (hex_string (k :: l)) = hex_string (k :: l)).
  { destruct l as [|k2 [|k3 l]]; [done..|]. apply Forall_cons in Hl as [Hk2 _].
    pose proof (hex_char_plain k2 Hk2) as Hp2. unfold plain in Hp2. rewrite negb_true_iff, !orb_false_iff in Hp2.
    destruct Hp2 as ((((_ & Hx) & HX) & _) & _). rewrite !hex_string_cons. cbn [skip_hex_prefix]. rewrite Hx, HX. cbn [orb].
    by rewrite andb_false_r. }
  unfold strtol. rewrite Es, Esg, Z.eqb_refl, Ehx, scan_hex by done. cbn [Nat.add length].
  case_Zbool; (done || lia).
Qed.

Lemma myatoi_hex8 v : 0 <= v < 2 ^ 32 -> myatoi_base (print_hex8 v) 16 = Ok v.
Proof.
  intros Hv. unfold print_hex8. rewrite hex_digits_string, string_app_nil. pose proof (hex_list_digits 8 v) as Hd.
  pose proof (hex_value_list 8 v ltac:(lia)) as E. destruct (hex_list 8 v) as [|k l] eqn:El; [by apply (f_equal length) in El; rewrite length_hex_list in El|].
  unfold myatoi_base. pose proof (strtol_hex k l Hd ltac:(lia)) as Es. rewrite hex_string_cons in *. by rewrite Es, E.
Qed.

(** ** Routes *)

Lemma le_number_range a : addr_ok a -> 0 <= le_number a < 2 ^ 32.
Proof. destruct a as [[[b0 b1] b2] b3]. cbn. lia. Qed.

Lemma byte_of_mod m n : m mod 256 = n mod 256 -> byte_of m = byte_of n.
Proof. unfold byte_of. by intros ->. Qed.

Lemma little_endian_number a : addr_ok a -> little_endian32 (u32 (le_number a)) = addr_bytes a.
Proof.
  intros Ha. rewrite u32_small by by apply le_number_range. destruct a as [[[b0 b1] b2] b3]. cbn in Ha.
  unfold little_endian32, addr_bytes, le_number. f_equal; [|f_equal; [|f_equal; [|f_equal]]]; apply byte_of_mod.
  - Z.div_mod_to_equations. lia.
  - Z.div_mod_to_equations. lia.
  - Z.div_mod_to_equations. lia.
  - Z.div_mod_to_equations. lia.
Qed.

Lemma route_sockaddr_number a : addr_ok a -> address_of_sockaddr_in (route_sockaddr (le_number a)) = Ok (ipv4 a 0).
Proof.
  intros Ha. unfold route_sockaddr, address_of_sockaddr_in. rewrite little_endian_number by done.
  exact (address_of_ipv4 a 0).
Qed.

Lemma plain_avoids c : c = tab_char \/ c = newline -> forall l, Forall (fun k => 0 <= k < 16) l -> avoids c (hex_string l) = true.
Proof.
  intros Hc l H. induction H as [|k l Hk _ IH]; [done|]. rewrite hex_string_cons. cbn [avoids]. rewrite IH, andb_true_r.
  pose proof (hex_char_plain k Hk) as Hp. unfold plain in Hp. rewrite negb_true_iff, !orb_false_iff in Hp.
  destruct Hp as ((_ & Ht) & Hn). by destruct Hc as [->| ->]; rewrite ?Ht, ?Hn.
Qed.

Lemma hex8_avoids c v : c = tab_char \/ c = newline -> avoids c (print_hex8 v) = true.
Proof. intros Hc. unfold print_hex8. rewrite hex_digits_string, string_app_nil. apply plain_avoids, hex_list_digits. done. Qed.

Lemma hex8_length v : String.length (print_hex8 v) = 8%nat.
Proof. reflexivity. Qed.

Lemma parse_print_route r : route_ok r -> parse_route (print_route r) = Ok (ipv4 (destination r) 0).
Proof.
  intros (Ha & Hi & _ & _). unfold parse_route, print_route, find_tab.
  set (hex := print_hex8 (le_number (destination r))).
  change (iface r +:+ tab +:+ hex +:+ tab +:+ columns r) with (iface r +:+ String tab_char (hex +:+ String tab_char (columns r))).
  rewrite index_tab by done.
  assert (E : forall t, iface r +:+ String tab_char t = (iface r +:+ tab) +:+ t) by (intros t; by rewrite string_app_assoc).
  assert (El : String.length (iface r +:+ tab) = S (String.length (iface r))) by (rewrite string_length_app; cbn; lia).
  rewrite E, <- El, index_skip, index_tab by (apply hex8_avoids; auto). unfold hex. rewrite hex8_length.
  replace (String.length (iface r +:+ tab) + 8 - String.length (iface r +:+ tab))%nat with 8%nat by lia. cbn [Nat.eqb negb].
  rewrite substring_skip. change 8%nat with (String.length (print_hex8 (le_number (destination r)))) at 1.
  rewrite substring_take, myatoi_hex8 by by apply le_number_range. cbn [bind]. by apply route_sockaddr_number.
Qed.

Lemma parse_print_routes l : forall i, Forall route_ok l ->
  parse_routes (map print_route l) i =
    Ok {| addresses_in_use_ := addresses_in_use_ i ++ map (fun r => ipv4 (destination r) 0) l |}.
Proof.
  induction l as [|r l IH]; intros i H; [cbn; rewrite app_nil_r; by destruct i|]. apply Forall_cons in H as [Hr H].
  cbn [map parse_routes]. rewrite parse_print_route by done. cbn [bind]. rewrite IH by done. cbn. by rewrite <- app_assoc.
Qed.

Lemma add_printed_routes l i : Forall route_ok l ->
  add_routes (route_file l) i = Ok {| addresses_in_use_ := addresses_in_use_ i ++ map (fun r => ipv4 (destination r) 0) l |}.
Proof.
  intros H. unfold add_routes, route_file. destruct l as [|r l]; [cbn; rewrite app_nil_r; by destruct i|].
  assert (Hl : lines_of (print_lines (route_header :: map print_route (r :: l))) = route_header :: map print_route (r :: l)).
  { apply lines_of_print. constructor; [done|]. apply Forall_map. eapply Forall_impl; [exact H|].
    intros x (Ha & _ & Hi & Hc). unfold print_route. by rewrite !avoids_app, Hi, Hc, hex8_avoids by auto. }
  destruct (String.eqb_spec (print_lines (route_header :: map print_route (r :: l))) "") as [E|_].
  { rewrite E in Hl. done. }
  rewrite Hl. change (String.prefix "Iface" route_header) with true. by apply parse_print_routes.
Qed.

(** ** The search *)

Section Search.
Context {names : NameFunctions} {laws : NumericNames}.

Lemma addr_string_inj a b : addr_ok a -> addr_ok b -> addr_string a = addr_string b -> a = b.
Proof.
  intros Ha Hb E. pose proof (getaddrinfo_numeric a 0 true Ha ltac:(lia)) as H.
  rewrite E, (getaddrinfo_numeric b 0 true Hb) in H by lia.
  destruct a as [[[a0 a1] a2] a3], b as [[[b0 b1] b2] b3]. cbn in H, Ha, Hb. injection H as H0 H1 H2 H3.
  assert (Hv : forall m n, 0 <= m < 256 -> 0 <= n < 256 -> byte_of m = byte_of n -> m = n).
  { intros m n Hm Hn Emn. by rewrite <- (byte_value_of m), <- (byte_value_of n), Emn by done. }
  destruct Ha as (? & ? & ? & ?), Hb as (? & ? & ? & ?). f_equal; [f_equal; [f_equal|]|]; by apply Hv.
Qed.

(** The addresses of a list of IPv4 addresses and ports. *)
Definition held (l : list (ipaddr * Z)) : list Address := map (fun x => ipv4 x.1 x.2) l.
Definition inet_ok (x : ipaddr * Z) : Prop := addr_ok x.1 /\ 0 <= x.2 < 2 ^ 16.

Lemma held_cons x l : held (x :: l) = ipv4 x.1 x.2 :: held l.
Proof. done. Qed.

Lemma in_use_spec c l : addr_ok c -> Forall inet_ok l -> in_use (ipv4 c 0) (held l) = Ok (bool_decide (c ∈ l.*1)).
Proof.
  intros Hc H. induction H as [|[a p] l [Ha Hp] _ IH]; [done|]. rewrite held_cons. cbn [in_use fst snd] in *.
  rewrite !ip_ipv4 by (done || lia). cbn [bind]. destruct (String.eqb_spec (addr_string c) (addr_string a)) as [E|E].
  - rewrite bool_decide_eq_true_2; [done|]. apply addr_string_inj in E as ->; [|done..]. left.
  - rewrite IH. f_equal. apply bool_decide_ext. cbn. rewrite elem_of_cons. split; [by right|]. intros [->|?]; [done|done].
Qed.

(** The last octets free in 100.64.0.0/24, from [n] on. *)
Definition free_octets (used : list ipaddr) (n : Z) : list Z := filter (fun k => nat_address k ∉ used) (seqZ n (256 - n)).

Lemma first_unassigned_spec l : Forall inet_ok l -> forall fuel n, 0 <= n <= 256 -> (Z.to_nat (256 - n) <= fuel)%nat ->
  first_unassigned fuel n {| addresses_in_use_ := held l |} =
    match free_octets l.*1 n with
    | k :: _ => Ok (ipv4 (nat_address k) 0, k)
    | [] => Err (Throw "Interfaces: could not find free interface address")
    end.
Proof.
  intros Hl fuel. induction fuel as [|fuel IH]; intros n Hn Hf.
  - assert (n = 256) as -> by lia. done.
  - cbn [first_unassigned]. destruct (Z.leb_spec n 255) as [Hle|Hgt].
    + rewrite cgnat_Ok by lia. cbn [bind]. unfold address_in_use. cbn [addresses_in_use_].
      rewrite in_use_spec by (done || (apply nat_address_ok; lia)). cbn [bind].
      unfold free_octets. rewrite seqZ_cons, filter_cons by lia. replace (Z.pred (256 - n)) with (256 - Z.succ n) by lia.
      destruct (decide (nat_address n ∉ l.*1)) as [Hfree|Hused].
      * rewrite bool_decide_eq_false_2 by done. cbn [negb]. rewrite port_ipv4 by (apply nat_address_ok || lia; lia). done.
      * rewrite bool_decide_eq_true_2 by by apply dec_stable. cbn [negb]. rewrite u16_small by lia.
        rewrite IH by lia. done.
    + assert (n = 256) as -> by lia. done.
Qed.

Lemma free_octets_next used m : forall n k rest, 0 <= n -> Z.to_nat (256 - n) = m -> free_octets used n = k :: rest ->
  n <= k < 256 /\ free_octets used (k + 1) = rest.
Proof.
  unfold free_octets. induction m as [|m IH]; intros n k rest Hn Hm E.
  - rewrite seqZ_nil in E by lia. done.
  - rewrite seqZ_cons, filter_cons in E by lia. replace (Z.pred (256 - n)) with (256 - Z.succ n) in E by lia.
    destruct (decide _).
    + injection E as <- E. split; [lia|]. exact E.
    + apply IH in E as [? ?]; [|lia..]. split; [lia|done].
Qed.
End Search.

(** ** The interfaces of the system *)

(** [getifaddrs]: the entries of IPv4 addresses among the others. *)
Inductive listed : list (option (Z * bytes)) -> list (ipaddr * Z) -> Prop :=
| listed_nil : listed [] []
| listed_inet a p ifs l : inet_ok (a, p) -> listed ifs l -> listed (Some (AF_INET, sockaddr_in a p) :: ifs) ((a, p) :: l)
| listed_other family addr ifs l : family <> AF_INET -> listed ifs l -> listed (Some (family, addr) :: ifs) l
| listed_none ifs l : listed ifs l -> listed (None :: ifs) l.

Lemma add_interfaces_spec ifs l : listed ifs l -> forall i,
  add_interfaces ifs i = Ok {| addresses_in_use_ := addresses_in_use_ i ++ held l |}.
Proof.
  induction 1 as [|a p ifs l Hok H IH|family addr ifs l Hf H IH|ifs l H IH]; intros i; cbn [add_interfaces].
  - cbn. rewrite app_nil_r. by destruct i.
  - rewrite Z.eqb_refl. unfold SOCKADDR_IN_SIZE. rewrite address_of_ipv4. cbn [bind]. rewrite IH. cbn. by rewrite <- app_assoc.
  - destruct (Z.eqb_spec family AF_INET); [done|]. apply IH.
  - apply IH.
Qed.

Lemma listed_ok ifs l : listed ifs l -> Forall inet_ok l.
Proof. induction 1; try done. by constructor. Qed.

Section Reading.
Context {OS : Type} {kernel : Kernel OS} {stream_kernel : StreamKernel OS} {pipe : PipeKernel OS} {eof_kernel : EofKernel OS}.
Context {opener : OpenKernel OS} {ifaddrs : IfaddrKernel OS}.

Lemma read_all_spec fuel : forall f (o : OS) acc, (length (input (fd_ f) o) < fuel)%nat ->
  exists f' o', read_all fuel f o acc = Ok (acc ++ input (fd_ f) o, f', o').
Proof.
  induction fuel as [|fuel IH]; intros f o acc Hf; [lia|]. cbn [read_all]. unfold read. rewrite Z.min_id.
  destruct (sys_read_spec (fd_ f) BUFFER_SIZE o) as (c & o' & E & _ & Hin & _); [done|]. rewrite E. cbn [bind].
  destruct c as [|x c].
  - rewrite (sys_read_eof (fd_ f) BUFFER_SIZE o o' ltac:(done) E), app_nil_r. eauto.
  - match goal with |- context [read_all fuel ?f _ _] => set (f1 := f) end.
    assert (Hfd : fd_ f1 = fd_ f) by (unfold f1; by destruct (_ =? 0)).
    destruct (IH f1 o' (acc ++ x :: c)) as (f' & o'' & ->).
    { rewrite Hfd. rewrite Hin, length_app in Hf. cbn in Hf. lia. }
    rewrite Hfd, Hin, <- app_assoc. eauto.
Qed.

(** The machine's interfaces and routes in the state [o]. *)
Record network (o : OS) (fuel : nat) (l : list (ipaddr * Z)) (routes : list route) : Prop := {
  network_state : exists ifs o1 fd o2, sys_getifaddrs o = (Some ifs, o1) /\ listed ifs l /\
    sys_open "/proc/net/route" o1 = (fd, o2) /\ 3 <= fd < 2 ^ 31 /\
    input fd o2 = list_byte_of_string (route_file routes);
  network_routes : Forall route_ok routes;
  network_fuel : (String.length (route_file routes) < fuel)%nat;
}.

Lemma length_list_byte s : length (list_byte_of_string s) = String.length s.
Proof. induction s as [|c s IH]; [done|]. cbn. by rewrite <- IH. Qed.

Lemma interfaces_new_spec fuel o l routes : network o fuel l routes ->
  exists o', interfaces_new fuel o = Ok ({| addresses_in_use_ := held (l ++ map (fun r => (destination r, 0)) routes) |}, o').
Proof.
  intros [(ifs & o1 & fd & o2 & Eif & Hl & Eop & Hfd & Hin) Hr Hfuel]. unfold interfaces_new. rewrite Eif.
  rewrite (add_interfaces_spec ifs l Hl). cbn [bind addresses_in_use_ app]. rewrite Eop, SystemCall_Ok by lia. cbn [bind].
  destruct (sys_set_cloexec_spec fd o2) as (o3 & Ec & Hin3 & _).
  unfold fd_new, check_and_set_cloexec. cbn [fd_]. destruct (Z.leb_spec fd 2); [lia|]. rewrite Ec. rewrite SystemCall_Ok by done. cbn [bind].
  match goal with |- context [read_all fuel ?f o3 []] => destruct (read_all_spec fuel f o3 []) as (f' & o4 & E) end.
  { cbn [fd_]. by rewrite Hin3, Hin, length_list_byte. }
  rewrite E. cbn [bind app fd_]. rewrite Hin3, Hin, string_of_list_byte_of_string, add_printed_routes by done. cbn [bind].
  eexists. do 3 f_equal. unfold held. cbn. by rewrite map_app, map_map.
Qed.
End Reading.

(** * Theorem *)

(** C32: The two addresses of the emulated link are the first two of
    100.64.0.1 to 100.64.0.255 that are used by no interface that [getifaddrs]
    lists, by no destination in the route table (whatever else its lines hold)
    and not by the outer shell's address; they are therefore distinct.  When
    fewer than two are free the program throws. *)
Theorem two_unassigned_addresses_spec {OS : Type} {kernel : Kernel OS} {stream_kernel : StreamKernel OS}
    {pipe : PipeKernel OS} {eof_kernel : EofKernel OS} {opener : OpenKernel OS} {ifaddrs : IfaddrKernel OS}
    {names : NameFunctions} {laws : NumericNames}
    (fuel : nat) (outer : ipaddr) (o : OS) (l : list (ipaddr * Z)) (routes : list route) :
  addr_ok outer -> network o fuel l routes ->
  exists o', two_unassigned_addresses fuel (ipv4 outer 0) o =
    match filter (fun k => nat_address k ∉ l.*1 ++ map destination routes ++ [outer]) (seqZ 1 255) with
    | m :: n :: _ => Ok (ipv4 (nat_address m) 0, ipv4 (nat_address n) 0, o')
    | _ => Err (Throw "Interfaces: could not find free interface address")
    end.
Proof.
  intros Ho Hn. destruct (interfaces_new_spec fuel o l routes Hn) as (o' & E). exists o'.
  unfold two_unassigned_addresses. rewrite E. cbn [bind]. set (used := l ++ map (fun r => (destination r, 0)) routes ++ [(outer, 0)]).
  assert (Ea : add_address (ipv4 outer 0) {| addresses_in_use_ := held (l ++ map (fun r => (destination r, 0)) routes) |}
               = {| addresses_in_use_ := held used |}).
  { unfold add_address, used, held. cbn [addresses_in_use_]. by rewrite (assoc_L (++)), (map_app _ (l ++ _)). }
  assert (Hu : Forall inet_ok used).
  { destruct Hn as [(ifs & _ & _ & _ & _ & Hl & _) Hr _]. unfold used. rewrite !Forall_app. split; [by eapply listed_ok|].
    split; [|repeat constructor; cbn; (done || lia)].
    apply Forall_map. eapply Forall_impl; [exact Hr|]. intros r (Hd & _). split; cbn; [done|lia]. }
  assert (Eu : used.*1 = l.*1 ++ map destination routes ++ [outer]).
  { unfold used. rewrite !fmap_app. f_equal. f_equal. exact (map_map _ fst routes). }
  rewrite Ea. unfold first_unassigned_address. rewrite (first_unassigned_spec used Hu 256 1) by lia.
  rewrite <- Eu. change (seqZ 1 255) with (seqZ 1 (256 - 1)). fold (free_octets used.*1 1). destruct (free_octets used.*1 1) as [|m rest] eqn:Ef; [done|]. cbn [bind fst snd].
  destruct (free_octets_next _ 255 1 m rest ltac:(lia) eq_refl Ef) as [Hm Erest].
  rewrite u16_small, (first_unassigned_spec used Hu 256 (m + 1)), Erest by lia. by destruct rest.
Qed.

(** * A machine *)

Module Machine.
Definition dot : ascii := ascii_of_nat 46.

(** A resolver that knows dotted decimal addresses and decimal ports. *)
Definition resolve (node service : string) : Z + list bytes :=
  match map myatoi (split dot None node), myatoi service with
  | [Ok a; Ok b; Ok c; Ok d], Ok p => inr [sockaddr_in (a, b, c, d) p]
  | [Ok a], Ok p => inr [sockaddr_in (a / 2 ^ 24, a / 2 ^ 16 mod 256, a / 256 mod 256, a mod 256) p]
  | _, _ => inl (-2)
  end.

Definition describe (a : bytes) : Z + string * string :=
  match map byte_value a with
  | 2 :: 0 :: p1 :: p0 :: a :: b :: c :: d :: _ => inr (addr_string (a, b, c, d), print_nonneg (p1 * 256 + p0))
  | _ => inl (-6)
  end.

#[export] Instance resolver : NameFunctions := { getaddrinfo node service _ := resolve node service; getnameinfo := describe }.

Lemma print_avoids_dot n : avoids dot (print_nonneg n) = true.
Proof.
  pose proof (print_nonneg_all n) as H. induction (print_nonneg n) as [|c s IH]; [done|]. cbn in *.
  apply andb_true_iff in H as [Hc H]. rewrite IH, andb_true_r by done. apply negb_true_iff.
  apply Ascii.eqb_neq. intros ->. done.
Qed.

Lemma resolve_numeric a p : addr_ok a -> 0 <= p < 2 ^ 16 -> resolve (addr_string a) (print_nonneg p) = inr [sockaddr_in a p].
Proof.
  destruct a as [[[a b] c] d]. intros (Ha & Hb & Hc & Hd) Hp. unfold resolve, addr_string.
  change (print_nonneg a +:+ "." +:+ print_nonneg b +:+ "." +:+ print_nonneg c +:+ "." +:+ print_nonneg d) with
    (print_nonneg a +:+ String dot (print_nonneg b +:+ String dot (print_nonneg c +:+ String dot (print_nonneg d)))).
  rewrite !split_piece, split_last by (apply print_avoids_dot || apply print_nonneg_not_empty).
  cbn [map default from_option].
  assert (Hmy : forall n, 0 <= n < 2 ^ 16 -> myatoi ("" +:+ print_nonneg n) = Ok n) by (intros n Hn; apply myatoi_print_nonneg; lia).
  rewrite !Hmy by lia. by rewrite myatoi_print_nonneg by lia.
Qed.

#[export] Program Instance numeric : NumericNames.
Next Obligation. intros. by apply resolve_numeric. Qed.
Next Obligation.
  intros [[[a b] c] d] p (Ha & Hb & Hc & Hd) Hp. cbn [getnameinfo resolver]. unfold describe, sockaddr_in, port_bytes, addr_bytes.
  pose proof (Z.mod_pos_bound p 256). cbn [map app]. rewrite !byte_value_of by (done || (Z.div_mod_to_equations; lia)).
  change (byte_value Byte.x02) with 2. change (byte_value Byte.x00) with 0. do 3 f_equal. pose proof (Z.div_mod p 256). lia.
Qed.
Next Obligation. done. Qed.

(** Descriptor 5 reads the route table. *)
#[export] Instance machine_open : OpenKernel Pipes := fun path o => (if String.eqb path "/proc/net/route" then 5 else -1, o).

#[export] Instance machine_ifaddrs : IfaddrKernel Pipes := fun o =>
  (Some [Some (AF_INET, sockaddr_in (127, 0, 0, 1) 0); None; Some (17, []); Some (AF_INET, sockaddr_in (100, 64, 0, 2) 0)], o).

Definition machine_routes : list route :=
  [ {| iface := "eth0"; destination := (0, 0, 0, 0); columns := "0100000A" |};
    {| iface := "cell-link-17"; destination := (100, 64, 0, 4); columns := "00000000" |} ].

Definition machine : Pipes := set_pipe 5 (list_byte_of_string (route_file machine_routes), []) (fun _ => ([], [])).

Lemma machine_network : network machine 200 [((127, 0, 0, 1), 0); ((100, 64, 0, 2), 0)] machine_routes.
Proof.
  split.
  - exists [Some (AF_INET, sockaddr_in (127, 0, 0, 1) 0); None; Some (17, []); Some (AF_INET, sockaddr_in (100, 64, 0, 2) 0)], machine, 5, machine.
    split; [done|]. split; [|split; [done|split; [lia|reflexivity]]].
    apply listed_inet; [split; cbn; lia|]. apply listed_none, listed_other; [done|].
    apply listed_inet; [split; cbn; lia|]. apply listed_nil.
  - repeat constructor; cbn; (done || lia).
  - vm_compute. lia.
Qed.

(** 100.64.0.1 is the outer shell's; 2 and 4 are taken. *)
Lemma two_unassigned_addresses_spec_witness :
  exists o', two_unassigned_addresses 200 (ipv4 (100, 64, 0, 1) 0) machine = Ok (ipv4 (100, 64, 0, 3) 0, ipv4 (100, 64, 0, 5) 0, o').
Proof.
  destruct (two_unassigned_addresses_spec (names := resolver) 200 (100, 64, 0, 1) machine
    [((127, 0, 0, 1), 0); ((100, 64, 0, 2), 0)] machine_routes) as [o' E]; [cbn; lia|exact machine_network|].
  exists o'. rewrite E. vm_compute. reflexivity.
Defined.
End Machine.
