(* ===== verification/Socket.v ===== *)
(** Sockets: src/util/socket.hh/.cc.

    A socket is a [FileDescriptor]; the system's side is the class
    [SocketKernel].  The addresses given to it and received from it are the bytes
    of a [sockaddr]. *)
From S2P Require Import Prelude FileDescriptor Address.

Definition SOCK_STREAM : Z := 1.
Definition SOCK_DGRAM : Z := 2.
Definition SOL_SOCKET : Z := 1.
Definition SO_REUSEADDR : Z := 2.
Definition SO_TYPE : Z := 3.
Definition SO_TIMESTAMPNS : Z := 35.
Definition SO_DOMAIN : Z := 39.
Definition SOL_IP : Z := 0.
Definition SO_ORIGINAL_DST : Z := 80.

(** The system calls: [None] or a negative number is a failure.
    [sys_recvfrom] gives the length of the datagram, the bytes that fit the
    buffer, and its source. *)
Class SocketKernel (OS : Type) := {
  sys_socket : Z -> Z -> OS -> Z * OS;
  sys_getsockopt : Z -> Z -> Z -> OS -> option bytes * OS;
  sys_setsockopt : Z -> Z -> Z -> bytes -> OS -> Z * OS;
  sys_getsockname : Z -> OS -> option bytes * OS;
  sys_getpeername : Z -> OS -> option bytes * OS;
  sys_bind : Z -> bytes -> OS -> Z * OS;
  sys_connect : Z -> bytes -> OS -> Z * OS;
  sys_listen : Z -> Z -> OS -> Z * OS;
  sys_accept : Z -> OS -> Z * OS;
  sys_sendto : Z -> bytes -> bytes -> OS -> Z * OS;
  sys_send : Z -> bytes -> OS -> Z * OS;
  sys_recvfrom : Z -> Z -> OS -> option (Z * bytes * bytes) * OS;
}.

(** The bytes of an address that a system call is given. *)
Definition to_sockaddr (a : Address) : bytes := take (Z.to_nat (size_ a)) (addr_ a).

(** An [int] in memory. *)
Definition int_value (b : bytes) : Z := i32 (foldr (fun x v => PacketHeader.byte_value x + 256 * v) 0 b).

Definition int_true : bytes := [Byte.x01; Byte.x00; Byte.x00; Byte.x00].

Section Operations.
Context {OS : Type} {kernel : Kernel OS} {sockets : SocketKernel OS}.

(** default constructor for socket of (subclassed) domain and type *)
Definition socket_new (domain type : Z) (o : OS) : outcome (FileDescriptor * OS) :=
  let (r, o) := sys_socket domain type o in
  let* n := SystemCall "socket" r in
  fd_new n o.

Definition udp_socket (o : OS) : outcome (FileDescriptor * OS) := socket_new AF_INET SOCK_DGRAM o.
Definition tcp_socket (o : OS) : outcome (FileDescriptor * OS) := socket_new AF_INET SOCK_STREAM o.

(** get socket option: the bytes of its value *)
Definition getsockopt (level option : Z) (f : FileDescriptor) (o : OS) : outcome (bytes * OS) :=
  let (r, o) := sys_getsockopt (fd_ f) level option o in
  match r with Some b => Ok (b, o) | None => Err (UnixError "getsockopt") end.

(** set socket option *)
Definition setsockopt (level option : Z) (option_value : bytes) (f : FileDescriptor) (o : OS) : outcome OS :=
  let (r, o) := sys_setsockopt (fd_ f) level option option_value o in
  let* _ := SystemCall "setsockopt" r in
  Ok o.

Definition verify_option (option expected : Z) (error : string) (f : FileDescriptor) (o : OS) : outcome OS :=
  let* (b, o) := getsockopt SOL_SOCKET option f o in
  if negb (len b =? 4) || negb (int_value b =? expected) then Err (Throw error) else Ok o.

(** construct from file descriptor *)
Definition socket_of_fd (f : FileDescriptor) (domain type : Z) (o : OS) : outcome (FileDescriptor * OS) :=
  let* o := verify_option SO_DOMAIN domain "socket domain mismatch" f o in
  let* o := verify_option SO_TYPE type "socket type mismatch" f o in
  Ok (f, o).

(** get the local or peer address the socket is connected to *)
Definition get_address (name_of_function : string) (function : Z -> OS -> option bytes * OS) (f : FileDescriptor) (o : OS) :
    outcome (Address * OS) :=
  let (r, o) := function (fd_ f) o in
  match r with
  | None => Err (UnixError name_of_function)
  | Some b => let* a := address_of_sockaddr b (len b) in Ok (a, o)
  end.

Definition local_address (f : FileDescriptor) (o : OS) : outcome (Address * OS) := get_address "getsockname" sys_getsockname f o.
Definition peer_address (f : FileDescriptor) (o : OS) : outcome (Address * OS) := get_address "getpeername" sys_getpeername f o.

(** bind socket to a specified local address (usually to listen/accept) *)
Definition socket_bind (address : Address) (f : FileDescriptor) (o : OS) : outcome OS :=
  let (r, o) := sys_bind (fd_ f) (to_sockaddr address) o in
  let* _ := SystemCall "bind" r in
  Ok o.

(** connect socket to a specified peer address *)
Definition socket_connect (address : Address) (f : FileDescriptor) (o : OS) : outcome OS :=
  let (r, o) := sys_connect (fd_ f) (to_sockaddr address) o in
  let* _ := SystemCall "connect" r in
  Ok o.

(** send datagram to specified address *)
Definition sendto (destination : Address) (payload : bytes) (f : FileDescriptor) (o : OS) : outcome (FileDescriptor * OS) :=
  let (r, o) := sys_sendto (fd_ f) payload (to_sockaddr destination) o in
  let* bytes_sent := SystemCall "sendto" r in
  let f := register_write f in
  if negb (bytes_sent =? len payload) then Err (Throw "datagram payload too big for sendto()") else Ok (f, o).

(** send datagram to connected address *)
Definition send (payload : bytes) (f : FileDescriptor) (o : OS) : outcome (FileDescriptor * OS) :=
  let (r, o) := sys_send (fd_ f) payload o in
  let* bytes_sent := SystemCall "send" r in
  let f := register_write f in
  if negb (bytes_sent =? len payload) then Err (Throw "datagram payload too big for send()") else Ok (f, o).

(** mark the socket as listening for incoming connections *)
Definition socket_listen (backlog : Z) (f : FileDescriptor) (o : OS) : outcome OS :=
  let (r, o) := sys_listen (fd_ f) backlog o in
  let* _ := SystemCall "listen" r in
  Ok o.

(** accept a new incoming connection: the listener and the connection *)
Definition accept_connection (f : FileDescriptor) (o : OS) : outcome (FileDescriptor * FileDescriptor * OS) :=
  let f := register_read f in
  let (r, o) := sys_accept (fd_ f) o in
  let* n := SystemCall "accept" r in
  let* (c, o) := fd_new n o in
  let* (c, o) := socket_of_fd c AF_INET SOCK_STREAM o in
  Ok (f, c, o).

(** allow local address to be reused sooner, at the cost of some robustness *)
Definition set_reuseaddr (f : FileDescriptor) (o : OS) : outcome OS := setsockopt SOL_SOCKET SO_REUSEADDR int_true f o.

(** turn on timestamps on receipt *)
Definition set_timestamps (f : FileDescriptor) (o : OS) : outcome OS := setsockopt SOL_SOCKET SO_TIMESTAMPNS int_true f o.

Definition RECEIVE_MTU : Z := 65536.

(** receive source address and payload *)
Definition recvfrom (f : FileDescriptor) (o : OS) : outcome (Address * bytes * FileDescriptor * OS) :=
  let (r, o) := sys_recvfrom (fd_ f) RECEIVE_MTU o in
  match r with
  | None => Err (UnixError "recvfrom")
  | Some (recv_len, buffer, source) =>
      if RECEIVE_MTU <? recv_len then Err (Throw "recvfrom (oversized datagram)")
      else
        let f := register_read f in
        let* a := address_of_sockaddr source (len source) in
        Ok (a, take (Z.to_nat recv_len) buffer, f, o)
  end.

Definition original_dest (f : FileDescriptor) (o : OS) : outcome (Address * OS) :=
  let* (b, o) := getsockopt SOL_IP SO_ORIGINAL_DST f o in
  let* a := address_of_sockaddr b (len b) in
  Ok (a, o).

Definition get_destination (f : FileDescriptor) (o : OS) : outcome (Address * OS) := get_address "getpeername" sys_getpeername f o.

(** Recreate new socket *)
Definition recreate_socket (f : FileDescriptor) (o : OS) : outcome (FileDescriptor * OS) :=
  let (r, o) := sys_socket AF_INET SOCK_STREAM o in
  let* fd := SystemCall "socket" r in
  replace_fd fd f o.
End Operations.

(** An address given to the system and taken back from it is the same. *)
Lemma to_sockaddr_ipv4 a p : to_sockaddr (ipv4 a p) = sockaddr_in a p.
Proof. apply ipv4_bytes. Qed.

Lemma sockaddr_roundtrip a : len (addr_ a) = RAW_SIZE -> 0 <= size_ a <= RAW_SIZE ->
  addr_ a = copied (to_sockaddr a) (size_ a) -> address_of_sockaddr (to_sockaddr a) (len (to_sockaddr a)) = Ok a.
Proof.
  intros Hl Hs E. unfold to_sockaddr in *. assert (El : len (take (Z.to_nat (size_ a)) (addr_ a)) = size_ a).
  { unfold len, RAW_SIZE in *. rewrite length_take. lia. }
  unfold address_of_sockaddr. rewrite El. unfold RAW_SIZE in *. case_Zbool; [lia..|].
  rewrite u32_small by lia. rewrite <- E. by destruct a.
Qed.
