(* ===== verification/DnsProxy.v ===== *)
(** The DNS proxy: src/util/dns_proxy.hh/.cc.

    Requests that come to the shell's outer address are relayed to the name
    server: a UDP request and its reply, and a TCP connection in both directions,
    each by a thread of its own.  The TCP relay joins two [ByteStreamQueue]s, two
    descriptors and a [Poller]; [tcp_relay_transparent] shows that it is a pair
    of lossless pipes. *)
From S2P Require Import Prelude Errors FileDescriptor ByteStreamQueue Poller Address Socket.

Record DNSProxy := {
  udp_listener_ : FileDescriptor;
  tcp_listener_ : FileDescriptor;
  udp_target_ : Address;
  tcp_target_ : Address;
}.

#[export] Instance eta_DNSProxy : Eta DNSProxy := fun p =>
  {| udp_listener_ := udp_listener_ p; tcp_listener_ := tcp_listener_ p; udp_target_ := udp_target_ p; tcp_target_ := tcp_target_ p |}.

(** What a thread of the proxy is started for: a request and who asks, or a
    client's connection. *)
Inductive dns_request := UdpRequest (asker : Address) (payload : bytes) | TcpRequest (client : FileDescriptor).

(** [std::thread], detached: whether it was started. *)
Class ThreadKernel (OS : Type) := sys_thread : dns_request -> OS -> bool * OS.

(** * Construction *)

Section Construction.
Context {OS : Type} {kernel : Kernel OS} {sockets : SocketKernel OS} {names : NameFunctions}.

Definition require_bound (error : string) (f : FileDescriptor) (o : OS) : outcome OS :=
  let* (a, o) := local_address f o in
  let* none := address_default in
  if address_eqb a none then Err (Throw error) else Ok o.

Definition dns_proxy_new (udp_listener tcp_listener : FileDescriptor) (s_udp_target s_tcp_target : Address) (o : OS) :
    outcome (DNSProxy * OS) :=
  (* make sure the sockets are bound to something *)
  let* o := require_bound "DNSProxy internal error: udp_listener must be bound" udp_listener o in
  let* o := require_bound "DNSProxy internal error: tcp_listener must be bound" tcp_listener o in
  let* o := socket_listen 16 tcp_listener o in
  Ok ({| udp_listener_ := udp_listener; tcp_listener_ := tcp_listener;
         udp_target_ := s_udp_target; tcp_target_ := s_tcp_target |}, o).

Definition make_bound_socket (socket_type : OS -> outcome (FileDescriptor * OS)) (listen_address : Address) (o : OS) :
    outcome (FileDescriptor * OS) :=
  let* (sock, o) := socket_type o in
  let* o := socket_bind listen_address sock o in
  Ok (sock, o).

Definition dns_proxy_bound (listen_address s_udp_target s_tcp_target : Address) (o : OS) : outcome (DNSProxy * OS) :=
  let* (u, o) := make_bound_socket udp_socket listen_address o in
  let* (t, o) := make_bound_socket tcp_socket listen_address o in
  dns_proxy_new u t s_udp_target s_tcp_target o.

(** [string( e.what() ).substr( 0, 5 ) == "bind:"] *)
Definition is_bind_error (e : fault) : bool := begins_with "bind" e.

(** The destructor: the members go from the last to the first. *)
Definition dns_proxy_destroy (p : DNSProxy) (o : OS) : OS :=
  fd_destroy (udp_listener_ p) (fd_destroy (tcp_listener_ p) o).

(** [None]: no proxy, because the address is in use. *)
Definition maybe_proxy (listen_address s_udp_target s_tcp_target : Address) (o : OS) : outcome (option (DNSProxy * OS)) :=
  match dns_proxy_bound listen_address s_udp_target s_tcp_target o with
  | Ok p => Ok (Some p)
  | Err e => if caught_as_exception e && is_bind_error e then Ok None else Err e
  end.
End Construction.

(** * UDP *)

Record UdpRelay (OS : Type) := { udp_server : FileDescriptor; udp_listener : FileDescriptor; udp_os : OS }.
Arguments Build_UdpRelay {OS}.
Arguments udp_server {OS}.
Arguments udp_listener {OS}.
Arguments udp_os {OS}.

Section Udp.
Context {OS : Type} {kernel : Kernel OS} {sockets : SocketKernel OS} {pk : PollKernel (UdpRelay OS)}.

Definition on_reply (asker : Address) (x : UdpRelay OS) : outcome (ActionResult * UdpRelay OS) :=
  let* (reply, s, o) := read BUFFER_SIZE (udp_server x) (udp_os x) in
  let* (l, o) := sendto asker reply (udp_listener x) o in
  Ok (action Continue, {| udp_server := s; udp_listener := l; udp_os := o |}).

(** The thread that handles one request. *)
Definition udp_relay (udp_target : Address) (request : Address * bytes) (listener : FileDescriptor) (o : OS) :
    outcome (PollResult * UdpRelay OS) :=
  (* send request to the DNS server *)
  let* (dns_server, o) := udp_socket o in
  let* o := socket_connect udp_target dns_server o in
  let* (_, dns_server, o) := write request.2 true dns_server o in
  (* wait up to 60 seconds for a reply *)
  let x := {| udp_server := dns_server; udp_listener := listener; udp_os := o |} in
  let* (r, _, x) := poll 60000 (add_action (action_new udp_server In (on_reply request.1) always) x poller_new) x in
  Ok (r, x).
End Udp.

(** * TCP *)

Record TcpRelay (OS : Type) := {
  dns_server : FileDescriptor;
  client : FileDescriptor;
  from_client : ByteStreamQueue;
  from_server : ByteStreamQueue;
  relay_os : OS;
}.
Arguments Build_TcpRelay {OS}.
Arguments dns_server {OS}.
Arguments client {OS}.
Arguments from_client {OS}.
Arguments from_server {OS}.
Arguments relay_os {OS}.

Section Tcp.
Context {OS : Type} {kernel : Kernel OS}.
Abbreviation state := (TcpRelay OS).

Definition eof_cancels (r : Result) : ActionResult := action (if eof r then Cancel else Continue).

Definition on_server_bytes (x : state) : outcome (ActionResult * state) :=
  let* (r, q, f, o) := push (from_server x) (dns_server x) (relay_os x) in
  Ok (eof_cancels r, {| dns_server := f; client := client x; from_client := from_client x; from_server := q; relay_os := o |}).

Definition on_client_bytes (x : state) : outcome (ActionResult * state) :=
  let* (r, q, f, o) := push (from_client x) (client x) (relay_os x) in
  Ok (eof_cancels r, {| dns_server := dns_server x; client := f; from_client := q; from_server := from_server x; relay_os := o |}).

Definition to_server (x : state) : outcome (ActionResult * state) :=
  let* (q, f, o) := pop (from_client x) (dns_server x) (relay_os x) in
  Ok (action Continue, {| dns_server := f; client := client x; from_client := q; from_server := from_server x; relay_os := o |}).

Definition to_client (x : state) : outcome (ActionResult * state) :=
  let* (q, f, o) := pop (from_server x) (client x) (relay_os x) in
  Ok (action Continue, {| dns_server := dns_server x; client := f; from_client := from_client x; from_server := q; relay_os := o |}).

Definition relay_actions : list (Action state) :=
  [ action_new dns_server In on_server_bytes (fun x => Ok (space_available (from_server x), x));
    action_new client In on_client_bytes (fun x => Ok (space_available (from_client x), x));
    action_new dns_server Out to_server (fun x => Ok (non_empty (from_client x), x));
    action_new client Out to_client (fun x => Ok (non_empty (from_server x), x)) ].

Definition relay_poller (x : state) : Poller state := fold_left (fun p a => add_action a x p) relay_actions poller_new.

(** The size of the two queues. *)
Definition RELAY_BUFFER_SIZE : Z := 1024 * 1024.

Section Start.
Context {sockets : SocketKernel OS}.

Definition relay_start (tcp_target : Address) (client : FileDescriptor) (o : OS) : outcome state :=
  (* connect to DNS server *)
  let* (server, o) := tcp_socket o in
  let* o := socket_connect tcp_target server o in
  (* Make bytestreams *)
  let* c := bytestream_new RELAY_BUFFER_SIZE in
  let* s := bytestream_new RELAY_BUFFER_SIZE in
  Ok {| dns_server := server; client := client; from_client := c; from_server := s; relay_os := o |}.
End Start.

Context {pk : PollKernel state}.

(** The first [n] turns of the thread's loop; the first result says whether it
    has returned. *)
Fixpoint relay_loop (n : nat) (p : Poller state) (x : state) : outcome (bool * Poller state * state) :=
  match n with
  | O => Ok (false, p, x)
  | S n =>
      let* (r, p, x) := poll 60000 p x in
      match poll_result r with
      | PollExit => Ok (true, p, x)
      | _ => relay_loop n p x
      end
  end.

(** The thread that handles one connection. *)
Definition tcp_relay {sockets : SocketKernel OS} (n : nat) (tcp_target : Address) (client : FileDescriptor) (o : OS) :
    outcome (bool * Poller state * state) :=
  let* x := relay_start tcp_target client o in
  relay_loop n (relay_poller x) x.
End Tcp.

(** * Requests *)

Section Handlers.
Context {OS : Type} {kernel : Kernel OS} {sockets : SocketKernel OS} {threads : ThreadKernel OS}.

Definition start_thread (r : dns_request) (o : OS) : outcome OS :=
  let (started, o) := sys_thread r o in
  if started : bool then Ok o else Err (Throw "thread").

(** get a UDP request and start a new thread, [udp_relay], to handle it *)
Definition handle_udp (p : DNSProxy) (o : OS) : outcome (DNSProxy * OS) :=
  let* (asker, payload, l, o) := recvfrom (udp_listener_ p) o in
  let* o := start_thread (UdpRequest asker payload) o in
  Ok (p <| udp_listener_ := l |>, o).

(** accept a connection and start a new thread, [tcp_relay], to handle it *)
Definition handle_tcp (p : DNSProxy) (o : OS) : outcome (DNSProxy * OS) :=
  let* (l, client, o) := accept_connection (tcp_listener_ p) o in
  let* o := start_thread (TcpRequest client) o in
  Ok (p <| tcp_listener_ := l |>, o).
End Handlers.

(** * The relay is transparent *)

(** The system's [poll] moves no bytes and touches nothing of the program. *)
Class RelayPoll (OS : Type) `{PipeKernel OS} {pk : PollKernel (TcpRelay OS)} : Prop := {
  relay_poll_spec pfds timeout x : let '(ret, _, x') := sys_poll pfds timeout x in
    -1 <= ret < 2 ^ 31 /\ dns_server x' = dns_server x /\ client x' = client x /\
    from_client x' = from_client x /\ from_server x' = from_server x /\
    (forall fd, input fd (relay_os x') = input fd (relay_os x)) /\ (forall fd, stream fd (relay_os x') = stream fd (relay_os x));
}.

Section Relay.
Context {OS : Type} {kernel : Kernel OS} {stream_kernel : StreamKernel OS} {pipe : PipeKernel OS} {eof_kernel : EofKernel OS}.
Context {pk : PollKernel (TcpRelay OS)} {relay_poll : RelayPoll OS}.
Implicit Types x : TcpRelay OS.

(** All that goes from the client to the server: what has been written, what is
    in the queue and what is still to be read; and the other way round. *)
Definition upstream x : bytes :=
  stream (fd_ (dns_server x)) (relay_os x) ++ contents (from_client x) ++ input (fd_ (client x)) (relay_os x).
Definition downstream x : bytes :=
  stream (fd_ (client x)) (relay_os x) ++ contents (from_server x) ++ input (fd_ (dns_server x)) (relay_os x).

Record relays x x' : Prop := {
  relays_server : fd_ (dns_server x') = fd_ (dns_server x);
  relays_client : fd_ (client x') = fd_ (client x);
  relays_up : upstream x' = upstream x;
  relays_down : downstream x' = downstream x;
  relays_server_eof : eof_ (dns_server x) = true -> eof_ (dns_server x') = true;
  relays_client_eof : eof_ (client x) = true -> eof_ (client x') = true;
}.

Definition queue_ok (q : ByteStreamQueue) : Prop := bytestream_wf q /\ len (buffer_ q) < 2 ^ 31.

Record relay_inv x : Prop := {
  relay_distinct : fd_ (dns_server x) <> fd_ (client x);
  relay_from_client : queue_ok (from_client x);
  relay_from_server : queue_ok (from_server x);
  relay_server_end : eof_ (dns_server x) = true -> input (fd_ (dns_server x)) (relay_os x) = [];
  relay_client_end : eof_ (client x) = true -> input (fd_ (client x)) (relay_os x) = [];
}.

Lemma relays_refl x : relays x x.
Proof. by split. Qed.

Lemma relays_trans x y z : relays x y -> relays y z -> relays x z.
Proof. intros [A1 A2 A3 A4 A5 A6] [B1 B2 B3 B4 B5 B6]. split; try congruence; auto. Qed.

(** ** The callbacks *)

Ltac relay_cbn := cbn [dns_server client from_client from_server relay_os] in *.

Lemma push_queue_ok q f (o : OS) r q' f' o' : queue_ok q -> space_available q = true ->
  push q f o = Ok (r, q', f', o') -> bytestream_wf q' -> queue_ok q'.
Proof. intros [Hwf Hl] Hsp E Hwf'. split; [done|]. by rewrite (push_size _ _ _ _ _ _ _ Hwf Hsp E). Qed.

Lemma on_server_bytes_ok x : relay_inv x -> space_available (from_server x) = true ->
  exists r x', on_server_bytes x = Ok (eof_cancels r, x') /\ relays x x' /\ relay_inv x' /\
    from_client x' = from_client x /\ contents (from_server x) `prefix_of` contents (from_server x') /\
    (r = EndOfFile -> eof_ (dns_server x') = true).
Proof.
  intros [Hd Hc Hs Hse Hce] Hsp. unfold on_server_bytes.
  destruct (push_ok (from_server x) (dns_server x) (relay_os x) (proj1 Hs) Hsp) as (r & q & f & o & c & E & Hwf & Ec & Ein & Hin & Hst & Hfd & Hr).
  destruct (push_eof _ _ _ _ _ _ _ (proj1 Hs) E) as [Hef Hempty]. pose proof (push_queue_ok _ _ _ _ _ _ _ Hs Hsp E Hwf) as Hq.
  rewrite E. cbn [bind]. eexists r, _. split; [reflexivity|].
  split; [split; relay_cbn; try done|split; [split; relay_cbn; try done|]].
  - unfold upstream. relay_cbn. rewrite Hfd, Hst, Hin by done. done.
  - unfold downstream. relay_cbn. rewrite Hfd, Hst, Ec, Ein. by rewrite !(assoc_L (++)).
  - intros He. rewrite Hef, He. by destruct r.
  - by rewrite Hfd.
  - rewrite Hef, Hfd. intros [Er|He]%orb_true_iff.
    + destruct r; [done|]. rewrite (Hempty eq_refl) in Ein. by destruct c.
    + rewrite (Hse He) in Ein. by destruct c.
  - intros He. rewrite Hin by done. by apply Hce.
  - relay_cbn. split; [done|]. split; [rewrite Ec; by apply prefix_app_r|]. intros ->. by rewrite Hef.
Qed.

Lemma on_client_bytes_ok x : relay_inv x -> space_available (from_client x) = true ->
  exists r x', on_client_bytes x = Ok (eof_cancels r, x') /\ relays x x' /\ relay_inv x' /\
    from_server x' = from_server x /\ contents (from_client x) `prefix_of` contents (from_client x') /\
    (r = EndOfFile -> eof_ (client x') = true).
Proof.
  intros [Hd Hc Hs Hse Hce] Hsp. unfold on_client_bytes.
  destruct (push_ok (from_client x) (client x) (relay_os x) (proj1 Hc) Hsp) as (r & q & f & o & c & E & Hwf & Ec & Ein & Hin & Hst & Hfd & Hr).
  destruct (push_eof _ _ _ _ _ _ _ (proj1 Hc) E) as [Hef Hempty]. pose proof (push_queue_ok _ _ _ _ _ _ _ Hc Hsp E Hwf) as Hq.
  rewrite E. cbn [bind]. eexists r, _. split; [reflexivity|].
  split; [split; relay_cbn; try done|split; [split; relay_cbn; try done|]].
  - unfold upstream. relay_cbn. rewrite Hfd, Hst, Ec, Ein. by rewrite !(assoc_L (++)).
  - unfold downstream. relay_cbn. rewrite Hfd, Hst, Hin by congruence. done.
  - intros He. rewrite Hef, He. by destruct r.
  - by rewrite Hfd.
  - intros He. rewrite Hin by done. by apply Hse.
  - rewrite Hef, Hfd. intros [Er|He]%orb_true_iff.
    + destruct r; [done|]. rewrite (Hempty eq_refl) in Ein. by destruct c.
    + rewrite (Hce He) in Ein. by destruct c.
  - relay_cbn. split; [done|]. split; [rewrite Ec; by apply prefix_app_r|]. intros ->. by rewrite Hef.
Qed.

Lemma to_server_ok x : relay_inv x -> non_empty (from_client x) = true ->
  exists x', to_server x = Ok (action Continue, x') /\ relays x x' /\ relay_inv x' /\ from_server x' = from_server x.
Proof.
  intros [Hd Hc Hs Hse Hce] Hne. unfold to_server.
  destruct (pop_ok (from_client x) (dns_server x) (relay_os x) (proj1 Hc) Hne (proj2 Hc)) as (q & f & o & c & E & Hwf & Ec & _ & Hst & Hst' & Hin & Hfd).
  pose proof (pop_eof _ _ _ _ _ _ E) as Hef. pose proof (pop_size _ _ _ _ _ _ E) as Hl.
  rewrite E. cbn [bind]. eexists. split; [reflexivity|].
  split; [split; relay_cbn; try done|split; [split; relay_cbn; try done|done]].
  - unfold upstream. relay_cbn. rewrite Hfd, Hst, Hin, Ec. by rewrite !(assoc_L (++)).
  - unfold downstream. relay_cbn. rewrite Hfd, Hst', Hin by congruence. done.
  - by rewrite Hef.
  - by rewrite Hfd.
  - split; [done|]. rewrite Hl. apply Hc.
  - rewrite Hef, Hfd, Hin. done.
  - rewrite Hin. done.
Qed.

Lemma to_client_ok x : relay_inv x -> non_empty (from_server x) = true ->
  exists x', to_client x = Ok (action Continue, x') /\ relays x x' /\ relay_inv x' /\ from_client x' = from_client x.
Proof.
  intros [Hd Hc Hs Hse Hce] Hne. unfold to_client.
  destruct (pop_ok (from_server x) (client x) (relay_os x) (proj1 Hs) Hne (proj2 Hs)) as (q & f & o & c & E & Hwf & Ec & _ & Hst & Hst' & Hin & Hfd).
  pose proof (pop_eof _ _ _ _ _ _ E) as Hef. pose proof (pop_size _ _ _ _ _ _ E) as Hl.
  rewrite E. cbn [bind]. eexists. split; [reflexivity|].
  split; [split; relay_cbn; try done|split; [split; relay_cbn; try done|done]].
  - unfold upstream. relay_cbn. rewrite Hfd, Hst', Hin by congruence. done.
  - unfold downstream. relay_cbn. rewrite Hfd, Hst, Hin, Ec. by rewrite !(assoc_L (++)).
  - by rewrite Hef.
  - by rewrite Hfd.
  - split; [done|]. rewrite Hl. apply Hs.
  - rewrite Hin. done.
  - rewrite Hef, Hfd, Hin. done.
Qed.

(** ** The actions as guarded actions *)

Definition server_bytes_guard : Guard (X := TcpRelay OS) :=
  {| g_action := nth 0 relay_actions (deactivate (action_new dns_server In on_server_bytes always));
     g_pre x := space_available (from_server x) = true; g_settled x := eof_ (dns_server x) = true |}.
Definition client_bytes_guard : Guard (X := TcpRelay OS) :=
  {| g_action := nth 1 relay_actions (deactivate (action_new client In on_client_bytes always));
     g_pre x := space_available (from_client x) = true; g_settled x := eof_ (client x) = true |}.
Definition to_server_guard : Guard (X := TcpRelay OS) :=
  {| g_action := nth 2 relay_actions (deactivate (action_new dns_server Out to_server always));
     g_pre x := non_empty (from_client x) = true; g_settled _ := False |}.
Definition to_client_guard : Guard (X := TcpRelay OS) :=
  {| g_action := nth 3 relay_actions (deactivate (action_new client Out to_client always));
     g_pre x := non_empty (from_server x) = true; g_settled _ := False |}.

Definition relay_guards : list (Guard (X := TcpRelay OS)) :=
  [server_bytes_guard; client_bytes_guard; to_server_guard; to_client_guard].

Definition caught (e : fault) : Prop := caught_as_exception e = true.

Lemma eof_cancels_spec r : action_result (eof_cancels r) <> ActionExit /\ (action_result (eof_cancels r) = Cancel -> r = EndOfFile).
Proof. by destruct r. Qed.

Lemma relay_guards_ok : Forall (guard_ok relays relay_inv caught) relay_guards.
Proof.
  repeat constructor; cbn [server_bytes_guard client_bytes_guard to_server_guard to_client_guard
    g_action g_pre g_settled nth relay_actions action_new when_interested callback action_fd]; try done.
  - intros x _. eauto.
  - intros x HI Hsp. destruct (on_server_bytes_ok x HI Hsp) as (r & x' & -> & HR & HI' & _ & _ & Heof).
    destruct (eof_cancels_spec r) as [H1 H2]. split; [done|]. split; [done|]. split; [done|]. auto.
  - intros x x' HR. apply relays_server_eof, HR.
  - intros x x' HR. apply relays_server, HR.
  - intros x _. eauto.
  - intros x HI Hsp. destruct (on_client_bytes_ok x HI Hsp) as (r & x' & -> & HR & HI' & _ & _ & Heof).
    destruct (eof_cancels_spec r) as [H1 H2]. split; [done|]. split; [done|]. split; [done|]. auto.
  - intros x x' HR. apply relays_client_eof, HR.
  - intros x x' HR. apply relays_client, HR.
  - intros x _. eauto.
  - intros x HI Hne. destruct (to_server_ok x HI Hne) as (x' & -> & HR & HI' & _). by repeat (split; [done|]).
  - intros x x' HR. apply relays_server, HR.
  - intros x _. eauto.
  - intros x HI Hne. destruct (to_client_ok x HI Hne) as (x' & -> & HR & HI' & _). by repeat (split; [done|]).
  - intros x x' HR. apply relays_client, HR.
Qed.

Lemma non_empty_contents q : queue_ok q -> non_empty q = true <-> contents q <> [].
Proof. intros [Hwf _]. apply (proj1 (bytestream_spec q Hwf)). Qed.

(** A condition tested before the poll still holds when the callback is called:
    bytes that come in leave a queue nonempty, and no other callback takes away
    the space of a queue. *)
Lemma relay_undisturbed : ForallOrdPairs (undisturbed relay_inv) relay_guards.
Proof.
  assert (Hgrow : forall q q', queue_ok q -> queue_ok q' -> contents q `prefix_of` contents q' -> non_empty q = true -> non_empty q' = true).
  { intros q q' Hq Hq' [k Hk] Hne. apply non_empty_contents; [done|]. apply non_empty_contents in Hne; [|done].
    rewrite Hk. by destruct (contents q). }
  repeat constructor; intros x r x' HI Hpre E;
    cbn [server_bytes_guard client_bytes_guard to_server_guard to_client_guard
      g_action g_pre g_settled nth relay_actions action_new callback] in *.
  - destruct (on_server_bytes_ok x HI Hpre) as (r1 & x1 & E1 & _ & _ & Hsame & _). rewrite E1 in E. injection E as <- <-. by rewrite Hsame.
  - destruct (on_server_bytes_ok x HI Hpre) as (r1 & x1 & E1 & _ & _ & Hsame & _). rewrite E1 in E. injection E as <- <-. by rewrite Hsame.
  - destruct (on_server_bytes_ok x HI Hpre) as (r1 & x1 & E1 & _ & HI' & _ & Hpr & _). rewrite E1 in E. injection E as <- <-.
    apply Hgrow; [apply HI|apply HI'|done].
  - destruct (on_client_bytes_ok x HI Hpre) as (r1 & x1 & E1 & _ & HI' & _ & Hpr & _). rewrite E1 in E. injection E as <- <-.
    apply Hgrow; [apply HI|apply HI'|done].
  - destruct (on_client_bytes_ok x HI Hpre) as (r1 & x1 & E1 & _ & _ & Hsame & _). rewrite E1 in E. injection E as <- <-. by rewrite Hsame.
  - destruct (to_server_ok x HI Hpre) as (x1 & E1 & _ & _ & Hsame). rewrite E1 in E. injection E as <- <-. by rewrite Hsame.
Qed.

(** ** The loop *)

(** Both ends have closed, and everything has been passed on. *)
Record relay_done x : Prop := {
  done_client : input (fd_ (client x)) (relay_os x) = [];
  done_from_client : contents (from_client x) = [];
  done_server : input (fd_ (dns_server x)) (relay_os x) = [];
  done_from_server : contents (from_server x) = [];
}.

Lemma empty_contents q : queue_ok q -> non_empty q = false -> contents q = [] /\ space_available q = true.
Proof.
  intros Hq Hne. assert (E : contents q = []).
  { destruct (contents q) as [|b l] eqn:E; [done|]. pose proof (proj2 (non_empty_contents q Hq)) as H. rewrite E, Hne in H. by specialize (H ltac:(done)). }
  split; [done|]. apply (proj2 (bytestream_spec q (proj1 Hq))). rewrite E. destruct Hq as [[Hl _] _]. rewrite len_nil. lia.
Qed.

Lemma idle_done x acts : Forall2 (guarded x) acts relay_guards -> relay_inv x -> Forall (fun a => idle a x) acts -> relay_done x.
Proof.
  intros Hg HI Hidle. unfold relay_guards in Hg.
  apply Forall2_cons_inv_r in Hg as (a1 & l1 & H1 & Hg & ->). apply Forall2_cons_inv_r in Hg as (a2 & l2 & H2 & Hg & ->).
  apply Forall2_cons_inv_r in Hg as (a3 & l3 & H3 & Hg & ->). apply Forall2_cons_inv_r in Hg as (a4 & l4 & H4 & Hg & ->).
  apply Forall2_nil_inv_r in Hg as ->. rewrite !Forall_cons in Hidle. destruct Hidle as (I1 & I2 & I3 & I4 & _).
  assert (E3 : non_empty (from_client x) = false).
  { destruct H3 as [->|[_ []]]. destruct I3 as [Ha|[Hi|[Hd _]]]; try done. by injection Hi. }
  assert (E4 : non_empty (from_server x) = false).
  { destruct H4 as [->|[_ []]]. destruct I4 as [Ha|[Hi|[Hd _]]]; try done. by injection Hi. }
  destruct (empty_contents _ (relay_from_client x HI) E3) as [Ec Sc]. destruct (empty_contents _ (relay_from_server x HI) E4) as [Es Ss].
  assert (E1 : eof_ (dns_server x) = true).
  { destruct H1 as [->|[-> Hset]]; [|exact Hset]. destruct I1 as [Ha|[Hi|[_ He]]]; [done| |exact He].
    injection Hi as Hi. by rewrite Ss in Hi. }
  assert (E2 : eof_ (client x) = true).
  { destruct H2 as [->|[-> Hset]]; [|exact Hset]. destruct I2 as [Ha|[Hi|[_ He]]]; [done| |exact He].
    injection Hi as Hi. by rewrite Sc in Hi. }
  split; [by apply relay_client_end|done|by apply relay_server_end|done].
Qed.

Lemma relay_poll_ok pfds timeout x : relay_inv x ->
  let '(ret, _, x') := sys_poll pfds timeout x in
  relays x x' /\ relay_inv x' /\ match SystemCall "poll" ret with Ok _ => True | Err e => caught e end.
Proof.
  intros [Hd Hc Hs Hse Hce]. pose proof (relay_poll_spec pfds timeout x) as H.
  destruct (sys_poll pfds timeout x) as [[ret revents] x']. destruct H as (Hret & E1 & E2 & E3 & E4 & Hin & Hst).
  split; [split; unfold upstream, downstream; rewrite ?E1, ?E2, ?E3, ?E4, ?Hin, ?Hst; done|].
  split; [split; rewrite ?E1, ?E2, ?E3, ?E4, ?Hin, ?Hst; done|].
  unfold SystemCall. by destruct (0 <=? i32 ret).
Qed.

Lemma relay_loop_ok n : forall p x, Forall2 (guarded x) (actions_ p) relay_guards -> poller_wf p x -> relay_inv x ->
  match relay_loop n p x with
  | Ok (ended, p', x') => relays x x' /\ relay_inv x' /\
      (ended = true -> Exists (fun q => failed q = true) (pollfds_ p') \/ relay_done x')
  | Err e => caught e
  end.
Proof.
  induction n as [|n IH]; intros p x Hg Hwf HI; cbn [relay_loop]; [split; [apply relays_refl|by split]|].
  pose proof (poll_guarded relays relay_inv caught relays_refl relays_trans relay_poll_ok 60000 p x relay_guards
    relay_guards_ok relay_undisturbed Hg Hwf HI) as Hp.
  assert (Hkeep : forall (g : Guard) pfds, g ∈ relay_guards ->
    let '(_, _, x') := sys_poll pfds 60000 x in g_pre g x -> g_pre g x').
  { intros g pfds Hin. pose proof (relay_poll_spec pfds 60000 x) as H.
    destruct (sys_poll pfds 60000 x) as [[ret revents] x']. destruct H as (_ & _ & _ & E3 & E4 & _).
    unfold relay_guards in Hin. rewrite !elem_of_cons in Hin.
    destruct Hin as [->|[->|[->|[->|Hin]]]]; cbn; rewrite ?E3, ?E4; try done. by apply elem_of_nil in Hin. }
  specialize (Hp Hkeep). destruct (poll 60000 p x) as [[[r p1] x1]|e]; cbn [bind]; [|done].
  destruct Hp as (HR & HI1 & Hg1 & Hwf1 & Hexit).
  assert (Hnext : match relay_loop n p1 x1 with
    | Ok (ended, p', x') => relays x x' /\ relay_inv x' /\
        (ended = true -> Exists (fun q => failed q = true) (pollfds_ p') \/ relay_done x')
    | Err e => caught e end).
  { specialize (IH p1 x1 Hg1 Hwf1 HI1). destruct (relay_loop n p1 x1) as [[[ended p'] x']|e]; [|done].
    destruct IH as (HR2 & HI2 & Hend). split; [by eapply relays_trans|]. by split. }
  destruct (poll_result r); [exact Hnext..|]. split; [done|]. split; [done|]. intros _.
  destruct (Hexit eq_refl) as [[-> Hidle]|Hf]; [right|by left]. exact (idle_done _ _ Hg HI Hidle).
Qed.

(** ** A new relay *)

Lemma bytestream_new_Ok size : 1 < size < 2 ^ 31 ->
  exists q, bytestream_new size = Ok q /\ queue_ok q /\ contents q = [].
Proof.
  intros Hs. unfold bytestream_new. rewrite (proj2 (Z.ltb_lt 1 size)) by lia. eexists. split; [reflexivity|].
  assert (Hl : len (repeat Byte.x00 (Z.to_nat size)) = size) by (unfold len; rewrite repeat_length; lia).
  split; [|done]. split; [|cbn [buffer_]; lia].
  unfold bytestream_wf. cbn [buffer_ next_byte_to_push next_byte_to_pop]. lia.
Qed.

Lemma relay_poller_guarded x : Forall2 (guarded x) (actions_ (relay_poller x)) relay_guards /\ poller_wf (relay_poller x) x.
Proof.
  split; [|repeat constructor].
  unfold relay_guards. repeat (apply Forall2_cons; split; [by left|]). constructor.
Qed.

Context {sockets : SocketKernel OS}.

(** C31: The DNS proxy's TCP relay is a pair of lossless pipes.  However many
    turns its loop takes, and whatever descriptors the system reports in each,
    no assertion of the two queues fails (the conditions tested before each poll
    still hold when the callbacks run); in each direction the bytes written, in
    the queue and still to be read are the bytes there were to read when the
    relay began, in order.  The loop returns only when a descriptor has failed,
    or when both sides have closed and every byte has been passed on. *)
Theorem tcp_relay_transparent (n : nat) (tcp_target : Address) (c : FileDescriptor) (o : OS) (x : TcpRelay OS) :
  relay_start tcp_target c o = Ok x -> fd_ (dns_server x) <> fd_ c -> eof_ c = false ->
  match tcp_relay n tcp_target c o with
  | Ok (ended, p', x') =>
      stream (fd_ (dns_server x)) (relay_os x') ++ contents (from_client x') ++ input (fd_ c) (relay_os x') =
        stream (fd_ (dns_server x)) (relay_os x) ++ input (fd_ c) (relay_os x) /\
      stream (fd_ c) (relay_os x') ++ contents (from_server x') ++ input (fd_ (dns_server x)) (relay_os x') =
        stream (fd_ c) (relay_os x) ++ input (fd_ (dns_server x)) (relay_os x) /\
      (ended = true -> Exists (fun q => failed q = true) (pollfds_ p') \/ relay_done x')
  | Err e => caught_as_exception e = true
  end.
Proof.
  intros E Hne Hc. unfold tcp_relay. rewrite E. cbn [bind]. unfold relay_start in E. apply bind_Ok in E as ([s o1] & Es & E). apply bind_Ok in E as (o2 & _ & E).
  destruct (bytestream_new_Ok RELAY_BUFFER_SIZE) as (q & Eq & Hq & Hempty); [done|]. rewrite Eq in E. cbn [bind] in E.
  injection E as <-. cbn [dns_server relay_os] in *.
  assert (Heof : eof_ s = false).
  { unfold tcp_socket, socket_new, fd_new, check_and_set_cloexec in Es. destruct (sys_socket _ _ o) as [r o3].
    apply bind_Ok in Es as (k & _ & Es). cbn [fd_] in Es. destruct (k <=? 2); [done|]. destruct (sys_set_cloexec k o3) as [r2 o4].
    apply bind_Ok in Es as (? & _ & Es). by injection Es as <- _. }
  set (x := {| dns_server := s; client := c; from_client := q; from_server := q; relay_os := o2 |}).
  destruct (relay_poller_guarded x) as [Hg Hwf].
  assert (HI : relay_inv x) by (split; cbn; try done; by rewrite ?Heof, ?Hc).
  pose proof (relay_loop_ok n (relay_poller x) x Hg Hwf HI) as H.
  destruct (relay_loop n (relay_poller x) x) as [[[ended p'] x']|e]; [|done]. destruct H as ([R1 R2 R3 R4 _ _] & _ & Hend).
  unfold upstream, downstream in R3, R4. rewrite R1, R2 in R3, R4. cbn [x dns_server client from_client from_server relay_os] in R3, R4.
  rewrite Hempty in R3, R4. by split.
Qed.
End Relay.

(** * A concrete relay *)

Module Relayed.
(** Sockets over the pipes of [ByteStreamQueue]: the next socket is number 6. *)
#[export] Instance pipe_sockets : SocketKernel Pipes := {
  sys_socket domain type o := (6, o);
  sys_getsockopt fd level option o := (None, o);
  sys_setsockopt fd level option value o := (0, o);
  sys_getsockname fd o := (None, o);
  sys_getpeername fd o := (None, o);
  sys_bind fd a o := (0, o);
  sys_connect fd a o := (0, o);
  sys_listen fd backlog o := (0, o);
  sys_accept fd o := (7, o);
  sys_sendto fd payload a o := (len payload, o);
  sys_send fd payload o := (len payload, o);
  sys_recvfrom fd limit o := (None, o);
}.

(** Every descriptor is always ready. *)
#[export] Instance always_ready : PollKernel (TcpRelay Pipes) := fun pfds _ x => (4, map pfd_events pfds, x).

#[export] Program Instance ready_relay : RelayPoll Pipes.
Next Obligation. done. Qed.

Definition query : bytes := [Byte.x71; Byte.x75; Byte.x65; Byte.x72; Byte.x79; Byte.x3f].
Definition answer : bytes := [Byte.x61; Byte.x6e; Byte.x73].
Definition network : Pipes := set_pipe 7 (query, []) (set_pipe 6 (answer, []) (fun _ => ([], []))).

Definition accepted : FileDescriptor := {| fd_ := 7; eof_ := false; read_count_ := 0; write_count_ := 0 |}.
Definition target : Address := ipv4 (10, 0, 0, 53) 53.

(** With queues of four bytes, the loop returns when all has been passed on. *)
Definition small_relay : TcpRelay Pipes :=
  let q := {| buffer_ := repeat Byte.x00 4; next_byte_to_push := 0; next_byte_to_pop := 0 |} in
  {| dns_server := accepted <| fd_ := 6 |>; client := accepted; from_client := q; from_server := q; relay_os := network |}.

Example small_relay_ends :
  match relay_loop 10 (relay_poller small_relay) small_relay with
  | Ok (ended, _, x) => ended = true /\ stream 6 (relay_os x) = query /\ stream 7 (relay_os x) = answer
  | Err _ => False
  end.
Proof. vm_compute. by repeat split. Qed.

Lemma tcp_relay_transparent_witness :
  exists x, relay_start target accepted network = Ok x /\
  match tcp_relay 3 target accepted network with
  | Ok (ended, p', x') =>
      stream (fd_ (dns_server x)) (relay_os x') ++ contents (from_client x') ++ input (fd_ accepted) (relay_os x') =
        stream (fd_ (dns_server x)) (relay_os x) ++ input (fd_ accepted) (relay_os x) /\
      stream (fd_ accepted) (relay_os x') ++ contents (from_server x') ++ input (fd_ (dns_server x)) (relay_os x') =
        stream (fd_ accepted) (relay_os x) ++ input (fd_ (dns_server x)) (relay_os x) /\
      (ended = true -> Exists (fun q => failed q = true) (pollfds_ p') \/ relay_done x')
  | Err e => caught_as_exception e = true
  end.
Proof.
  assert (Hstart : exists x, relay_start target accepted network = Ok x /\ fd_ (dns_server x) = 6).
  { destruct (bytestream_new_Ok RELAY_BUFFER_SIZE) as (q & Eq & _ & _); [done|].
    unfold relay_start. cbn [tcp_socket socket_new]. rewrite Eq. eexists. split; reflexivity. }
  destruct Hstart as (x & E & Hfd). exists x. split; [exact E|].
  apply (tcp_relay_transparent 3 target accepted network x E); [rewrite Hfd; discriminate|reflexivity].
Defined.
End Relayed.
