(* ===== verification/EventLoop.v ===== *)
(** The event loop: src/util/event_loop.hh/.cc.

    The poller's callbacks work on a [LoopState]: the child processes, the
    descriptor that delivers the signals, the operating system and what the
    program keeps ([user]). *)
From S2P Require Import Prelude FileDescriptor SignalFD Poller ChildProcess Privileges.

(** * Handling a signal *)

(** A child process, with the exit status at which the loop goes on. *)
Abbreviation child := (Z * ChildProcess)%type.

Section HandleSignal.
Context {OS : Type} {procs : ProcessKernel OS}.

Fixpoint resume_all (children : list child) (o : OS) : outcome OS :=
  match children with
  | [] => Ok o
  | (_, c) :: children => let* o := resume c o in resume_all children o
  end.

Fixpoint all_terminated (children : list child) : outcome bool :=
  match children with
  | [] => Ok true
  | (_, c) :: children =>
      let* t := terminated c in
      if t : bool then all_terminated children else Ok false
  end.

(** [proc.terminated() or ( !proc.waitable() )], negated *)
Definition has_news (c : ChildProcess) (o : OS) : outcome (bool * OS) :=
  let* t := terminated c in
  if t : bool then Ok (false, o) else waitable c o.

(** find which children are waitable: the loop over the children, those of
    [seen] done. *)
Fixpoint reap (seen children : list child) (o : OS) : outcome (ActionResult * list child * OS) :=
  match children with
  | [] => Ok (action Continue, seen, o)
  | (continue_status, proc) :: rest =>
      let* (news, o) := has_news proc o in
      if negb news then reap (seen ++ [(continue_status, proc)]) rest o
      else
        let* (proc, o) := wait true proc o in
        let* t := terminated proc in
        if t : bool then
          let* status := exit_status proc in
          let* _ := if negb (status =? 0) && negb (status =? continue_status) then throw_exception (A := unit) proc else Ok tt in
          let now := seen ++ (continue_status, proc) :: rest in
          (* quit if all children have quit *)
          let* all := all_terminated now in
          Ok (action (if all : bool then ActionExit
                      else if status =? continue_status then Continue else ActionExit), now, o)
        else
          let* r := running proc in
          let* o :=
            if r : bool then Ok o
            else
              (* suspend parent too *)
              let (ret, o) := sys_raise SIGSTOP o in
              let* _ := SystemCall "raise" ret in Ok o in
          reap (seen ++ [(continue_status, proc)]) rest o
  end.

Definition handle_signal (ssi_signo : Z) (children : list child) (o : OS) : outcome (ActionResult * list child * OS) :=
  if ssi_signo =? SIGCONT then
    (* resume child processes too *)
    let* o := resume_all children o in
    Ok (action Continue, children, o)
  else if ssi_signo =? SIGCHLD then
    match children with
    | [] => Err (Throw "received SIGCHLD without any managed children")
    | _ => reap [] children o
    end
  else if (ssi_signo =? SIGHUP) || (ssi_signo =? SIGTERM) || (ssi_signo =? SIGQUIT) || (ssi_signo =? SIGINT) then
    Ok (action ActionExit, children, o)
  else Err (Throw "EventLoop: unknown signal").
(** The destructor of the loop: its members but the children have nothing to
    do.  The vector destroys the children from the first to the last. *)
Fixpoint destroy_children (fuel : nat) (children : list child) (o : OS) : outcome (list child * OS) :=
  match children with
  | [] => Ok ([], o)
  | (st, c) :: children =>
      let* (c, o) := child_destroy fuel c o in
      let* (children, o) := destroy_children fuel children o in
      Ok ((st, c) :: children, o)
  end.
End HandleSignal.

(** * The loop *)

Record LoopState (U OS : Type) := {
  child_processes_ : list child;
  signal_fd : FileDescriptor;
  os : OS;
  user : U;
}.
Arguments Build_LoopState {U OS}.
Arguments child_processes_ {U OS}.
Arguments signal_fd {U OS}.
Arguments os {U OS}.
Arguments user {U OS}.

#[export] Instance eta_LoopState U OS : Eta (LoopState U OS) := fun x =>
  {| child_processes_ := child_processes_ x; signal_fd := signal_fd x; os := os x; user := user x |}.

Record EventLoop (U OS : Type) := { signals_ : SignalMask; poller_ : Poller (LoopState U OS) }.
Arguments Build_EventLoop {U OS}.
Arguments signals_ {U OS}.
Arguments poller_ {U OS}.

Section Loop.
Context {U OS : Type} {kernel : Kernel OS} {procs : ProcessKernel OS} {sigs : SignalKernel OS}
  {cred : CredKernel OS} {pk : PollKernel (LoopState U OS)}.

Definition event_loop_new (o : OS) : outcome (EventLoop U OS * OS) :=
  let* signals := signal_mask_new [SIGCHLD; SIGCONT; SIGHUP; SIGTERM; SIGQUIT; SIGINT] in
  (* block signals so we can later use signalfd to read them *)
  let* o := set_as_mask signals o in
  Ok ({| signals_ := signals; poller_ := poller_new |}, o).

(** [add_action] and [add_simple_input_handler] *)
Definition loop_add_action (a : Action (LoopState U OS)) (x : LoopState U OS) (l : EventLoop U OS) : EventLoop U OS :=
  {| signals_ := signals_ l; poller_ := add_action a x (poller_ l) |}.
Definition add_simple_input_handler (fd : LoopState U OS -> FileDescriptor)
    (callback : LoopState U OS -> outcome (ActionResult * LoopState U OS)) (x : LoopState U OS) (l : EventLoop U OS) :=
  loop_add_action (action_new fd In callback always) x l.

(** [add_child_process] and [add_special_child_process] *)
Definition add_child_process (c : ChildProcess) (x : LoopState U OS) : LoopState U OS :=
  x <| child_processes_ := child_processes_ x ++ [(-1, c)] |>.
Definition add_special_child_process (continue_status : Z) (c : ChildProcess) (x : LoopState U OS) : LoopState U OS :=
  x <| child_processes_ := child_processes_ x ++ [(continue_status, c)] |>.

(** we get signal -> main screen turn on *)
Definition on_signal (x : LoopState U OS) : outcome (ActionResult * LoopState U OS) :=
  let* (sig, f, o) := read_signal (signal_fd x) (os x) in
  let* (r, children, o) := handle_signal sig (child_processes_ x) o in
  Ok (r, {| child_processes_ := children; signal_fd := f; os := o; user := user x |}).

(** At most [n] turns of the loop: the exit status if it has ended. *)
Fixpoint turns (n : nat) (wait_time : LoopState U OS -> outcome (Z * LoopState U OS))
    (p : Poller (LoopState U OS)) (x : LoopState U OS) : outcome (option Z * Poller (LoopState U OS) * LoopState U OS) :=
  match n with
  | O => Ok (None, p, x)
  | S n =>
      let* (t, x) := wait_time x in
      let* (r, p, x) := poll t p x in
      match poll_result r with
      | PollExit => Ok (Some (poll_exit_status r), p, x)
      | _ => turns n wait_time p x
      end
  end.

(** [internal_loop] up to its [while]: the privileges are dropped, the signal
    mask is checked and the signal descriptor joins the poller. *)
Definition loop_start (l : EventLoop U OS) (x : LoopState U OS) :
    outcome (TemporarilyUnprivileged * EventLoop U OS * LoopState U OS) :=
  let* (tu, o) := unprivileged_enter (os x) in
  (* verify that signal mask is intact *)
  let* (mask, o) := current_mask o in
  if negb (mask_eqb (signals_ l) mask) then Err (Throw "EventLoop: signal mask has been altered")
  else
    let* (sfd, o) := signal_fd_new (signals_ l) o in
    let x := {| child_processes_ := child_processes_ x; signal_fd := sfd; os := o; user := user x |} in
    Ok (tu, add_simple_input_handler signal_fd on_signal x l, x).

(** The signal descriptor and the privileges go out of scope. *)
Definition loop_end (tu : TemporarilyUnprivileged) (x : LoopState U OS) : outcome (LoopState U OS) :=
  let o := fd_destroy (signal_fd x) (os x) in
  let* o := unprivileged_leave tu o in
  Ok (x <| os := o |>).

Definition internal_loop (fuel : nat) (wait_time : LoopState U OS -> outcome (Z * LoopState U OS))
    (l : EventLoop U OS) (x : LoopState U OS) : outcome (Z * LoopState U OS) :=
  let* (tu, l, x) := loop_start l x in
  let* (status, _, x) := turns fuel wait_time (poller_ l) x in
  match status with
  | None => Err Diverges
  | Some status =>
      let* x := loop_end tu x in
      Ok (status, x)
  end.

(** [loop()]: no timeout *)
Definition loop (fuel : nat) (l : EventLoop U OS) (x : LoopState U OS) : outcome (Z * LoopState U OS) :=
  internal_loop fuel (fun x => Ok (-1, x)) l x.
End Loop.

(** * Turns of the loop *)

Section Turns.
Context {U OS : Type} {pk : PollKernel (LoopState U OS)}.
Context (R : LoopState U OS -> LoopState U OS -> Prop) (I : nat -> LoopState U OS -> Prop) (E : fault -> Prop).
Hypothesis R_refl : forall x, R x x.
Hypothesis R_trans : forall x y z, R x y -> R y z -> R x z.
Hypothesis I_weaken : forall n x, I (S n) x -> I n x.
Hypothesis sys_poll_ok : sys_poll_keeps R I E.

(** Any number of turns, each of which calls every callback once at most. *)
Lemma turns_ok wait_time n : steps_well R I E 0 wait_time ->
  forall m p x, Forall (action_ok R I E) (actions_ p) -> poller_wf p x -> I (n * length (actions_ p) + m)%nat x ->
  match turns n wait_time p x with
  | Ok (_, p', x') => R x x' /\ I m x' /\ poller_wf p' x' /\ Forall (action_ok R I E) (actions_ p') /\
      length (actions_ p') = length (actions_ p)
  | Err e => E e
  end.
Proof.
  intros Hwait. induction n as [|n IH]; intros m p x Hok Hwf Hx; cbn [turns]; [by repeat (split; [done|])|].
  cbn [Nat.mul] in Hx. rewrite <- Nat.add_assoc in Hx. specialize (Hwait _ x Hx).
  destruct (wait_time x) as [[t x1]|e]; cbn [bind]; [|done]. destruct Hwait as [HR1 HI1].
  pose proof (poll_ok R I E R_refl R_trans I_weaken sys_poll_ok t p _ x1 Hok
    (same_fds_step R I E _ _ _ _ Hok HR1 Hwf) HI1) as Hp.
  destruct (poll t p x1) as [[[r p2] x2]|e]; cbn [bind]; [|done]. destruct Hp as (HR2 & HI2 & Hwf2 & Hok2 & Hl2).
  pose proof (R_trans _ _ _ HR1 HR2) as HR12.
  specialize (IH m p2 x2 Hok2 Hwf2). rewrite Hl2 in IH. specialize (IH HI2).
  destruct (poll_result r).
  1, 2: destruct (turns n wait_time p2 x2) as [[[st p3] x3]|e]; [|done]; destruct IH as (HR3 & HI3 & Hwf3 & Hok3 & Hl3);
    split; [by eapply R_trans|]; by repeat (split; [done|]).
  split; [done|]. split; [by apply (I_drop I I_weaken (n * length (actions_ p)))|]. by split.
Qed.
End Turns.

(** What the callbacks keep, the turns keep. *)
Section TurnsFrame.
Context {U OS : Type} {pk : PollKernel (LoopState U OS)} (R : LoopState U OS -> LoopState U OS -> Prop) `{!PreOrder R}.
Hypothesis sys_poll_kept : forall pfds timeout x, R x (sys_poll pfds timeout x).2.

Lemma turns_kept wait_time n : step_kept R wait_time -> forall p x st p' x', Forall (action_kept R) (actions_ p) ->
  turns n wait_time p x = Ok (st, p', x') -> R x x' /\ Forall (action_kept R) (actions_ p').
Proof.
  intros Hw. induction n as [|n IH]; intros p x st p' x' Hok; cbn [turns]; intros E; [by simplify_eq|].
  apply bind_Ok in E as ([t x1] & E1 & E). apply Hw in E1. apply bind_Ok in E as ([[r p2] x2] & E2 & E).
  apply (poll_kept R sys_poll_kept) in E2 as [H2 Hok2]; [|done].
  assert (H12 : R x x2) by by transitivity x1.
  destruct (poll_result r); [apply IH in E as [H3 Hok3]; [|done]..|]; [split; [by transitivity x2|done]..|by simplify_eq].
Qed.
End TurnsFrame.

(** * Facts *)

Section Facts.
Context {OS : Type} {procs : ProcessKernel OS} {laws : ChildLaws OS}.

(** The objects of the loop: live, each for its own process. *)
Definition children_inv (children : list child) (o : OS) : Prop :=
  Forall (fun ch => moved_away_ ch.2 = false /\ child_inv ch.2 o) children /\
  NoDup (map (fun ch => pid_ ch.2) children).

Lemma children_inv_middle seen st c rest o : children_inv (seen ++ (st, c) :: rest) o ->
  moved_away_ c = false /\ child_inv c o.
Proof. intros [H _]. apply Forall_app in H as [_ H]. by apply Forall_cons in H as [H _]. Qed.

(** A call about one child leaves the others as they were. *)
Lemma children_inv_step seen st c c' rest o o' : children_inv (seen ++ (st, c) :: rest) o ->
  others (pid_ c) o o' -> moved_away_ c' = false -> child_inv c' o' -> pid_ c' = pid_ c ->
  children_inv (seen ++ (st, c') :: rest) o'.
Proof.
  intros [H Hnd] Ho Hm Hi Hp. rewrite map_app, map_cons in Hnd. cbn [snd] in Hnd.
  assert (Hk : forall l, Forall (fun ch => moved_away_ ch.2 = false /\ child_inv ch.2 o) l ->
    pid_ c ∉ map (fun ch : child => pid_ ch.2) l ->
    Forall (fun ch => moved_away_ ch.2 = false /\ child_inv ch.2 o') l).
  { intros l Hl Hn. rewrite Forall_forall in *. intros ch Hch. destruct (Hl ch Hch) as [H1 H2]. split; [done|].
    eapply child_inv_others; [done| |done]. intros E. apply Hn. rewrite <- E. by apply (list_elem_of_fmap_2 (fun ch : child => pid_ ch.2)). }
  apply Forall_app in H as [Hs H]. apply Forall_cons in H as [_ Hr].
  pose proof Hnd as Hnd'. apply NoDup_app in Hnd' as (_ & Hd & Hnr). apply NoDup_cons in Hnr as [Hnr _].
  split.
  - apply Forall_app. split; [|constructor; [done|]]; apply Hk; try done. intros Hin. apply (Hd _ Hin). by left.
  - rewrite map_app, map_cons. cbn [snd]. by rewrite Hp.
Qed.

Lemma has_news_ok c o : moved_away_ c = false -> child_inv c o ->
  exists b o', has_news c o = Ok (b, o') /\ child_inv c o' /\ others (pid_ c) o o' /\
    (b = true -> terminated_ c = false /\ has_change (pid_ c) o').
Proof.
  intros Hm Hi. unfold has_news, terminated, not_moved_away. rewrite Hm. cbn [negb bind]. destruct (terminated_ c) eqn:Ht.
  - exists false, o. split; [done|]. split; [done|]. by split.
  - destruct (waitable_ok c o Hm Hi Ht) as (b & o' & -> & H1 & H2 & H3). exists b, o'. split; [done|].
    split; [done|]. split; [done|]. auto.
Qed.

(** What a signal leaves of a child: itself if it had terminated. *)
Definition child_after (ch ch' : child) : Prop :=
  ch'.1 = ch.1 /\ pid_ ch'.2 = pid_ ch.2 /\ (terminated_ ch.2 = true -> ch' = ch).
Definition has_ended (ch ch' : child) : Prop := terminated_ ch.2 = false /\ terminated_ ch'.2 = true.
Definition quiet (ch ch' : child) : Prop := child_after ch ch' /\ terminated_ ch'.2 = terminated_ ch.2.

Lemma quiet_refl ch : quiet ch ch.
Proof. by repeat split. Qed.
Lemma Forall2_quiet_refl l : Forall2 quiet l l.
Proof. induction l; constructor; auto using quiet_refl. Qed.
Lemma all_terminated_ok children o : children_inv children o ->
  all_terminated children = Ok (forallb (fun ch => terminated_ ch.2) children).
Proof.
  intros [H _]. induction H as [|[st c] l [Hm _] _ IH]; [done|]. cbn [all_terminated forallb snd].
  cbn [snd] in Hm. unfold terminated, not_moved_away. rewrite Hm. cbn [negb bind]. by destruct (terminated_ c).
Qed.

(** The faults of the handler: a child failed, or the loop could not stop
    itself. *)
Definition child_failure (e : fault) : Prop :=
  e = UnixError "raise" \/
  exists n (d : bool) st, st <> 0 /\
    e = Throw ("`" +:+ n +:+ "': process " +:+ (if d then "died on signal " else "exited with failure status ")
               +:+ Ezio.print_int st).

(** What the handler of SIGCHLD may answer.  Either no child has been seen to
    end, and the loop goes on; or [ch] is the first that has been seen to end, now
    [ch'], without failing, and decides: the children after it have not been
    looked at. *)
Definition no_child_ended (children : list child) (r : ActionResult) (children' : list child) : Prop :=
  Forall2 quiet children children' /\ action_result r = Continue.

Definition first_child_ended (children : list child) (r : ActionResult) (children' : list child) : Prop :=
  exists seen ch rest seen' ch', children = seen ++ ch :: rest /\ children' = seen' ++ ch' :: rest /\
    Forall2 quiet seen seen' /\ child_after ch ch' /\ has_ended ch ch' /\
    (exit_status_ ch'.2 = 0 \/ exit_status_ ch'.2 = ch.1) /\
    action_result r =
      (if forallb (fun ch : child => terminated_ ch.2) children' then ActionExit
       else if exit_status_ ch'.2 =? ch.1 then Continue else ActionExit).

Definition reap_spec (children : list child) (r : ActionResult) (children' : list child) (o' : OS) : Prop :=
  children_inv children' o' /\ action_exit_status r = EXIT_SUCCESS /\
  (no_child_ended children r children' \/ first_child_ended children r children').

Lemma raise_children sig (o : OS) children : children_inv children o ->
  exists r o', sys_raise sig o = (r, o') /\ children_inv children o'.
Proof.
  destruct (raise_spec sig o) as (r & o' & E & Hf). intros [H Hnd]. exists r, o'. split; [done|]. split; [|done].
  eapply Forall_impl; [exact H|]. intros ch [Hm [H1 H2 H3 H4 H5]]. split; [done|]. split; try done.
  rewrite <- H3. symmetry. by apply Hf.
Qed.

Lemma throw_exception_eq c : moved_away_ c = false -> terminated_ c = true -> exit_status_ c <> 0 ->
  exists e, throw_exception (A := unit) c = Err e /\ child_failure e.
Proof.
  intros Hm Ht Hs. unfold throw_exception, name, died_on_signal, exit_status, not_moved_away, if_terminated.
  rewrite Hm, Ht. cbn [negb bind]. eexists. split; [reflexivity|]. right. by exists (name_ c), (died_on_signal_ c), (exit_status_ c).
Qed.

(** The end of one child: what [reap] does with it. *)
Lemma reap_ended seen0 seen st c c' rest (o : OS) : Forall2 quiet seen0 seen -> terminated_ c = false ->
  terminated_ c' = true -> pid_ c' = pid_ c ->
  children_inv (seen ++ (st, c') :: rest) o -> (exit_status_ c' = 0 \/ exit_status_ c' = st) ->
  reap_spec (seen0 ++ (st, c) :: rest)
    (action (if forallb (fun ch : child => terminated_ ch.2) (seen ++ (st, c') :: rest) then ActionExit
             else if exit_status_ c' =? st then Continue else ActionExit)) (seen ++ (st, c') :: rest) o.
Proof.
  intros Hq Ht Ht' Hp Hinv Hst. split; [done|]. split; [done|]. right. exists seen0, (st, c), rest, seen, (st, c').
  do 3 (split; [done|]). split; [|by repeat (split; [done|])]. split; [done|]. split; [done|]. cbn. congruence.
Qed.

Lemma reap_ok rest : forall seen0 seen (o : OS), Forall2 quiet seen0 seen -> children_inv (seen ++ rest) o ->
  match reap seen rest o with
  | Ok (r, children', o') => reap_spec (seen0 ++ rest) r children' o'
  | Err e => child_failure e
  end.
Proof.
  induction rest as [|[st c] rest IH]; intros seen0 seen o Hq Hinv; cbn [reap].
  { rewrite !app_nil_r in *. split; [done|]. split; [done|]. left. by split. }
  destruct (children_inv_middle _ _ _ _ _ Hinv) as [Hm Hi].
  destruct (has_news_ok c o Hm Hi) as (b & o1 & -> & Hi1 & Ho1 & Hb). cbn [bind].
  pose proof (children_inv_step _ _ _ c _ _ _ Hinv Ho1 Hm Hi1 eq_refl) as Hinv1.
  assert (Hnext : forall c' o2, quiet (st, c) (st, c') -> children_inv (seen ++ (st, c') :: rest) o2 ->
    match reap (seen ++ [(st, c')]) rest o2 with
    | Ok (r, children', o') => reap_spec (seen0 ++ (st, c) :: rest) r children' o'
    | Err e => child_failure e
    end).
  { intros c' o2 Hc H2. specialize (IH (seen0 ++ [(st, c)]) (seen ++ [(st, c')]) o2).
    rewrite <- !(assoc_L (++)) in IH. apply IH; [|exact H2]. apply Forall2_app; [done|]. constructor; [exact Hc|constructor]. }
  destruct b; cbn [negb]; [|by apply Hnext; [apply quiet_refl|]]. destruct (Hb eq_refl) as [Ht Hch].
  destruct (waitid_nonblocking (pid_ c) siginfo_zero o1) as (si & o2 & E & Hr); [by apply Hi1|done|].
  destruct (wait_reported true c o1 si o2 Hm Hi1 Ht E Hr) as (c' & -> & _ & Hi2 & Ht' & Hp & Hm'). cbn [bind].
  destruct Hr as (_ & Ho2 & _). pose proof (children_inv_step _ _ _ c' _ _ _ Hinv1 Ho2 Hm' Hi2 Hp) as Hinv2.
  unfold terminated, exit_status, running, not_moved_away, if_terminated. rewrite Hm'. cbn [negb bind].
  destruct (terminated_ c') eqn:Et; cbn [bind].
  - destruct (negb (exit_status_ c' =? 0) && negb (exit_status_ c' =? st)) eqn:Hst; cbn [bind].
    { apply andb_true_iff in Hst as [H0%negb_true_iff%Z.eqb_neq _].
      destruct (throw_exception_eq c' Hm' Et H0) as (e & -> & He). done. }
    apply andb_false_iff in Hst. rewrite !negb_false_iff, !Z.eqb_eq in Hst.
    rewrite (all_terminated_ok _ o2 Hinv2). cbn [bind]. by apply reap_ended.
  - assert (Hqc : quiet (st, c) (st, c')) by (split; [split; [done|]; split; [done|]; cbn; congruence|cbn; congruence]).
    destruct (running_ c'); [by apply Hnext|]. destruct (raise_children SIGSTOP o2 _ Hinv2) as (r & o3 & -> & Hinv3).
    unfold SystemCall. destruct (0 <=? i32 r); cbn [bind]; [by apply Hnext|]. by left.
Qed.

Lemma resume_all_ok rest : forall seen (o : OS), children_inv (seen ++ rest) o ->
  exists o', resume_all rest o = Ok o' /\ children_inv (seen ++ rest) o'.
Proof.
  induction rest as [|[st c] rest IH]; intros seen o Hinv; cbn [resume_all]; [by exists o|].
  destruct (children_inv_middle _ _ _ _ _ Hinv) as [Hm Hi].
  destruct (resume_ok c o Hm Hi) as (o1 & -> & Hi1 & Ho1 & _). cbn [bind].
  pose proof (children_inv_step _ _ _ c _ _ _ Hinv Ho1 Hm Hi1 eq_refl) as Hinv1.
  specialize (IH (seen ++ [(st, c)]) o1). rewrite <- !(assoc_L (++)) in IH. by apply IH.
Qed.

Lemma child_failure_caught e : child_failure e -> caught_as_exception e = true.
Proof. by intros [->|(n & d & st & _ & ->)]. Qed.

(** Whatever the signal, the handler keeps the children or throws. *)
Lemma handle_signal_ok sig (children : list child) (o : OS) : children_inv children o ->
  match handle_signal sig children o with
  | Ok (_, children', o') => children_inv children' o'
  | Err e => caught_as_exception e = true
  end.
Proof.
  intros Hinv. unfold handle_signal. destruct (sig =? SIGCONT).
  { destruct (resume_all_ok children [] o Hinv) as (o' & -> & H). exact H. }
  destruct (sig =? SIGCHLD).
  - destruct children as [|ch children]; [done|]. pose proof (reap_ok (ch :: children) [] [] o (Forall2_quiet_refl []) Hinv) as H.
    destruct (reap [] (ch :: children) o) as [[[r children'] o']|e]; [apply H|by apply child_failure_caught].
  - by destruct (_ || _).
Qed.

(** The end of the loop's children, each of which the system lets end within
    [fuel] changes. *)
Definition fates_within (fuel : nat) (children : list child) (o : OS) : Prop :=
  Forall (fun ch => (fate (pid_ ch.2) o <= fuel)%nat) children.

Lemma fates_within_le n m children (o : OS) : (n <= m)%nat -> fates_within n children o -> fates_within m children o.
Proof. intros Hn Hf. eapply Forall_impl; [exact Hf|]. intros ch Hch. cbn in *. lia. Qed.

Definition fates_shrink (o o' : OS) : Prop := forall p, (fate p o' <= fate p o)%nat.

#[export] Instance fates_shrink_preorder : PreOrder fates_shrink.
Proof. split; [intros o p; lia|]. intros o1 o2 o3 H1 H2 p. specialize (H1 p). specialize (H2 p). lia. Qed.

(** Only [clone] makes children, and no call prolongs what one goes through. *)
Definition calmer (o o' : OS) : Prop := (forall p, unreaped p o' -> unreaped p o) /\ fates_shrink o o'.

#[export] Instance calmer_preorder : PreOrder calmer.
Proof. split; [intros o; by split|]. intros o1 o2 o3 [A1 A2] [B1 B2]. split; [auto|by transitivity o2]. Qed.

Definition reaped (children : list child) (o : OS) : Prop :=
  Forall (fun ch => terminated_ ch.2 = true /\ ~ unreaped (pid_ ch.2) o) children.

Lemma destroy_children_ok fuel (children : list child) : forall (o : OS), children_inv children o ->
  fates_within fuel children o ->
  exists children' o', destroy_children (S fuel) children o = Ok (children', o') /\ reaped children' o' /\
    map (fun ch => pid_ ch.2) children' = map (fun ch => pid_ ch.2) children /\
    forall p, p ∉ map (fun ch => pid_ ch.2) children -> process_kept p o o'.
Proof.
  induction children as [|[st c] children IH]; intros o Hinv Hf.
  { exists [], o. split; [done|]. split; [constructor|]. split; [done|]. intros p _. apply process_kept_refl. }
  destruct (children_inv_middle [] st c children o Hinv) as [Hm Hi].
  apply Forall_cons in Hf as [Hfc Hf]. cbn [snd] in Hfc.
  destruct (child_destroy_ok fuel c o Hm Hi Hfc) as (c' & o1 & E1 & Ht & Hp & Hi' & Ho & _).
  destruct Hinv as [Hall Hnd]. apply Forall_cons in Hall as [_ Hall]. cbn [map snd] in Hnd. apply NoDup_cons in Hnd as [Hn Hnd].
  assert (Hne : Forall (fun ch : child => pid_ ch.2 <> pid_ c) children).
  { apply Forall_forall. intros ch Hch E. apply Hn. rewrite <- E. by apply (list_elem_of_fmap_2 (fun ch : child => pid_ ch.2)). }
  destruct (IH o1) as (children' & o2 & E2 & Hr & Hpids & Hk).
  { split; [|done]. eapply Forall_impl; [apply Forall_and; split; [exact Hall|exact Hne]|]. intros ch [[H1 H2] H3].
    split; [done|]. by eapply child_inv_others. }
  { eapply Forall_impl; [apply Forall_and; split; [exact Hf|exact Hne]|]. intros ch [H1 H2]. destruct (Ho _ H2) as (_ & _ & H3). cbn in *. lia. }
  exists ((st, c') :: children'), o2. cbn [destroy_children]. rewrite E1. cbn [bind]. rewrite E2. split; [done|].
  cbn [map snd]. rewrite Hp, Hpids. split; [|split; [done|]].
  - constructor; [|done]. cbn [snd]. split; [done|]. rewrite Hp. destruct (Hk (pid_ c) Hn) as [<- _].
    rewrite <- Hp, (inv_unreaped _ _ Hi'), Ht. done.
  - intros p Hp'. apply not_elem_of_cons in Hp' as [Hp1 Hp2]. eapply process_kept_trans; [by apply Ho|by apply Hk].
Qed.

(** C36: The handler of SIGCHLD asks the loop's children in turn, and decides on
    the first that it sees to have ended: it asks the loop to exit when all
    children have now ended or when that one did not end with its special status,
    and to go on otherwise; the children after it are not asked, so that an end
    among them may be missed until another signal comes.  When none has ended, the
    loop goes on.  It ends otherwise only with an exception that is caught: a
    child has failed, or the loop could not suspend itself.  It only ever acts on
    live processes: no assertion fails, no process that has been reaped is waited
    for, and every child's object stays right ([children_inv]). *)
Theorem handle_sigchld (children : list child) (o : OS) : children <> [] -> children_inv children o ->
  match handle_signal SIGCHLD children o with
  | Ok (r, children', o') => reap_spec children r children' o'
  | Err e => child_failure e
  end.
Proof. intros Hne Hinv. unfold handle_signal. destruct children; [done|]. by apply (reap_ok _ [] []). Qed.
End Facts.

(** The handler's objects are for the same processes as before. *)
Section HandlerPids.
Context {OS : Type} {procs : ProcessKernel OS}.

Definition pids (children : list child) : list Z := map (fun ch => pid_ ch.2) children.

Lemma wait_pid b c (o : OS) c' o' : wait b c o = Ok (c', o') -> pid_ c' = pid_ c.
Proof.
  unfold wait. destruct (moved_away_ c); [done|]. destruct (terminated_ c); [done|]. cbn [negb].
  destruct (sys_waitid _ _ _ _ o) as [[r si] o1]. destruct (SystemCall _ r); cbn [bind]; [|done].
  destruct (_ && _); [done|]. destruct (negb _); [done|]. destruct (negb _); [done|]. intros E.
  apply bind_Ok in E as (c1 & Es & E). simplify_eq. unfold state_change in Es. by repeat case_match; simplify_eq.
Qed.

Lemma reap_pids rest : forall seen (o : OS) r children' o', reap seen rest o = Ok (r, children', o') ->
  pids children' = pids (seen ++ rest).
Proof.
  induction rest as [|[st c] rest IH]; intros seen o r children' o'; cbn [reap]; intros E; [simplify_eq; by rewrite app_nil_r|].
  assert (Happ : forall c', pid_ c' = pid_ c -> pids ((seen ++ [(st, c')]) ++ rest) = pids (seen ++ (st, c) :: rest)).
  { intros c' Hp. unfold pids. rewrite !map_app. cbn [map snd]. rewrite Hp, <- (assoc_L (++)). done. }
  apply bind_Ok in E as ([b o1] & _ & E). destruct (negb b); [apply IH in E; by rewrite E, Happ|].
  apply bind_Ok in E as ([c' o2] & Hw & E). apply wait_pid in Hw. apply bind_Ok in E as (t & _ & E). destruct t.
  - apply bind_Ok in E as (status & _ & E). apply bind_Ok in E as (u & _ & E). apply bind_Ok in E as (all & _ & E). simplify_eq.
    unfold pids. rewrite !map_app. cbn [map snd]. by rewrite Hw.
  - apply bind_Ok in E as (run & _ & E). apply bind_Ok in E as (o3 & _ & E). apply IH in E. by rewrite E, Happ.
Qed.

Lemma handle_signal_pids sig children (o : OS) r children' o' : handle_signal sig children o = Ok (r, children', o') ->
  pids children' = pids children.
Proof.
  unfold handle_signal. destruct (sig =? SIGCONT).
  { intros E. apply bind_Ok in E as (o1 & _ & E). by simplify_eq. }
  destruct (sig =? SIGCHLD); [destruct children; [done|]; apply (reap_pids _ [])|].
  destruct (_ || _); [|done]. intros E. by simplify_eq.
Qed.

Lemma on_signal_pids {U} {kernel : Kernel OS} (x x' : LoopState U OS) r : on_signal x = Ok (r, x') ->
  pids (child_processes_ x') = pids (child_processes_ x) /\ user x' = user x.
Proof.
  unfold on_signal. intros E. apply bind_Ok in E as ([[sig f] o] & _ & E). apply bind_Ok in E as ([[r2 children] o2] & Eh & E).
  simplify_eq. split; [by eapply handle_signal_pids|done].
Qed.

Lemma fates_within_pids {laws : ChildLaws OS} n (children children' : list child) (o o' : OS) : pids children' = pids children -> fates_shrink o o' ->
  fates_within n children o -> fates_within n children' o'.
Proof.
  intros Hp Hs Hf. assert (H : Forall (fun p => (fate p o' <= n)%nat) (pids children')).
  { rewrite Hp. apply Forall_fmap. eapply Forall_impl; [exact Hf|]. intros ch Hch. cbn in *. specialize (Hs (pid_ ch.2)). lia. }
  by apply Forall_fmap in H.
Qed.
End HandlerPids.

(** What every system call about a process keeps, the handler keeps. *)
Section HandlerFrame.
Context {OS : Type} {procs : ProcessKernel OS} (P : OS -> OS -> Prop).
Hypothesis P_refl : forall o, P o o.
Hypothesis P_trans : forall o1 o2 o3, P o1 o2 -> P o2 o3 -> P o1 o3.
Hypothesis P_waitid : forall pid b1 b2 si o, P o (sys_waitid pid b1 b2 si o).2.
Hypothesis P_kill : forall pid sig o, P o (sys_kill pid sig o).2.
Hypothesis P_raise : forall sig o, P o (sys_raise sig o).2.

Lemma wait_frame b c o c' o' : wait b c o = Ok (c', o') -> P o o'.
Proof.
  unfold wait. intros E. destruct (moved_away_ c); [done|]. destruct (terminated_ c); [done|]. cbn [negb] in E.
  pose proof (P_waitid (pid_ c) b false siginfo_zero o) as H. destruct (sys_waitid _ _ _ _ o) as [[r si] o1].
  apply bind_Ok in E as (n & _ & E). destruct (_ && _); [done|]. destruct (negb _); [done|]. destruct (negb _); [done|].
  apply bind_Ok in E as (c1 & _ & E). by simplify_eq.
Qed.

Lemma has_news_frame c o b o' : has_news c o = Ok (b, o') -> P o o'.
Proof.
  unfold has_news. intros E. apply bind_Ok in E as (t & _ & E). destruct t; [by simplify_eq|].
  unfold waitable in E. destruct (moved_away_ c); [done|]. destruct (terminated_ c); [done|]. cbn [negb] in E.
  pose proof (P_waitid (pid_ c) true true siginfo_zero o) as H. destruct (sys_waitid _ _ _ _ o) as [[r si] o1].
  apply bind_Ok in E as (n & _ & E). destruct (_ =? 0); [by simplify_eq|]. by destruct (_ =? _); simplify_eq.
Qed.

Lemma resume_all_frame children : forall o o', resume_all children o = Ok o' -> P o o'.
Proof.
  induction children as [|[st c] l IH]; intros o o'; cbn [resume_all]; intros E; [by simplify_eq|].
  apply bind_Ok in E as (o1 & Er & E). eapply P_trans; [|by eapply IH].
  unfold resume, signal in Er. destruct (moved_away_ c); [done|]. cbn [negb] in Er. destruct (running_ c); [by simplify_eq|].
  destruct (terminated_ c); [by simplify_eq|]. pose proof (P_kill (pid_ c) SIGCONT o) as H.
  destruct (sys_kill _ _ o) as [r o2]. apply bind_Ok in Er as (n & _ & Er). by simplify_eq.
Qed.

Lemma reap_frame rest : forall seen o r children o', reap seen rest o = Ok (r, children, o') -> P o o'.
Proof.
  induction rest as [|[st c] rest IH]; intros seen o r children o'; cbn [reap]; intros E; [by simplify_eq|].
  apply bind_Ok in E as ([b o1] & Hn & E). apply has_news_frame in Hn. eapply P_trans; [exact Hn|].
  destruct (negb b); [by eapply IH|]. apply bind_Ok in E as ([c' o2] & Hw & E). apply wait_frame in Hw.
  eapply P_trans; [exact Hw|]. apply bind_Ok in E as (t & _ & E). destruct t.
  - apply bind_Ok in E as (status & _ & E). apply bind_Ok in E as (u & _ & E). apply bind_Ok in E as (all & _ & E). by simplify_eq.
  - apply bind_Ok in E as (run & _ & E). apply bind_Ok in E as (o3 & Hr & E). eapply P_trans; [|by eapply IH].
    destruct run; [by simplify_eq|]. pose proof (P_raise SIGSTOP o2) as H. destruct (sys_raise SIGSTOP o2) as [ret o4].
    apply bind_Ok in Hr as (n & _ & Hr). by simplify_eq.
Qed.

Lemma handle_signal_frame sig children o r children' o' : handle_signal sig children o = Ok (r, children', o') -> P o o'.
Proof.
  unfold handle_signal. destruct (sig =? SIGCONT).
  { intros E. apply bind_Ok in E as (o1 & Hr & E). simplify_eq. by eapply resume_all_frame. }
  destruct (sig =? SIGCHLD); [destruct children; [done|]; by eapply (reap_frame _ [])|].
  destruct (_ || _); [|done]. intros E. by simplify_eq.
Qed.

Lemma on_signal_frame {U} {kernel : Kernel OS} (x x' : LoopState U OS) r :
  (forall fd n o, P o (sys_read fd n o).2) -> on_signal x = Ok (r, x') -> P (os x) (os x').
Proof.
  intros P_read E. unfold on_signal, read_signal, read in E. pose proof (P_read (fd_ (signal_fd x)) (Z.min siginfo_size BUFFER_SIZE) (os x)) as H.
  destruct (sys_read _ _ (os x)) as [[c|] o1]; cbn [bind] in E; [|done]. destruct (negb _); [done|]. cbn [bind] in E.
  apply bind_Ok in E as ([[r2 children] o2] & Eh & E). simplify_eq. eapply P_trans; [exact H|]. by eapply handle_signal_frame.
Qed.
End HandlerFrame.

(** * Concrete loops *)

Module Signals.
Import ProcessTable.

(** A name server that has been killed, and a shell that has been stopped. *)
Definition dnsmasq : ChildProcess :=
  {| name_ := "dnsmasq"; pid_ := 8; running_ := true; terminated_ := false; exit_status_ := 0;
     died_on_signal_ := false; graceful_termination_signal_ := SIGTERM; moved_away_ := false |}.
Definition table (a b : fate_of) : Table := fun p => if p =? 7 then Some a else if p =? 8 then Some b else None.
Definition stopped_shell : Table :=
  table {| stops := [true]; exits_with := Some 0 |} {| stops := []; exits_with := Some 0 |}.

Lemma table_inv a b st1 st2 : children_inv [(st1, shell); (st2, dnsmasq)] (table a b).
Proof.
  split.
  - constructor; [|constructor; [|constructor]]; (split; [done|]; split; try done; split; [done|]; intros _; by eexists).
  - apply (bool_decide_unpack _). vm_compute. exact I.
Qed.

Lemma handle_sigchld_witness :
  match handle_signal SIGCHLD [(-1, shell); (-1, dnsmasq)] stopped_shell with
  | Ok (r, children', o') => reap_spec [(-1, shell); (-1, dnsmasq)] r children' o'
  | Err e => child_failure e
  end.
Proof. apply (handle_sigchld [(-1, shell); (-1, dnsmasq)] stopped_shell); [done|apply table_inv]. Defined.

(** The stopped shell suspends the parent, and the end of the name server ends
    the loop. *)
Example stopped_shell_exits :
  match handle_signal SIGCHLD [(-1, shell); (-1, dnsmasq)] stopped_shell with
  | Ok (r, [(_, a); (_, b)], _) => is_exit r && negb (running_ a) && negb (terminated_ a) && terminated_ b
  | _ => false
  end = true.
Proof. reflexivity. Qed.

(** Two children have ended and the one SIGCHLD is handled: the loop goes on
    after the first, which had its special status, and the second, whose end
    should have ended the loop, is not looked at until another signal comes. *)
Lemma sigchld_second_child_missed :
  match handle_signal SIGCHLD [(5, shell); (-1, dnsmasq)]
          (table {| stops := []; exits_with := Some 5 |} {| stops := []; exits_with := Some 0 |}) with
  | Ok (r, [(_, a); (_, b)], o) =>
      negb (is_exit r) && terminated_ a && negb (terminated_ b) &&
      match waitable b o with Ok (true, _) => true | _ => false end
  | _ => false
  end = true.
Proof. reflexivity. Qed.
End Signals.
