(* ===== verification/Unwinding.v ===== *)
(** What an exception leaves behind in an event loop (src/util/event_loop.cc).

    Elsewhere an exception carries no state of the system.  Here, [op_after] is
    the state in which [op] throws, given that it does: the functions follow the
    operations to the call that fails.  With them the destructors that run while
    an exception leaves [internal_loop] are followed, those of the signal
    descriptor and of [TemporarilyUnprivileged].  However the loop is left, its
    objects are still for the same child processes ([family_kept]); what the
    processes do with them then is in [FerryUnwinding] and [MainUnwinding]. *)
From Stdlib Require Import String.
From S2P Require Import Prelude FileDescriptor SignalFD Poller ChildProcess Privileges EventLoop.

(** * Where operations throw *)

Section Calls.
Context {OS : Type} {kernel : Kernel OS} {procs : ProcessKernel OS} {sigs : SignalKernel OS} {cred : CredKernel OS}.

Definition fd_new_after (fd : Z) (o : OS) : OS := if fd <=? 2 then o else (sys_set_cloexec fd o).2.

Definition read_after (limit : Z) (f : FileDescriptor) (o : OS) : OS := (sys_read (fd_ f) (Z.min BUFFER_SIZE limit) o).2.

Definition unprivileged_enter_after (o : OS) : OS :=
  let (r, o) := sys_setegid (sys_getgid o) o in
  if i32 r <? 0 then o else (sys_seteuid (sys_getuid o) o).2.

Definition current_mask_after (o : OS) : OS := (sys_sigprocmask_get o).2.

Definition signal_fd_new_after (signals : SignalMask) (o : OS) : OS :=
  let (r, o) := sys_signalfd (mask_ signals) o in
  if i32 r <? 0 then o else fd_new_after (i32 r) o.

Definition waitable_after (c : ChildProcess) (o : OS) : OS := (sys_waitid (pid_ c) true true siginfo_zero o).2.

(** ** The handler of signals, with the children as it leaves them *)

Fixpoint resume_all_after (children : list child) (o : OS) : OS :=
  match children with
  | [] => o
  | (_, c) :: children => match resume c o with Ok o => resume_all_after children o | Err _ => resume_after c o end
  end.

Fixpoint reap_after (seen children : list child) (o : OS) : list child * OS :=
  match children with
  | [] => (seen, o)
  | (continue_status, proc) :: rest =>
      match has_news proc o with
      | Err _ => (seen ++ children, waitable_after proc o)
      | Ok (false, o) => reap_after (seen ++ [(continue_status, proc)]) rest o
      | Ok (true, o) =>
          match wait true proc o with
          | Err _ => (seen ++ children, wait_after true proc o)
          | Ok (proc, o) =>
              let now := seen ++ (continue_status, proc) :: rest in
              (* [throw_exception] *)
              if terminated_ proc then (now, o)
              else if running_ proc then reap_after (seen ++ [(continue_status, proc)]) rest o
              else
                let (ret, o) := sys_raise SIGSTOP o in
                if i32 ret <? 0 then (now, o) else reap_after (seen ++ [(continue_status, proc)]) rest o
          end
      end
  end.

Definition handle_signal_after (ssi_signo : Z) (children : list child) (o : OS) : list child * OS :=
  if ssi_signo =? SIGCONT then (children, resume_all_after children o)
  else if ssi_signo =? SIGCHLD then reap_after [] children o
  else (children, o).

Definition on_signal_after {U} (x : LoopState U OS) : LoopState U OS :=
  match read_signal (signal_fd x) (os x) with
  | Err _ => x <| os := read_after siginfo_size (signal_fd x) (os x) |>
  | Ok (sig, f, o) =>
      let (children, o) := handle_signal_after sig (child_processes_ x) o in
      {| child_processes_ := children; signal_fd := f; os := o; user := user x |}
  end.
End Calls.

(** ** The poller *)

Section PollerAfter.
Context {X : Type} {pk : PollKernel X}.

(** Where the callback and the condition of an action throw. *)
Record ActionAfter := { callback_after : X -> X; interested_after : X -> X }.

Fixpoint set_events_after (acts : list (Action X)) (afters : list ActionAfter) (x : X) : X :=
  match acts, afters with
  | a :: acts, t :: afters =>
      if active a then
        match when_interested a x with Ok (_, x) => set_events_after acts afters x | Err _ => interested_after t x end
      else set_events_after acts afters x
  | _, _ => x
  end.

Fixpoint serve_after (acts : list (Action X)) (afters : list ActionAfter) (pfds : list pollfd) (x : X) : X :=
  match acts, afters, pfds with
  | a :: acts, t :: afters, q :: pfds =>
      if ready q then match callback a x with Ok (_, x) => serve_after acts afters pfds x | Err _ => callback_after t x end
      else serve_after acts afters pfds x
  | _, _, _ => x
  end.

Definition poll_after (afters : list ActionAfter) (timeout_ms : Z) (p : Poller X) (x : X) : X :=
  match set_events (actions_ p) (pollfds_ p) x with
  | Err _ => set_events_after (actions_ p) afters x
  | Ok (pfds, x) =>
      let '(ret, revents, x) := sys_poll pfds timeout_ms x in
      if i32 ret <? 0 then x else serve_after (actions_ p) afters (set_revents revents pfds) x
  end.
End PollerAfter.
Arguments ActionAfter : clear implicits.
Arguments Build_ActionAfter {X}.

(** ** The loop *)

Section LoopAfter.
Context {U OS : Type} {kernel : Kernel OS} {procs : ProcessKernel OS} {sigs : SignalKernel OS} {cred : CredKernel OS}
  {pk : PollKernel (LoopState U OS)}.
Abbreviation state := (LoopState U OS).

(** [wait_after]: where [wait_time] throws. *)
Fixpoint turns_after (n : nat) (wait_time : state -> outcome (Z * state)) (wait_after : state -> state)
    (afters : list (ActionAfter state)) (p : Poller state) (x : state) : state :=
  match n with
  | O => x
  | S n =>
      match wait_time x with
      | Err _ => wait_after x
      | Ok (t, x) =>
          match poll t p x with
          | Err _ => poll_after afters t p x
          | Ok (_, p, x) => turns_after n wait_time wait_after afters p x
          end
      end
  end.

Definition on_signal_throws : ActionAfter state := {| callback_after := on_signal_after; interested_after := fun x => x |}.

(** The privileges, if they have been dropped, are taken back. *)
Definition loop_start_unwound (l : EventLoop U OS) (x : state) : outcome state :=
  match unprivileged_enter (os x) with
  | Err _ => Ok (x <| os := unprivileged_enter_after (os x) |>)
  | Ok (tu, o) =>
      let o :=
        match current_mask o with
        | Err _ => current_mask_after o
        | Ok (mask, o) => if negb (mask_eqb (signals_ l) mask) then o else signal_fd_new_after (signals_ l) o
        end in
      let* o := unprivileged_leave tu o in
      Ok (x <| os := o |>)
  end.

(** The state when an exception has left [internal_loop]; [afters] are those of
    the actions of the poller. *)
Definition internal_loop_unwound (fuel : nat) (wait_time : state -> outcome (Z * state)) (wait_after : state -> state)
    (afters : list (ActionAfter state)) (l : EventLoop U OS) (x : state) : outcome state :=
  match loop_start l x with
  | Err _ => loop_start_unwound l x
  | Ok (tu, l, x) => loop_end tu (turns_after fuel wait_time wait_after (afters ++ [on_signal_throws]) (poller_ l) x)
  end.
End LoopAfter.

(** * What is kept around the loop *)

(** The system calls before and after the turns. *)
Class ScopeCalls (OS : Type) `{Kernel OS, SignalKernel OS, CredKernel OS} (P : OS -> OS -> Prop) : Prop := {
  keep_setegid v o : P o (sys_setegid v o).2;
  keep_seteuid v o : P o (sys_seteuid v o).2;
  keep_getmask o : P o (sys_sigprocmask_get o).2;
  keep_signalfd m o : P o (sys_signalfd m o).2;
  keep_fcntl fd o : P o (sys_set_cloexec fd o).2;
  keep_close fd o : P o (sys_close fd o).2;
}.

Section Scope.
Context {U OS : Type} {kernel : Kernel OS} {procs : ProcessKernel OS} {sigs : SignalKernel OS} {cred : CredKernel OS}.
Context (P : OS -> OS -> Prop) `{!PreOrder P} {calls : ScopeCalls OS P}.

Lemma enter_kept (o : OS) tu o' : unprivileged_enter o = Ok (tu, o') -> P o o'.
Proof.
  unfold unprivileged_enter. pose proof (keep_setegid (P := P) (sys_getgid o) o) as H1.
  destruct (sys_setegid _ o) as [r o1]. destruct (SystemCall _ r); cbn [bind]; [|done].
  pose proof (keep_seteuid (P := P) (sys_getuid o1) o1) as H2. destruct (sys_seteuid _ o1) as [r2 o2].
  destruct (SystemCall _ r2); cbn [bind]; [|done]. destruct (assert_not_root o2); cbn [bind]; [|done].
  intros [= <- <-]. by transitivity o1.
Qed.

Lemma leave_kept tu (o o' : OS) : unprivileged_leave tu o = Ok o' -> P o o'.
Proof.
  unfold unprivileged_leave, in_destructor. pose proof (keep_seteuid (P := P) (orig_euid tu) o) as H1.
  destruct (sys_seteuid _ o) as [r o1]. destruct (SystemCall _ r); cbn [bind].
  2: by destruct (caught_as_exception _).
  pose proof (keep_setegid (P := P) (orig_egid tu) o1) as H2. destruct (sys_setegid _ o1) as [r2 o2].
  destruct (SystemCall _ r2); cbn [bind]; [|by destruct (caught_as_exception _)]. intros [= <-]. by transitivity o1.
Qed.

Lemma destroy_kept f (o : OS) : P o (fd_destroy f o).
Proof. unfold fd_destroy. destruct (fd_ f <? 0); [done|]. apply keep_close. Qed.

(** The loop's start changes only the system, the signal descriptor and the
    poller. *)
Lemma loop_start_kept (l : EventLoop U OS) (x : LoopState U OS) tu l' x' : loop_start l x = Ok (tu, l', x') ->
  P (os x) (os x') /\ child_processes_ x' = child_processes_ x /\ user x' = user x /\
  l' = add_simple_input_handler signal_fd on_signal x' l.
Proof.
  unfold loop_start. intros E. apply bind_Ok in E as ([tu1 o1] & E1 & E). apply enter_kept in E1.
  apply bind_Ok in E as ([m o2] & E2 & E). destruct (negb _); [done|]. apply bind_Ok in E as ([sfd o3] & E3 & E). simplify_eq.
  split; [|done]. cbn. transitivity o1; [done|]. transitivity o2.
  - unfold current_mask in E2. pose proof (keep_getmask (P := P) o1) as H. destruct (sys_sigprocmask_get o1) as [[r s] o'].
    destruct (SystemCall _ r); cbn [bind] in E2; [|done]. by simplify_eq.
  - unfold signal_fd_new, fd_new, check_and_set_cloexec in E3. pose proof (keep_signalfd (P := P) (mask_ (signals_ l)) o2) as H.
    destruct (sys_signalfd _ o2) as [r o']. destruct (SystemCall _ r) as [n|]; cbn [bind fd_] in E3; [|done].
    destruct (n <=? 2); [done|]. pose proof (keep_fcntl (P := P) n o') as H'. destruct (sys_set_cloexec n o') as [r2 o''].
    destruct (SystemCall _ r2); cbn [bind] in E3; [|done]. simplify_eq. by transitivity o'.
Qed.

Lemma loop_end_kept tu (x x' : LoopState U OS) : loop_end tu x = Ok x' ->
  P (os x) (os x') /\ child_processes_ x' = child_processes_ x /\ user x' = user x.
Proof.
  unfold loop_end. intros E. apply bind_Ok in E as (o & E & E'). simplify_eq. split; [|done]. cbn.
  transitivity (fd_destroy (signal_fd x) (os x)); [apply destroy_kept|by eapply leave_kept].
Qed.
End Scope.

Section AfterFrame.
Context {U OS : Type} {pk : PollKernel (LoopState U OS)} (R : LoopState U OS -> LoopState U OS -> Prop) `{!PreOrder R}.
Hypothesis sys_poll_kept : forall pfds timeout x, R x (sys_poll pfds timeout x).2.

Definition after_kept (t : ActionAfter (LoopState U OS)) : Prop :=
  (forall x, R x (callback_after t x)) /\ (forall x, R x (interested_after t x)).

Lemma set_events_after_kept acts : Forall (action_kept R) acts -> forall afters x, Forall after_kept afters ->
  R x (set_events_after acts afters x).
Proof using PreOrder0.
  induction 1 as [|a acts [_ Hi] _ IH]; intros [|t afters] x Ht; cbn [set_events_after]; try done.
  apply Forall_cons in Ht as [[_ Ht1] Ht]. destruct (active a); [|by apply IH].
  destruct (when_interested a x) as [[b x1]|] eqn:E; [|apply Ht1]. etransitivity; [by eapply Hi|by apply IH].
Qed.

Lemma serve_after_kept acts : Forall (action_kept R) acts -> forall afters pfds x, Forall after_kept afters ->
  R x (serve_after acts afters pfds x).
Proof using PreOrder0.
  induction 1 as [|a acts [Hc _] _ IH]; intros [|t afters] [|q pfds] x Ht; cbn [serve_after]; try done.
  apply Forall_cons in Ht as [[Ht1 _] Ht]. destruct (ready q); [|by apply IH].
  destruct (callback a x) as [[r x1]|] eqn:E; [|apply Ht1]. etransitivity; [by eapply Hc|by apply IH].
Qed.

Lemma poll_after_kept afters timeout p x : Forall (action_kept R) (actions_ p) -> Forall after_kept afters ->
  R x (poll_after afters timeout p x).
Proof using PreOrder0 sys_poll_kept.
  intros Hok Ht. unfold poll_after. destruct (set_events _ _ x) as [[pfds x1]|] eqn:E; [|by apply set_events_after_kept].
  apply (set_events_kept R) in E; [|done]. etransitivity; [exact E|]. pose proof (sys_poll_kept pfds timeout x1) as Hp.
  destruct (sys_poll pfds timeout x1) as [[ret revents] x2]. etransitivity; [exact Hp|]. destruct (i32 ret <? 0); [done|].
  by apply serve_after_kept.
Qed.

Lemma turns_after_kept wait_time wait_after afters n : step_kept R wait_time -> (forall x, R x (wait_after x)) ->
  Forall after_kept afters -> forall p x, Forall (action_kept R) (actions_ p) ->
  R x (turns_after n wait_time wait_after afters p x).
Proof using PreOrder0 sys_poll_kept.
  intros Hw Ha Ht. induction n as [|n IH]; intros p x Hok; cbn [turns_after]; [done|].
  destruct (wait_time x) as [[t x1]|] eqn:E; [|apply Ha]. apply Hw in E. etransitivity; [exact E|].
  destruct (poll t p x1) as [[[r p2] x2]|] eqn:Ep; [|by apply poll_after_kept].
  apply (poll_kept R sys_poll_kept) in Ep as [H2 Hok2]; [|done]. etransitivity; [exact H2|by apply IH].
Qed.
End AfterFrame.

(** * The start of the loop *)
Section StartKept.
Context {U OS : Type} {kernel : Kernel OS} {procs : ProcessKernel OS} {sigs : SignalKernel OS} {cred : CredKernel OS}.
Context (P : OS -> OS -> Prop) `{!PreOrder P} {calls : ScopeCalls OS P}.

Lemma enter_after_kept (o : OS) : P o (unprivileged_enter_after o).
Proof.
  unfold unprivileged_enter_after. pose proof (keep_setegid (P := P) (sys_getgid o) o) as H1.
  destruct (sys_setegid _ o) as [r o1]. destruct (i32 r <? 0); [exact H1|]. etransitivity; [exact H1|]. apply keep_seteuid.
Qed.

Lemma signal_fd_new_after_kept m (o : OS) : P o (signal_fd_new_after m o).
Proof.
  unfold signal_fd_new_after, fd_new_after. pose proof (keep_signalfd (P := P) (mask_ m) o) as H1.
  destruct (sys_signalfd _ o) as [r o1]. destruct (i32 r <? 0); [exact H1|]. destruct (i32 r <=? 2); [exact H1|].
  etransitivity; [exact H1|]. apply keep_fcntl.
Qed.

Lemma current_mask_kept (o : OS) m o' : current_mask o = Ok (m, o') -> P o o'.
Proof.
  unfold current_mask. pose proof (keep_getmask (P := P) o) as H. destruct (sys_sigprocmask_get o) as [[r s] o1].
  destruct (SystemCall _ r); cbn [bind]; [|done]. by intros [= <- <-].
Qed.

Lemma loop_start_unwound_kept (l : EventLoop U OS) (x x' : LoopState U OS) : loop_start_unwound l x = Ok x' ->
  P (os x) (os x') /\ child_processes_ x' = child_processes_ x /\ signal_fd x' = signal_fd x.
Proof.
  unfold loop_start_unwound. intros E. destruct (unprivileged_enter (os x)) as [[tu o1]|] eqn:Ee.
  - apply (enter_kept P) in Ee. apply bind_Ok in E as (o2 & El & E). apply (leave_kept P) in El. simplify_eq. split; [|done].
    cbn. transitivity o1; [done|]. etransitivity; [|exact El].
    destruct (current_mask o1) as [[m o3]|] eqn:Em; [|apply keep_getmask]. apply current_mask_kept in Em.
    destruct (negb _); [done|]. etransitivity; [exact Em|]. apply signal_fd_new_after_kept.
  - simplify_eq. split; [|done]. apply enter_after_kept.
Qed.
End StartKept.

(** * The handler of signals *)

(** What every system call about a process keeps is kept where they throw. *)
Section HandlerFrame.
Context {OS : Type} {procs : ProcessKernel OS} (P : OS -> OS -> Prop) `{!PreOrder P}.
Hypothesis P_waitid : forall pid b1 b2 si o, P o (sys_waitid pid b1 b2 si o).2.
Hypothesis P_kill : forall pid sig o, P o (sys_kill pid sig o).2.
Hypothesis P_raise : forall sig o, P o (sys_raise sig o).2.

Lemma resume_all_after_frame children : forall o, P o (resume_all_after children o).
Proof using P_kill PreOrder0.
  induction children as [|[st c] children IH]; intros o; cbn [resume_all_after]; [done|].
  assert (Hr : P o (resume_after c o)).
  { unfold resume_after, signal_after. destruct (running_ c); [done|]. destruct (terminated_ c); [done|]. apply P_kill. }
  destruct (resume c o) as [o1|] eqn:E; [|exact Hr]. apply resume_after_ok in E as <-. etransitivity; [exact Hr|]. apply IH.
Qed.

Lemma reap_after_frame rest : forall seen o, P o (reap_after seen rest o).2.
Proof using P_waitid P_raise PreOrder0.
  induction rest as [|[st c] rest IH]; intros seen o; cbn [reap_after]; [done|].
  destruct (has_news c o) as [[b o1]|] eqn:En; [|apply P_waitid].
  apply (has_news_frame P (fun o => reflexivity o) P_waitid) in En. etransitivity; [exact En|]. destruct b; [|apply IH].
  destruct (wait true c o1) as [[c' o2]|] eqn:Ew; [|apply P_waitid].
  apply (wait_frame P P_waitid) in Ew. etransitivity; [exact Ew|]. destruct (terminated_ c'); [done|].
  destruct (running_ c'); [apply IH|]. pose proof (P_raise SIGSTOP o2) as Hr. destruct (sys_raise SIGSTOP o2) as [ret o3].
  destruct (i32 ret <? 0); [exact Hr|]. etransitivity; [exact Hr|]. apply IH.
Qed.

Lemma handle_signal_after_frame sig children o : P o (handle_signal_after sig children o).2.
Proof using P_waitid P_kill P_raise PreOrder0.
  unfold handle_signal_after. destruct (sig =? SIGCONT); [apply resume_all_after_frame|].
  destruct (sig =? SIGCHLD); [apply reap_after_frame|done].
Qed.

Lemma on_signal_after_frame {U} {kernel : Kernel OS} (x : LoopState U OS) :
  (forall fd n o, P o (sys_read fd n o).2) -> P (os x) (os (on_signal_after x)).
Proof using P_waitid P_kill P_raise PreOrder0.
  intros P_read. unfold on_signal_after. destruct (read_signal (signal_fd x) (os x)) as [[[sig f] o]|] eqn:E; [|apply P_read].
  assert (Hr : P (os x) o).
  { unfold read_signal, read in E. pose proof (P_read (fd_ (signal_fd x)) (Z.min siginfo_size BUFFER_SIZE) (os x)) as H.
    destruct (sys_read _ _ (os x)) as [[c|] o1]; cbn [bind] in E; [|done]. destruct (negb _); by simplify_eq. }
  pose proof (handle_signal_after_frame sig (child_processes_ x) o) as Hh. destruct (handle_signal_after _ _ o) as [children o2].
  cbn. by etransitivity.
Qed.
End HandlerFrame.

(** * The same children *)

(** No process of those that exist is touched. *)
Definition all_kept {OS} `{ChildLaws OS} (o o' : OS) : Prop := forall p, process_kept p o o'.

#[export] Instance all_kept_preorder {OS} `{ChildLaws OS} : PreOrder all_kept.
Proof. split; [intros o p; apply process_kept_refl|intros o1 o2 o3 H1 H2 p; by eapply process_kept_trans]. Qed.

(** The calls of a loop without actions of its own reap no child, but for
    [waitid], and prolong nothing. *)
Class LoopLaws (U OS : Type) `{Kernel OS, ChildLaws OS, SignalKernel OS, CredKernel OS} {pk : PollKernel (LoopState U OS)} : Prop := {
  loop_scope :: ScopeCalls OS all_kept;
  loop_read fd n o : all_kept o (sys_read fd n o).2;
  loop_waitid pid b1 b2 si o : calmer o (sys_waitid pid b1 b2 si o).2;
  loop_kill pid sig o : calmer o (sys_kill pid sig o).2;
  loop_raise sig o : calmer o (sys_raise sig o).2;
  loop_poll pfds timeout (x : LoopState U OS) : let x' := (sys_poll pfds timeout x).2 in
    child_processes_ x' = child_processes_ x /\ signal_fd x' = signal_fd x /\ all_kept (os x) (os x');
}.

Section Kept.
Context {OS : Type} {procs : ProcessKernel OS} {laws : ChildLaws OS}.

Lemma children_inv_kept (children : list child) (o o' : OS) : all_kept o o' -> children_inv children o -> children_inv children o'.
Proof.
  intros Hp [H' Hnd]. split; [|done]. eapply Forall_impl; [exact H'|]. intros ch [Hm [H1' H2' H3' H4' H5']]. split; [done|].
  split; try done. rewrite <- H3'. symmetry. by apply Hp.
Qed.

Lemma all_kept_calmer (o o' : OS) : all_kept o o' -> calmer o o'.
Proof. intros Hp. split; intros p; apply Hp. Qed.
End Kept.

(** The loop's objects are still for the same processes, and in step with what
    the system says of them. *)
Record family_kept {U OS} `{ChildLaws OS} (x x' : LoopState U OS) : Prop := {
  family_pids : pids (child_processes_ x') = pids (child_processes_ x);
  family_calmer : calmer (os x) (os x');
  family_inv : children_inv (child_processes_ x) (os x) -> children_inv (child_processes_ x') (os x');
}.

#[export] Instance family_kept_preorder {U OS} `{ChildLaws OS} : PreOrder (family_kept (U := U) (OS := OS)).
Proof.
  split; [intros x; by split|]. intros x y z [A1 A2 A3] [B1 B2 B3]. split; [congruence|by transitivity (os y)|auto].
Qed.

Section Family.
Context {U OS : Type} `{loop_laws : LoopLaws U OS}.
Abbreviation state := (LoopState U OS).

Lemma quiet_family (x x' : state) : child_processes_ x' = child_processes_ x -> all_kept (os x) (os x') -> family_kept x x'.
Proof. intros Ec Hk. split; [by rewrite Ec|by apply all_kept_calmer|rewrite Ec; by apply children_inv_kept]. Qed.

(** Whether [reap] throws or not. *)
Lemma reap_after_ok rest : forall seen (o : OS), children_inv (seen ++ rest) o ->
  children_inv (reap_after seen rest o).1 (reap_after seen rest o).2 /\ pids (reap_after seen rest o).1 = pids (seen ++ rest).
Proof.
  induction rest as [|[st c] rest IH]; intros seen o Hinv; cbn [reap_after]; [by rewrite app_nil_r in *|].
  destruct (children_inv_middle _ _ _ _ _ Hinv) as [Hm Hi].
  destruct (has_news_ok c o Hm Hi) as (b & o1 & En & Hi1 & Ho1 & Hb). rewrite En.
  pose proof (children_inv_step _ _ _ c _ _ _ Hinv Ho1 Hm Hi1 eq_refl) as Hinv1.
  assert (Hpids : forall c', pid_ c' = pid_ c -> pids (seen ++ (st, c') :: rest) = pids (seen ++ (st, c) :: rest)).
  { intros c' Hp. unfold pids. rewrite !map_app. cbn [map snd]. by rewrite Hp. }
  assert (Hnext : forall c' o2, pid_ c' = pid_ c -> children_inv (seen ++ (st, c') :: rest) o2 ->
    children_inv (reap_after (seen ++ [(st, c')]) rest o2).1 (reap_after (seen ++ [(st, c')]) rest o2).2 /\
    pids (reap_after (seen ++ [(st, c')]) rest o2).1 = pids (seen ++ (st, c) :: rest)).
  { intros c' o2 Hp Hc2. destruct (IH (seen ++ [(st, c')]) o2) as [Hrc Hrp]; [by rewrite <- (assoc_L (++))|].
    split; [exact Hrc|]. rewrite Hrp, <- (assoc_L (++)). by apply Hpids. }
  destruct b; [|by apply Hnext]. destruct (Hb eq_refl) as [Ht Hch].
  destruct (waitid_nonblocking (pid_ c) siginfo_zero o1) as (si & o2 & E & Hr); [by apply Hi1|done|].
  destruct (wait_reported true c o1 si o2 Hm Hi1 Ht E Hr) as (c' & Ew & _ & Hi2 & Ht' & Hp & Hm'). rewrite Ew.
  destruct Hr as (_ & Ho2 & _). pose proof (children_inv_step _ _ _ c' _ _ _ Hinv1 Ho2 Hm' Hi2 Hp) as Hinv2.
  destruct (terminated_ c'); [split; [done|by apply Hpids]|]. destruct (running_ c'); [by apply Hnext|].
  destruct (raise_children SIGSTOP o2 _ Hinv2) as (r & o3 & Er & Hinv3). rewrite Er.
  destruct (i32 r <? 0); [split; [done|by apply Hpids]|by apply Hnext].
Qed.

Lemma resume_all_after_same children : forall (o o' : OS), resume_all children o = Ok o' -> resume_all_after children o = o'.
Proof.
  induction children as [|[st c] children IH]; intros o o'; cbn [resume_all resume_all_after]; [by intros [= <-]|].
  destruct (resume c o); cbn [bind]; [apply IH|done].
Qed.

Lemma handle_signal_after_ok sig children (o : OS) : children_inv children o ->
  children_inv (handle_signal_after sig children o).1 (handle_signal_after sig children o).2.
Proof.
  intros Hinv. unfold handle_signal_after. destruct (sig =? SIGCONT).
  { destruct (resume_all_ok children [] o Hinv) as (o' & Er & Hc). cbn [fst snd]. by rewrite (resume_all_after_same _ _ _ Er). }
  destruct (sig =? SIGCHLD); [by apply (reap_after_ok children [])|done].
Qed.

Lemma reap_after_pids rest : forall seen (o : OS), pids (reap_after seen rest o).1 = pids (seen ++ rest).
Proof.
  induction rest as [|[st c] rest IH]; intros seen o; cbn [reap_after]; [by rewrite app_nil_r|].
  assert (Hp : forall c' r, pid_ c' = pid_ c -> pids ((seen ++ [(st, c')]) ++ r) = pids (seen ++ (st, c) :: r)).
  { intros c' r Hp. unfold pids. rewrite <- (assoc_L (++)), !map_app. cbn [map app snd]. by rewrite Hp. }
  destruct (has_news c o) as [[[] o1]|]; [|by rewrite IH; apply Hp|done].
  destruct (wait true c o1) as [[c' o2]|] eqn:Ew; [|done]. apply wait_pid in Ew.
  assert (Hn : pids (seen ++ (st, c') :: rest) = pids (seen ++ (st, c) :: rest)) by by rewrite <- (Hp c' rest Ew), <- (assoc_L (++)).
  destruct (terminated_ c'); [done|]. destruct (running_ c'); [by rewrite IH; apply Hp|].
  destruct (sys_raise SIGSTOP o2) as [ret o3]. destruct (i32 ret <? 0); [done|by rewrite IH; apply Hp].
Qed.

(** The handler of the signals, whether it returns or throws. *)
Lemma on_signal_family : action_kept family_kept (action_new signal_fd In (on_signal (U := U)) always).
Proof.
  split; [|intros x b x' E; by injection E as _ <-]. intros x r x' E. split.
  - by eapply on_signal_pids.
  - eapply (on_signal_frame calmer); [done|intros o1 o2 o3 A B; by transitivity o2|apply loop_waitid|apply loop_kill|apply loop_raise
      |intros fd n o; apply all_kept_calmer, loop_read|exact E].
  - intros Hinv. cbn [callback action_new] in E. unfold on_signal in E. apply bind_Ok in E as ([[sig f] o] & Er & E).
    assert (Hk : all_kept (os x) o).
    { unfold read_signal, read in Er. pose proof (loop_read (fd_ (signal_fd x)) (Z.min BUFFER_SIZE siginfo_size) (os x)) as Hk.
      destruct (sys_read _ _ (os x)) as [[c|] o1]; cbn [bind] in Er; [|done]. destruct (negb _); by simplify_eq. }
    pose proof (handle_signal_ok sig _ o (children_inv_kept _ _ _ Hk Hinv)) as Hh.
    apply bind_Ok in E as ([[r2 children] o2] & Eh & E). rewrite Eh in Hh. by simplify_eq.
Qed.

Lemma on_signal_throws_family : after_kept (U := U) family_kept on_signal_throws.
Proof.
  split; [|done]. intros x. cbn [callback_after on_signal_throws]. split.
  - unfold on_signal_after. destruct (read_signal _ _) as [[[sig f] o]|]; [|done].
    unfold handle_signal_after. destruct (sig =? SIGCONT); [done|]. destruct (sig =? SIGCHLD); [|done].
    pose proof (reap_after_pids (child_processes_ x) [] o) as Hp. by destruct (reap_after _ _ o).
  - apply (on_signal_after_frame calmer); [apply loop_waitid|apply loop_kill|apply loop_raise|].
    intros fd n o. apply all_kept_calmer, loop_read.
  - intros Hinv. unfold on_signal_after. pose proof (loop_read (fd_ (signal_fd x)) (Z.min BUFFER_SIZE siginfo_size) (os x)) as Hk.
    rewrite Z.min_comm in Hk. unfold read_signal, read, read_after in *.
    destruct (sys_read _ _ (os x)) as [[c|] o1]; cbn [bind os child_processes_ upd snd] in *; [|by eapply children_inv_kept].
    apply (children_inv_kept _ _ _ Hk) in Hinv.
    destruct (negb _); cbn [bind]; [exact Hinv|].
    pose proof (handle_signal_after_ok (ssi_signo c) _ o1 Hinv) as Hh. by destruct (handle_signal_after _ _ o1).
Qed.
Lemma loop_poll_family pfds timeout (x : state) : family_kept x (sys_poll pfds timeout x).2.
Proof. destruct (loop_poll pfds timeout x) as (Ec & _ & Hk). by apply quiet_family. Qed.

(** ** The loop, from before its start to after its end *)

Definition in_destructor_fault : fault := Terminates "exception in a destructor".

Lemma leave_fault tu (o : OS) : if unprivileged_leave tu o is Err e then e = in_destructor_fault else True.
Proof.
  unfold unprivileged_leave, in_destructor, SystemCall. destruct (sys_seteuid _ o) as [r o2].
  destruct (0 <=? i32 r); cbn [bind]; [|done]. destruct (sys_setegid _ o2) as [r2 o3]. by destruct (0 <=? i32 r2).
Qed.

Lemma loop_start_family (l : EventLoop U OS) (x : state) tu l' x' : loop_start l x = Ok (tu, l', x') ->
  Forall (action_kept family_kept) (actions_ (poller_ l)) ->
  family_kept x x' /\ Forall (action_kept family_kept) (actions_ (poller_ l')).
Proof.
  intros E Ha. destruct (loop_start_kept all_kept _ _ _ _ _ E) as (Hk & Ec & _ & ->). split; [by apply quiet_family|].
  apply Forall_app. split; [exact Ha|]. constructor; [|constructor]. apply on_signal_family.
Qed.

Lemma loop_end_family tu (x : state) : match loop_end tu x with Ok x' => family_kept x x' | Err e => e = in_destructor_fault end.
Proof.
  pose proof (loop_end_kept all_kept tu x) as Hk. unfold loop_end in *.
  pose proof (leave_fault tu (fd_destroy (signal_fd x) (os x))) as Hf. destruct (unprivileged_leave _ _); cbn [bind] in *; [|done].
  destruct (Hk _ eq_refl) as (Hk' & Ec & _). by apply quiet_family.
Qed.

Lemma internal_loop_family fuel wait_time (l : EventLoop U OS) (x : state) st x' : step_kept family_kept wait_time ->
  Forall (action_kept family_kept) (actions_ (poller_ l)) -> internal_loop fuel wait_time l x = Ok (st, x') -> family_kept x x'.
Proof.
  intros Hw Ha E. unfold internal_loop in E. apply bind_Ok in E as ([[tu l1] x1] & E1 & E).
  destruct (loop_start_family _ _ _ _ _ E1 Ha) as [Hx1 Ha1]. apply bind_Ok in E as ([[st' p2] x2] & E2 & E).
  apply (turns_kept family_kept loop_poll_family) in E2 as [Hx2 _]; [|done..]. destruct st' as [st'|]; [|done].
  pose proof (loop_end_family tu x2) as Hx3. destruct (loop_end tu x2) as [x3|]; cbn [bind] in E; [|done]. simplify_eq.
  by transitivity x1; [|transitivity x2].
Qed.

(** An exception leaves the loop with the same children, unless the privileges
    cannot be taken back. *)
Lemma internal_loop_unwound_family fuel wait_time wait_after afters (l : EventLoop U OS) (x : state) :
  step_kept family_kept wait_time -> (forall x, family_kept x (wait_after x)) ->
  Forall (action_kept family_kept) (actions_ (poller_ l)) -> Forall (after_kept family_kept) afters ->
  match internal_loop_unwound fuel wait_time wait_after afters l x with
  | Ok x' => family_kept x x'
  | Err e => e = in_destructor_fault
  end.
Proof.
  intros Hw Hwa Ha Haf. unfold internal_loop_unwound. destruct (loop_start l x) as [[[tu l1] x1]|e] eqn:E1.
  - destruct (loop_start_family _ _ _ _ _ E1 Ha) as [Hx1 Ha1].
    assert (Haf1 : Forall (after_kept family_kept) (afters ++ [on_signal_throws])).
    { apply Forall_app. split; [exact Haf|]. constructor; [apply on_signal_throws_family|constructor]. }
    pose proof (turns_after_kept family_kept loop_poll_family wait_time wait_after _ fuel Hw Hwa Haf1 (poller_ l1) x1 Ha1) as Hx2.
    set (x2 := turns_after _ _ _ _ _ x1) in *. pose proof (loop_end_family tu x2) as Hx3. destruct (loop_end tu x2); [|exact Hx3].
    by transitivity x1; [|transitivity x2].
  - pose proof (loop_start_unwound_kept all_kept l x) as Hk. destruct (loop_start_unwound l x) as [x'|e'] eqn:Eu.
    + destruct (Hk x' eq_refl) as (Hk' & Ec & _). by apply quiet_family.
    + unfold loop_start_unwound in Eu. destruct (unprivileged_enter (os x)) as [[tu o1]|]; [|done].
      set (o2 := match current_mask o1 with Ok _ => _ | Err _ => _ end) in *. pose proof (leave_fault tu o2) as Hf.
      destruct (unprivileged_leave tu o2); cbn [bind] in Eu; [done|]. by simplify_eq.
Qed.
End Family.

Lemma destroy_children_leaves `{laws : ChildLaws OS} n children (o : OS) : children_inv children o -> fates_within n children o ->
  exists children' o', destroy_children (S n) children o = Ok (children', o') /\
    forall p, unreaped p o' -> unreaped p o /\ p ∉ pids children.
Proof.
  intros Hc Hf. destruct (destroy_children_ok n children o Hc Hf) as (cs & o' & E & Hr & Hp & Hk). exists cs, o'. split; [exact E|].
  intros p Hu. assert (Hn : p ∉ pids children).
  { unfold pids. rewrite <- Hp. intros (ch & -> & Hch)%list_elem_of_fmap. unfold reaped in Hr. rewrite Forall_forall in Hr. by apply (Hr ch Hch). }
  split; [|done]. by apply (Hk p Hn).
Qed.

(** The destructor of the loop after it: each child is terminated and reaped. *)
Lemma family_reaped {U OS} `{laws : ChildLaws OS} n (x x' : LoopState U OS) : children_inv (child_processes_ x) (os x) ->
  fates_within n (child_processes_ x) (os x) -> family_kept x x' ->
  exists children o', destroy_children (S n) (child_processes_ x') (os x') = Ok (children, o') /\
    reaped children o' /\ pids children = pids (child_processes_ x) /\
    forall p, p ∉ pids (child_processes_ x) -> process_kept p (os x') o'.
Proof.
  intros Hc Hf [Hp Hcalm Hinv]. destruct (destroy_children_ok n (child_processes_ x') (os x')) as (children & o' & E & Hr & Hpp & Hk).
  - by apply Hinv.
  - eapply fates_within_pids; [exact Hp|apply Hcalm|exact Hf].
  - exists children, o'. rewrite <- Hp. by repeat (split; [done|]).
Qed.
