(* ===== verification/Ferry.v ===== *)
(** One direction of the packet shell at work: [PacketShell::Ferry::loop]
    (src/packet/packetshell.cc), with [DNSProxy::register_handlers]
    (src/util/dns_proxy.cc), whose handlers the downlink's loop has.

    The ferry is an event loop with three actions of its own: a packet from the
    tunnel device goes into the queue, the queue's packets go to the sibling's
    device when some are due, and the loop exits when the queue is finished.  Its
    state puts the cellular queue, the clock, the two descriptors and the proxy,
    if there is one, into the state of the loop; [ferry_fifo] carries the FIFO property of the queue through the
    poller, the signal handler and any number of turns. *)
From S2P Require Import Prelude Timestamp Packets PacketQueue DroppingQueue LinkQueue DelayTrace PacketHeader FileDescriptor CellularQueue SignalFD Poller ChildProcess Privileges Address Socket DnsProxy EventLoop.

(** * State *)

Record FerryState (W Q : Type) := {
  ferry_queue : CellularQueue Q;
  world : W;
  tun : FileDescriptor;
  sibling : FileDescriptor;
  dns : option DNSProxy;
}.
Arguments Build_FerryState {W Q}.
Arguments ferry_queue {W Q}.
Arguments world {W Q}.
Arguments tun {W Q}.
Arguments sibling {W Q}.
Arguments dns {W Q}.

#[export] Instance eta_FerryState W Q : Eta (FerryState W Q) := fun x =>
  {| ferry_queue := ferry_queue x; world := world x; tun := tun x; sibling := sibling x; dns := dns x |}.

(** * Operations *)

Section Ferry.
Context {W Q OS : Type} {clock : Clock W} {apq : AbstractPacketQueue W Q}
  {kernel : Kernel OS} {tun_kernel : TunKernel OS} {procs : ProcessKernel OS} {sigs : SignalKernel OS}
  {cred : CredKernel OS} {pk : PollKernel (LoopState (FerryState W Q) OS)}.

Abbreviation state := (LoopState (FerryState W Q) OS).
Definition tun_of (x : state) : FileDescriptor := tun (user x).
Definition sibling_of (x : state) : FileDescriptor := sibling (user x).

(** tun device gets datagram -> read it -> give to ferry *)
Definition on_tun (x : state) : outcome (ActionResult * state) :=
  let* (c, f, o) := read BUFFER_SIZE (tun_of x) (os x) in
  let* (q, w) := read_packet c (ferry_queue (user x)) (world (user x)) in
  Ok (action Continue,
      x <| os := o |> <| user := (user x) <| ferry_queue := q |> <| world := w |> <| tun := f |> |>).

(** ferry ready to write datagram -> send to sibling's tun device *)
Definition on_output (x : state) : outcome (ActionResult * state) :=
  let* (q, w, f) := write_packets (ferry_queue (user x)) (world (user x)) (sibling_of x, os x) in
  Ok (action Continue,
      x <| os := f.2 |> <| user := (user x) <| ferry_queue := q |> <| world := w |> <| sibling := f.1 |> |>).

Definition output_pending (x : state) : outcome (bool * state) :=
  let* (b, w) := pending_output (ferry_queue (user x)) (world (user x)) in
  Ok (b, x <| user := (user x) <| world := w |> |>).

(** exit if finished *)
Definition on_finished (x : state) : outcome (ActionResult * state) := Ok (action ActionExit, x).
Definition queue_finished (x : state) : outcome (bool * state) := Ok (finished (ferry_queue (user x)), x).

Definition queue_wait_time (x : state) : outcome (Z * state) :=
  let* (t, q, w) := wait_time (ferry_queue (user x)) (world (user x)) in
  Ok (t, x <| user := (user x) <| ferry_queue := q |> <| world := w |> |>).

Definition ferry_actions : list (Action state) :=
  [ action_new tun_of In on_tun always;
    action_new sibling_of Out on_output output_pending;
    action_new sibling_of Out on_finished queue_finished ].

(** The poller as [Ferry::loop] leaves it for [internal_loop]. *)
Definition ferry_loop_actions (l : EventLoop (FerryState W Q) OS) (x : state) : EventLoop (FerryState W Q) OS :=
  fold_left (fun l a => loop_add_action a x l) ferry_actions l.

Definition ferry_loop (fuel : nat) (l : EventLoop (FerryState W Q) OS) (x : state) : outcome (Z * state) :=
  internal_loop fuel queue_wait_time (ferry_loop_actions l x) x.

(** ** The handlers of the DNS proxy *)

Context {sockets : SocketKernel OS} {threads : ThreadKernel OS}.

Definition no_descriptor : FileDescriptor := {| fd_ := -1; eof_ := false; read_count_ := 0; write_count_ := 0 |}.
Definition udp_of (x : state) : FileDescriptor := match dns (user x) with Some p => udp_listener_ p | None => no_descriptor end.
Definition tcp_of (x : state) : FileDescriptor := match dns (user x) with Some p => tcp_listener_ p | None => no_descriptor end.

Definition on_dns (handle : DNSProxy -> OS -> outcome (DNSProxy * OS)) (x : state) : outcome (ActionResult * state) :=
  match dns (user x) with
  | None => Err (UndefinedBehaviour "handler of no proxy")
  | Some p =>
      let* (p, o) := handle p (os x) in
      Ok (action Continue, x <| os := o |> <| user := (user x) <| dns := Some p |> |>)
  end.

(** The handlers of a proxy, if there is one. *)
Definition dns_actions (x : state) : list (Action state) :=
  match dns (user x) with
  | None => []
  | Some _ => [ action_new udp_of In (on_dns handle_udp) always; action_new tcp_of In (on_dns handle_tcp) always ]
  end.

Definition register_handlers (l : EventLoop (FerryState W Q) OS) (x : state) : EventLoop (FerryState W Q) OS :=
  fold_left (fun l a => loop_add_action a x l) (dns_actions x) l.
End Ferry.

(** * Laws of the operating system *)

(** The tunnel device: a read that may take as many bytes as the program asks
    for gives one whole packet, any of those [offered].  [received fd o] are the
    packets read so far from [fd].  The other calls leave the devices alone, and
    none of them reaps a child. *)
Class FerryLaws (W Q OS : Type) `{TunKernel OS, ChildLaws OS} {pk : PollKernel (LoopState (FerryState W Q) OS)} := {
  received : Z -> OS -> list bytes;
  same_traffic (o o' : OS) : Prop := forall fd, datagrams fd o' = datagrams fd o /\ received fd o' = received fd o;
  same_processes (o o' : OS) : Prop := forall p, process_kept p o o';
  tun_read fd limit o c o' : tun_device fd -> BUFFER_SIZE <= limit -> sys_read fd limit o = (Some c, o') ->
    offered c /\ received fd o' = received fd o ++ [c] /\ (forall fd', datagrams fd' o' = datagrams fd' o) /\
    same_processes o o';
  other_read fd limit o c o' : ~ tun_device fd -> sys_read fd limit o = (Some c, o') ->
    same_traffic o o' /\ same_processes o o';
  write_frame fd c o : (forall fd', received fd' (sys_write fd c o).2 = received fd' o) /\ same_processes o (sys_write fd c o).2;
  waitid_frame pid b1 b2 si o : same_traffic o (sys_waitid pid b1 b2 si o).2;
  kill_frame pid sig o : same_traffic o (sys_kill pid sig o).2;
  raise_frame sig o : same_traffic o (sys_raise sig o).2;
  poll_frame pfds timeout x : let x' := (sys_poll pfds timeout x).2 in
    child_processes_ x' = child_processes_ x /\ signal_fd x' = signal_fd x /\ user x' = user x /\
    same_traffic (os x) (os x') /\ same_processes (os x) (os x');
}.

(** The calls of the proxy's handlers leave the tunnel devices and the children
    alone. *)
Class ListenerLaws (W Q OS : Type) `{FerryLaws W Q OS, SocketKernel OS, ThreadKernel OS} := {
  quiet_call (o o' : OS) : Prop := same_traffic (W := W) (Q := Q) o o' /\ same_processes (W := W) (Q := Q) o o';
  recvfrom_frame fd limit o : quiet_call o (sys_recvfrom fd limit o).2;
  accept_frame fd o : quiet_call o (sys_accept fd o).2;
  cloexec_frame fd o : quiet_call o (sys_set_cloexec fd o).2;
  getsockopt_frame fd level option o : quiet_call o (sys_getsockopt fd level option o).2;
  thread_frame r o : quiet_call o (sys_thread r o).2;
}.

(** * Invariant *)

Section Facts.
Context {W Q OS : Type} {clock : Clock W} {claws : ClockLaws W} {apq : AbstractPacketQueue W Q}
  {fpq : FifoPacketQueue W Q} {fl : FlowRelation} {flowing : FlowingQueue W Q fl}
  {kernel : Kernel OS} {tun_kernel : TunKernel OS} {procs : ProcessKernel OS} {chlaws : ChildLaws OS}
  {sigs : SignalKernel OS} {pk : PollKernel (LoopState (FerryState W Q) OS)} {laws : FerryLaws W Q OS}
  {sockets : SocketKernel OS} {threads : ThreadKernel OS} {llaws : ListenerLaws W Q OS}.
Context (tunfd sibfd sigfd : Z) (listeners : option (Z * Z)).
Hypothesis tunfd_device : tun_device (OS := OS) tunfd.
Hypothesis sibfd_device : tun_device (OS := OS) sibfd.
Hypothesis sigfd_other : ~ tun_device (OS := OS) sigfd.

Abbreviation state := (LoopState (FerryState W Q) OS).
Abbreviation queue x := (ferry_queue (user x)).
Abbreviation got := (received (W := W) (Q := Q)).

Definition listeners_of (x : state) : option (Z * Z) :=
  (fun p => (fd_ (udp_listener_ p), fd_ (tcp_listener_ p))) <$> dns (user x).

Definition fds_are (x : state) : Prop :=
  fd_ (tun_of x) = tunfd /\ fd_ (sibling_of x) = sibfd /\ fd_ (signal_fd x) = sigfd /\ listeners_of x = listeners.

Definition fds_same (x x' : state) : Prop :=
  fd_ (tun_of x') = fd_ (tun_of x) /\ fd_ (sibling_of x') = fd_ (sibling_of x) /\ fd_ (signal_fd x') = fd_ (signal_fd x) /\
  listeners_of x' = listeners_of x.

Lemma fds_are_same x x' : fds_are x -> fds_are x' -> fds_same x x'.
Proof. intros (A1 & A2 & A3 & A4) (B1 & B2 & B3 & B4). repeat split; congruence. Qed.

Lemma listener_fds x x' : fds_same x x' -> fd_ (udp_of x') = fd_ (udp_of x) /\ fd_ (tcp_of x') = fd_ (tcp_of x).
Proof.
  intros (_ & _ & _ & H). unfold listeners_of, udp_of, tcp_of in *. destruct (dns (user x')), (dns (user x)); by simplify_eq/=.
Qed.

(** [n] more packets may come without overflowing a counter. *)
Definition ferry_inv (n : nat) (x : state) : Prop :=
  fds_are x /\ children_inv (child_processes_ x) (os x) /\
  exists t, 0 <= t /\ clock_from (world (user x)) t /\ queue_inv t (queue x) /\
    (pkt_counter_ (queue x) + Z.of_nat n + 1) * PACKET_SIZE < 2 ^ 31.

(** The packets written and inside are, in order, those written and inside
    before and the packets read since. *)
Definition carried (x x' : state) : Prop :=
  fds_same x x' /\
  exists rs, got tunfd (os x') = got tunfd (os x) ++ rs /\
    flow (datagrams sibfd (os x') ++ in_flight (queue x')) (datagrams sibfd (os x) ++ in_flight (queue x) ++ rs).

Definition caught (e : fault) : Prop := caught_as_exception e = true.

(** How a turn may fail: with an exception that is caught, or with what
    [read_packet] ends with for a packet that the system offers and the queue does
    not accept. *)
Definition packet_fault (e : fault) : Prop := exists c, offered (OS := OS) c /\ ~ packet_readable c /\ read_fault c e.
Definition turn_fault (e : fault) : Prop := caught e \/ packet_fault e.

Lemma carried_same x x' : fds_same x x' -> got tunfd (os x') = got tunfd (os x) ->
  datagrams sibfd (os x') = datagrams sibfd (os x) -> in_flight (queue x') = in_flight (queue x) -> carried x x'.
Proof.
  intros Hf Hg Hd Hi. split; [done|]. exists []. rewrite !app_nil_r, Hd, Hi. split; [done|apply flow_refl].
Qed.

Lemma carried_refl x : carried x x.
Proof. by apply carried_same; [repeat split|..]. Qed.

Lemma carried_trans x y z : carried x y -> carried y z -> carried x z.
Proof.
  intros [(A1 & A2 & A3 & A4) (r1 & Hg1 & Hd1)] [(B1 & B2 & B3 & B4) (r2 & Hg2 & Hd2)].
  split; [repeat split; congruence|]. exists (r1 ++ r2).
  split; [by rewrite Hg2, Hg1, (assoc_L (++))|]. eapply flow_trans; [exact Hd2|].
  replace (datagrams sibfd (os x) ++ in_flight (queue x) ++ r1 ++ r2)
    with ((datagrams sibfd (os x) ++ in_flight (queue x) ++ r1) ++ r2) by by rewrite <- !(assoc_L (++)).
  rewrite (assoc_L (++)). apply flow_app; [exact Hd1|apply flow_refl].
Qed.

Lemma ferry_inv_weaken n x : ferry_inv (S n) x -> ferry_inv n x.
Proof.
  intros (Hf & Hc & t & Ht & Hw & Hq & Hn). split; [done|]. split; [done|]. exists t. unfold PACKET_SIZE in *.
  split; [done|]. split; [done|]. split; [done|]. lia.
Qed.

Lemma children_inv_same (children : list child) (o o' : OS) :
  same_processes (W := W) (Q := Q) o o' -> children_inv children o -> children_inv children o'.
Proof.
  intros Hp [H Hnd]. split; [|done]. eapply Forall_impl; [exact H|]. intros ch [Hm [H1 H2 H3 H4 H5]]. split; [done|].
  split; try done. rewrite <- H3. symmetry. by apply Hp.
Qed.

Lemma inv_room_n t (q : CellularQueue Q) n : queue_inv t q -> (pkt_counter_ q + Z.of_nat n + 1) * PACKET_SIZE < 2 ^ 31 -> room q.
Proof. intros Hq Hn. eapply inv_room; [exact Hq|]. unfold PACKET_SIZE in *. lia. Qed.

(** ** The callbacks *)

Lemma on_tun_ok : steps_well carried ferry_inv turn_fault 1 on_tun.
Proof.
  intros n x ((Ht & Hs & Hg) & Hc & t & Ht0 & Hw & Hq & Hn). unfold keeps, on_tun, read. rewrite Ht.
  destruct (sys_read tunfd (Z.min BUFFER_SIZE BUFFER_SIZE) (os x)) as [[c|] o] eqn:Er; cbn [bind]; [|by left].
  assert (Hl : BUFFER_SIZE <= Z.min BUFFER_SIZE BUFFER_SIZE) by by vm_compute.
  destruct (tun_read (W := W) (Q := Q) _ _ _ _ _ tunfd_device Hl Er)
    as (Hoff & Hrec & Hdat & Hpr).
  destruct (decide (packet_readable c)) as [Hok|Hbad].
  2: { destruct (read_packet_fault t (queue x) (world (user x)) c Hw Hbad) as (e & -> & He). right. by exists c. }
  destruct (read_packet_ok t (queue x) (world (user x)) c Ht0 Hq Hw (inv_room_n _ _ _ Hq Hn) Hok)
    as (q' & w' & t' & p & -> & Ht' & Hw' & Hq' & Hpc & El & Ed & Ec & _). cbn [bind].
  assert (Hf : forall f, fd_ f = fd_ (tun_of x) -> fds_are (x <| os := o |>
    <| user := (user x) <| ferry_queue := q' |> <| world := w' |> <| tun := f |> |>)).
  { intros f Ef. split; [|by split]. cbn. by rewrite Ef. }
  split.
  - split; [apply fds_are_same; [done|]; apply Hf; by destruct (len c =? 0)|]. exists [c]. cbn [os user ferry_queue upd]. split; [done|].
    rewrite Hdat. apply flow_app; [apply flow_refl|]. unfold in_flight. rewrite El, Ed, map_app, <- (assoc_L (++)). cbn [map].
    rewrite Ec. apply flow_refl.
  - split; [apply Hf; by destruct (len c =? 0)|]. split; [by eapply children_inv_same|]. exists t'. cbn [os user ferry_queue world upd].
    unfold PACKET_SIZE in *. split; [lia|]. split; [done|]. split; [done|]. lia.
Qed.

(** What the writes to the sibling keep. *)
Definition write_frame_of (f f' : FileDescriptor * OS) : Prop :=
  fd_ f'.1 = fd_ f.1 /\ got tunfd f'.2 = got tunfd f.2 /\ same_processes (W := W) (Q := Q) f.2 f'.2.

Lemma same_processes_refl (o : OS) : same_processes (W := W) (Q := Q) o o.
Proof. intros p. apply process_kept_refl. Qed.
Lemma same_processes_trans (o1 o2 o3 : OS) : same_processes (W := W) (Q := Q) o1 o2 ->
  same_processes (W := W) (Q := Q) o2 o3 -> same_processes (W := W) (Q := Q) o1 o3.
Proof. intros H1 H2 p. eapply process_kept_trans; [apply H1|apply H2]. Qed.

Lemma write_loop_frame fuel : forall b all f (o : OS) r f' o', write_loop fuel b all f o = Ok (r, f', o') ->
  write_frame_of (f, o) (f', o').
Proof.
  induction fuel as [|fuel IH]; intros b all f o r f' o'; cbn [write_loop]; intros E; [done|].
  apply bind_Ok in E as ([[b1 f1] o1] & Hw & E).
  assert (H1 : write_frame_of (f, o) (f1, o1)).
  { unfold write_some in Hw. destruct b as [|x b]; [done|]. destruct (write_frame (W := W) (Q := Q) (fd_ f) (x :: b) o) as [Hr Hp].
    destruct (sys_write (fd_ f) (x :: b) o) as [n o2]. apply bind_Ok in Hw as (m & _ & Hw).
    destruct (m =? 0); [done|]. destruct (_ <? m); [done|]. simplify_eq. split; [done|]. split; [apply Hr|exact Hp]. }
  destruct (all && _); [|by simplify_eq]. apply IH in E. destruct H1 as (A1 & A2 & A3), E as (B1 & B2 & B3). cbn [fst snd] in *.
  split; [cbn; congruence|]. split; [cbn; congruence|]. by eapply same_processes_trans.
Qed.

Lemma sink_write_frame c f f' : fd_write c f = Ok f' -> write_frame_of f f'.
Proof.
  intros E. cbn in E. unfold fd_sink_write, write in E. apply bind_Ok in E as ([[r f1] o1] & Hw & E).
  apply write_loop_frame in Hw. simplify_eq. by destruct f.
Qed.

Lemma on_output_ok : steps_well carried ferry_inv turn_fault 1 on_output.
Proof.
  intros n x ((Ht & Hs & Hg) & Hc & t & Ht0 & Hw & Hq & Hn). unfold keeps, on_output.
  destruct (write_packets_ok t (queue x) (world (user x)) (sibling_of x, os x) Hq) as
    [(q' & w' & f' & t' & E & Ht' & Hw' & Hq' & _ & Hpc & _ & _ & Hfl)|(e & -> & He)];
    [cbn; by rewrite Hs|done|by eapply inv_room_n| |left; by apply (write_fails_caught (F := FileDescriptor * OS))].
  pose proof (write_packets_frame write_frame_of) as Hfr.
  assert (Hframe : write_frame_of (sibling_of x, os x) f').
  { eapply Hfr; [| |exact sink_write_frame|exact E].
    - intros f. split; [done|]. split; [done|apply same_processes_refl].
    - intros f g h (A1 & A2 & A3) (B1 & B2 & B3). split; [congruence|]. split; [congruence|]. by eapply same_processes_trans. }
  rewrite E. cbn [bind]. destruct Hframe as (A1 & A2 & A3). cbn [fst snd] in *.
  assert (Hf : fds_are (x <| os := f'.2 |> <| user := (user x) <| ferry_queue := q' |> <| world := w' |> <| sibling := f'.1 |> |>)).
  { split; [done|]. split; [|done]. cbn. congruence. }
  split.
  - split; [by apply fds_are_same|]. exists []. rewrite !app_nil_r. cbn [os user ferry_queue upd]. split; [done|].
    cbn in Hfl. rewrite A1 in Hfl. rewrite Hs in Hfl. exact Hfl.
  - split; [done|]. split; [by eapply children_inv_same|]. exists t'. cbn [os user ferry_queue world upd].
    unfold PACKET_SIZE in *. split; [lia|]. split; [done|]. split; [done|]. lia.
Qed.

Lemma output_pending_ok : steps_well carried ferry_inv turn_fault 0 output_pending.
Proof.
  intros n x (Hf & Hc & t & Ht0 & Hw & Hq & Hn). unfold keeps, output_pending.
  destruct (pending_output_ok t (queue x) (world (user x)) Ht0 Hq Hw) as (b & w' & t' & -> & Ht' & Hw' & _). cbn [bind].
  split; [by apply carried_same; [split|..]|]. split; [exact Hf|]. split; [done|]. exists t'. cbn [user ferry_queue world upd].
  split; [lia|]. split; [done|]. split; [by eapply queue_inv_le|done].
Qed.

Lemma on_finished_ok : steps_well carried ferry_inv turn_fault 1 on_finished.
Proof. intros n x H. split; [apply carried_refl|by apply ferry_inv_weaken]. Qed.

Lemma queue_finished_ok : steps_well carried ferry_inv turn_fault 0 queue_finished.
Proof. intros n x H. split; [apply carried_refl|done]. Qed.

Lemma queue_wait_time_ok : steps_well carried ferry_inv turn_fault 0 queue_wait_time.
Proof.
  intros n x (Hf & Hc & t & Ht0 & Hw & Hq & Hn). unfold keeps, queue_wait_time.
  destruct (wait_time_ok t (queue x) (world (user x)) Ht0 Hq Hw) as (q' & w' & t1 & t2 & -> & Ht1 & Ht2 & Hw' & Hq' & _ & Eq & Eif).
  cbn [bind]. split; [by apply carried_same; [split|..]|]. split; [exact Hf|]. split; [done|]. exists t2. cbn [user ferry_queue world upd].
  split; [lia|]. split; [done|]. split; [done|]. rewrite Eq. exact Hn.
Qed.

Lemma same_traffic_refl (o : OS) : same_traffic (W := W) (Q := Q) o o.
Proof. by intros fd. Qed.
Lemma same_traffic_trans (o1 o2 o3 : OS) : same_traffic (W := W) (Q := Q) o1 o2 ->
  same_traffic (W := W) (Q := Q) o2 o3 -> same_traffic (W := W) (Q := Q) o1 o3.
Proof. intros H1 H2 fd. destruct (H1 fd), (H2 fd). split; congruence. Qed.

Lemma read_signal_frame f (o : OS) sig f' o' : fd_ f = sigfd -> read_signal f o = Ok (sig, f', o') ->
  fd_ f' = fd_ f /\ same_traffic (W := W) (Q := Q) o o' /\ same_processes (W := W) (Q := Q) o o'.
Proof.
  intros Ef. unfold read_signal, read. intros E. destruct (sys_read _ _ o) as [[c|] o1] eqn:Er; cbn [bind] in E; [|done].
  destruct (negb _); [done|]. simplify_eq.
  destruct (other_read (W := W) (Q := Q) _ _ _ _ _ sigfd_other Er) as [H1 H2]. split; [by destruct (len c =? 0)|]. by split.
Qed.

Lemma on_signal_ok : steps_well carried ferry_inv turn_fault 1 on_signal.
Proof.
  intros n x Hx. apply ferry_inv_weaken in Hx. destruct Hx as ((Ht & Hs & Hg & Hl) & Hc & Hq). unfold keeps, on_signal.
  destruct (read_signal (signal_fd x) (os x)) as [[[sig f] o]|e] eqn:Er; cbn [bind].
  2: { left. unfold read_signal, read in Er. destruct (sys_read _ _ (os x)) as [[c|] o1]; cbn [bind] in Er; [|by simplify_eq].
       destruct (negb _); by simplify_eq. }
  destruct (read_signal_frame _ _ _ _ _ Hg Er) as (Hf & Htr & Hpr).
  pose proof (handle_signal_ok sig _ o (children_inv_same _ _ _ Hpr Hc)) as Hh.
  destruct (handle_signal sig (child_processes_ x) o) as [[[r children] o']|e] eqn:Eh; cbn [bind]; [|by left].
  pose proof (handle_signal_frame (same_traffic (W := W) (Q := Q)) same_traffic_refl same_traffic_trans
    waitid_frame kill_frame raise_frame _ _ _ _ _ _ Eh) as Htr2.
  pose proof (same_traffic_trans _ _ _ Htr Htr2) as Htr3.
  assert (Hfds : fds_are {| child_processes_ := children; signal_fd := f; os := o'; user := user x |}).
  { split; [done|]. split; [done|]. split; [cbn; congruence|done]. }
  split; [apply carried_same; [by apply fds_are_same|apply Htr3|apply Htr3|done]|]. split; [done|]. split; [exact Hh|exact Hq].
Qed.

Lemma ferry_poll_ok : sys_poll_keeps carried ferry_inv turn_fault.
Proof.
  intros pfds timeout n x ((Ht & Hs & Hg & Hl) & Hc & Hq).
  pose proof (poll_frame (W := W) (Q := Q) pfds timeout x) as H. cbv zeta in H.
  destruct (sys_poll pfds timeout x) as [[ret revents] x']. cbn [snd] in H. destruct H as (H1 & H2 & H3 & Htr & Hpr).
  assert (Hfds : fds_are x') by (unfold fds_are, tun_of, sibling_of, listeners_of; rewrite H2, H3; done).
  split; [apply carried_same; [by apply fds_are_same|apply Htr|apply Htr|by rewrite H3]|]. split.
  - split; [done|]. rewrite H1, H3. split; [by eapply children_inv_same|exact Hq].
  - unfold SystemCall. destruct (0 <=? i32 ret); [done|by left].
Qed.

(** ** The handlers of the proxy *)

Abbreviation quiet_os := (quiet_call (W := W) (Q := Q)).

Lemma quiet_os_trans (o1 o2 o3 : OS) : quiet_os o1 o2 -> quiet_os o2 o3 -> quiet_os o1 o3.
Proof. intros [A1 A2] [B1 B2]. split; [by eapply same_traffic_trans|by eapply same_processes_trans]. Qed.

(** What a handler leaves: the same descriptors, and a system in which nothing
    that matters to the ferry has changed. *)
Definition handled (p : DNSProxy) (o : OS) (m : outcome (DNSProxy * OS)) : Prop :=
  match m with
  | Ok (p', o') => quiet_os o o' /\ fd_ (udp_listener_ p') = fd_ (udp_listener_ p) /\ fd_ (tcp_listener_ p') = fd_ (tcp_listener_ p)
  | Err e => caught e
  end.

Lemma address_of_sockaddr_caught b : if address_of_sockaddr b (len b) is Err e then caught e else True.
Proof. unfold address_of_sockaddr. case_Zbool; try done; lia. Qed.

Lemma start_thread_ok r (o : OS) : match start_thread r o with Ok o' => quiet_os o o' | Err e => caught e end.
Proof.
  unfold start_thread. pose proof (thread_frame (W := W) (Q := Q) r o) as H. by destruct (sys_thread r o) as [[] o'].
Qed.

Lemma handle_udp_ok p o : handled p o (handle_udp p o).
Proof.
  unfold handled, handle_udp, recvfrom. pose proof (recvfrom_frame (W := W) (Q := Q) (fd_ (udp_listener_ p)) RECEIVE_MTU o) as H1.
  destruct (sys_recvfrom _ _ o) as [[[[n b] source]|] o1]; cbn [bind]; [|done]. destruct (RECEIVE_MTU <? n); [done|].
  pose proof (address_of_sockaddr_caught source). destruct (address_of_sockaddr source _); cbn [bind]; [|done].
  pose proof (start_thread_ok (UdpRequest a (take (Z.to_nat n) b)) o1) as H2.
  destruct (start_thread _ o1) as [o2|]; cbn [bind]; [|done]. split; [by eapply quiet_os_trans|done].
Qed.

Lemma verify_option_ok option expected error f (o : OS) :
  match verify_option option expected error f o with Ok o' => quiet_os o o' | Err e => caught e end.
Proof.
  unfold verify_option, getsockopt. pose proof (getsockopt_frame (W := W) (Q := Q) (fd_ f) SOL_SOCKET option o) as H.
  destruct (sys_getsockopt _ _ _ o) as [[b|] o1]; cbn [bind]; [|done]. by destruct (_ || _).
Qed.

Lemma handle_tcp_ok p o : handled p o (handle_tcp p o).
Proof.
  unfold handled, handle_tcp, accept_connection. cbn [register_read].
  pose proof (accept_frame (W := W) (Q := Q) (fd_ (register_read (tcp_listener_ p))) o) as H1.
  destruct (sys_accept _ o) as [r o1]. unfold SystemCall. destruct (0 <=? i32 r); cbn [bind]; [|done].
  unfold fd_new, check_and_set_cloexec. cbn [fd_]. destruct (i32 r <=? 2); [done|].
  pose proof (cloexec_frame (W := W) (Q := Q) (i32 r) o1) as H2. destruct (sys_set_cloexec _ o1) as [r2 o2].
  unfold SystemCall. destruct (0 <=? i32 r2); cbn [bind]; [|done]. set (c := Build_FileDescriptor _ _ _ _). unfold socket_of_fd.
  pose proof (verify_option_ok SO_DOMAIN AF_INET "socket domain mismatch" c o2) as H3.
  destruct (verify_option _ _ _ c o2) as [o3|]; cbn [bind]; [|done].
  pose proof (verify_option_ok SO_TYPE SOCK_STREAM "socket type mismatch" c o3) as H4.
  destruct (verify_option _ _ _ c o3) as [o4|]; cbn [bind]; [|done].
  pose proof (start_thread_ok (TcpRequest c) o4) as H5. destruct (start_thread _ o4) as [o5|]; cbn [bind]; [|done].
  split; [|done]. eauto using quiet_os_trans.
Qed.

Lemma on_dns_ok handle : (forall p o, handled p o (handle p o)) -> listeners <> None ->
  steps_well carried ferry_inv turn_fault 1 (on_dns handle).
Proof.
  intros Hh Hsome n x Hx. apply ferry_inv_weaken in Hx. destruct Hx as ((Ht & Hs & Hg & Hl) & Hc & Hq). unfold keeps, on_dns.
  unfold listeners_of in Hl. destruct (dns (user x)) as [p|] eqn:Ed; [|by subst]. specialize (Hh p (os x)). unfold handled in Hh.
  destruct (handle p (os x)) as [[p' o']|e]; cbn [bind]; [|by left]. destruct Hh as ([Htr Hpr] & Hu & Hv).
  assert (Hf : fds_are (x <| os := o' |> <| user := (user x) <| dns := Some p' |> |>)).
  { split; [done|]. split; [done|]. split; [done|]. cbn. by rewrite Hu, Hv. }
  split; [apply carried_same; [apply fds_are_same; [|done]|apply Htr|apply Htr|done]|].
  - split; [done|]. split; [done|]. split; [done|]. unfold listeners_of. by rewrite Ed.
  - split; [done|]. split; [by eapply children_inv_same|exact Hq].
Qed.

(** ** The loop *)

Definition ferry_poller_actions : list (Action state) := ferry_actions ++ [action_new signal_fd In on_signal always].

Lemma ferry_action_ok fd d cb interested : steps_well carried ferry_inv turn_fault 1 cb ->
  steps_well carried ferry_inv turn_fault 0 interested -> (forall x x', fds_same x x' -> fd_ (fd x') = fd_ (fd x)) ->
  action_ok carried ferry_inv turn_fault (action_new fd d cb interested).
Proof. intros H1 H2 H3. split; [exact H1|exact H2|]. intros x x' [H _]. by apply H3. Qed.

Lemma always_keeps : steps_well carried ferry_inv turn_fault 0 always.
Proof. intros n x H. split; [apply carried_refl|done]. Qed.

Lemma ferry_actions_ok : Forall (action_ok carried ferry_inv turn_fault) ferry_poller_actions.
Proof.
  apply Forall_cons; split; [|apply Forall_cons; split; [|apply Forall_cons; split; [|apply Forall_cons; split; [|constructor]]]];
    apply ferry_action_ok; first [apply on_tun_ok | apply always_keeps | apply on_output_ok | apply output_pending_ok
      | apply on_finished_ok | apply queue_finished_ok | apply on_signal_ok | intros x x' H; apply H].
Qed.

Lemma dns_actions_ok x : fds_are x -> Forall (action_ok carried ferry_inv turn_fault) (dns_actions x).
Proof.
  intros (_ & _ & _ & Hl). unfold dns_actions. unfold listeners_of in Hl. destruct (dns (user x)); [|constructor].
  assert (listeners <> None) by by rewrite <- Hl.
  apply Forall_cons; split; [|apply Forall_cons; split; [|constructor]]; apply ferry_action_ok; try apply always_keeps.
  - apply on_dns_ok; [apply handle_udp_ok|done].
  - intros y y' H'. by apply listener_fds.
  - apply on_dns_ok; [apply handle_tcp_ok|done].
  - intros y y' H'. by apply listener_fds.
Qed.

(** The poller of a ferry whose event loop had no action but the proxy's. *)
Definition ferry_poller l x : Poller state :=
  poller_ (add_simple_input_handler signal_fd on_signal x (ferry_loop_actions (register_handlers l x) x)).

Lemma ferry_poller_wf l x : poller_ l = poller_new ->
  actions_ (ferry_poller l x) = dns_actions x ++ ferry_poller_actions /\ poller_wf (ferry_poller l x) x.
Proof.
  intros Hl. unfold ferry_poller, ferry_loop_actions, register_handlers, dns_actions, poller_wf.
  destruct l as [sg p]. cbn in Hl. subst p. destruct (dns (user x)); (split; [done|by repeat constructor]).
Qed.

(** A poller that a ferry may work with: its own actions, or some of them
    cancelled. *)
Definition poller_ok (p : Poller state) (x : state) : Prop :=
  poller_wf p x /\ Forall (action_ok carried ferry_inv turn_fault) (actions_ p) /\ (length (actions_ p) <= 6)%nat.

Lemma ferry_inv_drop m n x : (m <= n)%nat -> ferry_inv n x -> ferry_inv m x.
Proof. intros Hle. replace n with ((n - m) + m)%nat by lia. apply (I_drop ferry_inv ferry_inv_weaken). Qed.

Lemma ferry_turns_from n m p x : poller_ok p x -> ferry_inv (6 * n + m) x ->
  match turns n queue_wait_time p x with
  | Ok (_, p', x') => carried x x' /\ ferry_inv m x' /\ poller_ok p' x'
  | Err e => turn_fault e
  end.
Proof.
  intros (Hwf & Hok & Hl) Hx.
  pose proof (turns_ok carried ferry_inv turn_fault carried_refl carried_trans ferry_inv_weaken ferry_poll_ok queue_wait_time n
    queue_wait_time_ok m p x Hok Hwf) as H.
  destruct (turns n queue_wait_time p x) as [[[st p'] x']|e].
  - destruct H as (H1 & H2 & H3 & H4 & H5); [eapply ferry_inv_drop; [|exact Hx]; nia|].
    split; [done|]. split; [done|]. split; [done|]. split; [done|]. lia.
  - apply H. eapply ferry_inv_drop; [|exact Hx]. nia.
Qed.

Lemma ferry_poller_ok l x : poller_ l = poller_new -> fds_are x -> poller_ok (ferry_poller l x) x.
Proof.
  intros Hl Hf. destruct (ferry_poller_wf l x Hl) as [Hacts Hwf]. split; [done|]. rewrite Hacts. split.
  - apply Forall_app. split; [by apply dns_actions_ok|apply ferry_actions_ok].
  - rewrite length_app. unfold dns_actions. by destruct (dns (user x)); cbn; lia.
Qed.

Lemma ferry_inv_intro n x t : fds_are x -> children_inv (child_processes_ x) (os x) -> 0 <= t -> clock_from (world (user x)) t ->
  queue_inv t (queue x) -> (pkt_counter_ (queue x) + Z.of_nat n + 1) * PACKET_SIZE < 2 ^ 31 -> ferry_inv n x.
Proof. intros Hf Hc Ht Hw Hq Hn. split; [done|]. split; [done|]. by exists t. Qed.

Lemma ferry_turns_ok n l x t : poller_ l = poller_new ->
  fds_are x -> children_inv (child_processes_ x) (os x) -> 0 <= t -> clock_from (world (user x)) t -> queue_inv t (queue x) ->
  (pkt_counter_ (queue x) + Z.of_nat (6 * n) + 1) * PACKET_SIZE < 2 ^ 31 ->
  match turns n queue_wait_time (ferry_poller l x) x with
  | Ok (_, _, x') => carried x x' /\ ferry_inv 0 x'
  | Err e => turn_fault e
  end.
Proof.
  intros Hl Hf Hc Ht Hw Hq Hn. pose proof (ferry_turns_from n 0 _ x (ferry_poller_ok l x Hl Hf)) as H. rewrite Nat.add_0_r in H.
  specialize (H (ferry_inv_intro _ x t Hf Hc Ht Hw Hq Hn)).
  destruct (turns _ _ _ x) as [[[st p'] x']|e]; [|done]. destruct H as (H1 & H2 & _). by split.
Qed.
End Facts.

(** * Properties *)

(** One direction of the emulated link is a FIFO channel end to end.  A ferry
    whose queue is as constructed (with a queue that drops nothing), with the DNS
    proxy's handlers in its loop or without a proxy, may turn any number of
    times, with whatever signals, timeouts, requests and descriptors the system
    reports: the packets written to the sibling's tunnel device since the start,
    followed by those still in the queue, are exactly the packets read from the
    tunnel device, in order.  The loop ends otherwise only with an exception that
    the program catches, or with a packet that [read_packet] does not accept
    ([packet_fault]): no assertion fails. *)
Theorem ferry_fifo {W Q OS : Type} `{ClockLaws W, LosslessPacketQueue W Q, ListenerLaws W Q OS, SignalKernel OS}
    (n : nat) (l : EventLoop (FerryState W Q) OS) (x : LoopState (FerryState W Q) OS) (t : Z)
    schedule traces offsets timer repeat log header (q : Q) link_base delay_base :
  config_ok schedule traces offsets timer -> queue_wf q -> packets q = [] -> 0 <= link_base < time_limit ->
  ferry_queue (user x) = cellular_new schedule traces offsets timer repeat log header q link_base delay_base ->
  poller_ l = poller_new -> tun_device (OS := OS) (fd_ (tun_of x)) -> tun_device (OS := OS) (fd_ (sibling_of x)) ->
  ~ tun_device (OS := OS) (fd_ (signal_fd x)) -> children_inv (child_processes_ x) (os x) ->
  0 <= t -> clock_from (world (user x)) t -> Z.of_nat (6 * n) < 1000000 ->
  match turns n queue_wait_time (poller_ (add_simple_input_handler signal_fd on_signal x
          (ferry_loop_actions (register_handlers l x) x))) x with
  | Ok (_, _, x') => exists rs,
      received (W := W) (Q := Q) (fd_ (tun_of x)) (os x') = received (W := W) (Q := Q) (fd_ (tun_of x)) (os x) ++ rs /\
      datagrams (fd_ (sibling_of x)) (os x') ++ in_flight (ferry_queue (user x')) = datagrams (fd_ (sibling_of x)) (os x) ++ rs
  | Err e => caught_as_exception e = true \/ packet_fault (OS := OS) e
  end.
Proof.
  intros Hcfg Hq Hp Hb Eq Hl Htun Hsib Hsig Hch Ht Hw Hn. pose proof (lossless_flows (W := W) (Q := Q)) as Hflow.
  destruct (cellular_new_inv (fl := lossless_flow) schedule traces offsets timer repeat log header q link_base delay_base t Hcfg Hq Hp Hb)
    as (Hinv & Hif & Hpc). rewrite <- Eq in Hinv, Hif, Hpc.
  pose proof (ferry_turns_ok (fl := lossless_flow) (fd_ (tun_of x)) (fd_ (sibling_of x)) (fd_ (signal_fd x)) (listeners_of x)
    Htun Hsib Hsig n l x t Hl ltac:(done) Hch Ht Hw Hinv) as Hturns.
  rewrite Hpc in Hturns. specialize (Hturns ltac:(unfold PACKET_SIZE; lia)). unfold ferry_poller in Hturns.
  destruct (turns _ _ _ x) as [[[st p'] x']|e]; [|exact Hturns]. destruct Hturns as [[_ (rs & Hg & Hd)] _].
  exists rs. split; [exact Hg|]. simpl in Hd. rewrite Hif in Hd. exact Hd.
Qed.

(** * A ferry between two tunnel devices

    Descriptor 3 is the tunnel device with the packets to come, descriptor 4 the
    sibling's, descriptor 5 the signals, descriptors 7 and 8 the proxy's
    listeners, with requests at every turn; there are no children. *)

Module Crossing.
Record Box := { inbox : list bytes; taken : list bytes; sent : Z -> list bytes }.

#[export] Instance box_kernel : Kernel Box := {
  sys_read fd _ o :=
    if fd =? 3 then
      match inbox o with
      | c :: rest => (Some c, {| inbox := rest; taken := taken o ++ [c]; sent := sent o |})
      | [] => (None, o)
      end
    else if fd =? 4 then (None, o)
    else (Some [], o);
  sys_write fd b o := (len b, {| inbox := inbox o; taken := taken o; sent := fun f => if f =? fd then sent o f ++ [b] else sent o f |});
  sys_set_cloexec _ o := (0, o);
  sys_close _ o := (0, o);
}.

#[export] Program Instance box_tun : TunKernel Box := {
  tun_device fd := fd = 3 \/ fd = 4;
  offered _ := True;
  datagrams fd o := sent o fd;
}.
Next Obligation. intros fd b o _ _ _. eexists _, _. split; [reflexivity|]. left. cbn. by rewrite Z.eqb_refl. Qed.

#[export] Instance box_procs : ProcessKernel Box := {
  sys_waitid _ _ _ si o := (-1, si, o);
  sys_kill _ _ o := (-1, o);
  sys_raise _ o := (0, o);
  sys_stat_task o := (0, 3, o);
  sys_clone _ o := (-1, o);
}.

#[export] Program Instance box_children : ChildLaws Box := {
  unreaped _ _ := False; has_change _ _ := False; fate _ _ := 0%nat; signalable _ := True }.
Solve Obligations with (cbn; intros; contradiction || (eexists _, _; by split)).

#[export] Instance box_signals : SignalKernel Box := {
  sys_sigprocmask_set _ o := (0, o);
  sys_sigprocmask_get o := (0, [], o);
  sys_signalfd _ o := (5, o);
}.

#[export] Instance box_sockets : SocketKernel Box := {
  sys_socket domain type o := (6, o);
  sys_getsockopt fd level option o := (Some (if option =? SO_DOMAIN then [Byte.x02; Byte.x00; Byte.x00; Byte.x00] else int_true), o);
  sys_setsockopt fd level option value o := (0, o);
  sys_getsockname fd o := (None, o);
  sys_getpeername fd o := (None, o);
  sys_bind fd a o := (0, o);
  sys_connect fd a o := (0, o);
  sys_listen fd backlog o := (0, o);
  sys_accept fd o := (9, o);
  sys_sendto fd payload a o := (len payload, o);
  sys_send fd payload o := (len payload, o);
  sys_recvfrom fd limit o := (Some (1, [Byte.x71], sockaddr_in (100, 64, 0, 2) 4000), o);
}.

#[export] Instance box_threads : ThreadKernel Box := fun r o => (true, o).

Abbreviation box_state := (LoopState (FerryState World InfinitePacketQueue) Box).

(** A descriptor is ready, except the tunnel device when nothing is to come
    and that of the signals. *)
#[export] Instance box_poll : PollKernel box_state := fun pfds _ x =>
  (1, map (fun q => if (pfd_fd q =? 5) || ((pfd_fd q =? 3) && bool_decide (inbox (os x) = [])) then 0 else pfd_events q) pfds, x).

#[export] Program Instance box_laws : FerryLaws World InfinitePacketQueue Box := {
  received fd o := if fd =? 3 then taken o else [];
}.
Next Obligation.
  intros fd limit o c o' [->| ->] _; [|done]. cbn. destruct (inbox o) as [|c' l]; [done|]. intros E. simplify_eq.
  split; [done|]. split; [done|]. split; [done|]. by intros p.
Qed.
Next Obligation.
  intros fd limit o c o' Hfd. cbn in *. destruct (Z.eqb_spec fd 3); [tauto|]. destruct (Z.eqb_spec fd 4); [tauto|]. intros E. simplify_eq. by split.
Qed.
Next Obligation. by intros fd c o. Qed.
Next Obligation. by intros. Qed.
Next Obligation. by intros. Qed.
Next Obligation. by intros. Qed.
Next Obligation. intros pfds timeout x x'. subst x'. do 3 (split; [done|]). split; [by intros fd|by intros p]. Qed.

#[export] Program Instance box_listeners : ListenerLaws World InfinitePacketQueue Box.
Solve Obligations with (intros; split; [by intros fd'|by intros p]).

Definition descriptor (n : Z) : FileDescriptor := {| fd_ := n; eof_ := false; read_count_ := 0; write_count_ := 0 |}.

Definition box_start : box_state :=
  {| child_processes_ := []; signal_fd := descriptor 5;
     os := {| inbox := [sample_contents 1000 8; sample_contents 1001 1300; sample_contents 1002 200]; taken := []; sent := fun _ => [] |};
     user := {| ferry_queue := sample_start empty_infinite; world := ticking; tun := descriptor 3; sibling := descriptor 4;
       dns := Some {| udp_listener_ := descriptor 7; tcp_listener_ := descriptor 8; udp_target_ := ipv4 (10, 0, 0, 53) 53;
                      tcp_target_ := ipv4 (10, 0, 0, 53) 53 |} |} |}.

Definition box_loop : EventLoop (FerryState World InfinitePacketQueue) Box :=
  {| signals_ := {| mask_ := [] |}; poller_ := poller_new |}.

Definition box_poller : Poller box_state :=
  poller_ (add_simple_input_handler signal_fd on_signal box_start (ferry_loop_actions (register_handlers box_loop box_start) box_start)).

Lemma ferry_fifo_witness :
  match turns 60 queue_wait_time (poller_ (add_simple_input_handler signal_fd on_signal box_start
          (ferry_loop_actions (register_handlers box_loop box_start) box_start))) box_start with
  | Ok (_, _, x') => exists rs,
      received (W := World) (Q := InfinitePacketQueue) (fd_ (tun_of box_start)) (os x') =
        received (W := World) (Q := InfinitePacketQueue) (fd_ (tun_of box_start)) (os box_start) ++ rs /\
      datagrams (fd_ (sibling_of box_start)) (os x') ++ in_flight (W := World) (ferry_queue (user x')) =
        datagrams (fd_ (sibling_of box_start)) (os box_start) ++ rs
  | Err e => caught_as_exception e = true \/ packet_fault (OS := Box) e
  end.
Proof.
  refine (ferry_fifo (W := World) (Q := InfinitePacketQueue) (OS := Box) 60 box_loop box_start 0
    [0; 1; 5] sample_trace [] 50 true true [] empty_infinite 0 0 sample_config_ok _ eq_refl _ eq_refl eq_refl (or_introl eq_refl) (or_intror eq_refl) _ _ _ ticking_from _).
  - by_computation.
  - by_computation.
  - by intros [|].
  - split; [constructor|apply NoDup_nil_2].
  - lia.
  - lia.
Defined.

(** In those turns all three packets cross. *)
Example crossing_delivers :
  match turns 60 queue_wait_time box_poller box_start with
  | Ok (st, _, x') => (List.length (datagrams 4 (os x')), List.length (in_flight (W := World) (ferry_queue (user x'))))
  | Err _ => (0, 0)%nat
  end = (3, 0)%nat.
Proof. vm_compute. reflexivity. Qed.

(** A packet of 1500 bytes, as the network stack may give to a device with the
    default MTU (a read puts 4 bytes before it), ends the loop with the pointer that [read_packet] throws. *)
Example oversize_packet_ends_the_loop :
  let o := {| inbox := [sample_contents 1000 1472]; taken := []; sent := fun _ => [] |} in
  match turns 2 queue_wait_time box_poller (box_start <| os := o |>) with
  | Ok _ => None
  | Err e => Some e
  end = Some (ThrowPointer "Packet size (1504)  exceeds the maximum allowed (1400)").
Proof. vm_compute. reflexivity. Qed.
End Crossing.
