(* ===== verification/Link.v ===== *)
(** The emulated link: the processes of both directions on one system.

    Each direction of the link is a process of its own (src/packet/packetshell.cc,
    [start_uplink] and [start_downlink]), and the two run side by side with
    everything else on the machine.  [Carrier] is what a process that carries
    packets promises, [Apart] that two of them do not meet in the system; from
    these follows what holds of every interleaving of their turns.  A ferry is a
    carrier ([ferry_carrier_laws]).  What the system calls of a process are is a
    [FerryView]: the two processes have different descriptors and children, and so
    different views of the one system. *)
From stdpp Require Import relations.
From S2P Require Import Prelude Timestamp Packets PacketQueue DroppingQueue LinkQueue DelayTrace PacketHeader FileDescriptor CellularQueue SignalFD Poller ChildProcess Privileges Address Socket DnsProxy EventLoop Ferry.

(** * The interface *)

(** A process [P] on a system [OS]: one turn of its loop, with the status if it
    has ended; the faults that a turn may end with; the packets that it has taken from the system and given to it,
    and those inside; whether it is prepared for [n] turns; what of the system
    other processes may change. *)
Class Carrier (P OS : Type) := {
  turn : P -> OS -> outcome (option Z * P * OS);
  turn_fails : fault -> Prop;
  taken : P -> OS -> list bytes;
  inside : P -> list bytes;
  given : P -> OS -> list bytes;
  prepared : nat -> P -> OS -> Prop;
  elsewhere : OS -> OS -> Prop;
}.

(** From [(p, o)] to [(p', o')] the process has passed on what it has taken. *)
Definition carries {P OS} `{Carrier P OS} (fl : FlowRelation) (p : P) (o : OS) (p' : P) (o' : OS) : Prop :=
  exists rs, taken p' o' = taken p o ++ rs /\ flow (given p' o' ++ inside p') (given p o ++ inside p ++ rs).

Class CarrierLaws (P OS : Type) (fl : FlowRelation) `{Carrier P OS} : Prop := {
  turn_carries n p o : prepared (S n) p o ->
    match turn p o with
    | Ok (_, p', o') => prepared n p' o' /\ carries fl p o p' o'
    | Err e => turn_fails e
    end;
  elsewhere_same n p o o' : elsewhere o o' -> prepared n p o ->
    prepared n p o' /\ taken p o' = taken p o /\ given p o' = given p o;
  prepared_less n p o : prepared (S n) p o -> prepared n p o;
}.

Lemma carries_refl {P OS} `{Carrier P OS} fl (p : P) (o : OS) : carries fl p o p o.
Proof. exists []. rewrite !app_nil_r. split; [done|apply flow_refl]. Qed.

Lemma carries_trans {P OS} `{Carrier P OS} fl (p1 p2 p3 : P) (o1 o2 o3 : OS) :
  carries fl p1 o1 p2 o2 -> carries fl p2 o2 p3 o3 -> carries fl p1 o1 p3 o3.
Proof.
  intros (r1 & Ht1 & Hf1) (r2 & Ht2 & Hf2). exists (r1 ++ r2). split; [by rewrite Ht2, Ht1, (assoc_L (++))|].
  eapply flow_trans; [exact Hf2|]. rewrite !(assoc_L (++)). apply flow_app; [|apply flow_refl].
  by rewrite <- (assoc_L (++)).
Qed.

(** * Two processes *)

Section Link.
Context {P1 P2 OS : Type} {c1 : Carrier P1 OS} {c2 : Carrier P2 OS}.

(** The turns of each are elsewhere for the other. *)
Record Apart : Prop := {
  up_elsewhere n p o st p' o' : prepared n p o -> turn (Carrier := c1) p o = Ok (st, p', o') -> elsewhere (Carrier := c2) o o';
  down_elsewhere n p o st p' o' : prepared n p o -> turn (Carrier := c2) p o = Ok (st, p', o') -> elsewhere (Carrier := c1) o o';
}.

(** A process that has ended, with its status, takes no more turns. *)
Record Link := {
  uplink : P1;
  uplink_status : option Z;
  downlink : P2;
  downlink_status : option Z;
  system : OS;
}.

(** The next turn of either process, or an act of another one: of the user's
    command, of the network, of the system itself. *)
Inductive link_step (x : Link) : Link -> Prop :=
| step_up st p o : uplink_status x = None -> turn (uplink x) (system x) = Ok (st, p, o) ->
    link_step x {| uplink := p; uplink_status := st; downlink := downlink x; downlink_status := downlink_status x; system := o |}
| step_down st p o : downlink_status x = None -> turn (downlink x) (system x) = Ok (st, p, o) ->
    link_step x {| uplink := uplink x; uplink_status := uplink_status x; downlink := p; downlink_status := st; system := o |}
| step_other o : elsewhere (Carrier := c1) (system x) o -> elsewhere (Carrier := c2) (system x) o ->
    link_step x {| uplink := uplink x; uplink_status := uplink_status x; downlink := downlink x;
                   downlink_status := downlink_status x; system := o |}.

(** A turn ends normally or with one of the faults of the process. *)
Definition turn_safe {P} {c : Carrier P OS} (p : P) (o : OS) : Prop :=
  match turn p o with Ok _ => True | Err e => turn_fails e end.

Context (fl1 fl2 : FlowRelation) {l1 : CarrierLaws P1 OS fl1} {l2 : CarrierLaws P2 OS fl2}.
Hypothesis apart : Apart.

Definition link_prepared (n : nat) (x : Link) : Prop :=
  prepared n (uplink x) (system x) /\ prepared n (downlink x) (system x).

Definition link_carries (x x' : Link) : Prop :=
  carries fl1 (uplink x) (system x) (uplink x') (system x') /\ carries fl2 (downlink x) (system x) (downlink x') (system x').

Lemma carries_elsewhere {P} {c : Carrier P OS} {fl} {l : CarrierLaws P OS fl} n (p : P) (o o' : OS) :
  elsewhere o o' -> prepared n p o -> prepared n p o' /\ carries fl p o p o'.
Proof.
  intros He Hp. destruct (elsewhere_same n p o o' He Hp) as (Hp' & Ht & Hg). split; [done|].
  exists []. rewrite !app_nil_r, Ht, Hg. split; [done|apply flow_refl].
Qed.

Lemma turn_ok_carries {P} {c : Carrier P OS} {fl} {l : CarrierLaws P OS fl} n (p p' : P) (o o' : OS) st :
  prepared (S n) p o -> turn p o = Ok (st, p', o') -> prepared n p' o' /\ carries fl p o p' o'.
Proof. intros Hp E. pose proof (turn_carries n p o Hp) as H. by rewrite E in H. Qed.

Lemma link_step_ok n x x' : link_step x x' -> link_prepared (S n) x -> link_prepared n x' /\ link_carries x x'.
Proof.
  intros Hs [H1 H2]. destruct Hs as [st p o _ E|st p o _ E|o E1 E2]; unfold link_prepared, link_carries; cbn.
  - destruct (turn_ok_carries n _ _ _ _ _ H1 E) as [A B].
    destruct (carries_elsewhere n (downlink x) _ _ (up_elsewhere apart _ _ _ _ _ _ H1 E)) as [A' B']; [by apply prepared_less|done].
  - destruct (turn_ok_carries n _ _ _ _ _ H2 E) as [A B].
    destruct (carries_elsewhere n (uplink x) _ _ (down_elsewhere apart _ _ _ _ _ _ H2 E)) as [A' B']; [by apply prepared_less|done].
  - destruct (carries_elsewhere n _ _ _ E1 (prepared_less n _ _ H1)) as [A B].
    destruct (carries_elsewhere n _ _ _ E2 (prepared_less n _ _ H2)) as [A' B']. done.
Qed.

(** Any interleaving. *)
Lemma link_steps_ok n m x x' : nsteps link_step n x x' -> link_prepared (n + m) x -> link_prepared m x' /\ link_carries x x'.
Proof.
  induction 1 as [x|n x y z Hs _ IH]; intros Hp; [split; [done|split; apply carries_refl]|].
  destruct (link_step_ok (n + m) x y Hs Hp) as [Hp' [A1 A2]]. destruct (IH Hp') as [Hp2 [B1 B2]].
  split; [done|]. split; by eapply carries_trans.
Qed.

Lemma link_turns_safe x : link_prepared 1 x -> turn_safe (uplink x) (system x) /\ turn_safe (downlink x) (system x).
Proof.
  intros [H1 H2]. unfold turn_safe. pose proof (turn_carries 0 _ _ H1). pose proof (turn_carries 0 _ _ H2).
  split; [destruct (turn (uplink x) _) as [[[? ?] ?]|]|destruct (turn (downlink x) _) as [[[? ?] ?]|]]; done.
Qed.
End Link.
Arguments Link : clear implicits.

(** * The ferry as a carrier *)

(** How a process sees the system: its system calls and their laws. *)
Class FerryView (W Q OS : Type) := {
  view_kernel :: Kernel OS;
  view_tun :: TunKernel OS;
  view_procs :: ProcessKernel OS;
  view_children :: ChildLaws OS;
  view_poll :: PollKernel (LoopState (FerryState W Q) OS);
  view_laws :: FerryLaws W Q OS;
  view_sockets :: SocketKernel OS;
  view_threads :: ThreadKernel OS;
  view_listeners :: ListenerLaws W Q OS;
}.

(** The tunnel devices, and how a turn may fail, in the view of a process. *)
Definition device_of {W Q OS} (view : FerryView W Q OS) (fd : Z) : Prop := tun_device (OS := OS) fd.
Definition fault_of {W Q OS} (view : FerryView W Q OS) (e : fault) : Prop := turn_fault (OS := OS) e.

(** What the system calls of a ferry's turns keep: those about descriptors and
    threads, and those about the children. *)
Class DeviceCallsKeep (W Q OS : Type) `{Kernel OS, SocketKernel OS, ThreadKernel OS} {pk : PollKernel (LoopState (FerryState W Q) OS)}
    (P : OS -> OS -> Prop) : Prop := {
  keep_read fd n o : P o (sys_read fd n o).2;
  keep_write fd b o : P o (sys_write fd b o).2;
  keep_cloexec fd o : P o (sys_set_cloexec fd o).2;
  keep_recvfrom fd n o : P o (sys_recvfrom fd n o).2;
  keep_accept fd o : P o (sys_accept fd o).2;
  keep_getsockopt fd level option o : P o (sys_getsockopt fd level option o).2;
  keep_thread r o : P o (sys_thread r o).2;
  keep_poll pfds timeout (x : LoopState (FerryState W Q) OS) : P (os x) (os (sys_poll pfds timeout x).2);
}.

Class CallsKeep (W Q OS : Type) `{FerryView W Q OS} (P : OS -> OS -> Prop) : Prop := {
  calls_device :: DeviceCallsKeep W Q OS P;
  keep_waitid pid b1 b2 si o : P o (sys_waitid pid b1 b2 si o).2;
  keep_kill pid sig o : P o (sys_kill pid sig o).2;
  keep_raise sig o : P o (sys_raise sig o).2;
}.

Section CallsKept.
Context {W Q OS : Type} {clock : Clock W} {apq : AbstractPacketQueue W Q} {kernel : Kernel OS} {tun_kernel : TunKernel OS}
  {sockets : SocketKernel OS} {threads : ThreadKernel OS} {pk : PollKernel (LoopState (FerryState W Q) OS)}.
Context (P : OS -> OS -> Prop) `{!PreOrder P} {devices : DeviceCallsKeep W Q OS P}.

Abbreviation state := (LoopState (FerryState W Q) OS).
Definition on_system (x x' : state) : Prop := P (os x) (os x').

#[local] Instance on_system_preorder : PreOrder on_system.
Proof. split; intros x; unfold on_system; [done|]. intros y z. by transitivity (os y). Qed.

Lemma write_loop_kept fuel : forall b all f (o : OS) r f' o', write_loop fuel b all f o = Ok (r, f', o') -> P o o'.
Proof.
  induction fuel as [|fuel IH]; intros b all f o r f' o'; cbn [write_loop]; intros E; [done|].
  apply bind_Ok in E as ([[b1 f1] o1] & Hw & E).
  assert (H1 : P o o1).
  { unfold write_some in Hw. destruct b as [|x b]; [done|]. pose proof (keep_write (P := P) (fd_ f) (x :: b) o) as Hk.
    destruct (sys_write (fd_ f) (x :: b) o) as [n o2]. apply bind_Ok in Hw as (m & _ & Hw).
    destruct (m =? 0); [done|]. destruct (_ <? m); [done|]. by simplify_eq. }
  destruct (all && _); [|by simplify_eq]. transitivity o1; [done|by eapply IH].
Qed.

Lemma sink_write_kept c f f' : fd_write c f = Ok f' -> P f.2 f'.2.
Proof.
  intros E. cbn in E. unfold fd_sink_write, write in E. apply bind_Ok in E as ([[r f1] o1] & Hw & E).
  apply write_loop_kept in Hw. simplify_eq. by destruct f.
Qed.

Lemma on_tun_kept : step_kept on_system (on_tun (W := W) (Q := Q)).
Proof.
  intros x r x' E. unfold on_tun, read in E. pose proof (keep_read (P := P) (fd_ (tun_of x)) (Z.min BUFFER_SIZE BUFFER_SIZE) (os x)) as H.
  destruct (sys_read _ _ (os x)) as [[c|] o]; cbn [bind] in E; [|done]. apply bind_Ok in E as ([q w] & _ & E). by simplify_eq.
Qed.

Lemma on_output_kept : step_kept on_system (on_output (W := W) (Q := Q)).
Proof.
  intros x r x' E. unfold on_output in E. apply bind_Ok in E as ([[q w] f] & E1 & E). simplify_eq.
  change (P (sibling_of x, os x).2 f.2).
  refine (write_packets_frame (fun f f' : FileDescriptor * OS => P f.2 f'.2) _ _ sink_write_kept _ _ _ _ _ _ E1).
  - done.
  - intros f1 f2 f3. by transitivity f2.2.
Qed.

Lemma pure_kept {A} (m : state -> outcome (A * state)) : (forall x a x', m x = Ok (a, x') -> os x' = os x) -> step_kept on_system m.
Proof. intros Hm x a x' E. unfold on_system. by rewrite (Hm x a x' E). Qed.

Lemma thread_kept r (o o' : OS) : start_thread r o = Ok o' -> P o o'.
Proof.
  unfold start_thread. pose proof (keep_thread (P := P) r o) as H. destruct (sys_thread r o) as [[] o1]; [|done].
  by intros [= <-].
Qed.

Lemma option_kept option expected error f (o o' : OS) : verify_option option expected error f o = Ok o' -> P o o'.
Proof.
  unfold verify_option, getsockopt. pose proof (keep_getsockopt (P := P) (fd_ f) SOL_SOCKET option o) as H.
  destruct (sys_getsockopt _ _ _ o) as [[b|] o1]; cbn [bind]; [|done]. destruct (_ || _); [done|]. by intros [= <-].
Qed.

Lemma handle_udp_kept p (o : OS) p' o' : handle_udp p o = Ok (p', o') -> P o o'.
Proof.
  unfold handle_udp, recvfrom. pose proof (keep_recvfrom (P := P) (fd_ (udp_listener_ p)) RECEIVE_MTU o) as H.
  destruct (sys_recvfrom _ _ o) as [[[[n b] source]|] o1]; cbn [bind]; [|done]. destruct (RECEIVE_MTU <? n); [done|].
  destruct (address_of_sockaddr source _); cbn [bind]; [|done]. intros E. apply bind_Ok in E as (o2 & E2 & E). simplify_eq.
  transitivity o1; [done|]. by eapply thread_kept.
Qed.

Lemma accept_connection_kept f (o : OS) f' c o' : accept_connection f o = Ok (f', c, o') -> P o o'.
Proof.
  unfold accept_connection, fd_new, check_and_set_cloexec, socket_of_fd. cbn [fd_ register_read].
  pose proof (keep_accept (P := P) (fd_ (register_read f)) o) as H1. destruct (sys_accept _ o) as [r o1].
  destruct (SystemCall _ r) as [n|]; cbn [bind]; [|done]. destruct (n <=? 2); [done|].
  pose proof (keep_cloexec (P := P) n o1) as H2. destruct (sys_set_cloexec n o1) as [r2 o2].
  destruct (SystemCall _ r2); cbn [bind]; [|done]. intros E. apply bind_Ok in E as ([c' o4] & E & E'). simplify_eq.
  apply bind_Ok in E as (o3 & Ed & E). apply bind_Ok in E as (o3' & Et & E). simplify_eq.
  apply option_kept in Ed. apply option_kept in Et. transitivity o1; [done|]. transitivity o2; [done|]. by transitivity o3.
Qed.

Lemma handle_tcp_kept p (o : OS) p' o' : handle_tcp p o = Ok (p', o') -> P o o'.
Proof.
  unfold handle_tcp. intros E. apply bind_Ok in E as ([[f c] o1] & Ea & E). apply accept_connection_kept in Ea.
  apply bind_Ok in E as (o2 & Es & E). simplify_eq. apply thread_kept in Es. by transitivity o1.
Qed.

Lemma on_dns_kept handle : (forall p o p' o', handle p o = Ok (p', o') -> P o o') -> step_kept on_system (on_dns (W := W) (Q := Q) handle).
Proof.
  intros Hh x r x' E. unfold on_dns in E. destruct (dns (user x)) as [p|]; [|done].
  apply bind_Ok in E as ([p' o'] & E1 & E). simplify_eq. by eapply Hh.
Qed.

Lemma always_kept : step_kept on_system (always (X := state)).
Proof. apply pure_kept. intros x a x' E. by injection E as _ <-. Qed.

End CallsKept.

Section TurnsKept.
Context {W Q OS : Type} {clock : Clock W} {apq : AbstractPacketQueue W Q} {view : FerryView W Q OS}.
Context (P : OS -> OS -> Prop) `{!PreOrder P} {calls : CallsKeep W Q OS P}.

Abbreviation state := (LoopState (FerryState W Q) OS).
Abbreviation on_system := (on_system (W := W) (Q := Q) P).

#[local] Existing Instance on_system_preorder.

Lemma on_signal_kept : step_kept on_system (on_signal (U := FerryState W Q)).
Proof.
  intros x r x' E. eapply (on_signal_frame P); [by intros o|by intros o1 o2 o3; transitivity o2|..|exact E].
  - apply keep_waitid.
  - apply keep_kill.
  - apply keep_raise.
  - apply keep_read.
Qed.

Lemma ferry_actions_kept x : Forall (action_kept on_system) (dns_actions x ++ ferry_poller_actions).
Proof.
  assert (Hf : Forall (action_kept on_system) ferry_poller_actions).
  { repeat (apply Forall_cons; split); [..|constructor]; split; cbn [callback when_interested action_new];
      first [apply (on_tun_kept P) | apply (on_output_kept P) | apply on_signal_kept | apply (always_kept P) | apply (pure_kept P)].
    - intros y b y' E. unfold output_pending in E. apply bind_Ok in E as ([b' w] & _ & E). by simplify_eq.
    - intros y b y' E. by injection E as _ <-.
    - intros y b y' E. by injection E as _ <-. }
  apply Forall_app. split; [|exact Hf]. unfold dns_actions. destruct (dns (user x)); [|constructor].
  repeat (apply Forall_cons; split); [..|constructor]; split; try apply (always_kept P); apply (on_dns_kept P);
    [apply (handle_udp_kept P)|apply (handle_tcp_kept P)].
Qed.

Lemma ferry_turns_kept n p x st p' x' : Forall (action_kept on_system) (actions_ p) ->
  turns n queue_wait_time p x = Ok (st, p', x') -> P (os x) (os x') /\ Forall (action_kept on_system) (actions_ p').
Proof.
  intros Hp E. eapply (turns_kept on_system); [|  |exact Hp|exact E].
  - intros pfds t y. apply keep_poll.
  - apply (pure_kept P). intros y t y' Ey. unfold queue_wait_time in Ey. apply bind_Ok in Ey as ([[t' q] w] & _ & Ey). by simplify_eq.
Qed.
End TurnsKept.

Record FerryProcess (W Q OS : Type) := {
  process_poller : Poller (LoopState (FerryState W Q) OS);
  process_state : LoopState (FerryState W Q) OS;
}.
Arguments Build_FerryProcess {W Q OS}.
Arguments process_poller {W Q OS}.
Arguments process_state {W Q OS}.

Section FerryCarrier.
Context {W Q OS : Type} {clock : Clock W} {claws : ClockLaws W} {apq : AbstractPacketQueue W Q}
  {fpq : FifoPacketQueue W Q} (fl : FlowRelation) {flowing : FlowingQueue W Q fl} (view : FerryView W Q OS).

Abbreviation process := (FerryProcess W Q OS).
Abbreviation state := (LoopState (FerryState W Q) OS).

(** The state of the process when it has its turn: the system is as the others
    have left it. *)
Definition on_turn (p : process) (o : OS) : state := (process_state p) <| os := o |>.

(** One turn of the loop of [Ferry::loop]. *)
Definition ferry_turn (p : process) (o : OS) : outcome (option Z * process * OS) :=
  let* (status, poller, x) := turns 1 queue_wait_time (process_poller p) (on_turn p o) in
  Ok (status, {| process_poller := poller; process_state := x |}, os x).

(** Its descriptors: the tunnel device, the sibling's, that of the signals and
    those of the DNS proxy. *)
Context (tunfd sibfd sigfd : Z) (listeners : option (Z * Z)).

(** The ferry's invariant for [n] turns, and that its actions make no other
    system calls than a ferry's. *)
Record ferry_prepared (n : nat) (p : process) (o : OS) : Prop := {
  prepared_inv : ferry_inv tunfd sibfd sigfd listeners (6 * n) (on_turn p o);
  prepared_poller : poller_ok tunfd sibfd sigfd listeners (process_poller p) (on_turn p o);
  prepared_calls P : PreOrder P -> CallsKeep W Q OS P -> Forall (action_kept (on_system P)) (actions_ (process_poller p));
}.

#[local] Instance ferry_carrier : Carrier process OS := {
  turn := ferry_turn;
  turn_fails := fault_of view;
  taken _ o := received (W := W) (Q := Q) tunfd o;
  inside p := in_flight (ferry_queue (user (process_state p)));
  given _ o := datagrams sibfd o;
  prepared := ferry_prepared;
  elsewhere := quiet_call (W := W) (Q := Q);
}.

Lemma ferry_turn_carries n (p : process) (o : OS) : prepared (S n) p o ->
  match turn p o with
  | Ok (_, p', o') => prepared n p' o' /\ carries fl p o p' o'
  | Err e => turn_fails e
  end.
Proof.
  intros [Hinv Hpo Hcalls]. cbn [turn ferry_carrier]. unfold ferry_turn.
  replace (6 * S n)%nat with (6 * 1 + 6 * n)%nat in Hinv by lia.
  pose proof (ferry_turns_from (fl := fl) _ _ _ _ 1 (6 * n) _ _ Hpo Hinv) as H.
  destruct (turns 1 _ _ _) as [[[st p'] x']|e] eqn:E; cbn [bind]; [|exact H].
  destruct H as ([_ (rs & Hrs & Hfl)] & Hinv' & Hpo'). split; [|by exists rs].
  assert (Ex : x' <| os := os x' |> = x') by by destruct x'.
  split; unfold on_turn; cbn [process_state process_poller]; rewrite ?Ex; [done..|].
  intros P HP HC. eapply (ferry_turns_kept P); [by apply Hcalls|exact E].
Qed.

(** What happens elsewhere leaves the ferry prepared. *)
Lemma ferry_elsewhere n (p : process) (o o' : OS) : quiet_call (W := W) (Q := Q) o o' -> ferry_prepared n p o ->
  ferry_prepared n p o'.
Proof.
  intros [Htr Hpr] [(Hf & Hc & Hq) (Hwf & Hok & Hl) Hcalls].
  assert (Hcar : carried (fl := fl) tunfd sibfd (on_turn p o) (on_turn p o')).
  { apply carried_same; [by repeat split|apply Htr|apply Htr|done]. }
  split; [| |exact Hcalls].
  - split; [exact Hf|]. split; [|exact Hq]. by eapply (children_inv_same (W := W) (Q := Q)).
  - split; [|by split]. by eapply same_fds_step.
Qed.

Lemma ferry_carrier_laws : CarrierLaws process OS fl.
Proof.
  split.
  - apply ferry_turn_carries.
  - intros n p o o' He Hp. split; [exact (ferry_elsewhere n p o o' He Hp)|]. destruct He as [Htr _]. split; apply Htr.
  - intros n p o [Hinv Hpo Hcalls]. split; [|done..]. eapply ferry_inv_drop; [|exact Hinv]. lia.
Qed.

(** The process as it comes to its loop: its poller with the signals and its
    own actions. *)
Definition ferry_process (l : EventLoop (FerryState W Q) OS) (x : state) : process :=
  {| process_poller := poller_ (add_simple_input_handler signal_fd on_signal x (ferry_loop_actions (register_handlers l x) x));
     process_state := x |}.

(** Its queue is as constructed, and it has taken no turn yet. *)
Record fresh_ferry (l : EventLoop (FerryState W Q) OS) (x : state) (o : OS) : Prop := {
  fresh_queue : exists schedule traces offsets timer repeat log header q link_base delay_base,
    config_ok schedule traces offsets timer /\ queue_wf q /\ packets q = [] /\ 0 <= link_base < time_limit /\
    ferry_queue (user x) = cellular_new schedule traces offsets timer repeat log header q link_base delay_base;
  fresh_poller : poller_ l = poller_new;
  fresh_tun : tun_device (OS := OS) (fd_ (tun_of x));
  fresh_sibling : tun_device (OS := OS) (fd_ (sibling_of x));
  fresh_children : children_inv (child_processes_ x) o;
  fresh_clock : exists t, 0 <= t /\ clock_from (world (user x)) t;
}.

Lemma ferry_poller_system l x o : ferry_poller l (x <| os := o |>) = ferry_poller l x.
Proof. by destruct x as [ch sf o' [q w t s [p|]]]. Qed.

Lemma ferry_fresh_prepared n l x o : fresh_ferry l x o -> ~ device_of view (fd_ (signal_fd x)) ->
  Z.of_nat (6 * n) < 1000000 ->
  fd_ (tun_of x) = tunfd -> fd_ (sibling_of x) = sibfd -> fd_ (signal_fd x) = sigfd -> listeners_of x = listeners ->
  prepared n (ferry_process l x) o /\ inside (ferry_process l x) = [].
Proof.
  intros [(sch & tr & off & tm & rep & lg & hd & q & lb & db & Hcfg & Hq & Hp & Hb & Eq) Hl Ht Hsib Hc (t & Ht0 & Hw)] Hg Hn E1 E2 E3 E4.
  destruct (cellular_new_inv (fl := fl) sch tr off tm rep lg hd q lb db t Hcfg Hq Hp Hb) as (Hinv & Hif & Hpc).
  rewrite <- Eq in Hinv, Hif, Hpc. split; [|exact Hif]. split.
  - apply (ferry_inv_intro _ _ _ _ _ _ t); try done. cbn. rewrite Hpc. unfold PACKET_SIZE. lia.
  - change (process_poller (ferry_process l x)) with (ferry_poller l x). rewrite <- (ferry_poller_system l x o).
    apply ferry_poller_ok; [by rewrite <- E1|by rewrite <- E2|by rewrite <- E3|done|done].
  - intros P HP HC. change (process_poller (ferry_process l x)) with (ferry_poller l x).
    destruct (ferry_poller_wf l x Hl) as [-> _]. by apply (ferry_actions_kept P).
Qed.
End FerryCarrier.

(** * Properties *)

Section BothDirections.
Context {W Q1 Q2 OS : Type} {clock : Clock W} {claws : ClockLaws W}
  {apq1 : AbstractPacketQueue W Q1} {fpq1 : FifoPacketQueue W Q1}
  {apq2 : AbstractPacketQueue W Q2} {fpq2 : FifoPacketQueue W Q2}
  (fl1 fl2 : FlowRelation) {flowing1 : FlowingQueue W Q1 fl1} {flowing2 : FlowingQueue W Q2 fl2}
  (view1 : FerryView W Q1 OS) (view2 : FerryView W Q2 OS).

(** The carrier that a ferry is, by the descriptors that it starts with. *)
Definition ferry_of {Q} `{FifoPacketQueue W Q} (fl : FlowRelation) `{!FlowingQueue W Q fl} (view : FerryView W Q OS) (x : LoopState (FerryState W Q) OS) :
    Carrier (FerryProcess W Q OS) OS :=
  ferry_carrier fl view (fd_ (tun_of x)) (fd_ (sibling_of x)) (fd_ (signal_fd x)) (listeners_of x).

(** The packets that the process [p], which started as [x], has written to the
    sibling's device since, followed by those inside, come from those that it
    has read from its tunnel device since. *)
Definition passed_on {Q} `{FifoPacketQueue W Q} (fl : FlowRelation) (view : FerryView W Q OS)
    (x : LoopState (FerryState W Q) OS) (o : OS) (p : FerryProcess W Q OS) (o' : OS) : Prop :=
  exists rs, received (W := W) (Q := Q) (fd_ (tun_of x)) o' = received (W := W) (Q := Q) (fd_ (tun_of x)) o ++ rs /\
    flow (datagrams (fd_ (sibling_of x)) o' ++ in_flight (ferry_queue (user (process_state p))))
         (datagrams (fd_ (sibling_of x)) o ++ rs).

Lemma quiet_preorder {Q} (view : FerryView W Q OS) : PreOrder (quiet_call (W := W) (Q := Q)).
Proof.
  split; [|intros o1 o2 o3; apply quiet_os_trans]. intros o. split; [apply same_traffic_refl|apply same_processes_refl].
Qed.

Lemma ferries_apart x1 x2 : CallsKeep W Q1 OS (quiet_call (W := W) (Q := Q2)) -> CallsKeep W Q2 OS (quiet_call (W := W) (Q := Q1)) ->
  Apart (c1 := ferry_of fl1 view1 x1) (c2 := ferry_of fl2 view2 x2).
Proof.
  intros H1 H2. pose proof (quiet_preorder view1) as P1. pose proof (quiet_preorder view2) as P2.
  split; intros n p o st p' o' [_ _ Hcalls] E; cbn in E; unfold ferry_turn in E;
    apply bind_Ok in E as ([[st' poller] x'] & E & Es); simplify_eq.
  - exact (proj1 (ferry_turns_kept _ _ _ _ _ _ _ (Hcalls _ P2 H1) E)).
  - exact (proj1 (ferry_turns_kept _ _ _ _ _ _ _ (Hcalls _ P1 H2) E)).
Qed.

(** C1: both directions of the emulated link are FIFO channels, whatever the
    order in which their two processes run.  The processes start with queues as
    constructed, with the handlers of the DNS proxy or without, and the system
    calls of neither touch the devices and the children of the other.  The tunnel
    devices may give any packets; a write to one either takes the packet whole or
    fails and takes nothing.  After any interleaving of turns of both loops that
    have ended normally (fewer than 166666, so that no counter wraps) and of what
    others do on the machine, each direction has passed on the packets that it has
    read, in order: all of them with a queue that drops nothing
    ([lossless_flow]), a subsequence with any queue that is a [FifoPacketQueue]
    ([dropping_flow]).  The next turn of either process ends normally; with an
    exception derived from [std::exception] (a write or another call that fails),
    which the process catches; or, only if the devices may give a packet that
    [read_packet] does not accept, with what that does then: with the pointer that
    it throws for a packet shorter than 20 or longer than 1400 bytes, which nobody
    catches, or, for a packet whose headers are cut short, with a read beyond the
    packet, of which nothing more is said ([turn_fault], [read_fault]).  No
    assertion fails in any case. *)
Theorem link_fifo (n : nat) l1 (x1 : LoopState (FerryState W Q1) OS) l2 (x2 : LoopState (FerryState W Q2) OS) (o : OS) s :
  CallsKeep W Q1 OS (quiet_call (W := W) (Q := Q2)) -> CallsKeep W Q2 OS (quiet_call (W := W) (Q := Q1)) ->
  fresh_ferry view1 l1 x1 o -> ~ device_of view1 (fd_ (signal_fd x1)) ->
  fresh_ferry view2 l2 x2 o -> ~ device_of view2 (fd_ (signal_fd x2)) -> Z.of_nat (6 * (n + 1)) < 1000000 ->
  nsteps (link_step (c1 := ferry_of fl1 view1 x1) (c2 := ferry_of fl2 view2 x2)) n
    {| uplink := ferry_process view1 l1 x1; uplink_status := None; downlink := ferry_process view2 l2 x2; downlink_status := None; system := o |} s ->
  passed_on fl1 view1 x1 o (uplink s) (system s) /\ passed_on fl2 view2 x2 o (downlink s) (system s) /\
  turn_safe (c := ferry_of fl1 view1 x1) (uplink s) (system s) /\ turn_safe (c := ferry_of fl2 view2 x2) (downlink s) (system s).
Proof.
  intros A1 A2 F1 S1 F2 S2 Hn Hs.
  destruct (ferry_fresh_prepared fl1 view1 _ _ _ _ (n + 1) l1 x1 o F1 S1 Hn eq_refl eq_refl eq_refl eq_refl) as [P1 I1].
  destruct (ferry_fresh_prepared fl2 view2 _ _ _ _ (n + 1) l2 x2 o F2 S2 Hn eq_refl eq_refl eq_refl eq_refl) as [P2 I2].
  pose proof (ferry_carrier_laws fl1 view1 (fd_ (tun_of x1)) (fd_ (sibling_of x1)) (fd_ (signal_fd x1)) (listeners_of x1)) as L1.
  pose proof (ferry_carrier_laws fl2 view2 (fd_ (tun_of x2)) (fd_ (sibling_of x2)) (fd_ (signal_fd x2)) (listeners_of x2)) as L2.
  destruct (link_steps_ok fl1 fl2 (ferries_apart x1 x2 A1 A2) n 1 _ s Hs (conj P1 P2)) as [Hp [(r1 & T1 & C1) (r2 & T2 & C2)]].
  unfold ferry_of in C1, C2. cbn [uplink downlink system] in *. rewrite I1 in C1. rewrite I2 in C2.
  split; [by exists r1|]. split; [by exists r2|]. exact (link_turns_safe fl1 fl2 s Hp).
Qed.
End BothDirections.

(** * Two processes on a machine

    The machine has a [Crossing.Box] for each process, with the devices and the
    descriptors that it sees.  The uplink's queue drops nothing, the downlink's
    holds at most 1500 bytes. *)

Module SideBySide.
Import Crossing.

Record Machine := { box1 : Box; box2 : Box }.

Section View.
Context (get : Machine -> Box) (put : Box -> Machine -> Machine) (get_put : forall b o, get (put b o) = b) (Q : Type).

Definition lift {R} (f : Box -> R * Box) (o : Machine) : R * Machine := let (r, b) := f (get o) in (r, put b o).

#[local] Instance kernel : Kernel Machine := {
  sys_read fd n := lift (sys_read fd n);
  sys_write fd b := lift (sys_write fd b);
  sys_set_cloexec fd := lift (sys_set_cloexec fd);
  sys_close fd := lift (sys_close fd);
}.

#[local] Instance procs : ProcessKernel Machine := {
  sys_waitid pid b1 b2 si := lift (sys_waitid pid b1 b2 si);
  sys_kill pid sig := lift (sys_kill pid sig);
  sys_raise sig := lift (sys_raise sig);
  sys_stat_task := lift sys_stat_task;
  sys_clone ns := lift (sys_clone ns);
}.

#[local] Instance sockets : SocketKernel Machine := {
  sys_socket domain type := lift (sys_socket domain type);
  sys_getsockopt fd level option := lift (sys_getsockopt fd level option);
  sys_setsockopt fd level option value := lift (sys_setsockopt fd level option value);
  sys_getsockname fd := lift (sys_getsockname fd);
  sys_getpeername fd := lift (sys_getpeername fd);
  sys_bind fd a := lift (sys_bind fd a);
  sys_connect fd a := lift (sys_connect fd a);
  sys_listen fd n := lift (sys_listen fd n);
  sys_accept fd := lift (sys_accept fd);
  sys_sendto fd b a := lift (sys_sendto fd b a);
  sys_send fd b := lift (sys_send fd b);
  sys_recvfrom fd n := lift (sys_recvfrom fd n);
}.

#[local] Instance threads : ThreadKernel Machine := fun r => lift (sys_thread r).

(** A descriptor is ready, except the tunnel device when nothing is to come
    and that of the signals. *)
#[local] Instance polls : PollKernel (LoopState (FerryState World Q) Machine) := fun pfds _ x =>
  (1, map (fun q => if (pfd_fd q =? 5) || ((pfd_fd q =? 3) && bool_decide (inbox (get (os x)) = [])) then 0 else pfd_events q) pfds, x).

#[local] Program Instance tuns : TunKernel Machine := {
  tun_device fd := fd = 3 \/ fd = 4;
  offered _ := True;
  datagrams fd o := sent (get o) fd;
}.
Next Obligation.
  intros fd b o _ _ _. eexists _, _. split; [reflexivity|]. left. rewrite get_put. cbn. by rewrite Z.eqb_refl.
Qed.

#[local] Program Instance children : ChildLaws Machine := { unreaped _ _ := False; has_change _ _ := False; fate _ _ := 0%nat; signalable _ := True }.
Solve Obligations with (cbn; intros; contradiction || (eexists _, _; by split)).

#[local] Program Instance laws : FerryLaws World Q Machine := {
  received fd o := if fd =? 3 then taken (get o) else [];
}.
Next Obligation.
  intros fd limit o c o' [->| ->] _; [|done]. cbn. unfold lift. cbn. destruct (inbox (get o)) as [|c' l]; [done|].
  intros E. simplify_eq. split; [done|]. split; [by rewrite get_put|]. split; [intros fd; by rewrite get_put|]. by intros p.
Qed.
Next Obligation.
  intros fd limit o c o' Hfd. cbn in *. unfold lift. cbn. destruct (Z.eqb_spec fd 3); [tauto|]. destruct (Z.eqb_spec fd 4); [tauto|]. intros E. simplify_eq.
  split; [|by intros p]. intros fd'. cbn. by rewrite get_put.
Qed.
Next Obligation. intros fd c o. split; [intros fd'; cbn; by rewrite get_put|by intros p]. Qed.
Next Obligation. intros pid b1 b2 si o fd. cbn. by rewrite get_put. Qed.
Next Obligation. intros pid sig o fd. cbn. by rewrite get_put. Qed.
Next Obligation. intros sig o fd. cbn. by rewrite get_put. Qed.
Next Obligation. intros pfds timeout x x'. subst x'. do 3 (split; [done|]). split; [by intros fd|by intros p]. Qed.

#[local] Program Instance listeners : ListenerLaws World Q Machine.
Solve Obligations with (intros; split; [intros fd'; cbn; by rewrite get_put|by intros p]).

Definition view : FerryView World Q Machine := {|
  view_kernel := kernel; view_tun := tuns; view_procs := procs; view_children := children; view_poll := polls;
  view_laws := laws; view_sockets := sockets; view_threads := threads; view_listeners := listeners |}.

(** Whatever keeps the own box is quiet for this view. *)
Lemma quiet_box o o' : get o' = get o -> quiet_call (ListenerLaws := view_listeners (FerryView := view)) o o'.
Proof. intros E. split; [intros fd; cbn; by rewrite E|by intros p]. Qed.
End View.

Definition put1 (b : Box) (o : Machine) : Machine := {| box1 := b; box2 := box2 o |}.
Definition put2 (b : Box) (o : Machine) : Machine := {| box1 := box1 o; box2 := b |}.

Definition up_view : FerryView World InfinitePacketQueue Machine := view box1 put1 (fun _ _ => eq_refl) _.
Definition down_view : FerryView World DropTailPacketQueue Machine := view box2 put2 (fun _ _ => eq_refl) _.

Lemma other_box2 {R} (f : Box -> R * Box) (o : Machine) : box2 (lift box1 put1 f o).2 = box2 o.
Proof. unfold lift. by destruct (f (box1 o)). Qed.
Lemma other_box1 {R} (f : Box -> R * Box) (o : Machine) : box1 (lift box2 put2 f o).2 = box1 o.
Proof. unfold lift. by destruct (f (box2 o)). Qed.

Lemma up_quiet : CallsKeep (H := up_view) World InfinitePacketQueue Machine (quiet_call (ListenerLaws := view_listeners (FerryView := down_view))).
Proof.
  split; [split|..]; intros; apply (quiet_box box2 put2 (fun _ _ => eq_refl) DropTailPacketQueue); first [reflexivity | exact (other_box2 _ _)].
Qed.

Lemma down_quiet : CallsKeep (H := down_view) World DropTailPacketQueue Machine (quiet_call (ListenerLaws := view_listeners (FerryView := up_view))).
Proof.
  split; [split|..]; intros; apply (quiet_box box1 put1 (fun _ _ => eq_refl) InfinitePacketQueue); first [reflexivity | exact (other_box1 _ _)].
Qed.

Definition start_state {Q} (q : Q) (p : option DNSProxy) (o : Machine) : LoopState (FerryState World Q) Machine :=
  {| child_processes_ := []; signal_fd := descriptor 5; os := o;
     user := {| ferry_queue := sample_start q; world := ticking; tun := descriptor 3; sibling := descriptor 4; dns := p |} |}.

Definition box_with (l : list bytes) : Box := {| inbox := l; taken := []; sent := fun _ => [] |}.
Definition start_machine : Machine :=
  {| box1 := box_with [sample_contents 1000 8; sample_contents 1001 1300; sample_contents 1002 200];
     box2 := box_with [sample_contents 2000 900; sample_contents 2001 900; sample_contents 2002 8] |}.

Definition up_state := start_state empty_infinite None start_machine.
Definition down_state := start_state empty_droptail (dns (user box_start)) start_machine.

Definition empty_loop U : EventLoop U Machine := {| signals_ := {| mask_ := [] |}; poller_ := poller_new |}.

Definition start_link : Link (FerryProcess World InfinitePacketQueue Machine) (FerryProcess World DropTailPacketQueue Machine) Machine :=
  {| uplink := ferry_process up_view (empty_loop _) up_state; uplink_status := None;
     downlink := ferry_process down_view (empty_loop _) down_state; downlink_status := None; system := start_machine |}.

Abbreviation up_carrier := (ferry_of (FlowingQueue0 := lossless_flows) lossless_flow up_view up_state).
Abbreviation down_carrier := (ferry_of (FlowingQueue0 := fifo_flows) dropping_flow down_view down_state).

Lemma witness_fresh {Q} `{FifoPacketQueue World Q} (view : FerryView World Q Machine) q p l :
  queue_wf q -> packets q = [] -> poller_ l = poller_new -> device_of view 3 -> device_of view 4 ->
  fresh_ferry view l (start_state q p start_machine) start_machine.
Proof.
  intros Hq Hp Hl Ht Hsib. split; try done.
  - exists [0; 1; 5], sample_trace, [], 50, true, true, [], q, 0, 0. repeat (split; [first [done | exact sample_config_ok | by_computation]|]). done.
  - split; [constructor|apply NoDup_nil_2].
  - exists 0. split; [lia|exact ticking_from].
Qed.

(** A turn of the uplink's process ([true]) or the downlink's. *)
Definition play (b : bool) (x : Link (FerryProcess World InfinitePacketQueue Machine) (FerryProcess World DropTailPacketQueue Machine) Machine) :=
  if b then
    match uplink_status x, turn (Carrier := up_carrier) (uplink x) (system x) with
    | None, Ok (st, p, o) =>
        Some {| uplink := p; uplink_status := st; downlink := downlink x; downlink_status := downlink_status x; system := o |}
    | _, _ => None
    end
  else
    match downlink_status x, turn (Carrier := down_carrier) (downlink x) (system x) with
    | None, Ok (st, p, o) =>
        Some {| uplink := uplink x; uplink_status := uplink_status x; downlink := p; downlink_status := st; system := o |}
    | _, _ => None
    end.

Fixpoint play_all (bs : list bool) x :=
  match bs with
  | [] => Some x
  | b :: bs => match play b x with Some x => play_all bs x | None => None end
  end.

Lemma play_all_steps bs : forall x s, play_all bs x = Some s -> nsteps (link_step (c1 := up_carrier) (c2 := down_carrier)) (length bs) x s.
Proof.
  induction bs as [|b bs IH]; intros x s E; cbn [play_all length] in *; [injection E as ->; constructor|].
  destruct (play b x) as [y|] eqn:Ep; [|done]. apply nsteps_l with y; [|by apply IH]. destruct b; unfold play in Ep.
  - destruct (uplink_status x) eqn:Es; [done|]. destruct (turn (uplink x) (system x)) as [[[st p] o]|] eqn:Et; [|done].
    injection Ep as <-. by apply step_up.
  - destruct (downlink_status x) eqn:Es; [done|]. destruct (turn (downlink x) (system x)) as [[[st p] o]|] eqn:Et; [|done].
    injection Ep as <-. by apply step_down.
Qed.

(** Turns in an irregular order. *)
Definition order : list bool := flat_map (fun k => repeat true (k mod 3) ++ repeat false (k mod 2 + 1)) (seq 1 30).

Lemma plays : match play_all order start_link with Some _ => true | None => false end = true.
Proof. vm_compute. reflexivity. Qed.

Lemma link_fifo_witness :
  match play_all order start_link with
  | Some s =>
      passed_on lossless_flow up_view up_state start_machine (uplink s) (system s) /\
      passed_on dropping_flow down_view down_state start_machine (downlink s) (system s) /\
      turn_safe (c := up_carrier) (uplink s) (system s) /\ turn_safe (c := down_carrier) (downlink s) (system s)
  | None => False
  end.
Proof.
  pose proof plays as Hp. destruct (play_all order start_link) as [s|] eqn:E; [|discriminate].
  apply play_all_steps in E. clear Hp.
  refine (link_fifo (flowing1 := lossless_flows) (flowing2 := fifo_flows) lossless_flow dropping_flow up_view down_view
    (length order) (empty_loop _) up_state (empty_loop _) down_state start_machine s up_quiet down_quiet _ _ _ _ _ E).
  - apply witness_fresh; [by_computation|done|done|by left|by right].
  - by intros [|].
  - apply witness_fresh; [by_computation|done|done|by left|by right].
  - by intros [|].
  - vm_compute. reflexivity.
Defined.

(** In that run the three packets of either direction cross. *)
Example crossing_both_ways :
  match play_all order start_link with
  | Some s => (List.length (sent (box1 (system s)) 4), List.length (sent (box2 (system s)) 4),
               List.length (in_flight (W := World) (ferry_queue (user (process_state (downlink s))))))
  | None => (0, 0, 0)%nat
  end = (3, 3, 0)%nat.
Proof. vm_compute. reflexivity. Qed.
End SideBySide.
