(* ===== verification/Shell.v ===== *)
(** The command line of the cellular shell: src/frontend/cellularshell.cc, with
    [join] of src/util/util.cc.

    [getopt_long] is a parameter: what it returns at each call, the value of
    [optind] at the end and the arguments as it has permuted them. *)
From Stdlib Require Import String Ascii SpecFloat.
From S2P Require Import Prelude Floats Ezio Timestamp Packets PacketQueue DroppingQueue LinkQueue CellularQueue TraceLoader.

(** * Quoting *)

Definition quote_char : ascii := ascii_of_nat 39.
Definition backslash : ascii := ascii_of_nat 92.

(** The characters of [arg] inside the quotes: a quote becomes quote, backslash,
    quote, quote. *)
Fixpoint quoted_chars (arg : string) : string :=
  match arg with
  | EmptyString => EmptyString
  | String ch rest =>
      if negb (Ascii.eqb ch quote_char) then String ch (quoted_chars rest)
      else String quote_char (String backslash (String quote_char (String quote_char (quoted_chars rest))))
  end.

Definition shell_quote (arg : string) : string :=
  String quote_char (quoted_chars arg) +:+ String quote_char "".

(** The command line for the log file. *)
Definition command_line (argv : list string) : outcome string :=
  match argv with
  | [] => Err (UndefinedBehaviour "argv[ 0 ] of no arguments")
  | a :: rest => Ok (fold_left (fun s x => s +:+ " " +:+ shell_quote x) rest (shell_quote a))
  end.

(** [join]: the words of a command, separated by spaces. *)
Definition join (command : list string) : outcome string :=
  match command with
  | [] => Err (UndefinedBehaviour "front() of an empty vector")
  | a :: rest => Ok (fold_left (fun s x => s +:+ " " +:+ x) rest a)
  end.

(** ** A shell's reading of quoted words *)

(** Outside quotes, a space ends a word, a backslash takes the next character as
    it is and a quote begins a quoted part; the other characters have a meaning
    of their own for a shell or not, so the reader accepts none of them.  Inside
    quotes, every character but the quote stands for itself (POSIX, 2.2.1 and
    2.2.2).  [cur] is the word being read. *)
Fixpoint sh_words (quoted escaped : bool) (cur : option string) (s : string) : option (list string) :=
  match s with
  | EmptyString =>
      if quoted || escaped then None
      else Some (match cur with Some w => [w] | None => [] end)
  | String c s =>
      let push := Some (default "" cur +:+ String c "") in
      if escaped then (if Ascii.eqb c newline then None else sh_words false false push s)
      else if quoted then
        if Ascii.eqb c quote_char then sh_words false false (Some (default "" cur)) s
        else sh_words true false push s
      else if Ascii.eqb c quote_char then sh_words true false (Some (default "" cur)) s
      else if Ascii.eqb c backslash then sh_words false true (Some (default "" cur)) s
      else if Ascii.eqb c space then
        match cur with
        | Some w => match sh_words false false None s with Some ws => Some (w :: ws) | None => None end
        | None => sh_words false false None s
        end
      else None
  end.

(** * The queues of the link *)

(** What a [unique_ptr<AbstractPacketQueue>] of the shell points to. *)
Inductive AnyQueue :=
| AnyInfinite (q : InfinitePacketQueue)
| AnyDropTail (q : DropTailPacketQueue)
| AnyDropHead (q : DropHeadPacketQueue).

Definition usage_error {A} : outcome A := Err (Throw "invalid arguments").

Definition get_packet_queue (type args : string) : outcome AnyQueue :=
  if String.eqb type "infinite" then let* q := infinite_new args in Ok (AnyInfinite q)
  else if String.eqb type "droptail" then let* q := drop_tail_new args in Ok (AnyDropTail q)
  else if String.eqb type "drophead" then let* q := drop_head_new args in Ok (AnyDropHead q)
  else usage_error.

Section AnyQueue.
Context (W : Type).

(** The virtual calls. *)
#[export] Instance any_queue : AbstractPacketQueue W AnyQueue := {
  enqueue p q w := match q with
    | AnyInfinite q => let* (q, w) := enqueue p q w in Ok (AnyInfinite q, w)
    | AnyDropTail q => let* (q, w) := enqueue p q w in Ok (AnyDropTail q, w)
    | AnyDropHead q => let* (q, w) := enqueue p q w in Ok (AnyDropHead q, w)
    end;
  dequeue q w := match q with
    | AnyInfinite q => let* (p, q, w) := dequeue q w in Ok (p, AnyInfinite q, w)
    | AnyDropTail q => let* (p, q, w) := dequeue q w in Ok (p, AnyDropTail q, w)
    | AnyDropHead q => let* (p, q, w) := dequeue q w in Ok (p, AnyDropHead q, w)
    end;
  empty q := match q with
    | AnyInfinite q => PacketQueue.empty W q | AnyDropTail q => PacketQueue.empty W q | AnyDropHead q => PacketQueue.empty W q end;
  to_string q := match q with
    | AnyInfinite q => PacketQueue.to_string W q | AnyDropTail q => PacketQueue.to_string W q | AnyDropHead q => PacketQueue.to_string W q end;
  size_bytes q := match q with
    | AnyInfinite q => PacketQueue.size_bytes W q | AnyDropTail q => PacketQueue.size_bytes W q | AnyDropHead q => PacketQueue.size_bytes W q end;
  size_packets q := match q with
    | AnyInfinite q => PacketQueue.size_packets W q | AnyDropTail q => PacketQueue.size_packets W q
    | AnyDropHead q => PacketQueue.size_packets W q end;
}.

#[export] Program Instance any_fifo : FifoPacketQueue W AnyQueue := {
  packets q := match q with AnyInfinite q => packets (W := W) q | AnyDropTail q => packets (W := W) q | AnyDropHead q => packets (W := W) q end;
  queue_wf q := match q with
    | AnyInfinite q => queue_wf (W := W) q | AnyDropTail q => queue_wf (W := W) q | AnyDropHead q => queue_wf (W := W) q end;
}.
Next Obligation. intros [q|q|q]; apply (empty_spec (W := W) q). Qed.
Next Obligation.
  intros [q|q|q] w p l Hwf E; cbn [dequeue any_queue];
    destruct (dequeue_spec (W := W) q w p l Hwf E) as (q' & -> & Hl & Hwf'); cbn [bind]; eexists; (split; [done|]); by split.
Qed.
Next Obligation.
  intros [q|q|q] w p Hwf Hr; cbn [enqueue any_queue];
    destruct (enqueue_spec (W := W) q w p Hwf Hr) as (q' & -> & Hwf' & Hs); cbn [bind]; eexists; (split; [done|]); by split.
Qed.
End AnyQueue.

(** * Options *)

(** [atoi]: what [strtol] gives, as an [int]. *)
Definition atoi (s : string) : Z := i32 (strtol s 10).1.1.

(** [std::stoul]: the C++ library's errors are exceptions. *)
Definition stoul (str : string) : outcome Z :=
  let '(neg, s) := scan_sign (skip_spaces str) in
  let '(v, n, _) := scan_digits 10 0 0 s in
  match n with
  | O => Err (Throw "stoul")
  | _ => if 2 ^ 64 <=? v then Err (OutOfRange "stoul") else Ok (u64 (if neg : bool then - v else v))
  end.

(** [std::stod] *)
Definition stod (str : string) : outcome real :=
  let '(ret, erange, rest) := strtod str in
  if String.eqb rest str then Err (Throw "stod")
  else if erange : bool then Err (OutOfRange "stod")
  else Ok ret.

Record Options := {
  repeat_option : bool;
  uplink_queue_type : string;
  downlink_queue_type : string;
  uplink_queue_args : string;
  downlink_queue_args : string;
  start_timestamp : Z;
  loss_rate : real;
  psize_offset_up : string;
  psize_offset_down : string;
  long_to_short_timer_up : Z;
  long_to_short_timer_down : Z;
  packet_log_prefix : string;
}.

#[export] Instance eta_Options : Eta Options := fun o =>
  {| repeat_option := repeat_option o; uplink_queue_type := uplink_queue_type o;
     downlink_queue_type := downlink_queue_type o; uplink_queue_args := uplink_queue_args o;
     downlink_queue_args := downlink_queue_args o; start_timestamp := start_timestamp o; loss_rate := loss_rate o;
     psize_offset_up := psize_offset_up o; psize_offset_down := psize_offset_down o;
     long_to_short_timer_up := long_to_short_timer_up o; long_to_short_timer_down := long_to_short_timer_down o;
     packet_log_prefix := packet_log_prefix o |}.

Definition default_options : Options :=
  {| repeat_option := true; uplink_queue_type := "infinite"; downlink_queue_type := "infinite";
     uplink_queue_args := ""; downlink_queue_args := ""; start_timestamp := 0; loss_rate := double_of_Z 0;
     psize_offset_up := ""; psize_offset_down := ""; long_to_short_timer_up := 0; long_to_short_timer_down := 0;
     packet_log_prefix := "" |}.

(** The [switch] on what [getopt_long] returned, with [optarg]. *)
Definition parse_option (opt : ascii) (optarg : string) (o : Options) : outcome Options :=
  match opt with
  | "c"%char => let* t := stoul optarg in Ok (o <| start_timestamp := t |>)
  | "i"%char => Ok (o <| packet_log_prefix := optarg |>)
  | "o"%char => Ok (o <| repeat_option := false |>)
  | "q"%char => Ok (o <| uplink_queue_type := optarg |>)
  | "w"%char => Ok (o <| downlink_queue_type := optarg |>)
  | "a"%char => Ok (o <| uplink_queue_args := optarg |>)
  | "b"%char => Ok (o <| downlink_queue_args := optarg |>)
  | "r"%char => let* x := stod optarg in Ok (o <| loss_rate := x |>)
  | "e"%char => Ok (o <| psize_offset_up := optarg |>)
  | "f"%char => Ok (o <| psize_offset_down := optarg |>)
  | "g"%char => let* t := myatoi optarg in Ok (o <| long_to_short_timer_up := i32 t |>)
  | "h"%char => let* t := myatoi optarg in Ok (o <| long_to_short_timer_down := i32 t |>)
  | _ => Ok o
  end.

Fixpoint parse_options (opts : list (ascii * string)) (o : Options) : outcome Options :=
  match opts with
  | [] => Ok o
  | (opt, optarg) :: opts => let* o := parse_option opt optarg o in parse_options opts o
  end.

(** * The command line *)

Record ShellConfig := {
  options : Options;
  up_packet_train_trace : string;
  down_packet_train_trace : string;
  uplink_pdo_trace : string;
  downlink_pdo_trace : string;
  command : list string;
  logged_command_line : string;
}.

(** [argv[ i ]] as a string: past the end there is a null pointer, and then
    whatever follows in memory. *)
Definition argv_at (argv : list string) (i : Z) : outcome string :=
  match znth argv i with
  | Some s => Ok s
  | None => Err (UndefinedBehaviour "argv out of range")
  end.

(** The arguments from number [num_args] on. *)
Definition extra_command (num_args : Z) (argv : list string) : outcome (list string) :=
  if num_args <? len argv then
    if num_args <? 0 then Err (UndefinedBehaviour "argv out of range") else Ok (drop (Z.to_nat num_args) argv)
  else Ok [].

(** [getopt argv]: the options found with their arguments, [optind] at the end,
    and [argv] as it is then. *)
Definition parse_command_line (getopt : list string -> list (ascii * string) * Z * list string)
    (shell_path : outcome string) (argv : list string) : outcome ShellConfig :=
  let argc := len argv in
  if argc <? 5 then usage_error
  else
    let* line := command_line argv in
    let* arg1 := argv_at argv 1 in
    let num_args := atoi arg1 in
    let* extra_cmd := extra_command num_args argv in
    let '(opts, optind, argv) := getopt argv in
    let* o := parse_options opts default_options in
    if argc <=? optind + 1 then usage_error
    else
      let* up_train := argv_at argv (optind + 1) in
      let* down_train := argv_at argv (optind + 2) in
      let* up_pdo := argv_at argv (optind + 3) in
      let* down_pdo := argv_at argv (optind + 4) in
      let* command := match extra_cmd with [] => let* s := shell_path in Ok [s] | _ => Ok extra_cmd end in
      Ok {| options := o; up_packet_train_trace := up_train; down_packet_train_trace := down_train;
            uplink_pdo_trace := up_pdo; downlink_pdo_trace := down_pdo; command := command; logged_command_line := line |}.

(** The packet queue of one direction, as [main] makes it. *)
Definition direction_queue (uplink : bool) (c : ShellConfig) : outcome AnyQueue :=
  let o := options c in
  if uplink then get_packet_queue (uplink_queue_type o) (uplink_queue_args o)
  else get_packet_queue (downlink_queue_type o) (downlink_queue_args o).

(** The cellular queue of one direction, from the arguments that [start_uplink]
    and [start_downlink] are given for it. *)
Definition construct_direction {W Q} {clock : Clock W} (uplink : bool) (c : ShellConfig) (q : Q)
    (files : string -> option string) (can_create : string -> bool) (euid egid : Z) (w : W) : outcome (CellularQueue Q * W) :=
  let o := options c in
  cellular_construct files can_create euid egid
    (if uplink then up_packet_train_trace c else down_packet_train_trace c)
    (if uplink then uplink_pdo_trace c else downlink_pdo_trace c)
    (packet_log_prefix o) (repeat_option o) q uplink (start_timestamp o)
    (if uplink then psize_offset_up o else psize_offset_down o)
    (if uplink then long_to_short_timer_up o else long_to_short_timer_down o) w.

(** * Lemmas *)

Lemma string_snoc_app w c s : (w +:+ String c "") +:+ s = w +:+ String c s.
Proof. rewrite string_app_assoc. by rewrite string_app_cons. Qed.

Lemma sh_words_quoted a : forall w k,
  sh_words true false (Some w) (quoted_chars a +:+ String quote_char k) = sh_words false false (Some (w +:+ a)) k.
Proof.
  induction a as [|c a IH]; intros w k.
  - by rewrite string_app_nil.
  - cbn [quoted_chars]. destruct (Ascii.eqb_spec c quote_char) as [->|Hc]; cbn [negb].
    + rewrite !string_app_cons. cbn [sh_words from_option id].
      change (quote_char =? quote_char)%char with true. change (backslash =? quote_char)%char with false.
      change (backslash =? backslash)%char with true. change (quote_char =? newline)%char with false.
      cbn [orb id]. by rewrite IH, string_snoc_app.
    + rewrite string_app_cons. apply Ascii.eqb_neq in Hc. cbn -[append quoted_chars quote_char]. rewrite Hc.
      cbn [orb id]. by rewrite IH, string_snoc_app.
Qed.

Lemma sh_words_word a k :
  sh_words false false None (shell_quote a +:+ k) = sh_words false false (Some a) k.
Proof.
  unfold shell_quote. rewrite string_app_assoc, !string_app_cons.
  cbn -[append quoted_chars quote_char]. apply sh_words_quoted.
Qed.

(** The tail of a command line: each word after a space. *)
Fixpoint quoted_tail (l : list string) : string :=
  match l with
  | [] => ""
  | a :: l => String space (shell_quote a +:+ quoted_tail l)
  end.

Lemma command_line_tail l : forall s,
  fold_left (fun s x => s +:+ " " +:+ shell_quote x) l s = s +:+ quoted_tail l.
Proof.
  induction l as [|a l IH]; intros s; [by rewrite string_app_nil|].
  cbn [fold_left quoted_tail]. rewrite IH, !string_app_assoc. done.
Qed.

Lemma sh_words_tail l : forall a, sh_words false false (Some a) (quoted_tail l) = Some (a :: l).
Proof.
  induction l as [|b l IH]; intros a; [done|].
  cbn -[append shell_quote]. by rewrite sh_words_word, IH.
Qed.

Lemma command_line_Ok argv s : command_line argv = Ok s -> sh_words false false None s = Some argv.
Proof.
  destruct argv as [|a l]; [done|]. cbn [command_line]. intros [= <-].
  by rewrite command_line_tail, sh_words_word, sh_words_tail.
Qed.

(** The queue parsed from [args] has the limits written there. *)
Definition parsed_limits (args : string) (q : DroppingPacketQueue) : Prop :=
  get_arg args "packets" = Ok (packet_limit_ q) /\ get_arg args "bytes" = Ok (byte_limit_ q) /\
  (packet_limit_ q <> 0 \/ byte_limit_ q <> 0) /\ internal_queue_ q = [] /\ dropping_wf q.

Lemma myatoi_caught s : if myatoi s is Err e then caught_as_exception e = true else True.
Proof.
  unfold myatoi, myatoi_base. destruct s as [|c s]; [done|].
  destruct (strtol _ _) as [[v []] rest]; [done|]. by destruct (negb _).
Qed.

Lemma get_arg_outcome args name :
  match get_arg args name with Ok v => 0 <= v < 2 ^ 32 | Err e => caught_as_exception e = true end.
Proof.
  unfold get_arg. destruct (String.index 0 name args) as [n|]; [|done].
  destruct (negb _); [done|]. destruct (String.eqb _ ""); [done|].
  set (d := leading_digits _). pose proof (myatoi_caught d). destruct (myatoi d); cbn [bind]; [|done]. apply u32_range.
Qed.

Lemma dropping_new_outcome args :
  match dropping_new args with Ok q => parsed_limits args q | Err e => caught_as_exception e = true end.
Proof.
  unfold dropping_new, parsed_limits. pose proof (get_arg_outcome args "packets") as Hp.
  destruct (get_arg args "packets") as [n|]; cbn [bind]; [|done].
  pose proof (get_arg_outcome args "bytes") as Hb.
  destruct (get_arg args "bytes") as [b|]; cbn [bind]; [|done].
  destruct (Z.eqb_spec n 0), (Z.eqb_spec b 0); try done; cbn [andb packet_limit_ byte_limit_ internal_queue_];
    (split; [done|]; split; [done|]; split; [auto|]; split; [done|]; split; [done|]; apply fits_nil; cbn; lia).
Qed.

Lemma argv_at_drop argv n k : 0 <= n ->
  argv_at argv (n + Z.of_nat k) =
    match drop (Z.to_nat n) argv !! k with Some s => Ok s | None => Err (UndefinedBehaviour "argv out of range") end.
Proof.
  intros Hn. unfold argv_at, znth. case_Zbool; [lia|]. by rewrite lookup_drop, Z2Nat.inj_add, Nat2Z.id by lia.
Qed.

Lemma extra_command_drop argv n : 0 <= n -> extra_command n argv = Ok (drop (Z.to_nat n) argv).
Proof.
  intros Hn. unfold extra_command. case_Zbool; [lia|done|]. rewrite drop_ge; [done|]. unfold len in *. lia.
Qed.

Lemma command_line_total argv : argv <> [] -> exists line, command_line argv = Ok line.
Proof. destruct argv; [done|]. by eexists. Qed.

(** * Theorems *)

(** C39: The command line written to the log files is quoted so that a POSIX
    shell reads back exactly the arguments the program was given, whatever
    characters they hold. *)
Theorem command_line_roundtrip (argv : list string) :
  argv <> [] -> exists line, command_line argv = Ok line /\ sh_words false false None line = Some argv.
Proof. intros H. destruct (command_line_total argv H) as [line E]. exists line. split; [done|]. by apply command_line_Ok. Qed.

Definition quoted_argv : list string := ["mm-cellular"; "it's"; ""; "a  b\"; "$HOME;'' #"].

Lemma command_line_roundtrip_witness :
  quoted_argv <> [] /\ exists line, command_line quoted_argv = Ok line /\ sh_words false false None line = Some quoted_argv.
Proof. split; [done|]. apply (command_line_roundtrip quoted_argv). done. Defined.

(** The queue named on the command line is built exactly when its type is
    one of the three documented ones and its arguments parse: an infinite queue
    takes none, a dropping queue has at least one nonzero limit and the limits
    written in them.  It starts empty and well formed.  Otherwise the program
    ends with an exception that [main] catches. *)
Theorem get_packet_queue_spec (type args : string) :
  match get_packet_queue type args with
  | Ok (AnyInfinite q) => type = "infinite" /\ args = "" /\ inf_internal_queue_ q = [] /\ infinite_wf q
  | Ok (AnyDropTail q) => type = "droptail" /\ parsed_limits args (tail_queue q)
  | Ok (AnyDropHead q) => type = "drophead" /\ parsed_limits args (head_queue q)
  | Err e => caught_as_exception e = true
  end.
Proof.
  unfold get_packet_queue, infinite_new, drop_tail_new, drop_head_new. pose proof (dropping_new_outcome args) as Hd.
  destruct (String.eqb_spec type "infinite") as [->|_].
  { by destruct (String.eqb_spec args "") as [->|_]. }
  destruct (String.eqb_spec type "droptail") as [->|_]; [by destruct (dropping_new args)|].
  destruct (String.eqb_spec type "drophead") as [->|_]; [by destruct (dropping_new args)|done].
Qed.

(** C38: What becomes of the arguments that [getopt_long] leaves: with one or
    none the usage is printed, with at least five the four traces are the second
    to the fifth, the options are those parsed, the command is what follows
    argument number NUM_ARGS (the user's shell when nothing does) and the line
    for the log reads back as the arguments; with two, three or four, though,
    the program goes on and reads its traces behind the end of [argv]. *)
Theorem command_line_outcome (getopt : list string -> list (ascii * string) * Z * list string)
    (argv argv' : list string) (opts : list (ascii * string)) (optind : Z) (o : Options) (arg1 sh : string) :
  5 <= len argv -> argv !! 1%nat = Some arg1 -> 0 <= atoi arg1 ->
  getopt argv = (opts, optind, argv') -> Permutation argv argv' -> 0 <= optind ->
  parse_options opts default_options = Ok o ->
  exists line, sh_words false false None line = Some argv /\
  parse_command_line getopt (Ok sh) argv =
    match drop (Z.to_nat optind) argv' with
    | [] | [_] => usage_error
    | _ :: up :: down :: up_pdo :: down_pdo :: _ =>
        Ok {| options := o; up_packet_train_trace := up; down_packet_train_trace := down;
              uplink_pdo_trace := up_pdo; downlink_pdo_trace := down_pdo;
              command := match drop (Z.to_nat (atoi arg1)) argv with [] => [sh] | l => l end;
              logged_command_line := line |}
    | _ => Err (UndefinedBehaviour "argv out of range")
    end.
Proof.
  intros Hlen H1 Hnum Hg Hperm Hopt Ho.
  destruct (command_line_total argv) as [line Hline]; [by intros ->|]. exists line. split; [by apply command_line_Ok|].
  assert (Harg : argv_at argv 1 = Ok arg1) by (unfold argv_at; by rewrite (proj2 (znth_Some argv 1 arg1))).
  unfold parse_command_line. cbv zeta. rewrite (proj2 (Z.ltb_ge (len argv) 5)), Hline by done. cbn [bind].
  rewrite Harg. cbn [bind]. rewrite extra_command_drop by done. cbn [bind]. rewrite Hg, Ho. cbn [bind].
  apply Permutation_length in Hperm. unfold len in *. pose proof (length_drop argv' (Z.to_nat optind)) as Hd.
  case_Zbool.
  - destruct (drop _ argv') as [|? [|]]; try done. cbn in Hd. lia.
  - pose proof (argv_at_drop argv' optind) as Hat.
    rewrite (Hat 1%nat Hopt : argv_at argv' (optind + 1) = _), (Hat 2%nat Hopt : argv_at argv' (optind + 2) = _),
      (Hat 3%nat Hopt : argv_at argv' (optind + 3) = _), (Hat 4%nat Hopt : argv_at argv' (optind + 4) = _).
    destruct (drop (Z.to_nat optind) argv') as [|? [|? [|? [|? [|? ?]]]]]; try done; [cbn in Hd; lia..|].
    by destruct (drop (Z.to_nat (atoi arg1)) argv).
Qed.

(** A run as the usage describes it: [getopt_long] has found [--once] and
    [--uplink-queue], and moved the other arguments behind them. *)
Definition sample_argv : list string :=
  ["mm-cellular"; "9"; "up.trace"; "down.trace"; "up.pdo"; "down.pdo"; "--once"; "--uplink-queue"; "droptail"; "ping"; "host"].
Definition sample_permuted : list string :=
  ["mm-cellular"; "--once"; "--uplink-queue"; "droptail"; "9"; "up.trace"; "down.trace"; "up.pdo"; "down.pdo"; "ping"; "host"].
Definition sample_getopt (_ : list string) : list (ascii * string) * Z * list string :=
  ([("o"%char, ""); ("q"%char, "droptail")], 4, sample_permuted).
Definition sample_options : Options := default_options <| repeat_option := false |> <| uplink_queue_type := "droptail" |>.

Example sample_command : (let* c := parse_command_line sample_getopt (Ok "/bin/sh") sample_argv in Ok (command c)) = Ok ["ping"; "host"].
Proof. reflexivity. Qed.

Lemma command_line_outcome_witness :
  exists line, sh_words false false None line = Some sample_argv /\
  parse_command_line sample_getopt (Ok "/bin/sh") sample_argv =
    Ok {| options := sample_options; up_packet_train_trace := "up.trace"; down_packet_train_trace := "down.trace";
          uplink_pdo_trace := "up.pdo"; downlink_pdo_trace := "down.pdo"; command := ["ping"; "host"];
          logged_command_line := line |}.
Proof.
  apply (command_line_outcome sample_getopt sample_argv sample_permuted [("o"%char, ""); ("q"%char, "droptail")] 4
           sample_options "9" "/bin/sh"); try reflexivity; try done.
  apply perm_skip, (Permutation_app_tail ["ping"; "host"]
    (Permutation_app_comm ["9"; "up.trace"; "down.trace"; "up.pdo"; "down.pdo"] ["--once"; "--uplink-queue"; "droptail"])).
Defined.
