(* ===== verification/Commands.v ===== *)
(** Commands that the program runs: [ezexec] and [run]
    (src/util/system_runner.cc), the address translation rules
    (src/util/nat.hh/.cc) and the name server (src/util/dns_server.cc).

    The other programs are named by the build's configuration, the class
    [BuildConfig].  [execve] is the class [ExecKernel]: when it succeeds the
    process is the other program's, and its end is all there is to say. *)
From Stdlib Require Import String Ascii.
From S2P Require Import Prelude Ezio Errors FileDescriptor SignalFD ChildProcess Privileges Address Socket Shell.

Class BuildConfig := { IPTABLES : string; DNSMASQ : string; IP : string }.

(** [environ], null or a list of definitions, with [getenv] and [setenv]. *)
Class EnvironKernel (OS : Type) := {
  environ_set : OS -> bool;
  set_environ : option (list string) -> OS -> OS;
  sys_getenv : string -> OS -> option string;
  sys_setenv : string -> string -> bool -> OS -> Z * OS;
}.

(** [sys_exec path_search file argv]: how the program that replaces this one
    ends, or the value that [execve] or [execvpe] returns. *)
Class ExecKernel (OS : Type) := sys_exec : bool -> string -> list string -> OS -> process_end + Z.

(** [this_thread::sleep_for], in milliseconds. *)
Class SleepKernel (OS : Type) := sys_sleep : Z -> OS -> OS.

(** The end of this process. *)
Definition ended (e : process_end) : fault :=
  match e with Exited status => ProcessExit status | KilledBy sig => ProcessKilled sig end.

(** A string as the system reads it, up to a null character. *)
Fixpoint c_string (s : string) : string :=
  match s with
  | EmptyString => EmptyString
  | String c s => if Ascii.eqb c Ascii.zero then EmptyString else String c (c_string s)
  end.

(** * Running a program *)

Section Commands.
Context {OS : Type} {cred : CredKernel OS} {env : EnvironKernel OS} {exec : ExecKernel OS} {procs : ProcessKernel OS}
  {sigs : SignalKernel OS}.

Definition ezexec (command : list string) (path_search : bool) (o : OS) : outcome Z :=
  match command with
  | [] => Err (Throw "ezexec: empty command")
  | program :: _ =>
      let root := (sys_geteuid o =? 0) || (sys_getegid o =? 0) in
      if root && environ_set o then Err (Throw "BUG: root's environment not cleared")
      else if root && path_search then Err (Throw "BUG: root should not search PATH")
      else
        match sys_exec path_search (c_string program) (map c_string command) o with
        | inl e => Err (ended e)
        | inr r => let* _ := SystemCall (c_string program) r in Err (Throw "execve: failed")
        end
  end.

(** A child process of this one: of the two sides of the clone, the child's
    ends with its procedure. *)
Definition fork (name : string) (child_procedure : OS -> outcome Z) (new_namespace : bool)
    (termination_signal : Z) (o : OS) : outcome (ChildProcess * OS) :=
  let* (c, o) := child_new name child_procedure new_namespace termination_signal o in
  match c with
  | inl c => Ok (c, o)
  | inr e => Err (ended e)
  end.

(** How a [fork] that throws leaves the system. *)
Definition fork_after (new_namespace : bool) (o : OS) : OS :=
  let '(r, st_nlink, o) := sys_stat_task o in
  if (i32 r <? 0) || negb (st_nlink =? 3) then o else (sys_clone new_namespace o).2.

(** [while ( !command_process.terminated() ) command_process.wait();], with the
    state that it ends or throws in. *)
Fixpoint wait_terminated (fuel : nat) (c : ChildProcess) (o : OS) : outcome unit * ChildProcess * OS :=
  match terminated c with
  | Err e => (Err e, c, o)
  | Ok true => (Ok tt, c, o)
  | Ok false =>
      match fuel with
      | O => (Err Diverges, c, o)
      | S fuel =>
          match wait false c o with
          | Err e => (Err e, c, wait_after false c o)
          | Ok (c, o) => wait_terminated fuel c o
          end
      end
  end.

(** [run] after its process has been made: its result, and the process as the
    destructor finds it. *)
Definition await (fuel : nat) (c : ChildProcess) (o : OS) : outcome unit * ChildProcess * OS :=
  let '(r, c, o) := wait_terminated fuel c o in
  (let* _ := r in
   let* status := exit_status c in
   if negb (status =? 0) then throw_exception c else Ok tt, c, o).

(** The result, with the state after the destructor of the process. *)
Definition run_in (fuel : nat) (command : list string) (o : OS) : outcome unit * OS :=
  match join command with
  | Err e => (Err e, o)
  | Ok name =>
      match fork name (ezexec command false) false SIGHUP o with
      | Err e => (Err e, fork_after false o)
      | Ok (c, o) =>
          let '(r, c, o) := await fuel c o in
          match child_destroy fuel c o with
          | Ok (_, o) => (r, o)
          | Err e => (Err e, o)
          end
      end
  end.

Definition run (fuel : nat) (command : list string) (o : OS) : outcome OS :=
  let (r, o) := run_in fuel command o in
  let* _ := r in
  Ok o.

(** [run] in a destructor: don't throw, but print the exception. *)
Definition run_caught (fuel : nat) (command : list string) (o : OS) : outcome OS :=
  let (r, o) := run_in fuel command o in
  match r with
  | Ok _ => Ok o
  | Err e => if caught_as_exception e then Ok o else Err e
  end.

(** * Address translation *)

Context {config : BuildConfig}.

Record NATRule := { arguments : list string }.

Definition nat_rule_new (fuel : nat) (s_args : list string) (o : OS) : outcome (NATRule * OS) :=
  let* o := run fuel ([IPTABLES; "-w"; "-t"; "nat"; "-A"] ++ s_args) o in
  Ok ({| arguments := s_args |}, o).

(** The destructor *)
Definition nat_rule_destroy (fuel : nat) (r : NATRule) (o : OS) : outcome OS :=
  run_caught fuel ([IPTABLES; "-w"; "-t"; "nat"; "-D"] ++ arguments r) o.

Record NAT := { pre_ : NATRule; post_ : NATRule }.

Context {names : NameFunctions}.

(** [process]: [getpid()]. *)
Definition nat_new (fuel : nat) (ingress_addr : Address) (process : Z) (o : OS) : outcome (NAT * OS) :=
  let* ingress := ip ingress_addr in
  let mark := print_int process in
  let* (pre, o) := nat_rule_new fuel ["PREROUTING"; "-s"; ingress; "-j"; "CONNMARK"; "--set-mark"; mark] o in
  let* (post, o) := nat_rule_new fuel ["POSTROUTING"; "-j"; "MASQUERADE"; "-m"; "connmark"; "--mark"; mark] o in
  Ok ({| pre_ := pre; post_ := post |}, o).

(** The members are destroyed from the last to the first. *)
Definition nat_destroy (fuel : nat) (n : NAT) (o : OS) : outcome OS :=
  let* o := nat_rule_destroy fuel (post_ n) o in
  nat_rule_destroy fuel (pre_ n) o.

Record DNAT := { rule_ : NATRule }.

Definition dnat_destroy (fuel : nat) (n : DNAT) (o : OS) : outcome OS := nat_rule_destroy fuel (rule_ n) o.

Definition dnat_new (fuel : nat) (listener : Address) (interface : string) (o : OS) : outcome (DNAT * OS) :=
  let* to := str listener ":" in
  let* (rule, o) := nat_rule_new fuel ["PREROUTING"; "-p"; "TCP"; "-i"; interface; "-j"; "DNAT"; "--to-destination"; to] o in
  Ok ({| rule_ := rule |}, o).

(** * The name server *)

Context {kernel : Kernel OS} {sockets : SocketKernel OS} {sleep : SleepKernel OS}.

Definition probe_payload : bytes := [Byte.x78].

(** [string( e.what() ).substr( 0, 6 ) == "write:"] *)
Definition is_write_error (e : fault) : bool := begins_with "write" e.

(** [server.write( "x" )]: the result and, if it is an exception, the state in
    which its one system call leaves the system. *)
Definition probe_write (server : FileDescriptor) (o : OS) : outcome unit * FileDescriptor * OS :=
  match write probe_payload true server o with
  | Ok (_, server, o) => (Ok tt, server, o)
  | Err e => (Err e, server, (sys_write (fd_ server) probe_payload o).2)
  end.

(** The body of the [try]: two datagrams, ten milliseconds apart. *)
Definition probe (server : FileDescriptor) (o : OS) : outcome unit * FileDescriptor * OS :=
  let '(r, server, o) := probe_write server o in
  match r with
  | Err e => (Err e, server, o)
  | Ok _ => probe_write server (sys_sleep 10 o)
  end.

Definition MAX_ATTEMPTS : Z := 20.

(** busy-wait for dnsmasq to start answering DNS queries *)
Fixpoint probe_loop (fuel : nat) (attempts : Z) (server : FileDescriptor) (o : OS) : outcome (FileDescriptor * OS) :=
  match fuel with
  | O => Err Diverges
  | S fuel =>
      let attempts := u32 (attempts + 1) in
      if MAX_ATTEMPTS <=? attempts
      then Err (Throw ("dnsmasq: did not start after " +:+ print_nonneg attempts +:+ " attempts"))
      else
        let '(r, server, o) := probe server o in
        match r with
        | Ok _ => Ok (server, o)
        | Err e =>
            if caught_as_exception e && is_write_error e then probe_loop fuel attempts server (sys_sleep 10 o)
            else Err e
        end
  end.

Definition dnsmasq_arguments (listen extra_arguments : list string) : list string :=
  [DNSMASQ; "--keep-in-foreground"; "--no-resolv"; "--no-hosts"; "-C"; "/dev/null"] ++ listen ++ extra_arguments.

Definition start_dnsmasq_with (args : list string) (o : OS) : outcome (ChildProcess * OS) :=
  let* (dnsmasq, o) := fork "dnsmasq" (ezexec args false) false SIGTERM o in
  let* (server, o) := udp_socket o in
  let* a := address_of_names "0" "domain" in
  let* o := socket_connect a server o in
  let* (server, o) := probe_loop (Z.to_nat MAX_ATTEMPTS) 0 server o in
  let o := fd_destroy server o in
  Ok (dnsmasq, o).

Definition start_dnsmasq (extra_arguments : list string) (o : OS) : outcome (ChildProcess * OS) :=
  start_dnsmasq_with (dnsmasq_arguments [] extra_arguments) o.

(** Start dnsmasq with nameserver ip and port *)
Definition start_dnsmasq_at (extra_arguments : list string) (nameserver_ip : string) (o : OS) : outcome (ChildProcess * OS) :=
  start_dnsmasq_with (dnsmasq_arguments ["--listen-address"; nameserver_ip] extra_arguments) o.
End Commands.

(** * Facts *)

(** A process that has been waited for is reported, whatever it went through. *)
Section Run.
Context {OS : Type} {kernel : ProcessKernel OS} {laws : ChildLaws OS}.

Lemma wait_terminated_ok fuel c (o : OS) : moved_away_ c = false -> child_inv c o -> (fate (pid_ c) o <= fuel)%nat ->
  exists c' o', wait_terminated (S fuel) c o = (Ok tt, c', o') /\ terminated_ c' = true /\ moved_away_ c' = false /\
    pid_ c' = pid_ c /\ child_inv c' o' /\ others (pid_ c) o o'.
Proof.
  revert c o. induction fuel as [fuel IH] using lt_wf_ind. intros c o Hm Hi Hf.
  cbn [wait_terminated]. unfold terminated, not_moved_away. rewrite Hm. cbn [negb].
  destruct (terminated_ c) eqn:Ht; [exists c, o; split_and!; try done; apply others_refl|].
  destruct (waitid_blocking (pid_ c) siginfo_zero o) as (si & o1 & E & Hr); [by apply Hi|].
  destruct (wait_reported false c o si o1 Hm Hi Ht E Hr) as (c1 & -> & _ & Hi1 & Ht1 & Hp1 & Hm1). cbn [bind].
  destruct Hr as (_ & Ho1 & Hr & _). destruct (dead si) eqn:Hd.
  - exists c1, o1. destruct fuel; cbn [wait_terminated]; unfold terminated, not_moved_away; by rewrite Hm1, Ht1.
  - destruct (Hr eq_refl) as [_ Hlt]. destruct fuel as [|fuel]; [lia|].
    destruct (IH fuel ltac:(lia) c1 o1 Hm1 Hi1 ltac:(rewrite Hp1; lia)) as (c2 & o2 & E2 & Ht2 & Hm2 & Hp2 & Hi2 & Ho2).
    exists c2, o2. rewrite Hp2, Hp1. split_and!; try done. rewrite Hp1 in Ho2. by eapply others_trans.
Qed.

Lemma fork_after_ok {sigs : SignalKernel OS} name f ns sig (o : OS) r : fork name f ns sig o = Ok r -> fork_after ns o = r.2.
Proof.
  unfold fork, child_new, do_clone, fork_after, SystemCall. destruct (sys_stat_task o) as [[ret st] o1].
  destruct (Z.leb_spec 0 (i32 ret)), (Z.ltb_spec (i32 ret) 0); cbn [bind orb]; try lia; try done.
  destruct (negb (st =? 3)); cbn [bind]; [done|]. destruct (sys_clone ns o1) as [pid o2].
  destruct (0 <=? i32 pid); cbn [bind]; [|done]. destruct (i32 pid =? 0); cbn [bind]; [done|]. by intros [= <-].
Qed.
End Run.

(** [run] comes to an end: either the command has succeeded, or an exception
    says that it failed or could not be started. *)
Theorem run_ends {OS : Type} `{CredKernel OS, EnvironKernel OS, ExecKernel OS, ChildLaws OS, SignalKernel OS} (fuel : nat)
    (command : list string) (o : OS)
    pid o1 : command <> [] -> do_clone false o = Ok (pid, o1) -> 0 < pid -> unreaped pid o1 -> signalable (OS := OS) pid -> (fate pid o1 <= fuel)%nat ->
  match run (S fuel) command o with
  | Ok _ => True
  | Err e => caught_as_exception e = true
  end.
Proof.
  intros Hc Hclone Hp Hu Hsig Hf. unfold run, run_in, fork, child_new. destruct command as [|program args]; [done|].
  cbn [join bind]. rewrite Hclone. cbn [bind]. destruct (Z.eqb_spec pid 0); [lia|]. cbn [bind].
  set (c := Build_ChildProcess _ pid _ _ _ _ _ _).
  assert (Hi : child_inv c o1) by (split; cbn; unfold SIGHUP; [lia|lia|done|done|done]).
  unfold await. destruct (wait_terminated_ok fuel c o1 eq_refl Hi Hf) as (c' & o' & -> & Ht & Hm & _). cbn [bind].
  unfold child_destroy. rewrite Hm. cbn [terminate_loop]. rewrite Ht.
  unfold throw_exception, exit_status, name, died_on_signal, if_terminated, not_moved_away. rewrite Hm, Ht.
  cbn [negb bind]. by destruct (negb (exit_status_ c' =? 0)).
Qed.

(** [start_dnsmasq] gives up by itself. *)
Section Probe.
Context {OS : Type} {kernel : Kernel OS} {sleep : SleepKernel OS}.

Lemma probe_write_ends server (o : OS) : (probe_write server o).1.1 <> Err Diverges.
Proof.
  unfold probe_write, write, probe_payload. cbn [length write_loop write_some].
  destruct (sys_write (fd_ server) [Byte.x78] o) as [n o1]. unfold SystemCall.
  destruct (Z.leb_spec 0 (i32 n)); cbn [bind]; [|done]. destruct (Z.eqb_spec (i32 n) 0); cbn [bind]; [done|].
  change (len [Byte.x78]) with 1. destruct (Z.ltb_spec 1 (i32 n)); cbn [bind]; [done|].
  destruct (Z.to_nat (i32 n)) eqn:E; [lia|]. cbn [drop]. by rewrite drop_nil.
Qed.

Lemma probe_ends server (o : OS) : (probe server o).1.1 <> Err Diverges.
Proof.
  unfold probe. pose proof (probe_write_ends server o) as H. destruct (probe_write server o) as [[[u|e] s1] o1]; [|exact H].
  apply probe_write_ends.
Qed.

Lemma probe_loop_ends fuel : forall attempts server (o : OS), 0 <= attempts < MAX_ATTEMPTS ->
  MAX_ATTEMPTS <= attempts + Z.of_nat fuel -> probe_loop fuel attempts server o <> Err Diverges.
Proof.
  unfold MAX_ATTEMPTS. induction fuel as [|fuel IH]; intros a s o Ha Hf; [lia|].
  cbn [probe_loop]. rewrite u32_small by lia. unfold MAX_ATTEMPTS. destruct (Z.leb_spec 20 (a + 1)); [done|].
  pose proof (probe_ends s o) as Hp. destruct (probe s o) as [[[u|e] s1] o1]; [done|]. cbn [fst] in Hp.
  destruct (caught_as_exception e && is_write_error e); [|congruence]. apply IH; lia.
Qed.
End Probe.
