(* ===== verification/NetDevice.v ===== *)
(** Network devices: src/util/netdevice.hh/.cc.

    An [ifreq] is the device's name in [IFNAMSIZ] bytes and the member of its
    union that was written; [ioctl] is the class [DeviceKernel]. *)
From Stdlib Require Import String Ascii.
From S2P Require Import Prelude Ezio FileDescriptor SignalFD ChildProcess Privileges Address Socket Commands.

Definition IFNAMSIZ : nat := 16.
Definition IFF_UP : Z := 1.
Definition IFF_TUN : Z := 1.
Definition TUNSETIFF : Z := 1074025674.
Definition SIOCADDRT : Z := 35083.
Definition SIOCSIFFLAGS : Z := 35092.
Definition SIOCSIFADDR : Z := 35094.
Definition SIOCSIFDSTADDR : Z := 35096.
Definition SIOCSIFNETMASK : Z := 35100.
Definition SIOCSIFMTU : Z := 35106.
Definition RTF_UP : Z := 1.
Definition RTF_GATEWAY : Z := 2.

(** * Requests *)

(** [ifr_addr], [ifr_dstaddr] and [ifr_netmask] are one member. *)
Inductive ifr_union := IfrZero | IfrFlags (flags : Z) | IfrMtu (mtu : Z) | IfrAddr (address : bytes).

Record ifreq := { ifr_name : list ascii; ifr_ifru : ifr_union }.

Record rtentry := { rt_dst : bytes; rt_gateway : bytes; rt_genmask : bytes; rt_flags : Z }.

Inductive ioctl_argument := IfReq (ifr : ifreq) | RtEntry (route : rtentry).

(** [sys_open_rw]: [open( path, O_RDWR )]. *)
Class DeviceKernel (OS : Type) := {
  sys_ioctl : Z -> Z -> ioctl_argument -> OS -> Z * OS;
  sys_open_rw : string -> OS -> Z * OS;
}.

(** [strncpy( dest, src, n )]: [n] characters, those of the string and then
    null characters; no null character at the end of a long string. *)
Definition strncpy (n : nat) (src : string) : list ascii :=
  let s := take n (list_ascii_of_string (c_string src)) in
  s ++ repeat Ascii.zero (n - length s).

(** [Address::to_sockaddr]: the [sockaddr] at the beginning of the object. *)
Definition as_sockaddr (a : Address) : bytes := take 16 (addr_ a).

Section Operations.
Context {OS : Type} {kernel : Kernel OS} {sockets : SocketKernel OS} {devices : DeviceKernel OS}.

(** [interface_ioctl] of a descriptor. *)
Definition fd_interface_ioctl (fd : FileDescriptor) (request : Z) (name : string)
    (ifr_adjustment : ifreq -> outcome ifreq) (o : OS) : outcome OS :=
  (* interface name *)
  let* ifr := ifr_adjustment {| ifr_name := strncpy IFNAMSIZ name; ifr_ifru := IfrZero |} in
  let (r, o) := sys_ioctl (fd_ fd) request (IfReq ifr) o in
  let* _ := SystemCall ("ioctl " +:+ name) r in
  Ok o.

(** [interface_ioctl] with a temporary socket. *)
Definition interface_ioctl (request : Z) (name : string) (ifr_adjustment : ifreq -> outcome ifreq) (o : OS) : outcome OS :=
  let* (temp, o) := udp_socket o in
  let* o := fd_interface_ioctl temp request name ifr_adjustment o in
  Ok (fd_destroy temp o).

Definition set_ifru (u : ifr_union) (ifr : ifreq) : outcome ifreq := Ok {| ifr_name := ifr_name ifr; ifr_ifru := u |}.

Context {names : NameFunctions}.

Definition assign_address (device_name : string) (addr peer : Address) (o : OS) : outcome OS :=
  (* assign address *)
  let* o := interface_ioctl SIOCSIFADDR device_name (set_ifru (IfrAddr (as_sockaddr addr))) o in
  (* destination *)
  let* o := interface_ioctl SIOCSIFDSTADDR device_name (set_ifru (IfrAddr (as_sockaddr peer))) o in
  (* netmask *)
  let* o := interface_ioctl SIOCSIFNETMASK device_name
              (fun ifr => let* a := address_of_numbers "255.255.255.255" 0 in set_ifru (IfrAddr (as_sockaddr a)) ifr) o in
  (* bring interface up *)
  interface_ioctl SIOCSIFFLAGS device_name (set_ifru (IfrFlags IFF_UP)) o.

(** The constructor of [TunDevice]. *)
Definition tun_device_new (name : string) (addr peer : Address) (o : OS) : outcome (FileDescriptor * OS) :=
  let (r, o) := sys_open_rw "/dev/net/tun" o in
  let* fd := SystemCall "open /dev/net/tun" r in
  let* (f, o) := fd_new fd o in
  let* o := fd_interface_ioctl f TUNSETIFF name (set_ifru (IfrFlags IFF_TUN)) o in
  let* o := assign_address name addr peer o in
  Ok (f, o).

(** * Pairs of virtual devices *)

Record VirtualEthernetPair := { pair_name_ : string; kernel_will_destroy_ : bool }.

Definition name_check (str : string) : outcome unit :=
  if String.prefix "veth-" str then Ok tt
  else Err (Throw (str +:+ ": name of veth device must start with " +:+ quote_mark +:+ "veth-" +:+ quote_mark)).

Context {cred : CredKernel OS} {env : EnvironKernel OS} {exec : ExecKernel OS} {procs : ProcessKernel OS} {sigs : SignalKernel OS} {config : BuildConfig}.

Definition veth_new (fuel : nat) (outside_name inside_name : string) (o : OS) : outcome (VirtualEthernetPair * OS) :=
  (* make pair of veth devices *)
  let* _ := name_check outside_name in
  let* _ := name_check inside_name in
  let* o := run fuel [IP; "link"; "add"; outside_name; "type"; "veth"; "peer"; "name"; inside_name] o in
  Ok ({| pair_name_ := outside_name; kernel_will_destroy_ := false |}, o).

Definition set_kernel_will_destroy (p : VirtualEthernetPair) : VirtualEthernetPair :=
  {| pair_name_ := pair_name_ p; kernel_will_destroy_ := true |}.

(** The destructor: deleting one is sufficient to delete both. *)
Definition veth_destroy (fuel : nat) (p : VirtualEthernetPair) (o : OS) : outcome OS :=
  if kernel_will_destroy_ p then Ok o else run_caught fuel [IP; "link"; "del"; pair_name_ p] o.
End Operations.

(** * Names of devices *)

(** The name that the system takes from an [ifreq]: it puts a null character at
    its end. *)
Definition kernel_name (name : list ascii) : string := c_string (string_of_list_ascii (take (IFNAMSIZ - 1) name)).

Fixpoint has_null (s : string) : bool :=
  match s with EmptyString => false | String c s => Ascii.eqb c Ascii.zero || has_null s end.

Lemma c_string_id s : has_null s = false -> c_string s = s.
Proof.
  induction s as [|c s IH]; [done|]. cbn. destruct (Ascii.eqb c Ascii.zero); [done|]. cbn [orb]. intros H. by rewrite IH.
Qed.

Lemma c_string_pad s l : has_null s = false -> Forall (eq Ascii.zero) l ->
  c_string (string_of_list_ascii (list_ascii_of_string s ++ l)) = s.
Proof.
  intros H Hl. induction s as [|c s IH]; cbn in *; [by destruct Hl as [|c l <- _]|].
  destruct (Ascii.eqb c Ascii.zero); [done|]. by rewrite IH.
Qed.

Lemma length_list_ascii s : length (list_ascii_of_string s) = String.length s.
Proof. induction s as [|c s IH]; [done|]. cbn. by rewrite IH. Qed.

(** A name of less than [IFNAMSIZ] characters reaches the system whole. *)
Lemma kernel_name_short s : has_null s = false -> (String.length s < IFNAMSIZ)%nat -> kernel_name (strncpy IFNAMSIZ s) = s.
Proof.
  unfold kernel_name, strncpy, IFNAMSIZ. intros Hn Hl. rewrite (c_string_id s) by done.
  pose proof (length_list_ascii s). rewrite (take_ge (list_ascii_of_string s)) by lia. rewrite take_app_ge by lia.
  apply c_string_pad; [done|]. apply Forall_take, Forall_forall. intros x Hx%list_elem_of_In%repeat_spec. congruence.
Qed.
