(* ===== verification/SocketPair.v ===== *)
(** Descriptors passed between processes: src/util/socketpair.hh/.cc.

    A descriptor travels in a control message, a [cmsghdr] and its data, whose
    bytes [send_fd] writes and [recv_fd] checks.  [socketpair], [sendmsg] and
    [recvmsg] are the class [PairKernel]; [PairLaws] says what the system does
    with a message that holds a descriptor (unix(7)). *)
From S2P Require Import Prelude Ezio PacketHeader FileDescriptor Address Interfaces Socket.

Definition SCM_RIGHTS : Z := 1.
Definition MSG_CTRUNC : Z := 8.

(** [CMSG_LEN( sizeof( int ) )] and [CMSG_SPACE( sizeof( int ) )]: a header of 16
    bytes, the data, and the padding to 8 bytes. *)
Definition CMSGHDR_SIZE : Z := 16.
Definition CMSG_LEN : Z := 20.
Definition CMSG_SPACE : Z := 24.

(** [sys_sendmsg fd control] and [sys_recvmsg fd controllen], of a message
    without data: the return value and, of a message received, its flags and the
    control bytes. *)
Class PairKernel (OS : Type) := {
  sys_socketpair : OS -> Z * (Z * Z) * OS;
  sys_sendmsg : Z -> bytes -> OS -> Z * OS;
  sys_recvmsg : Z -> Z -> OS -> Z * Z * bytes * OS;
}.

(** * Control messages *)

(** The members of a [cmsghdr] and an [int] after it, in memory. *)
Definition control_bytes (cmsg_len cmsg_level cmsg_type data : Z) : bytes :=
  little_endian32 cmsg_len ++ repeat Byte.x00 4 ++ little_endian32 cmsg_level ++ little_endian32 cmsg_type ++
  little_endian32 data.

Definition member (b : bytes) (offset : nat) : Z := int_value (take 4 (drop offset b)).

Definition cmsg_level (b : bytes) : Z := member b 8.
Definition cmsg_type (b : bytes) : Z := member b 12.
Definition cmsg_data (b : bytes) : Z := member b 16.

(** [cmsg_len] is a [size_t]. *)
Definition cmsg_len (b : bytes) : Z := foldr (fun x v => byte_value x + 256 * v) 0 (take 8 b).

(** [CMSG_FIRSTHDR]: null when the control bytes hold no header. *)
Definition first_header (control : bytes) : bool := CMSGHDR_SIZE <=? len control.

(** * Operations *)

Section Operations.
Context {OS : Type} {kernel : Kernel OS} {pairs : PairKernel OS}.

Definition make_pair (o : OS) : outcome (FileDescriptor * FileDescriptor * OS) :=
  let '(r, (a, b), o) := sys_socketpair o in
  let* _ := SystemCall "socketpair" r in
  let* (x, o) := fd_new a o in
  let* (y, o) := fd_new b o in
  Ok (x, y, o).

Definition send_fd (fd : FileDescriptor) (s : FileDescriptor) (o : OS) : outcome (FileDescriptor * OS) :=
  let (r, o) := sys_sendmsg (fd_ s) (control_bytes CMSG_LEN SOL_SOCKET SCM_RIGHTS (fd_ fd)) o in
  let* n := SystemCall "sendmsg" r in
  if negb (n =? 0) then Err (Throw "send_fd: sendmsg unexpectedly sent data") else Ok (register_write s, o).

(** The descriptor, the socket and the system. *)
Definition recv_fd (s : FileDescriptor) (o : OS) : outcome (FileDescriptor * FileDescriptor * OS) :=
  let '(r, flags, control, o) := sys_recvmsg (fd_ s) CMSG_SPACE o in
  let* n := SystemCall "recvmsg" r in
  if negb (n =? 0) then Err (Throw "recv_fd: recvmsg unexpectedly received data")
  else if negb (Z.land flags MSG_CTRUNC =? 0) then Err (Throw "recvmsg: control data was truncated")
  else if negb (first_header control) || negb (cmsg_level control =? SOL_SOCKET) || negb (cmsg_type control =? SCM_RIGHTS)
  then Err (Throw "recvmsg: unexpected control message")
  else if negb (cmsg_len control =? CMSG_LEN) then Err (Throw "recvmsg: unexpected control message length")
  else
    let s := register_read s in
    let* (f, o) := fd_new (cmsg_data control) o in
    Ok (f, s, o).
End Operations.

(** * Facts *)

Lemma byte_value_mod n : byte_value (byte_of n) = n mod 2 ^ 8.
Proof.
  rewrite <- (byte_value_of (n mod 2 ^ 8)) by (apply Z.mod_pos_bound; lia). unfold byte_of. by rewrite Zmod_mod.
Qed.

Lemma int_value_le32 z : - 2 ^ 31 <= z < 2 ^ 31 -> int_value (little_endian32 z) = z.
Proof.
  intros H. unfold int_value, little_endian32. cbn [foldr]. rewrite !byte_value_mod.
  rewrite <- (i32_small z) at 5 by done. unfold i32. f_equal.
  rewrite <- (Zplus_mod_idemp_l _ (2 ^ 31)), <- (Zplus_mod_idemp_l z). do 2 f_equal.
  assert (E1 : z / 2 ^ 16 = z / 2 ^ 8 / 2 ^ 8) by (rewrite Z.div_div by lia; done).
  assert (E2 : z / 2 ^ 24 = z / 2 ^ 8 / 2 ^ 8 / 2 ^ 8) by (rewrite !Z.div_div by lia; done).
  rewrite E1, E2. set (a := z / 2 ^ 8). set (b := a / 2 ^ 8). set (c := b / 2 ^ 8).
  pose proof (Z.div_mod z (2 ^ 8) ltac:(lia)). pose proof (Z.div_mod a (2 ^ 8) ltac:(lia)).
  pose proof (Z.div_mod b (2 ^ 8) ltac:(lia)). pose proof (Z.div_mod c (2 ^ 8) ltac:(lia)).
  fold a in H0. fold b in H1. fold c in H2. pose proof (Z.mod_pos_bound z (2 ^ 8)). pose proof (Z.mod_pos_bound a (2 ^ 8)).
  pose proof (Z.mod_pos_bound b (2 ^ 8)). pose proof (Z.mod_pos_bound c (2 ^ 8)).
  rewrite Z.mod_small by lia. apply Z.mod_unique with (c / 2 ^ 8); lia.
Qed.

(** What [recv_fd] reads of a message that [send_fd] has written. *)
Record rights_message (fd : Z) (control : bytes) : Prop := {
  rights_header : first_header control = true;
  rights_len : cmsg_len control = CMSG_LEN;
  rights_level : cmsg_level control = SOL_SOCKET;
  rights_type : cmsg_type control = SCM_RIGHTS;
  rights_data : cmsg_data control = fd;
}.

Lemma control_bytes_rights fd : - 2 ^ 31 <= fd < 2 ^ 31 -> rights_message fd (control_bytes CMSG_LEN SOL_SOCKET SCM_RIGHTS fd).
Proof.
  intros Hf. split; try reflexivity. by apply int_value_le32.
Qed.

(** [file_of fd o] is the open file of a descriptor of the process, [in_transit
    fd o] the files sent to a socket and not yet received, [peer] the other end
    of a pair.  A message that holds a descriptor puts its file into transit; a
    message received has a new descriptor for the file. *)
Class PairLaws (OS File : Type) `{PairKernel OS, Kernel OS} := {
  file_of : Z -> OS -> option File;
  in_transit : Z -> OS -> list File;
  peer : Z -> OS -> option Z;
  sendmsg_rights s r fd file control o : peer s o = Some r -> file_of fd o = Some file -> rights_message fd control ->
    exists o', sys_sendmsg s control o = (0, o') /\ in_transit r o' = in_transit r o ++ [file];
  recvmsg_rights s file rest o : in_transit s o = file :: rest ->
    exists fd control o', sys_recvmsg s CMSG_SPACE o = (0, 0, control, o') /\ rights_message fd control /\
      2 < fd < 2 ^ 31 /\ file_of fd o' = Some file /\ in_transit s o' = rest;
  cloexec_rights fd o : file_of fd o <> None -> exists o', sys_set_cloexec fd o = (0, o') /\
    (forall fd', file_of fd' o' = file_of fd' o) /\ (forall s, in_transit s o' = in_transit s o);
}.

Section Facts.
Context {OS File : Type} {kernel : Kernel OS} {pairs : PairKernel OS} {laws : PairLaws OS File}.

Lemma send_fd_ok (fd s : FileDescriptor) (o : OS) r (file : File) : - 2 ^ 31 <= fd_ fd < 2 ^ 31 ->
  peer (fd_ s) o = Some r -> file_of (fd_ fd) o = Some file ->
  exists o', send_fd fd s o = Ok (register_write s, o') /\ in_transit r o' = in_transit (File := File) r o ++ [file].
Proof.
  intros Hf Hp Hfile. unfold send_fd.
  destruct (sendmsg_rights _ _ _ _ _ o Hp Hfile (control_bytes_rights _ Hf)) as (o' & -> & Hin).
  rewrite SystemCall_Ok by lia. by exists o'.
Qed.

Lemma recv_fd_ok (s : FileDescriptor) (o : OS) (file : File) rest : in_transit (fd_ s) o = file :: rest ->
  exists f o', recv_fd s o = Ok (f, register_read s, o') /\ file_of (fd_ f) o' = Some file /\
    in_transit (fd_ s) o' = rest.
Proof.
  intros Hin. unfold recv_fd. destruct (recvmsg_rights _ _ _ _ Hin) as (fd & control & o1 & -> & [Hh Hl Hv Ht Hd] & Hfd & Hfile & Hrest).
  rewrite SystemCall_Ok by lia. cbn [bind]. change (Z.land 0 MSG_CTRUNC) with 0. rewrite Hh, Hl, Hv, Ht, Hd, !Z.eqb_refl.
  cbn [negb orb]. unfold fd_new, check_and_set_cloexec. cbn [fd_]. case_Zbool; [lia|].
  destruct (cloexec_rights fd o1) as (o' & -> & Hsame & Htr); [by rewrite Hfile|]. rewrite SystemCall_Ok by lia. cbn [bind].
  eexists _, o'. split; [done|]. cbn [fd_]. rewrite Hsame, Htr. done.
Qed.

(** The descriptor that one process sends into an idle pair is, for the process
    that receives it, a descriptor of the same file. *)
Theorem descriptor_passed (fd s r : FileDescriptor) (o : OS) (file : File) : - 2 ^ 31 <= fd_ fd < 2 ^ 31 ->
  peer (fd_ s) o = Some (fd_ r) -> file_of (fd_ fd) o = Some file -> in_transit (File := File) (fd_ r) o = [] ->
  exists o1 f o2, send_fd fd s o = Ok (register_write s, o1) /\ recv_fd r o1 = Ok (f, register_read r, o2) /\
    file_of (fd_ f) o2 = Some file /\ in_transit (File := File) (fd_ r) o2 = [].
Proof.
  intros Hf Hp Hfile Hin. destruct (send_fd_ok fd s o _ file Hf Hp Hfile) as (o1 & Hs & Hin1). rewrite Hin in Hin1.
  destruct (recv_fd_ok r o1 file [] Hin1) as (f & o2 & Hr & Hf2 & Hin2). by exists o1, f, o2.
Qed.
End Facts.

(** * A pair of sockets

    Descriptors 5 and 6 are the two ends; a file is a number. *)

Module Pair.
Record Box := { files : list (Z * nat); queues : Z -> list nat }.

Definition file_at (fd : Z) (o : Box) : option nat := snd <$> List.find (fun x => fst x =? fd) (files o).
Definition other_end (fd : Z) : option Z := if fd =? 5 then Some 6 else if fd =? 6 then Some 5 else None.
Definition set_queue (fd : Z) (l : list nat) (o : Box) : Box :=
  {| files := files o; queues := fun x => if x =? fd then l else queues o x |}.
Definition fresh (o : Box) : Z := 100.

#[export] Instance pair_kernel : PairKernel Box := {
  sys_socketpair o := (0, (5, 6), o);
  sys_sendmsg s control o :=
    match other_end s, file_at (cmsg_data control) o with
    | Some r, Some file => (0, set_queue r (queues o r ++ [file]) o)
    | _, _ => (-1, o)
    end;
  sys_recvmsg s controllen o :=
    match queues o s with
    | file :: rest =>
        (0, 0, control_bytes CMSG_LEN SOL_SOCKET SCM_RIGHTS (fresh o),
         set_queue s rest {| files := (fresh o, file) :: files o; queues := queues o |})
    | [] => (-1, 0, [], o)
    end;
}.

#[export] Instance box_kernel : Kernel Box := {
  sys_read _ _ o := (None, o);
  sys_write _ _ o := (-1, o);
  sys_set_cloexec _ o := (0, o);
  sys_close _ o := (0, o);
}.

#[export] Program Instance pair_laws : PairLaws Box nat := {
  file_of := file_at;
  in_transit fd o := queues o fd;
  peer fd _ := other_end fd;
}.
Next Obligation.
  intros s r fd file control o Hp Hfile [_ _ _ _ Hd]. cbn. rewrite Hp, Hd, Hfile. eexists. split; [done|].
  cbn. by rewrite Z.eqb_refl.
Qed.
Next Obligation.
  intros s file rest o Hin. cbn in *. rewrite Hin. eexists (fresh o), _, _. split; [done|].
  split; [by apply control_bytes_rights|]. split; [done|]. split; [done|]. cbn. by rewrite Z.eqb_refl.
Qed.
Next Obligation. intros fd o _. exists o. auto. Qed.

Definition descriptor (n : Z) : FileDescriptor := {| fd_ := n; eof_ := false; read_count_ := 0; write_count_ := 0 |}.

(** The tunnel device, descriptor 7, sent from one end to the other. *)
Definition start : Box := {| files := [(7, 42%nat)]; queues := fun _ => [] |}.

Lemma descriptor_passed_witness :
  exists o1 f o2, send_fd (descriptor 7) (descriptor 5) start = Ok (register_write (descriptor 5), o1) /\
    recv_fd (descriptor 6) o1 = Ok (f, register_read (descriptor 6), o2) /\
    file_at (fd_ f) o2 = Some 42%nat /\ queues o2 6 = [].
Proof. apply (descriptor_passed (laws := pair_laws) (descriptor 7) (descriptor 5) (descriptor 6) start 42%nat); done. Defined.
End Pair.
