(* ===== verification/TempFile.v ===== *)
(** Temporary files: src/util/temp_file.hh/.cc.

    [mkstemp] and [unlink] are the class [TempKernel]; [mkstemp] writes the name
    of the file it has created into the array it is given. *)
From Stdlib Require Import String Ascii.
From S2P Require Import Prelude FileDescriptor Commands.

Class TempKernel (OS : Type) := {
  sys_mkstemp : list ascii -> OS -> Z * list ascii * OS;
  sys_unlink : string -> OS -> Z * OS;
}.

(** [to_mutable]: the characters, null-terminated. *)
Definition to_mutable (str : string) : list ascii := list_ascii_of_string str ++ [Ascii.zero].

Record UniqueFile := {
  mutable_temp_filename_ : list ascii;
  file_fd_ : FileDescriptor;
  file_moved_away_ : bool;
}.

#[export] Instance eta_UniqueFile : Eta UniqueFile := fun f =>
  {| mutable_temp_filename_ := mutable_temp_filename_ f; file_fd_ := file_fd_ f; file_moved_away_ := file_moved_away_ f |}.

Definition file_name (f : UniqueFile) : outcome string :=
  guard* (1 <? len (mutable_temp_filename_ f)) else AssertFail "mutable_temp_filename_.size() > 1" in
  Ok (string_of_list_ascii (take (length (mutable_temp_filename_ f) - 1) (mutable_temp_filename_ f))).

(** The move constructor: the new object and the one it was moved from. *)
Definition unique_file_move (other : UniqueFile) : UniqueFile * UniqueFile :=
  let (fd, left) := fd_move (file_fd_ other) in
  ({| mutable_temp_filename_ := mutable_temp_filename_ other; file_fd_ := fd; file_moved_away_ := false |},
   other <| file_fd_ := left |> <| file_moved_away_ := true |>).

Section Operations.
Context {OS : Type} {kernel : Kernel OS} {temps : TempKernel OS}.

Definition unique_file_new (filename_template : string) (o : OS) : outcome (UniqueFile * OS) :=
  let '(r, name, o) := sys_mkstemp (to_mutable (filename_template +:+ ".XXXXXX")) o in
  let* n := SystemCall "mkstemp" r in
  let* (fd, o) := fd_new n o in
  Ok ({| mutable_temp_filename_ := name; file_fd_ := fd; file_moved_away_ := false |}, o).

Definition unique_file_write (contents : bytes) (f : UniqueFile) (o : OS) : outcome (UniqueFile * OS) :=
  guard* negb (file_moved_away_ f) else AssertFail "not moved_away_" in
  let* (_, fd, o) := write contents true (file_fd_ f) o in
  Ok (f <| file_fd_ := fd |>, o).

(** The destructor of [UniqueFile] closes the file. *)
Definition unique_file_destroy (f : UniqueFile) (o : OS) : OS := fd_destroy (file_fd_ f) o.

(** The destructor of [TempFile] removes it first; a failure of [unlink] is
    printed. *)
Definition temp_file_destroy (f : UniqueFile) (o : OS) : outcome OS :=
  if file_moved_away_ f then Ok (unique_file_destroy f o)
  else
    let* name := file_name f in
    let o := snd (sys_unlink (c_string name) o) in
    Ok (unique_file_destroy f o).
End Operations.

(** A temporary file that was moved is removed and closed once, by the object it
    was moved to. *)
Theorem moved_file_removed_once {OS : Type} {kernel : Kernel OS} {temps : TempKernel OS} (f : UniqueFile) (o : OS) :
  file_moved_away_ f = false ->
  let (moved, left) := unique_file_move f in
  temp_file_destroy left o = Ok o /\ temp_file_destroy moved o = temp_file_destroy f o.
Proof.
  intros Hf. destruct f as [name [fd eof rc wc] away]. cbn in Hf. subst away. split; [done|]. reflexivity.
Qed.
