(* ===== verification/Util.v ===== *)
(** The user and the machine: the rest of src/util/util.hh/.cc.

    The name service, the resolver and directories are the classes
    [PasswdKernel], [ResolverKernel] and [DirectoryKernel]. *)
From Stdlib Require Import String Ascii.
From S2P Require Import Prelude PacketHeader FileDescriptor ChildProcess Privileges Address Shell Commands.

(** [getpwuid( uid )->pw_shell], [None] when there is no such user. *)
Class PasswdKernel (OS : Type) := sys_pw_shell : Z -> OS -> option string.

(** [res_init()] and [_res.nsaddr_list], each a [sockaddr_in]. *)
Class ResolverKernel (OS : Type) := {
  sys_res_init : OS -> Z * OS;
  nsaddr_list : OS -> list bytes;
}.

(** [sys_opendir]: the names that [readdir] gives, or a null pointer. *)
Class DirectoryKernel (OS : Type) := {
  sys_mkdir : string -> Z -> OS -> Z * OS;
  sys_opendir : string -> OS -> option (list string) * OS;
  sys_closedir : string -> OS -> Z * OS;
  sys_getcwd : OS -> option string * OS;
}.

(** [MAXNS] of <resolv.h> and [_PATH_BSHELL] of <paths.h>. *)
Definition MAXNS : nat := 3.
Definition PATH_BSHELL : string := "/bin/sh".

Section Operations.
Context {OS : Type} {cred : CredKernel OS} {env : EnvironKernel OS}.

(** Get the user's shell *)
Definition shell_path {passwd : PasswdKernel OS} (o : OS) : outcome string :=
  match sys_pw_shell (sys_getuid o) o with
  | None => Err (UnixError "getpwuid")
  | Some s => Ok (if String.eqb s "" then PATH_BSHELL (* empty shell means Bourne shell *) else s)
  end.

Section Nameservers.
Context {resolver : ResolverKernel OS}.

(** find the first nameserver *)
Definition first_nameserver (o : OS) : outcome (Address * OS) :=
  let (r, o) := sys_res_init o in
  let* _ := SystemCall "res_init" r in
  match nsaddr_list o with
  | [] => Err (UndefinedBehaviour "no nsaddr_list")
  | a :: _ => let* a := address_of_sockaddr_in a in Ok (a, o)
  end.

(** [sin_port] is not 0. *)
Definition has_port (a : bytes) : bool := negb (forallb (fun b => byte_value b =? 0) (take 2 (drop 2 a))).

(** iterate through the nameservers *)
Fixpoint collect_nameservers (l : list bytes) (nameservers : list Address) : outcome (list Address) :=
  match l with
  | [] => Ok nameservers
  | a :: l =>
      if has_port a then let* a := address_of_sockaddr_in a in collect_nameservers l (nameservers ++ [a])
      else collect_nameservers l nameservers
  end.

Definition all_nameservers (o : OS) : outcome (list Address * OS) :=
  let (r, o) := sys_res_init o in
  let* _ := SystemCall "res_init" r in
  let* l := collect_nameservers (take MAXNS (nsaddr_list o)) [] in
  Ok (l, o).
End Nameservers.

(** tag bash-like shells with the delay parameter *)
Definition prepend_shell_prefix (str : string) (o : OS) : outcome OS :=
  let mahimahi_prefix := default "" (sys_getenv "MAHIMAHI_SHELL_PREFIX" o) +:+ str in
  let (r, o) := sys_setenv "MAHIMAHI_SHELL_PREFIX" (c_string mahimahi_prefix) true o in
  let* _ := SystemCall "setenv" r in
  let (r, o) := sys_setenv "PROMPT_COMMAND"
    ("PS1=" +:+ quote_mark +:+ "$MAHIMAHI_SHELL_PREFIX$PS1" +:+ quote_mark +:+ " PROMPT_COMMAND=") true o in
  let* _ := SystemCall "setenv" r in
  Ok o.

Section Directories.
Context {directories : DirectoryKernel OS}.

Definition last_char (s : string) : option ascii := last (list_ascii_of_string s).

Definition make_directory (directory : string) (o : OS) : outcome OS :=
  let* _ := assert_not_root o in
  guard* negb (String.eqb directory "") else AssertFail "not directory.empty()" in
  guard* bool_decide (last_char directory = Some "/"%char) else AssertFail "directory.back() == '/'" in
  let (r, o) := sys_mkdir (c_string directory) 448 (* 00700 *) o in
  let* _ := SystemCall ("mkdir " +:+ directory) r in
  Ok o.

Definition list_directory_contents (dir : string) (o : OS) : outcome (list string * OS) :=
  let* _ := assert_not_root o in
  let (d, o) := sys_opendir (c_string dir) o in
  match d with
  | None => Err (UnixError ("opendir (" +:+ dir +:+ ")"))
  | Some entries =>
      let ret := map (fun d_name => dir +:+ d_name)
        (filter (fun d_name => negb (String.eqb d_name ".") && negb (String.eqb d_name "..")) entries) in
      let (r, o) := sys_closedir (c_string dir) o in
      let* _ := in_destructor (SystemCall "closedir" r) in
      Ok (ret, o)
  end.

Definition get_working_directory (o : OS) : outcome (string * OS) :=
  let (cwd, o) := sys_getcwd o in
  match cwd with
  | None => Err (UnixError "getcwd")
  | Some s => Ok (s, o)
  end.
End Directories.
End Operations.
