(* ===== verification/BindWorkAround.v ===== *)
(** The arguments of a constructor, held for later:
    src/packet/bindworkaround.hh.

    [bind<Object, Targs...>] holds references to the arguments; a call moves them
    all to the constructor of [Object], in the order of a list of indices that
    the compiler computes. *)
From S2P Require Import Prelude.

(** [ints_0_to_N<First, Rest...>::type], the indices of the base case that the
    recursion ends in. *)
Fixpoint ints_0_to_N (First : nat) (Rest : list nat) : list nat :=
  match First with
  | O => O :: Rest
  | S First' => ints_0_to_N First' (First :: Rest)
  end.

Section Bind.
(** [A] has the values of the arguments, whatever their types, and [Object] is the
    constructor: it is given references, so its result has, with the object,
    what it leaves of the arguments (a [unique_ptr] that it moves from is null, a
    string that it copies is the same). *)
Context {A O : Type} (Object : list A -> outcome (O * list A)).

(** What the references of the tuple refer to. *)
Record binding := { bound_arguments_ : list A }.

(** [std::get<S>( bound_arguments_ )...]; an index that the tuple does not have
    does not compile. *)
Definition get_all (indices : list nat) (args : list A) : option (list A) := mapM (fun i => args !! i) indices.

(** The variables behind the references, after a call that has left [kept] of
    them. *)
Fixpoint put_all (indices : list nat) (kept args : list A) : list A :=
  match indices, kept with
  | i :: indices, a :: kept => put_all indices kept (<[i := a]> args)
  | _, _ => args
  end.

Definition construct (indices : list nat) (b : binding) : option (outcome (O * binding)) :=
  args ← get_all indices (bound_arguments_ b);
  Some (let* (object, kept) := Object args in
        Ok (object, {| bound_arguments_ := put_all indices kept (bound_arguments_ b) |})).

(** [operator()]; without arguments [sizeof...( Targs ) - 1] is no [int]. *)
Definition bind_call (b : binding) : option (outcome (O * binding)) :=
  match List.length (bound_arguments_ b) with
  | 0%nat => None
  | S n => construct (ints_0_to_N n []) b
  end.

(** * The call expands the arguments *)

Lemma ints_0_to_N_seq n : forall Rest, ints_0_to_N n Rest = seq 0 (S n) ++ Rest.
Proof.
  induction n as [|n IH]; intros Rest; [done|]. cbn [ints_0_to_N]. rewrite IH, (seq_S (S n)). by rewrite <- app_assoc.
Qed.

Lemma get_all_seq (args : list A) : get_all (seq 0 (List.length args)) args = Some args.
Proof.
  apply mapM_Some_2, Forall2_same_length_lookup_2; [apply length_seq|].
  intros i k a Hk Ha. apply lookup_seq in Hk as [-> _]. done.
Qed.

Lemma put_all_seq (args : list A) : forall kept before, List.length kept = List.length args ->
  put_all (seq (List.length before) (List.length args)) kept (before ++ args) = before ++ kept.
Proof.
  induction args as [|a args IH]; intros [|x kept] before Hl; try done. cbn [List.length seq put_all].
  rewrite insert_app_r_alt, Nat.sub_diag by done. cbn [insert list_insert].
  specialize (IH kept (before ++ [x])). rewrite length_app, <- !app_assoc, Nat.add_1_r in IH. apply IH. by injection Hl.
Qed.

(** Calling the binding is what the comment in packetshell.cc wants to write,
    [Object( forward<Targs>( Fargs )... )]: every argument once, in order, and
    what the constructor leaves of them is found in the caller's variables. *)
Theorem bind_call_expands (args : list A) : args <> [] ->
  (forall object kept, Object args = Ok (object, kept) -> List.length kept = List.length args) ->
  bind_call {| bound_arguments_ := args |} =
  Some (let* (object, kept) := Object args in Ok (object, {| bound_arguments_ := kept |})).
Proof.
  intros Hne Hl. unfold bind_call, construct. cbn [bound_arguments_]. destruct (List.length args) as [|n] eqn:E.
  { by destruct args. }
  rewrite ints_0_to_N_seq, app_nil_r, <- E. rewrite get_all_seq. cbn.
  destruct (Object args) as [[object kept]|]; [|done]. cbn [Prelude.bind].
  pose proof (put_all_seq args kept [] (eq_trans (Hl _ _ eq_refl) (eq_sym E))) as Hp. cbn [List.length app] in Hp. by rewrite Hp.
Qed.
End Bind.
Arguments Build_binding {A}.
Arguments bound_arguments_ {A}.
