(* ===== verification/PacketShell.v ===== *)
(** The packet shell: src/packet/packetshell.hh/.cc.

    The constructor makes the outside of the link; [start_uplink] and
    [start_downlink] start a process for each direction, whose procedure gives up
    the privileges of the program before anything of the user's runs or is read,
    and then runs a ferry.  [Ferry] holds the ferry itself.  When a ferry has
    ended, its process ends its own children, and so does the process that waits
    for both directions, which then takes its address translation back. *)
From Stdlib Require Import String Ascii.
From S2P Require Import Prelude Ezio Timestamp PacketQueue CellularQueue FileDescriptor SignalFD Poller ChildProcess Privileges Address Interfaces Socket DnsProxy EventLoop Ferry Shell Commands NetDevice SocketPair Util.

Definition PACKET_MTU : Z := 1392.
Definition MAX_PREFIX : nat := 12.

(** [getpid()] *)
Class PidKernel (OS : Type) := sys_getpid : OS -> Z.

(** * State *)

Record PacketShell (OS : Type) := {
  user_environment_ : option (list string);
  egress_addr : Address;
  ingress_addr : Address;
  nameserver_ : Address;
  egress_tun_ : FileDescriptor;
  dns_outside_ : DNSProxy;
  nat_rule_ : NAT;
  pipe_ : FileDescriptor * FileDescriptor;
  event_loop_ : EventLoop unit OS;
  shell_children_ : list child;  (* of [event_loop_] *)
}.
Arguments Build_PacketShell {OS}.
Arguments user_environment_ {OS}.
Arguments egress_addr {OS}.
Arguments ingress_addr {OS}.
Arguments nameserver_ {OS}.
Arguments egress_tun_ {OS}.
Arguments dns_outside_ {OS}.
Arguments nat_rule_ {OS}.
Arguments pipe_ {OS}.
Arguments event_loop_ {OS}.
Arguments shell_children_ {OS}.

#[export] Instance eta_PacketShell OS : Eta (PacketShell OS) := fun p =>
  {| user_environment_ := user_environment_ p; egress_addr := egress_addr p; ingress_addr := ingress_addr p;
     nameserver_ := nameserver_ p; egress_tun_ := egress_tun_ p; dns_outside_ := dns_outside_ p;
     nat_rule_ := nat_rule_ p; pipe_ := pipe_ p; event_loop_ := event_loop_ p; shell_children_ := shell_children_ p |}.

(** The name of the outer tunnel device. *)
Definition device_name (device_prefix : string) (process : Z) : string := device_prefix +:+ "-" +:+ print_int process.

(** * Construction *)

Section PacketShell.
Context {OS : Type} {names : NameFunctions} {config : BuildConfig} {kernel : Kernel OS} {opener : OpenKernel OS}
  {ifaddrs : IfaddrKernel OS} {sockets : SocketKernel OS} {devices : DeviceKernel OS} {pairs : PairKernel OS}
  {procs : ProcessKernel OS} {sigs : SignalKernel OS} {cred : CredKernel OS} {env : EnvironKernel OS}
  {exec : ExecKernel OS} {sleep : SleepKernel OS} {resolver : ResolverKernel OS} {pids : PidKernel OS}.

(** temporarily break our security rule of not looking at the user's environment
    before dropping privileges: the scopes of [TemporarilyUnprivileged] and
    [TemporaryEnvironment] *)
Definition get_mahimahi_base (user_environment : option (list string)) (o : OS) : outcome (Address * OS) :=
  let* (tu, o) := unprivileged_enter o in
  if environ_set o then Err (Throw "TemporaryEnvironment: cannot be entered recursively")
  else
    let o := set_environ user_environment o in
    let* a := match sys_getenv "MAHIMAHI_BASE" o with
              | None => address_default
              | Some mahimahi_base => address_of_numbers mahimahi_base 0
              end in
    let o := set_environ None o in
    let* o := unprivileged_leave tu o in
    Ok (a, o).

Definition packet_shell_new (fuel : nat) (device_prefix : string) (user_environment : option (list string)) (w : World) (o : OS) :
    outcome (PacketShell OS * World * OS) :=
  let* (base, o) := get_mahimahi_base user_environment o in
  let* (egress, ingress, o) := two_unassigned_addresses fuel base o in
  let* (nameserver, o) := first_nameserver o in
  let* (egress_tun, o) := tun_device_new (device_name device_prefix (sys_getpid o)) egress ingress o in
  let* (dns_outside, o) := dns_proxy_bound egress nameserver nameserver o in
  let* (nat_rule, o) := nat_new fuel ingress (sys_getpid o) o in
  let* (first, second, o) := make_pair o in
  let* (event_loop, o) := event_loop_new o in
  if (MAX_PREFIX <? String.length device_prefix)%nat then Err (Throw "PacketShell: device prefix is too long!")
  (* make sure environment has been cleared *)
  else if environ_set o then Err (Throw "PacketShell: environment was not cleared")
  else
    (* initialize base timestamp value before any forking *)
    let* (_, w) := initial_timestamp w in
    Ok ({| user_environment_ := user_environment; egress_addr := egress; ingress_addr := ingress; nameserver_ := nameserver;
           egress_tun_ := egress_tun; dns_outside_ := dns_outside; nat_rule_ := nat_rule; pipe_ := (first, second);
           event_loop_ := event_loop; shell_children_ := [] |}, w, o).

(** The second constructor is given the address of the inside.  It calls
    [two_addresses], which no file of the program declares: what it would do is a
    parameter. *)
Definition packet_shell_new_inside (two_addresses : string -> Address -> OS -> outcome (Address * Address * OS)) (fuel : nat)
    (device_prefix : string) (user_environment : option (list string)) (ingress : string) (w : World) (o : OS) :
    outcome (PacketShell OS * World * OS) :=
  let* (base, o) := get_mahimahi_base user_environment o in
  let* (egress, ingress, o) := two_addresses ingress base o in
  let* (nameserver, o) := first_nameserver o in
  let* (egress_tun, o) := tun_device_new (device_name device_prefix (sys_getpid o)) egress ingress o in
  let* (dns_outside, o) := dns_proxy_bound egress nameserver nameserver o in
  let* (nat_rule, o) := nat_new fuel ingress (sys_getpid o) o in
  let* (first, second, o) := make_pair o in
  let* (event_loop, o) := event_loop_new o in
  if (MAX_PREFIX <? String.length device_prefix)%nat then Err (Throw "PacketShell: device prefix is too long!")
  (* make sure environment has been cleared *)
  else if environ_set o then Err (Throw "PacketShell: environment was not cleared")
  else
    (* initialize base timestamp value before any forking *)
    let* (_, w) := initial_timestamp w in
    Ok ({| user_environment_ := user_environment; egress_addr := egress; ingress_addr := ingress; nameserver_ := nameserver;
           egress_tun_ := egress_tun; dns_outside_ := dns_outside; nat_rule_ := nat_rule; pipe_ := (first, second);
           event_loop_ := event_loop; shell_children_ := [] |}, w, o).

(** Given the choice of the first constructor, it makes the same packet shell. *)
Lemma packet_shell_new_inside_same two_addresses fuel prefix user_environment ingress w (o : OS) :
  (forall base o, two_addresses ingress base o = two_unassigned_addresses fuel base o) ->
  packet_shell_new_inside two_addresses fuel prefix user_environment ingress w o = packet_shell_new fuel prefix user_environment w o.
Proof.
  intros H. unfold packet_shell_new_inside, packet_shell_new. destruct (get_mahimahi_base _ o) as [[base o1]|]; [|done].
  cbn [bind]. by rewrite H.
Qed.

(** * The uplink *)

(** create default route *)
Definition add_default_route (ingress egress : Address) (o : OS) : outcome OS :=
  (* both addresses are printed *)
  let* _ := ip_port ingress in
  let* _ := ip_port egress in
  let* any := address_default in
  let route := {| rt_gateway := as_sockaddr egress; rt_dst := as_sockaddr any; rt_genmask := as_sockaddr any;
                  rt_flags := Z.lor RTF_UP RTF_GATEWAY |} in
  let* (s, o) := udp_socket o in
  let (r, o) := sys_ioctl (fd_ s) SIOCADDRT (RtEntry route) o in
  let o := fd_destroy s o in
  let* _ := SystemCall "ioctl SIOCADDRT" r in
  Ok o.

(** The inner tunnel device and the routes of the new namespace. *)
Definition setup_ingress (ingress egress : Address) (o : OS) : outcome (FileDescriptor * OS) :=
  let* (ingress_tun, o) := tun_device_new "ingress" ingress egress o in
  (* bring up localhost *)
  let* o := interface_ioctl SIOCSIFFLAGS "lo" (set_ifru (IfrFlags IFF_UP)) o in
  let* o := interface_ioctl SIOCSIFMTU "ingress" (set_ifru (IfrMtu PACKET_MTU)) o in
  let* o := add_default_route ingress egress o in
  Ok (ingress_tun, o).

(** Fork again after dropping root privileges: the user's command. *)
Definition start_command (user_environment : option (list string)) (egress : Address) (shell_prefix : string)
    (command : list string) (o : OS) : outcome (ChildProcess * OS) :=
  let* o := drop_privileges o in
  (* restore environment *)
  let o := set_environ user_environment o in
  (* set MAHIMAHI_BASE if not set already to indicate outermost container *)
  let* base := ip egress in
  let (r, o) := sys_setenv "MAHIMAHI_BASE" (c_string base) false o in
  let* _ := SystemCall "setenv" r in
  let* name := join command in
  fork name
    (fun o =>
       (* tweak bash prompt *)
       let* o := prepend_shell_prefix shell_prefix o in
       ezexec command true o)
    false SIGHUP o.

Context {Q : Type} {apq : AbstractPacketQueue World Q} {tun_kernel : TunKernel OS} {threads : ThreadKernel OS}
  {pk : PollKernel (LoopState (FerryState World Q) OS)}.

(** [ferry_maker]: the constructor of the queue. *)
Abbreviation maker := (World -> OS -> outcome (CellularQueue Q * World * OS)).

(** The ferry and the device of the inner namespace go out of scope. *)
Definition end_of_ferry (fuel : nat) (children : list child) (ingress_tun : FileDescriptor) (o : OS) : outcome OS :=
  let* (_, o) := destroy_children fuel children o in
  Ok (fd_destroy ingress_tun o).

(** The end of the uplink procedures; [pipe] is the first of the pair. *)
Definition run_uplink (fuel : nat) (pipe egress_tun : FileDescriptor) (inner_ferry : EventLoop (FerryState World Q) OS)
    (children : list child) (ingress_tun : FileDescriptor) (ferry_maker : maker) (w : World) (o : OS) : outcome Z :=
  (* allow downlink to write directly to inner namespace's TUN device *)
  let* (_, o) := send_fd ingress_tun pipe o in
  let* (uplink_queue, w, o) := ferry_maker w o in
  let* (status, x) := ferry_loop fuel inner_ferry
    {| child_processes_ := children; signal_fd := no_descriptor; os := o;
       user := {| ferry_queue := uplink_queue; world := w; tun := ingress_tun; sibling := egress_tun; dns := None |} |} in
  let* _ := end_of_ferry fuel (child_processes_ x) (tun (user x)) (os x) in
  Ok status.

Definition uplink_procedure (fuel : nat) (p : PacketShell OS) (shell_prefix : string) (command : list string)
    (ferry_maker : maker) (w : World) (o : OS) : outcome Z :=
  let* (ingress_tun, o) := setup_ingress (ingress_addr p) (egress_addr p) o in
  let* (inner_ferry, o) := event_loop_new o in
  (* run dnsmasq as local caching nameserver *)
  let* (outside, o) := local_address (udp_listener_ (dns_outside_ p)) o in
  let* server := str outside "#" in
  let* (dnsmasq, o) := start_dnsmasq ["-S"; server] o in
  let* (c, o) := start_command (user_environment_ p) (egress_addr p) shell_prefix command o in
  run_uplink fuel (pipe_ p).1 (egress_tun_ p) inner_ferry [(-1, dnsmasq); (-1, c)] ingress_tun ferry_maker w o.

Definition start_uplink (fuel : nat) (p : PacketShell OS) (shell_prefix : string) (command : list string)
    (ferry_maker : maker) (w : World) (o : OS) : outcome (PacketShell OS * OS) :=
  let* (c, o) := fork "packetshell" (uplink_procedure fuel p shell_prefix command ferry_maker w) true SIGHUP o in
  Ok (p <| shell_children_ := shell_children_ p ++ [(-1, c)] |>, o).

Definition uplink_procedure_without_nameserver (fuel : nat) (p : PacketShell OS) (shell_prefix : string)
    (command : list string) (ferry_maker : maker) (w : World) (o : OS) : outcome Z :=
  let* (ingress_tun, o) := setup_ingress (ingress_addr p) (egress_addr p) o in
  let* (inner_ferry, o) := event_loop_new o in
  let* (c, o) := start_command (user_environment_ p) (egress_addr p) shell_prefix command o in
  run_uplink fuel (pipe_ p).1 (egress_tun_ p) inner_ferry [(-1, c)] ingress_tun ferry_maker w o.

(** It is not given a namespace of its own. *)
Definition start_uplink_without_nameserver (fuel : nat) (p : PacketShell OS) (shell_prefix : string)
    (command : list string) (ferry_maker : maker) (w : World) (o : OS) : outcome (PacketShell OS * OS) :=
  let* (c, o) := fork "packetshell" (uplink_procedure_without_nameserver fuel p shell_prefix command ferry_maker w) false SIGHUP o in
  Ok (p <| shell_children_ := shell_children_ p ++ [(-1, c)] |>, o).

(** * The downlink *)

(** [pipe] is the second of the pair, [proxy] the DNS proxy whose handlers join
    the loop, if any. *)
Definition run_downlink (fuel : nat) (user_environment : option (list string)) (pipe egress_tun : FileDescriptor)
    (proxy : option DNSProxy) (ferry_maker : maker) (w : World) (o : OS) : outcome Z :=
  let* o := drop_privileges o in
  (* restore environment *)
  let o := set_environ user_environment o in
  (* downlink packets go to inner namespace's TUN device *)
  let* (ingress_tun, _, o) := recv_fd pipe o in
  let* (outer_ferry, o) := event_loop_new o in
  let* (downlink_queue, w, o) := ferry_maker w o in
  let x := {| child_processes_ := []; signal_fd := no_descriptor; os := o;
              user := {| ferry_queue := downlink_queue; world := w; tun := egress_tun; sibling := ingress_tun; dns := proxy |} |} in
  let* (status, x) := ferry_loop fuel (register_handlers outer_ferry x) x in
  let* _ := end_of_ferry fuel (child_processes_ x) (sibling (user x)) (os x) in
  Ok status.

Definition downlink_procedure (fuel : nat) (p : PacketShell OS) (ferry_maker : maker) (w : World) (o : OS) : outcome Z :=
  run_downlink fuel (user_environment_ p) (pipe_ p).2 (egress_tun_ p) (Some (dns_outside_ p)) ferry_maker w o.

Definition start_downlink (fuel : nat) (p : PacketShell OS) (ferry_maker : maker) (w : World) (o : OS) :
    outcome (PacketShell OS * OS) :=
  let* (c, o) := fork "downlink" (downlink_procedure fuel p ferry_maker w) false SIGHUP o in
  Ok (p <| shell_children_ := shell_children_ p ++ [(-1, c)] |>, o).

Definition downlink_procedure_without_nameserver (fuel : nat) (p : PacketShell OS) (ferry_maker : maker) (w : World) (o : OS) :
    outcome Z :=
  run_downlink fuel (user_environment_ p) (pipe_ p).2 (egress_tun_ p) None ferry_maker w o.

Definition start_downlink_without_nameserver (fuel : nat) (p : PacketShell OS) (ferry_maker : maker) (w : World) (o : OS) :
    outcome (PacketShell OS * OS) :=
  let* (c, o) := fork "downlink" (downlink_procedure_without_nameserver fuel p ferry_maker w) false SIGHUP o in
  Ok (p <| shell_children_ := shell_children_ p ++ [(-1, c)] |>, o).

Context {outer_pk : PollKernel (LoopState unit OS)}.

Definition wait_for_exit (fuel : nat) (p : PacketShell OS) (o : OS) : outcome (Z * PacketShell OS * OS) :=
  let* (status, x) := loop fuel (event_loop_ p)
    {| child_processes_ := shell_children_ p; signal_fd := no_descriptor; os := o; user := tt |} in
  Ok (status, p <| shell_children_ := child_processes_ x |>, os x).

(** The destructor: the members go from the last to the first, the processes of
    both directions before the address translation and the outer device. *)
Definition packet_shell_destroy (fuel : nat) (p : PacketShell OS) (o : OS) : outcome OS :=
  let* (_, o) := destroy_children fuel (shell_children_ p) o in
  let o := fd_destroy (pipe_ p).1 (fd_destroy (pipe_ p).2 o) in
  let* o := nat_destroy fuel (nat_rule_ p) o in
  let o := dns_proxy_destroy (dns_outside_ p) o in
  Ok (fd_destroy (egress_tun_ p) o).
End PacketShell.

(** * Names of devices *)

Lemma print_digits_length k : forall fuel n s, 0 <= n < 10 ^ Z.of_nat (S k) ->
  (String.length (print_digits fuel n s) <= S k + String.length s)%nat.
Proof.
  induction k as [|k IH]; intros [|fuel] n s Hn; cbn [print_digits]; try lia.
  - rewrite Z.div_small by lia. cbn. lia.
  - destruct (Z.eqb_spec (n / 10) 0); [cbn; lia|].
    specialize (IH fuel (n / 10) (String (digit_char (n mod 10)) s)). cbn [String.length] in IH.
    assert (0 <= n / 10 < 10 ^ Z.of_nat (S k)); [|lia].
    split; [apply Z.div_pos; lia|]. apply Z.div_lt_upper_bound; [lia|]. rewrite <- Z.pow_succ_r by lia.
    rewrite <- Nat2Z.inj_succ. apply Hn.
Qed.

Lemma has_null_app s t : has_null (s +:+ t) = has_null s || has_null t.
Proof. induction s as [|c s IH]; [done|]. rewrite string_app_cons. cbn [has_null]. by rewrite IH, orb_assoc. Qed.

Lemma digits_no_null s : all_digits s = true -> has_null s = false.
Proof.
  induction s as [|c s IH]; [done|]. cbn [all_digits has_null]. intros [Hc Hs]%andb_true_iff. rewrite IH by done.
  destruct (Ascii.eqb_spec c Ascii.zero) as [->|_]; done.
Qed.

Lemma length_string_app s t : String.length (s +:+ t) = (String.length s + String.length t)%nat.
Proof. induction s as [|c s IH]; [done|]. rewrite string_app_cons. cbn. by rewrite IH. Qed.

Lemma string_app_inj s t u : s +:+ t = s +:+ u -> t = u.
Proof. induction s as [|c s IH]; [done|]. rewrite !string_app_cons. intros [= E]. by apply IH. Qed.

(** A prefix and a process number that leave room for the null character. *)
Lemma device_name_whole prefix k n : has_null prefix = false -> (String.length prefix + 1 + S k < IFNAMSIZ)%nat ->
  0 <= n < 10 ^ Z.of_nat (S k) -> kernel_name (strncpy IFNAMSIZ (device_name prefix n)) = device_name prefix n.
Proof.
  intros Hp Hk Hn. unfold device_name, print_int. destruct (Z.ltb_spec n 0); [lia|]. apply kernel_name_short.
  - rewrite !has_null_app, Hp. apply digits_no_null, print_nonneg_all.
  - rewrite !length_string_app. pose proof (print_digits_length k 20 n "" Hn). cbn [String.length] in *.
    unfold print_nonneg. lia.
Qed.

Lemma device_name_inj prefix m n : 0 <= m < 2 ^ 63 -> 0 <= n < 2 ^ 63 -> device_name prefix m = device_name prefix n -> m = n.
Proof.
  unfold device_name. intros Hm Hn E%string_app_inj%string_app_inj.
  pose proof (myatoi_print m ltac:(lia)) as Em. rewrite E, myatoi_print in Em by lia. by simplify_eq.
Qed.

(** C40: The outer tunnel devices of two shells that run at the same time have
    different names for the system as long as the process numbers have at most
    five digits; with six, the [ifreq] holds only the first five, and the two
    devices of processes 100000 and 100009 have the same name.  (Linux numbers
    processes up to 4194303; the check of the prefix allows even less.) *)
Theorem cell_link_device_names :
  (forall p q, 0 <= p < 100000 -> 0 <= q < 100000 ->
     kernel_name (strncpy IFNAMSIZ (device_name "cell-link" p)) = kernel_name (strncpy IFNAMSIZ (device_name "cell-link" q)) ->
     p = q) /\
  kernel_name (strncpy IFNAMSIZ (device_name "cell-link" 100000)) =
    kernel_name (strncpy IFNAMSIZ (device_name "cell-link" 100009)) /\
  (String.length "cell-link" <= MAX_PREFIX)%nat.
Proof.
  split; [|split; [reflexivity|unfold MAX_PREFIX; cbn; lia]]. intros p q Hp Hq.
  rewrite !(device_name_whole "cell-link" 4) by (cbn; unfold IFNAMSIZ; lia || done). apply device_name_inj; lia.
Qed.
