(* ===== verification/Frames.v ===== *)
(** What operations keep of the system, if every system call that they make
    keeps it: a preorder [P] on the states of the system.  [Credentials] uses it
    for the identities of a process, [SetupUnwinding] for its children. *)
From Stdlib Require Import String Ascii.
From S2P Require Import Prelude FileDescriptor SignalFD Poller ChildProcess Privileges Address Interfaces Socket DnsProxy EventLoop Unwinding Commands NetDevice SocketPair Util PacketShell.

(** The system calls on descriptors and devices, and those around them. *)
Class QuietCalls (OS : Type) `{Kernel OS, OpenKernel OS, IfaddrKernel OS, SocketKernel OS, DeviceKernel OS, PairKernel OS,
    SignalKernel OS, SleepKernel OS, ResolverKernel OS} (P : OS -> OS -> Prop) : Prop := {
  quiet_open path o : P o (sys_open path o).2;
  quiet_read fd limit o : P o (sys_read fd limit o).2;
  quiet_write fd b o : P o (sys_write fd b o).2;
  quiet_cloexec fd o : P o (sys_set_cloexec fd o).2;
  quiet_close fd o : P o (sys_close fd o).2;
  quiet_getifaddrs o : P o (sys_getifaddrs o).2;
  quiet_socket domain type o : P o (sys_socket domain type o).2;
  quiet_bind fd a o : P o (sys_bind fd a o).2;
  quiet_connect fd a o : P o (sys_connect fd a o).2;
  quiet_listen fd n o : P o (sys_listen fd n o).2;
  quiet_getsockname fd o : P o (sys_getsockname fd o).2;
  quiet_ioctl fd request arg o : P o (sys_ioctl fd request arg o).2;
  quiet_open_rw path o : P o (sys_open_rw path o).2;
  quiet_socketpair o : P o (sys_socketpair o).2;
  quiet_sendmsg fd control o : P o (sys_sendmsg fd control o).2;
  quiet_recvmsg fd n o : P o (sys_recvmsg fd n o).2;
  quiet_sigprocmask mask o : P o (sys_sigprocmask_set mask o).2;
  quiet_getmask o : P o (sys_sigprocmask_get o).2;
  quiet_signalfd mask o : P o (sys_signalfd mask o).2;
  quiet_sleep ms o : P o (sys_sleep ms o);
  quiet_res_init o : P o (sys_res_init o).2;
}.

Create HintDb quiet.

(** * Results of operations *)

(** If the operation returns, its result satisfies [P]. *)
Definition returns {A} (m : outcome A) (P : A -> Prop) : Prop := match m with Ok a => P a | Err _ => True end.

Lemma returns_bind {A B} (m : outcome A) (k : A -> outcome B) P Q :
  returns m P -> (forall a, P a -> returns (k a) Q) -> returns (bind m k) Q.
Proof. destruct m; cbn; auto. Qed.

Lemma returns_any {A} (m : outcome A) : returns m (fun _ => True).
Proof. by destruct m. Qed.

Lemma returns_weaken {A} (m : outcome A) (P Q : A -> Prop) : returns m P -> (forall a, P a -> Q a) -> returns m Q.
Proof. destruct m; cbn; auto. Qed.

(** Two programs that begin in the same way and go on in the same way from
    whatever the beginning returns. *)
Lemma bind_agree {A B} (m : outcome A) (k1 k2 : A -> outcome B) P :
  returns m P -> (forall a, P a -> k1 a = k2 a) -> bind m k1 = bind m k2.
Proof. destruct m; cbn; auto. Qed.

Lemma bind_agree2 {A B} (m1 m2 : outcome A) (k1 k2 : A -> outcome B) P :
  m1 = m2 -> returns m2 P -> (forall a, P a -> k1 a = k2 a) -> bind m1 k1 = bind m2 k2.
Proof. intros ->. apply bind_agree. Qed.

Ltac open_result :=
  repeat match goal with r : (_ * _)%type |- _ => destruct r end; cbn beta in *; cbn [fst snd] in *.

(** * Operations *)

(** A system call. *)
Ltac quiet_call :=
  first [apply quiet_open | apply quiet_read | apply quiet_write | apply quiet_cloexec | apply quiet_close | apply quiet_getifaddrs
        | apply quiet_socket | apply quiet_bind | apply quiet_connect | apply quiet_listen | apply quiet_getsockname | apply quiet_ioctl
        | apply quiet_open_rw | apply quiet_socketpair | apply quiet_sendmsg | apply quiet_recvmsg | apply quiet_sigprocmask
        | apply quiet_getmask | apply quiet_signalfd | apply quiet_sleep | apply quiet_res_init].

Lemma fd_destroy_quiet {OS} (P : OS -> OS -> Prop) `{!PreOrder P, quiet : QuietCalls OS P} f o : P o (fd_destroy f o).
Proof. unfold fd_destroy. destruct (fd_ f <? 0); [done|]. apply quiet_close. Qed.

(** Calls one after another. *)
Ltac chain P :=
  solve [eassumption | reflexivity | quiet_call
        | match goal with |- P _ (fd_destroy ?f ?o) => transitivity o; [chain P|exact (fd_destroy_quiet P f o)] end
        | match goal with H : P ?a ?b |- P ?a _ => transitivity b; [exact H|chain P] end
        | match goal with H : P ?a ?b |- P _ ?b => transitivity a; [clear H; chain P|exact H] end].

(** One step of an operation: a bind whose first part is known or does not
    concern the system, a system call, a test; at the end, the calls one after
    another. *)
Ltac kept_step P :=
  match goal with
  | |- returns (bind _ _) _ =>
      eapply returns_bind; [first [solve [eauto with quiet nocore] | apply returns_any] | intros ? ?; open_result]
  | |- returns (Err _) _ => exact I
  | |- returns (Ok _) _ => cbn [returns fst snd]; try chain P
  | |- returns _ _ => eapply returns_weaken; [solve [eauto with quiet nocore]|intros ? ?; open_result; cbn [fst snd]; try chain P]
  | |- context [match ?c with _ => _ end] =>
      lazymatch type of c with
      | (_ * _)%type =>
          let H := fresh "E" in
          first [eassert (H : P _ (snd c)) by quiet_call | assert (H : True) by exact I];
          destruct c; open_result
      | _ => destruct c; open_result
      end
  end.
Ltac kept_steps P := repeat (kept_step P; try done).

Section Frames.
Context {OS : Type} {kernel : Kernel OS} {opener : OpenKernel OS} {ifaddrs : IfaddrKernel OS} {sockets : SocketKernel OS}
  {devices : DeviceKernel OS} {pairs : PairKernel OS} {sigs : SignalKernel OS} {sleep : SleepKernel OS} {resolver : ResolverKernel OS}.
Context (P : OS -> OS -> Prop) `{!PreOrder P} {quiet : QuietCalls OS P}.
Implicit Types (o : OS) (f : FileDescriptor).

(** The operation keeps what [P] says, if it returns. *)
Abbreviation keeps o m := (returns m (fun r => P o (snd r))).
Abbreviation keeps_state o m := (returns m (fun o' => P o o')).

Lemma fd_new_quiet n o : keeps o (fd_new n o).
Proof. unfold fd_new, check_and_set_cloexec. kept_steps P. Qed.

Lemma fd_read_quiet limit f o : keeps o (read limit f o).
Proof. unfold read. kept_steps P. Qed.
#[local] Hint Resolve fd_new_quiet fd_read_quiet : quiet.

Lemma read_all_quiet fuel : forall f o acc, keeps o (read_all fuel f o acc).
Proof.
  induction fuel as [|fuel IH]; intros f o acc; cbn [read_all]; [done|]. kept_step P. destruct l; kept_steps P.
Qed.
#[local] Hint Resolve read_all_quiet : quiet.

Lemma interfaces_quiet fuel o : keeps o (interfaces_new fuel o).
Proof. unfold interfaces_new. kept_steps P. Qed.
#[local] Hint Resolve interfaces_quiet : quiet.

Context {names : NameFunctions}.

Lemma two_unassigned_quiet fuel avoid o : keeps o (two_unassigned_addresses fuel avoid o).
Proof. unfold two_unassigned_addresses. kept_steps P. Qed.

Lemma first_nameserver_quiet o : keeps o (first_nameserver o).
Proof. unfold first_nameserver. kept_steps P. Qed.

Lemma socket_new_quiet domain type o : keeps o (socket_new domain type o).
Proof. unfold socket_new. kept_steps P. Qed.

Lemma fd_ioctl_quiet f request name adj o : returns (fd_interface_ioctl f request name adj o) (fun o' => P o o').
Proof. unfold fd_interface_ioctl. kept_steps P. Qed.
Lemma udp_socket_quiet o : keeps o (udp_socket o).
Proof. apply socket_new_quiet. Qed.
Lemma tcp_socket_quiet o : keeps o (tcp_socket o).
Proof. apply socket_new_quiet. Qed.
#[local] Hint Resolve udp_socket_quiet tcp_socket_quiet fd_ioctl_quiet : quiet.

Lemma interface_ioctl_quiet request name adj o :
  returns (interface_ioctl request name adj o) (fun o' => P o o').
Proof. unfold interface_ioctl. kept_steps P. Qed.
#[local] Hint Resolve interface_ioctl_quiet : quiet.

Lemma assign_address_quiet name addr peer o :
  returns (assign_address name addr peer o) (fun o' => P o o').
Proof. unfold assign_address. kept_steps P. Qed.
#[local] Hint Resolve assign_address_quiet : quiet.

Lemma tun_device_quiet name addr peer o : keeps o (tun_device_new name addr peer o).
Proof. unfold tun_device_new. kept_steps P. Qed.
#[local] Hint Resolve tun_device_quiet : quiet.

Lemma socket_bind_quiet a f o : returns (socket_bind a f o) (fun o' => P o o').
Proof. unfold socket_bind. kept_steps P. Qed.
Lemma socket_connect_quiet a f o : returns (socket_connect a f o) (fun o' => P o o').
Proof. unfold socket_connect. kept_steps P. Qed.
Lemma socket_listen_quiet n f o : returns (socket_listen n f o) (fun o' => P o o').
Proof. unfold socket_listen. kept_steps P. Qed.
Lemma local_address_quiet f o : keeps o (local_address f o).
Proof. unfold local_address, get_address. kept_steps P. Qed.
#[local] Hint Resolve socket_bind_quiet socket_connect_quiet socket_listen_quiet local_address_quiet : quiet.

Lemma require_bound_quiet e f o : returns (require_bound e f o) (fun o' => P o o').
Proof. unfold require_bound. kept_steps P. Qed.
Lemma bound_udp_quiet a o : keeps o (make_bound_socket udp_socket a o).
Proof. unfold make_bound_socket. kept_steps P. Qed.
Lemma bound_tcp_quiet a o : keeps o (make_bound_socket tcp_socket a o).
Proof. unfold make_bound_socket. kept_steps P. Qed.
#[local] Hint Resolve require_bound_quiet bound_udp_quiet bound_tcp_quiet : quiet.

Lemma dns_proxy_quiet a u t o : keeps o (dns_proxy_bound a u t o).
Proof. unfold dns_proxy_bound, dns_proxy_new. kept_steps P. Qed.

Lemma make_pair_quiet o : keeps o (make_pair o).
Proof. unfold make_pair. kept_steps P. Qed.

Lemma set_as_mask_quiet m o : returns (set_as_mask m o) (fun o' => P o o').
Proof. unfold set_as_mask. kept_steps P. Qed.
#[local] Hint Resolve set_as_mask_quiet : quiet.

Lemma current_mask_quiet o : keeps o (current_mask o).
Proof. unfold current_mask. kept_steps P. Qed.

Lemma signal_fd_quiet m o : keeps o (signal_fd_new m o).
Proof. unfold signal_fd_new. kept_steps P. Qed.

Lemma fd_new_after_quiet n o : P o (fd_new_after n o).
Proof. unfold fd_new_after. destruct (n <=? 2); [done|apply quiet_cloexec]. Qed.

Lemma signal_fd_new_after_quiet m o : P o (signal_fd_new_after m o).
Proof.
  unfold signal_fd_new_after. pose proof (quiet_signalfd (P := P) (mask_ m) o) as H. destruct (sys_signalfd _ o) as [r o1].
  destruct (i32 r <? 0); [exact H|]. transitivity o1; [exact H|apply fd_new_after_quiet].
Qed.

Lemma event_loop_quiet {U} o : keeps o (event_loop_new (U := U) o).
Proof. unfold event_loop_new. kept_steps P. Qed.

Lemma default_route_quiet ingress egress o : returns (add_default_route ingress egress o) (fun o' => P o o').
Proof. unfold add_default_route. kept_steps P. Qed.
#[local] Hint Resolve default_route_quiet : quiet.

Lemma setup_ingress_quiet ingress egress o : keeps o (setup_ingress ingress egress o).
Proof. unfold setup_ingress. kept_steps P. Qed.

Lemma send_fd_quiet fd f o : keeps o (send_fd fd f o).
Proof. unfold send_fd. kept_steps P. Qed.

Lemma recv_fd_quiet f o : keeps o (recv_fd f o).
Proof. unfold recv_fd. kept_steps P. Qed.

Lemma write_loop_quiet fuel : forall b all f o, keeps o (write_loop fuel b all f o).
Proof.
  induction fuel as [|fuel IH]; intros b all f o; cbn [write_loop]; [done|]. unfold write_some.
  destruct b as [|x b]; [done|]. pose proof (quiet_write (P := P) (fd_ f) (x :: b) o) as H.
  destruct (sys_write (fd_ f) (x :: b) o) as [n o1]. cbn [snd] in H.
  eapply (returns_bind _ _ (fun r => P o r.2)); [kept_steps P|]. intros [[rest f'] o'] Ho. cbn [snd] in Ho.
  destruct (all && _); [|done]. eapply returns_weaken; [apply IH|]. intros r Hr. cbn beta in *. chain P.
Qed.

Lemma probe_write_quiet f o : P o (probe_write f o).2.
Proof.
  unfold probe_write. pose proof (write_loop_quiet (S (length probe_payload)) probe_payload true f o) as H. unfold write.
  destruct (write_loop _ _ _ f o) as [[[r f'] o']|e]; cbn in *; [done|apply quiet_write].
Qed.

Lemma probe_quiet f o : P o (probe f o).2.
Proof.
  unfold probe. pose proof (probe_write_quiet f o) as H. destruct (probe_write f o) as [[[u|e] f1] o1]; cbn [snd] in *; [|done].
  transitivity o1; [done|]. transitivity (sys_sleep 10 o1); [apply quiet_sleep|apply probe_write_quiet].
Qed.

Lemma probe_loop_quiet fuel : forall attempts f o, keeps o (probe_loop fuel attempts f o).
Proof.
  induction fuel as [|fuel IH]; intros a f o; cbn [probe_loop]; [done|]. destruct (_ <=? _); [done|].
  pose proof (probe_quiet f o) as H. destruct (probe f o) as [[[u|e] f1] o1]; cbn [snd] in H; [done|].
  destruct (_ && _); [|done]. eapply returns_weaken; [apply IH|]. intros r Hr. cbn beta in *.
  transitivity o1; [done|]. transitivity (sys_sleep 10 o1); [apply quiet_sleep|done].
Qed.

Lemma check_requirements_quiet {cred : CredKernel OS} argc argv0 set_ o :
  returns (check_requirements argc argv0 set_ o) (fun o' => P o o').
Proof. unfold check_requirements. kept_steps P. Qed.
End Frames.

#[export] Hint Resolve fd_new_quiet fd_read_quiet read_all_quiet interfaces_quiet two_unassigned_quiet first_nameserver_quiet socket_new_quiet fd_ioctl_quiet udp_socket_quiet tcp_socket_quiet interface_ioctl_quiet assign_address_quiet tun_device_quiet socket_bind_quiet socket_connect_quiet socket_listen_quiet local_address_quiet require_bound_quiet bound_udp_quiet bound_tcp_quiet dns_proxy_quiet make_pair_quiet set_as_mask_quiet current_mask_quiet signal_fd_quiet event_loop_quiet default_route_quiet setup_ingress_quiet send_fd_quiet recv_fd_quiet write_loop_quiet probe_loop_quiet : quiet.
