(* ===== verification/Forks.v ===== *)
(** New processes: what [clone] promises of a process that it makes, the commands
    that are waited for, and the processes that a process owns, which its
    destructors end. *)
From Stdlib Require Import String.
From S2P Require Import Prelude FileDescriptor SignalFD ChildProcess Privileges EventLoop Unwinding Shell Commands.

(** * New processes *)

(** A new process has a number that no child had, goes through at most
    [lifetime] changes of its state, and may be signalled: it has the real
    identity of the process that makes it, as long as it does not take on another
    one (which the user's command may, if it is sudo or the like; a destructor that
    may not signal a process leaves it, [unsignalable_child_left]). *)
Class ForkLaws (OS : Type) `{ChildLaws OS} := {
  lifetime : nat;
  stat_kept o : all_kept o (sys_stat_task o).2;
  clone_failed ns o : i32 (sys_clone ns o).1 < 0 -> all_kept o (sys_clone ns o).2;
  clone_parent ns o : let pid := i32 (sys_clone ns o).1 in let o' := (sys_clone ns o).2 in 0 < pid ->
    ~ unreaped pid o /\ unreaped pid o' /\ signalable (OS := OS) pid /\ (fate pid o' <= lifetime)%nat /\ others pid o o';
}.

(** The end of a process that [clone] has made. *)
Definition other_process (e : fault) : Prop := exists end_, e = ended end_.

(** How else [main] may end: its loop goes on for longer than the fuel lasts,
    an exception meets another in a destructor, or the process followed is one
    that [clone] has made. *)
Definition block_fault (e : fault) : Prop :=
  e = Diverges \/ e = Terminates "exception in a destructor" \/ other_process e.

Section Forks.
Context {OS : Type} `{fork_laws : ForkLaws OS} {cred : CredKernel OS} {sigs : SignalKernel OS} {env : EnvironKernel OS} {exec : ExecKernel OS}.

(** The object is for a process of its own. *)
Record newborn (c : ChildProcess) (o o' : OS) : Prop := {
  newborn_inv : child_inv c o';
  newborn_present : moved_away_ c = false;
  newborn_alive : terminated_ c = false;
  newborn_new : ~ unreaped (pid_ c) o;
  newborn_fate : (fate (pid_ c) o' <= lifetime)%nat;
  newborn_others : others (pid_ c) o o';
}.

Lemma fork_newborn name procedure ns sig (o : OS) : 0 < sig <= 64 ->
  match fork name procedure ns sig o with
  | Ok (c, o') => newborn c o o'
  | Err e => caught_as_exception e = true /\ all_kept o (fork_after ns o) \/ other_process e
  end.
Proof.
  intros Hs. unfold fork, child_new, do_clone, fork_after, SystemCall. pose proof (stat_kept o) as Hk.
  destruct (sys_stat_task o) as [[r links] o1]. cbn [snd] in Hk.
  destruct (Z.leb_spec 0 (i32 r)), (Z.ltb_spec (i32 r) 0); try lia; cbn [bind orb]; [|by left].
  destruct (negb _); cbn [bind]; [by left|]. pose proof (clone_failed ns o1) as Hf. pose proof (clone_parent ns o1) as Hp. cbv zeta in Hp.
  destruct (sys_clone ns o1) as [pid o2]. cbn [fst snd] in *.
  destruct (Z.leb_spec 0 (i32 pid)); cbn [bind]; [|left; split; [done|]; etransitivity; [exact Hk|by apply Hf]].
  destruct (Z.eqb_spec (i32 pid) 0); cbn [bind]; [right; by eexists|]. destruct (Hp ltac:(lia)) as (Hn & Hu & Hsig & Hl & Ho).
  split; cbn; try done; [split; cbn; try done; lia| |].
  - intros Hu1. apply Hn. by apply Hk.
  - intros p Hne. eapply process_kept_trans; [apply Hk|by apply Ho].
Qed.

(** The only children are those there were. *)
Definition none_left (o o' : OS) : Prop := forall p, unreaped p o' -> unreaped p o.

#[export] Instance none_left_preorder : PreOrder none_left.
Proof. split; [by intros o p|]. intros o1 o2 o3 A B p Hp. by apply A, B. Qed.

Lemma all_kept_none_left (o o' : OS) : all_kept o o' -> none_left o o'.
Proof. intros Hk p. apply Hk. Qed.

(** A command is waited for, whatever becomes of it. *)
Lemma run_in_reaps fuel command (o : OS) : command <> [] -> (lifetime <= fuel)%nat ->
  let '(r, o') := run_in (S fuel) command o in
  match r with
  | Ok _ => none_left o o'
  | Err e => caught_as_exception e = true /\ none_left o o' \/ other_process e
  end.
Proof.
  intros Hne Hl. unfold run_in. destruct command as [|a l]; [done|]. cbn [join].
  match goal with |- context [fork ?n ?f false SIGHUP o] => pose proof (fork_newborn n f false SIGHUP o ltac:(unfold SIGHUP; lia)) as Hf;
    destruct (fork n f false SIGHUP o) as [[c o1]|e] end.
  2: { destruct Hf as [[He Hk]|He]; [left; split; [done|by apply all_kept_none_left]|by right]. }
  destruct Hf as [Hi Hm Ht Hn Hfate Ho]. unfold await.
  destruct (wait_terminated_ok fuel c o1 Hm Hi ltac:(lia)) as (c' & o2 & -> & Ht' & Hm' & Hp & Hi' & Ho'). cbn [bind].
  assert (Hnone : none_left o o2).
  { intros p Hu. destruct (decide (p = pid_ c)) as [->|Hne'].
    - rewrite <- Hp in Hu. apply (inv_unreaped _ _ Hi') in Hu. congruence.
    - apply (Ho p Hne'). by apply (Ho' p Hne'). }
  unfold child_destroy. rewrite Hm'. cbn [terminate_loop]. rewrite Ht'.
  unfold throw_exception, exit_status, name, died_on_signal, if_terminated, not_moved_away. rewrite Hm', Ht'. cbn [negb bind].
  destruct (negb (exit_status_ c' =? 0)); [by left|done].
Qed.

Lemma run_caught_reaps fuel command (o : OS) : command <> [] -> (lifetime <= fuel)%nat ->
  match run_caught (S fuel) command o with Ok o' => none_left o o' | Err e => other_process e end.
Proof.
  intros Hne Hl. unfold run_caught. pose proof (run_in_reaps fuel command o Hne Hl) as H'.
  destruct (run_in (S fuel) command o) as [[u|e] o']; [exact H'|].
  destruct H' as [[-> Hn]|[[st|sig] ->]]; [exact Hn|by exists (Exited st)|by exists (KilledBy sig)].
Qed.
(** ** The children of a process

    A process that owns [children] has no others but those of [o0]. *)
Record family_owned (o0 : OS) (children : list child) (o : OS) : Prop := {
  owned_children : children_inv children o;
  owned_alive : Forall (fun ch => terminated_ ch.2 = false) children;
  owned_fates : fates_within lifetime children o;
  owned_others : forall p, unreaped p o -> unreaped p o0 \/ p ∈ EventLoop.pids children;
}.

Lemma owned_none (o : OS) : family_owned o [] o.
Proof. split; [split; constructor|constructor..|by left]. Qed.

Lemma owned_kept o0 children (o o' : OS) : all_kept o o' -> family_owned o0 children o -> family_owned o0 children o'.
Proof.
  intros Hk [A2 A3 A4 A5]. split; [by eapply children_inv_kept|done| |].
  - eapply Forall_impl; [exact A4|]. intros ch Hch. destruct (Hk (pid_ ch.2)) as (_ & _ & Hf). cbn in *. lia.
  - intros p Hu. apply A5. by apply Hk.
Qed.

Lemma owned_child o0 children (o o' : OS) c : newborn c o o' -> family_owned o0 children o ->
  family_owned o0 (children ++ [(-1, c)]) o'.
Proof.
  intros [Hi Hm Ht Hn Hf Ho] [[Hall Hnd] A3 A4 A5].
  assert (Hne : Forall (fun ch : child => pid_ ch.2 <> pid_ c) children).
  { eapply Forall_impl; [apply Forall_and; split; [exact Hall|exact A3]|]. intros ch [[_ Hch] Hal] E. apply Hn. rewrite <- E.
    by apply (inv_unreaped _ _ Hch). }
  assert (Hnew : pid_ c ∉ EventLoop.pids children).
  { unfold EventLoop.pids. intros (ch & E & Hin)%list_elem_of_fmap. rewrite Forall_forall in Hne. by apply (Hne ch Hin). }
  split.
  - split.
    + apply Forall_app. split; [|by constructor]. eapply Forall_impl; [apply Forall_and; split; [exact Hall|exact Hne]|].
      intros ch [[B1 B2] B3]. split; [done|]. by eapply child_inv_others.
    + rewrite map_app. apply NoDup_app. split; [done|]. split; [|apply NoDup_singleton].
      intros p Hp. cbn. intros ->%list_elem_of_singleton. by apply Hnew.
  - apply Forall_app. split; [done|by constructor].
  - apply Forall_app. split; [|by constructor]. eapply Forall_impl; [apply Forall_and; split; [exact A4|exact Hne]|].
    intros ch [B1 B2]. destruct (Ho _ B2) as (_ & _ & B3). cbn in *. lia.
  - intros p Hu. unfold EventLoop.pids. rewrite map_app. cbn [map snd]. rewrite elem_of_app, list_elem_of_singleton.
    destruct (decide (p = pid_ c)) as [->|Hp]; [by right; right|]. destruct (A5 p) as [|]; [by apply (Ho p Hp)|by left|by right; left].
Qed.

(** What their end needs: they may have changed their state, or ended. *)
Definition family_ready (o0 : OS) (children : list child) (o : OS) : Prop :=
  children_inv children o /\ fates_within lifetime children o /\
  forall p, unreaped p o -> unreaped p o0 \/ p ∈ EventLoop.pids children.

Lemma owned_ready o0 children (o : OS) : family_owned o0 children o -> family_ready o0 children o.
Proof. by intros [A2 A3 A4 A5]. Qed.

(** A process without children. *)
Lemma owned_nothing o0 (o : OS) : family_owned o0 [] o -> none_left o0 o.
Proof. intros [_ _ _ Ho] p Hp. by destruct (Ho p Hp) as [|Hin%elem_of_nil]. Qed.

Lemma ready_nothing o0 (o : OS) : none_left o0 o -> family_ready o0 [] o.
Proof. intros Hn. split; [split; constructor|]. split; [constructor|]. intros p Hp. left. by apply Hn. Qed.

Lemma family_ended fuel o0 children (o : OS) : family_ready o0 children o -> (lifetime <= fuel)%nat ->
  exists children' o', destroy_children (S fuel) children o = Ok (children', o') /\ none_left o0 o'.
Proof.
  intros (Hc & Hf & Hu) Hl. assert (Hf' : fates_within fuel children o) by (eapply Forall_impl; [exact Hf|]; cbn; lia).
  destruct (destroy_children_leaves fuel children o Hc Hf') as (cs & o1 & E & Hk). exists cs, o1. split; [exact E|].
  intros p Hp. destruct (Hk p Hp) as [Hp1 Hn]. by destruct (Hu p Hp1).
Qed.
End Forks.
