(* ===== verification/SetupUnwinding.v ===== *)
(** What an exception leaves behind while [main] sets up the link: where
    [check_requirements] (src/util/util.cc) and the constructor of the packet shell
    (src/packet/packetshell.cc) throw, and the destructors of the members that it
    had made by then: the devices and sockets are closed, the rules of the address
    translation that were installed are deleted again, and privileges that were
    dropped are taken back.

    [op_after] is the state in which [op] throws, given that it does; where a
    destructor may end the process, or runs a command, [op_unwound] is the state
    that the destructors leave, if they do. *)
From Stdlib Require Import String Ascii.
From S2P Require Import Prelude Ezio Timestamp FileDescriptor SignalFD Poller ChildProcess Privileges Address Interfaces Socket DnsProxy EventLoop Unwinding Shell Commands NetDevice SocketPair Util PacketShell Frames Forks.

Section After.
Context {OS : Type} {names : NameFunctions} {config : BuildConfig} {kernel : Kernel OS} {opener : OpenKernel OS}
  {ifaddrs : IfaddrKernel OS} {sockets : SocketKernel OS} {devices : DeviceKernel OS} {pairs : PairKernel OS}
  {procs : ProcessKernel OS} {sigs : SignalKernel OS} {cred : CredKernel OS} {env : EnvironKernel OS}
  {exec : ExecKernel OS} {sleep : SleepKernel OS} {resolver : ResolverKernel OS} {pids : PidKernel OS}.

(** ** The machine and the addresses *)

Definition check_requirements_after (argc : Z) (o : OS) : OS :=
  if argc <=? 0 then o
  else
    let (r, o) := sys_open "/dev/null" o in
    if i32 r <? 0 then o
    else
      match fd_new (i32 r) o with
      | Err _ => fd_new_after (i32 r) o
      | Ok (f, o) =>
          let o := fd_destroy f o in
          if negb (sys_geteuid o =? 0) || (sys_getuid o =? 0) || (sys_getgid o =? 0) || environ_set o then o
          else
            let (r, o) := sys_open "/proc/sys/net/ipv4/ip_forward" o in
            if i32 r <? 0 then o
            else
              match fd_new (i32 r) o with
              | Err _ => fd_new_after (i32 r) o
              | Ok (ipf, o) =>
                  match read BUFFER_SIZE ipf o with
                  | Err _ => fd_destroy ipf (read_after BUFFER_SIZE ipf o)
                  | Ok (_, ipf, o) => fd_destroy ipf o
                  end
              end
      end.

(** The environment is cleared again before the privileges are taken back. *)
Definition get_mahimahi_base_unwound (user_environment : option (list string)) (o : OS) : outcome OS :=
  match unprivileged_enter o with
  | Err _ => Ok (unprivileged_enter_after o)
  | Ok (tu, o) =>
      let o := if environ_set o then o else set_environ None (set_environ user_environment o) in
      unprivileged_leave tu o
  end.

Fixpoint read_all_after (fuel : nat) (f : FileDescriptor) (o : OS) : OS :=
  match fuel with
  | O => o
  | S fuel =>
      match read BUFFER_SIZE f o with
      | Err _ => read_after BUFFER_SIZE f o
      | Ok (new_chunk, f, o) => match new_chunk with [] => o | _ => read_all_after fuel f o end
      end
  end.

Definition interfaces_new_after (fuel : nat) (o : OS) : OS :=
  let (ifs, o) := sys_getifaddrs o in
  match ifs with
  | None => o
  | Some ifs =>
      match add_interfaces ifs {| addresses_in_use_ := [] |} with
      | Err _ => o
      | Ok _ =>
          let (r, o) := sys_open "/proc/net/route" o in
          if i32 r <? 0 then o
          else
            match fd_new (i32 r) o with
            | Err _ => fd_new_after (i32 r) o
            | Ok (routes, o) => fd_destroy routes (read_all_after fuel routes o)
            end
      end
  end.

Definition two_unassigned_addresses_after (fuel : nat) (o : OS) : OS :=
  match interfaces_new fuel o with
  | Err _ => interfaces_new_after fuel o
  | Ok (_, o) => o
  end.

Definition first_nameserver_after (o : OS) : OS := (sys_res_init o).2.

(** ** Devices *)

Definition socket_new_after (domain type : Z) (o : OS) : OS :=
  let (r, o) := sys_socket domain type o in
  if i32 r <? 0 then o else fd_new_after (i32 r) o.

Definition fd_interface_ioctl_after (fd : FileDescriptor) (request : Z) (name : string)
    (ifr_adjustment : ifreq -> outcome ifreq) (o : OS) : OS :=
  match ifr_adjustment {| ifr_name := strncpy IFNAMSIZ name; ifr_ifru := IfrZero |} with
  | Err _ => o
  | Ok ifr => (sys_ioctl (fd_ fd) request (IfReq ifr) o).2
  end.

Definition interface_ioctl_after (request : Z) (name : string) (ifr_adjustment : ifreq -> outcome ifreq) (o : OS) : OS :=
  match udp_socket o with
  | Err _ => socket_new_after AF_INET SOCK_DGRAM o
  | Ok (temp, o) => fd_destroy temp (fd_interface_ioctl_after temp request name ifr_adjustment o)
  end.

(** A call after the first of [interface_ioctl]s. *)
Definition then_ioctl (request : Z) (name : string) (ifr_adjustment : ifreq -> outcome ifreq) (rest : OS -> OS) (o : OS) : OS :=
  match interface_ioctl request name ifr_adjustment o with
  | Err _ => interface_ioctl_after request name ifr_adjustment o
  | Ok o => rest o
  end.

Definition assign_address_after (device_name : string) (addr peer : Address) : OS -> OS :=
  then_ioctl SIOCSIFADDR device_name (set_ifru (IfrAddr (as_sockaddr addr)))
    (then_ioctl SIOCSIFDSTADDR device_name (set_ifru (IfrAddr (as_sockaddr peer)))
      (then_ioctl SIOCSIFNETMASK device_name
          (fun ifr => let* a := address_of_numbers "255.255.255.255" 0 in set_ifru (IfrAddr (as_sockaddr a)) ifr)
        (interface_ioctl_after SIOCSIFFLAGS device_name (set_ifru (IfrFlags IFF_UP))))).

(** The device is closed, and the kernel removes it. *)
Definition tun_device_new_after (name : string) (addr peer : Address) (o : OS) : OS :=
  let (r, o) := sys_open_rw "/dev/net/tun" o in
  if i32 r <? 0 then o
  else
    match fd_new (i32 r) o with
    | Err _ => fd_new_after (i32 r) o
    | Ok (f, o) =>
        fd_destroy f
          match fd_interface_ioctl f TUNSETIFF name (set_ifru (IfrFlags IFF_TUN)) o with
          | Err _ => fd_interface_ioctl_after f TUNSETIFF name (set_ifru (IfrFlags IFF_TUN)) o
          | Ok o => assign_address_after name addr peer o
          end
    end.

(** ** Sockets *)

Definition make_bound_socket_after (type : Z) (listen_address : Address) (o : OS) : OS :=
  match socket_new AF_INET type o with
  | Err _ => socket_new_after AF_INET type o
  | Ok (sock, o) => fd_destroy sock (sys_bind (fd_ sock) (to_sockaddr listen_address) o).2
  end.

(** The members go from the last to the first. *)
Definition dns_proxy_new_after (udp_listener tcp_listener : FileDescriptor) (o : OS) : OS :=
  fd_destroy udp_listener (fd_destroy tcp_listener
    match require_bound "" udp_listener o with
    | Err _ => (sys_getsockname (fd_ udp_listener) o).2
    | Ok o =>
        match require_bound "" tcp_listener o with
        | Err _ => (sys_getsockname (fd_ tcp_listener) o).2
        | Ok o => (sys_listen (fd_ tcp_listener) 16 o).2
        end
    end).

Definition dns_proxy_bound_after (listen_address : Address) (o : OS) : OS :=
  match make_bound_socket udp_socket listen_address o with
  | Err _ => make_bound_socket_after SOCK_DGRAM listen_address o
  | Ok (u, o) =>
      match make_bound_socket tcp_socket listen_address o with
      | Err _ => fd_destroy u (make_bound_socket_after SOCK_STREAM listen_address o)
      | Ok (t, o) => dns_proxy_new_after u t o
      end
  end.

Definition make_pair_after (o : OS) : OS :=
  let '(r, (a, b), o) := sys_socketpair o in
  if i32 r <? 0 then o
  else
    match fd_new a o with
    | Err _ => fd_new_after a o
    | Ok (x, o) => fd_destroy x (fd_new_after b o)
    end.

Definition event_loop_new_after (o : OS) : OS :=
  match signal_mask_new [SIGCHLD; SIGCONT; SIGHUP; SIGTERM; SIGQUIT; SIGINT] with
  | Err _ => o
  | Ok signals => (sys_sigprocmask_set (mask_ signals) o).2
  end.

(** ** The constructor of the packet shell *)

Definition nat_rule_new_after (fuel : nat) (s_args : list string) (o : OS) : OS :=
  (run_in fuel ([IPTABLES; "-w"; "-t"; "nat"; "-A"] ++ s_args) o).2.

(** The first rule is deleted when the second cannot be made. *)
Definition nat_new_unwound (fuel : nat) (ingress_addr : Address) (process : Z) (o : OS) : outcome OS :=
  match ip ingress_addr with
  | Err _ => Ok o
  | Ok ingress =>
      let mark := print_int process in
      let args := ["PREROUTING"; "-s"; ingress; "-j"; "CONNMARK"; "--set-mark"; mark] in
      match nat_rule_new fuel args o with
      | Err _ => Ok (nat_rule_new_after fuel args o)
      | Ok (pre, o) =>
          nat_rule_destroy fuel pre
            (nat_rule_new_after fuel ["POSTROUTING"; "-j"; "MASQUERADE"; "-m"; "connmark"; "--mark"; mark] o)
      end
  end.

(** A member after which others are made: [rest] is how they are unwound, or
    the body of the constructor is; [destroy] is the member's destructor. *)
Definition with_member {A : Type} (made : outcome (A * OS)) (unwound : outcome OS) (rest : A -> OS -> outcome OS)
    (destroy : A -> OS -> outcome OS) : outcome OS :=
  match made with
  | Err _ => unwound
  | Ok (a, o) => let* o := rest a o in destroy a o
  end.

Definition nothing_to_destroy {A} (_ : A) (o : OS) : outcome OS := Ok o.

(** The members, in their order: the addresses and the name server's have
    nothing to destroy. *)
Definition packet_shell_new_unwound (fuel : nat) (device_prefix : string) (user_environment : option (list string)) (o : OS) :
    outcome OS :=
  with_member (get_mahimahi_base user_environment o) (get_mahimahi_base_unwound user_environment o)
    (fun base o => with_member (two_unassigned_addresses fuel base o) (Ok (two_unassigned_addresses_after fuel o))
      (fun addresses o => with_member (first_nameserver o) (Ok (first_nameserver_after o))
        (fun nameserver o =>
          let (egress, ingress) := addresses in
          let name := device_name device_prefix (sys_getpid o) in
          with_member (tun_device_new name egress ingress o) (Ok (tun_device_new_after name egress ingress o))
            (fun egress_tun o => with_member (dns_proxy_bound egress nameserver nameserver o) (Ok (dns_proxy_bound_after egress o))
              (fun dns_outside o =>
                with_member (nat_new fuel ingress (sys_getpid o) o) (nat_new_unwound fuel ingress (sys_getpid o) o)
                  (fun nat_rule o => with_member (make_pair o) (Ok (make_pair_after o))
                    (fun pipe o => Ok (match event_loop_new (U := unit) o with
                                       | Err _ => event_loop_new_after o
                                       | Ok (_, o) => o (* the body of the constructor *)
                                       end))
                    (fun pipe o => Ok (fd_destroy pipe.1 (fd_destroy pipe.2 o))))
                  (nat_destroy fuel))
              (fun dns_outside o => Ok (dns_proxy_destroy dns_outside o)))
            (fun egress_tun o => Ok (fd_destroy egress_tun o)))
        nothing_to_destroy)
      nothing_to_destroy)
    nothing_to_destroy.
End After.


(** * What the setup keeps when it throws *)

(** One step backwards from the state that is left: a destructor, a call whose
    result was looked at, or an operation that threw. *)
Ltac after_step P :=
  match goal with
  | |- P ?o ?o => reflexivity
  | |- P _ (fd_destroy ?f ?o) => transitivity o; [|exact (fd_destroy_quiet P f o)]
  | |- P _ (match ?c with _ => _ end) =>
      let H := fresh "E" in
      lazymatch type of c with
      | outcome _ => first [let s := open_constr:(_) in assert (H : returns c (fun r => P s (snd r))) by eauto with quiet nocore
                | let s := open_constr:(_) in assert (H : returns c (fun o => P s o)) by eauto with quiet nocore
                | assert (H : True) by exact I]
      | (_ * _)%type => first [eassert (H : P _ (snd c)) by quiet_call | assert (H : True) by exact I]
      | _ => assert (H : True) by exact I
      end;
      destruct c; cbn [returns] in H; open_result
  | |- P _ _ => chain P
  | H : P ?a ?b |- P _ ?b => transitivity a; [clear H|exact H]
  | |- P _ (snd (_ ?o)) => transitivity o; [|quiet_call]
  | |- P _ (_ ?o) => transitivity o; [|solve [eauto with quiet nocore | apply quiet_read]]
  end.
Ltac after_steps P := repeat after_step P.

Section AfterQuiet.
Context {OS : Type} {names : NameFunctions} {kernel : Kernel OS} {opener : OpenKernel OS}
  {ifaddrs : IfaddrKernel OS} {sockets : SocketKernel OS} {devices : DeviceKernel OS} {pairs : PairKernel OS}
  {sigs : SignalKernel OS} {cred : CredKernel OS} {env : EnvironKernel OS} {sleep : SleepKernel OS} {resolver : ResolverKernel OS}.
Context (P : OS -> OS -> Prop) `{!PreOrder P} {quiet : QuietCalls OS P}.
Implicit Types (o : OS) (f : FileDescriptor).

Lemma read_all_after_quiet fuel : forall f o, P o (read_all_after fuel f o).
Proof.
  induction fuel as [|fuel IH]; intros f o; cbn [read_all_after]; [done|].
  pose proof (fd_read_quiet P BUFFER_SIZE f o) as H. destruct (read BUFFER_SIZE f o) as [[[c f1] o1]|]; [|apply quiet_read].
  cbn in H. destruct c; [done|]. transitivity o1; [done|apply IH].
Qed.

Let new_after_quiet n o : P o (fd_new_after n o) := fd_new_after_quiet P n o.
#[local] Hint Resolve read_all_after_quiet new_after_quiet : quiet.

Lemma interfaces_new_after_quiet fuel o : P o (interfaces_new_after fuel o).
Proof. unfold interfaces_new_after. after_steps P. Qed.
#[local] Hint Resolve interfaces_new_after_quiet : quiet.

Lemma two_unassigned_after_quiet fuel o : P o (two_unassigned_addresses_after fuel o).
Proof. unfold two_unassigned_addresses_after. after_steps P. Qed.

Lemma socket_new_after_quiet domain type o : P o (socket_new_after domain type o).
Proof. unfold socket_new_after. after_steps P. Qed.

Lemma fd_ioctl_after_quiet f request name adj o : P o (fd_interface_ioctl_after f request name adj o).
Proof. unfold fd_interface_ioctl_after. after_steps P. Qed.
#[local] Hint Resolve socket_new_after_quiet fd_ioctl_after_quiet : quiet.

Lemma interface_ioctl_after_quiet request name adj o : P o (interface_ioctl_after request name adj o).
Proof. unfold interface_ioctl_after. after_steps P. Qed.
#[local] Hint Resolve interface_ioctl_after_quiet : quiet.

Lemma then_ioctl_quiet request name adj rest o : (forall o, P o (rest o)) -> P o (then_ioctl request name adj rest o).
Proof. intros H. unfold then_ioctl. after_steps P. Qed.

Lemma assign_address_after_quiet name addr peer o : P o (assign_address_after name addr peer o).
Proof. unfold assign_address_after. repeat (apply then_ioctl_quiet; intros). after_steps P. Qed.
#[local] Hint Resolve assign_address_after_quiet : quiet.

Lemma tun_device_after_quiet name addr peer o : P o (tun_device_new_after name addr peer o).
Proof. unfold tun_device_new_after. after_steps P. Qed.

Lemma bound_socket_after_quiet type a o : P o (make_bound_socket_after type a o).
Proof. unfold make_bound_socket_after. after_steps P. Qed.

Lemma dns_proxy_new_after_quiet u t o : P o (dns_proxy_new_after u t o).
Proof. unfold dns_proxy_new_after. after_steps P. Qed.
#[local] Hint Resolve bound_socket_after_quiet dns_proxy_new_after_quiet : quiet.

Lemma dns_proxy_bound_after_quiet a o : P o (dns_proxy_bound_after a o).
Proof. unfold dns_proxy_bound_after. after_steps P. Qed.

Lemma make_pair_after_quiet o : P o (make_pair_after o).
Proof. unfold make_pair_after. after_steps P. Qed.

Lemma event_loop_after_quiet o : P o (event_loop_new_after o).
Proof. unfold event_loop_new_after. after_steps P. Qed.

Lemma first_nameserver_after_quiet o : P o (first_nameserver_after o).
Proof. unfold first_nameserver_after. after_steps P. Qed.

Lemma check_requirements_after_quiet argc o : P o (check_requirements_after argc o).
Proof. unfold check_requirements_after. after_steps P. Qed.
End AfterQuiet.

(** * The setup leaves no process behind *)

(** The calls that set up the link concern no process. *)
Class SetupLaws (OS : Type) `{ChildLaws OS, Kernel OS, OpenKernel OS, IfaddrKernel OS, SocketKernel OS, DeviceKernel OS,
    PairKernel OS, SignalKernel OS, CredKernel OS, EnvironKernel OS, SleepKernel OS, ResolverKernel OS} : Prop := {
  setup_quiet :: QuietCalls OS all_kept;
  setup_scope :: ScopeCalls OS all_kept;
  setup_environ env o : all_kept o (set_environ env o);
}.

Section Setup.
Context {OS : Type} {names : NameFunctions} {config : BuildConfig} `{setup_laws : SetupLaws OS} {fork_laws : ForkLaws OS}
  {exec : ExecKernel OS} {pids : PidKernel OS}.

(** Destructors that ran to the end left no process. *)
Definition unwinds (o : OS) (m : outcome OS) : Prop := match m with Ok o' => none_left o o' | Err e => block_fault e end.

Lemma unwinds_trans (o o1 : OS) m : none_left o o1 -> unwinds o1 m -> unwinds o m.
Proof. destruct m; cbn; [|done]. intros A B. by transitivity o1. Qed.

Lemma unwinds_bind (o : OS) m k : unwinds o m -> (forall o1, unwinds o1 (k o1)) -> unwinds o (bind m k).
Proof. destruct m as [o1|]; cbn; [|done]. intros A B. by eapply unwinds_trans. Qed.

Lemma unwinds_kept (o o' : OS) : all_kept o o' -> unwinds o (Ok o').
Proof. apply all_kept_none_left. Qed.

(** An operation that has its own processes and those of its commands reaped,
    whether it returns or throws. *)
Definition reaps {R} (state : R -> OS) (o : OS) (m : outcome R) (unwound : outcome OS) : Prop :=
  match m with Ok r => none_left o (state r) | Err e => caught_as_exception e = true -> unwinds o unwound end.

Lemma kept_reaps {A} (m : outcome (A * OS)) (o o' : OS) : returns m (fun r => all_kept o r.2) -> all_kept o o' -> reaps snd o m (Ok o').
Proof. destruct m; cbn; intros; by apply all_kept_none_left. Qed.

Lemma member_reaps {A R} (state : R -> OS) made unwound rest (destroy : A -> OS -> outcome OS) (k : A * OS -> outcome R) (o : OS) :
  reaps snd o made unwound -> (forall a o1, reaps state o1 (k (a, o1)) (rest a o1)) -> (forall a o1, unwinds o1 (destroy a o1)) ->
  reaps state o (bind made k) (with_member made unwound rest destroy).
Proof.
  intros Hm Hr Hd. unfold with_member. destruct made as [[a o1]|]; [|exact Hm]. cbn in Hm. cbn [bind]. specialize (Hr a o1).
  destruct (k (a, o1)) as [r|e]; cbn [reaps] in *; [by transitivity o1|]. intros He. apply (unwinds_trans _ _ _ Hm).
  apply unwinds_bind; [by apply Hr|apply Hd].
Qed.

Lemma leave_unwinds tu (o : OS) : unwinds o (unprivileged_leave tu o).
Proof.
  pose proof (leave_kept all_kept tu o) as Hk. pose proof (leave_fault tu o) as He. destruct (unprivileged_leave tu o) as [o1|e].
  - by apply unwinds_kept, Hk.
  - right. by left.
Qed.

Lemma mahimahi_base_reaps user_environment (o : OS) :
  reaps snd o (get_mahimahi_base user_environment o) (get_mahimahi_base_unwound user_environment o).
Proof.
  unfold get_mahimahi_base, get_mahimahi_base_unwound. pose proof (enter_kept all_kept o) as He.
  destruct (unprivileged_enter o) as [[tu o1]|e]; cbn [bind]; [|intros _; by apply unwinds_kept, (enter_after_kept all_kept)].
  specialize (He tu o1 eq_refl).
  assert (Hv : forall v, none_left o (set_environ None (set_environ v o1))).
  { intros v. apply all_kept_none_left. etransitivity; [exact He|]. etransitivity; apply setup_environ. }
  destruct (environ_set o1).
  - intros _. eapply unwinds_trans; [by apply all_kept_none_left|apply leave_unwinds].
  - pose proof (unwinds_trans _ _ _ (Hv user_environment) (leave_unwinds tu _)) as Hl.
    destruct (match sys_getenv _ _ with Some _ => _ | None => _ end); cbn [bind]; [|intros _; exact Hl].
    destruct (unprivileged_leave _ _); [exact Hl|intros _; exact Hl].
Qed.

(** A rule that is installed, or cannot be. *)
Lemma nat_rule_reaps fuel args (o : OS) : (lifetime <= fuel)%nat ->
  reaps snd o (nat_rule_new (S fuel) args o) (Ok (nat_rule_new_after (S fuel) args o)).
Proof.
  intros Hl. unfold nat_rule_new, nat_rule_new_after, run.
  pose proof (run_in_reaps fuel ([IPTABLES; "-w"; "-t"; "nat"; "-A"] ++ args) o ltac:(done) Hl) as Hr.
  destruct (run_in _ _ o) as [[u|e] o1]; cbn [bind reaps]; [done|]. intros He. by destruct Hr as [[_ Hr]|[[st|sig] ->]].
Qed.

Lemma nat_rule_destroy_unwinds fuel r (o : OS) : (lifetime <= fuel)%nat -> unwinds o (nat_rule_destroy (S fuel) r o).
Proof.
  intros Hl. unfold nat_rule_destroy. pose proof (run_caught_reaps fuel ([IPTABLES; "-w"; "-t"; "nat"; "-D"] ++ arguments r) o ltac:(done) Hl) as Hr.
  destruct (run_caught _ _ o); cbn; [done|]. by right; right.
Qed.

Lemma nat_destroy_unwinds fuel n (o : OS) : (lifetime <= fuel)%nat -> unwinds o (nat_destroy (S fuel) n o).
Proof. intros Hl. apply unwinds_bind; intros; by apply nat_rule_destroy_unwinds. Qed.

Lemma nat_new_reaps fuel a pid (o : OS) : (lifetime <= fuel)%nat ->
  reaps snd o (nat_new (S fuel) a pid o) (nat_new_unwound (S fuel) a pid o).
Proof.
  intros Hl. unfold nat_new, nat_new_unwound. destruct (ip a) as [s|]; cbn [bind]; [|intros _; by apply unwinds_kept].
  apply (member_reaps snd _ (Ok _) (fun _ o => Ok (nat_rule_new_after _ _ o)) (nat_rule_destroy _)); [by apply nat_rule_reaps| |].
  - intros pre o1. pose proof (nat_rule_reaps fuel ["POSTROUTING"; "-j"; "MASQUERADE"; "-m"; "connmark"; "--mark"; print_int pid] o1 Hl) as Hr.
    by destruct (nat_rule_new _ _ o1) as [[post o2]|].
  - intros pre o1. by apply nat_rule_destroy_unwinds.
Qed.

Lemma fd_destroy_kept f (o : OS) : all_kept o (fd_destroy f o).
Proof. exact (fd_destroy_quiet all_kept f o). Qed.

(** The constructor of the packet shell. *)
Lemma packet_shell_new_reaps fuel prefix user_environment w (o : OS) : (lifetime <= fuel)%nat ->
  reaps snd o (packet_shell_new (S fuel) prefix user_environment w o) (packet_shell_new_unwound (S fuel) prefix user_environment o).
Proof.
  intros Hl. unfold packet_shell_new, packet_shell_new_unwound.
  apply member_reaps; [apply mahimahi_base_reaps| |by intros; apply unwinds_kept]. intros base o1.
  apply member_reaps; [apply kept_reaps; [apply (two_unassigned_quiet all_kept)|apply (two_unassigned_after_quiet all_kept)]| |by intros; apply unwinds_kept].
  intros [egress ingress] o2.
  apply member_reaps; [apply kept_reaps; [apply (first_nameserver_quiet all_kept)|apply (first_nameserver_after_quiet all_kept)]| |by intros; apply unwinds_kept].
  intros nameserver o3.
  apply member_reaps; [apply kept_reaps; [apply (tun_device_quiet all_kept)|apply (tun_device_after_quiet all_kept)]| |by intros; apply unwinds_kept, fd_destroy_kept].
  intros egress_tun o4.
  apply member_reaps; [apply kept_reaps; [apply (dns_proxy_quiet all_kept)|apply (dns_proxy_bound_after_quiet all_kept)]| |].
  2: { intros dns o5. apply unwinds_kept. unfold dns_proxy_destroy. etransitivity; apply fd_destroy_kept. }
  intros dns_outside o5.
  apply member_reaps; [by apply nat_new_reaps| |by intros; apply nat_destroy_unwinds]. intros nat_rule o6.
  apply member_reaps; [apply kept_reaps; [apply (make_pair_quiet all_kept)|apply (make_pair_after_quiet all_kept)]| |].
  2: { intros pipe o7. apply unwinds_kept. etransitivity; apply fd_destroy_kept. }
  intros [first second] o7. pose proof (event_loop_quiet (U := unit) all_kept o7) as Hq.
  destruct (event_loop_new o7) as [[l o8]|e]; cbn [bind]; [|intros _; apply unwinds_kept, (event_loop_after_quiet all_kept)].
  cbn in Hq. destruct (_ <? _)%nat; [intros _; by apply unwinds_kept|]. destruct (environ_set o8); [intros _; by apply unwinds_kept|].
  destruct (initial_timestamp w) as [[t w1]|]; cbn [bind]; [|intros _; by apply unwinds_kept]. by apply all_kept_none_left.
Qed.

(** It has no children, and its loop has no handlers. *)
Lemma packet_shell_new_empty fuel prefix user_environment w (o : OS) :
  returns (packet_shell_new fuel prefix user_environment w o) (fun r => shell_children_ r.1.1 = [] /\ poller_ (event_loop_ r.1.1) = poller_new).
Proof.
  unfold packet_shell_new. do 7 (eapply returns_bind; [apply returns_any|]; intros [? ?] _; open_result).
  eapply (returns_bind _ _ (fun r => poller_ r.1 = poller_new)).
  { unfold event_loop_new. do 2 (eapply returns_bind; [apply returns_any|]; intros ? _). done. }
  intros [l o8] Hp. destruct (_ <? _)%nat; [done|]. destruct (environ_set o8); [done|].
  eapply returns_bind; [apply returns_any|]. by intros [t w1] _.
Qed.
End Setup.
