(* ===== verification/FerryUnwinding.v ===== *)
(** What an exception leaves behind in the process of a direction
    (src/packet/packetshell.cc, with src/frontend/cellular_queue.cc,
    src/util/file_descriptor.cc, src/util/dns_proxy.cc and src/util/socket.cc).

    [Unwinding] follows an exception through the event loop; here are the states
    in which a ferry's callbacks throw, and the end of the process with the
    destructors that run then: an exception of the loop (the user's command has
    failed, say) ends dnsmasq and the user's command like any other end of it,
    and the process exits with [EXIT_FAILURE].  The queue and the clock, which
    nothing uses any more, are left as they were. *)
From Stdlib Require Import String.
From S2P Require Import Prelude Timestamp Packets PacketQueue LinkQueue DelayTrace CellularQueue FileDescriptor SignalFD Poller ChildProcess Privileges Address Socket DnsProxy EventLoop Unwinding Ferry Link Commands PacketShell.

(** * Where the callbacks throw *)

Section Sink.
Context {W Q F : Type} {clock : Clock W} {apq : AbstractPacketQueue W Q} {sink : PacketSink F}.
(** Where a write throws. *)
Context (fd_write_after : bytes -> F -> F).
Implicit Types s : CellularQueue Q.

Fixpoint write_output_after (o : list QueuedPacket) (fd : F) : F :=
  match o with
  | [] => fd
  | packet :: rest =>
      match fd_write (contents packet) fd with
      | Ok fd => write_output_after rest fd
      | Err _ => fd_write_after (contents packet) fd
      end
  end.

Definition forward_packet_after (next_packet : DelayQueuePacket) s (fd : F) : F :=
  if d_is_bypass_link_queue next_packet && (current_link_queue_size_ (link s) =? 0)
  then fd_write_after (d_contents next_packet) fd else fd.

Fixpoint forward_loop_after (fuel : nat) (now : Z) (next_packet : DelayQueuePacket) s (w : W) (fd : F) : F :=
  if len (d_contents next_packet) =? 0 then fd else
  match fuel with
  | O => fd
  | S fuel =>
      match forward_packet now next_packet s w fd with
      | Err _ => forward_packet_after next_packet s fd
      | Ok (s, w, fd) =>
          match get_next_from_delay_queue s w with
          | Err _ => fd
          | Ok (next_packet, s, w) => forward_loop_after fuel now next_packet s w fd
          end
      end
  end.

Definition write_packets_after s (w : W) (fd : F) : F :=
  match get_next_from_delay_queue s w with
  | Err _ => fd
  | Ok (next_packet, s, w) =>
      match timestamp w with
      | Err _ => fd
      | Ok (now, w) =>
          let fuel := S (List.length (delay_packet_queue_ s)) in
          match forward_loop fuel now next_packet s w fd with
          | Err _ => forward_loop_after fuel now next_packet s w fd
          | Ok (s, w, fd) =>
              match timestamp w with
              | Err _ => fd
              | Ok _ => write_output_after (output_queue_ (link s)) fd
              end
          end
      end
  end.
End Sink.

Section Calls.
Context {OS : Type} {kernel : Kernel OS} {sockets : SocketKernel OS} {threads : ThreadKernel OS}.

(** A packet for the sibling is written with one call, or two that throw. *)
Fixpoint write_loop_after (fuel : nat) (rest : bytes) (write_all : bool) (f : FileDescriptor) (o : OS) : OS :=
  match fuel, rest with
  | S fuel, _ :: _ =>
      match write_some rest f o with
      | Err _ => (sys_write (fd_ f) rest o).2
      | Ok (rest, f, o) => if write_all && negb (len rest =? 0) then write_loop_after fuel rest write_all f o else o
      end
  | _, _ => o
  end.

Definition fd_sink_write_after (c : bytes) (s : FileDescriptor * OS) : FileDescriptor * OS :=
  (s.1, write_loop_after (S (length c)) c true s.1 s.2).

(** ** The handlers of the DNS proxy *)

Definition start_thread_after (r : dns_request) (o : OS) : OS := (sys_thread r o).2.

Definition handle_udp_after (p : DNSProxy) (o : OS) : OS :=
  match recvfrom (udp_listener_ p) o with
  | Err _ => (sys_recvfrom (fd_ (udp_listener_ p)) RECEIVE_MTU o).2
  | Ok (asker, payload, _, o) => start_thread_after (UdpRequest asker payload) o
  end.

Definition verify_option_after (option : Z) (f : FileDescriptor) (o : OS) : OS := (sys_getsockopt (fd_ f) SOL_SOCKET option o).2.

(** The checks of the constructor, in which the descriptor is closed again. *)
Definition socket_of_fd_after (f : FileDescriptor) (domain : Z) (o : OS) : OS :=
  fd_destroy f
    match verify_option SO_DOMAIN domain "socket domain mismatch" f o with
    | Err _ => verify_option_after SO_DOMAIN f o
    | Ok o => verify_option_after SO_TYPE f o
    end.

Definition accept_connection_after (f : FileDescriptor) (o : OS) : OS :=
  let (r, o) := sys_accept (fd_ f) o in
  if i32 r <? 0 then o
  else
    match fd_new (i32 r) o with
    | Err _ => fd_new_after (i32 r) o
    | Ok (c, o) => socket_of_fd_after c AF_INET o
    end.

(** The client that the thread does not get is closed. *)
Definition handle_tcp_after (p : DNSProxy) (o : OS) : OS :=
  match accept_connection (tcp_listener_ p) o with
  | Err _ => accept_connection_after (tcp_listener_ p) o
  | Ok (_, client, o) => fd_destroy client (start_thread_after (TcpRequest client) o)
  end.
End Calls.

(** * The loop of a ferry *)

Section Ferry.
Context {W Q OS : Type} {clock : Clock W} {apq : AbstractPacketQueue W Q}
  {kernel : Kernel OS} {tun_kernel : TunKernel OS} {procs : ProcessKernel OS} {sigs : SignalKernel OS}
  {cred : CredKernel OS} {pk : PollKernel (LoopState (FerryState W Q) OS)}
  {sockets : SocketKernel OS} {threads : ThreadKernel OS}.

Abbreviation state := (LoopState (FerryState W Q) OS).

Definition on_tun_after (x : state) : state :=
  match read BUFFER_SIZE (tun_of x) (os x) with
  | Err _ => x <| os := read_after BUFFER_SIZE (tun_of x) (os x) |>
  | Ok (_, f, o) => x <| os := o |> <| user := (user x) <| tun := f |> |>
  end.

Definition on_output_after (x : state) : state :=
  x <| os := (write_packets_after fd_sink_write_after (ferry_queue (user x)) (world (user x)) (sibling_of x, os x)).2 |>.

Definition on_dns_after (handle_after : DNSProxy -> OS -> OS) (x : state) : state :=
  match dns (user x) with
  | None => x
  | Some p => x <| os := handle_after p (os x) |>
  end.

(** Those of [dns_actions] and of [ferry_actions]; the conditions and
    [wait_time] only look at the queue and the clock. *)
Definition dns_afters (x : state) : list (ActionAfter state) :=
  match dns (user x) with
  | None => []
  | Some _ => [ {| callback_after := on_dns_after handle_udp_after; interested_after := fun x => x |};
                {| callback_after := on_dns_after handle_tcp_after; interested_after := fun x => x |} ]
  end.

Definition ferry_afters : list (ActionAfter state) :=
  [ {| callback_after := on_tun_after; interested_after := fun x => x |};
    {| callback_after := on_output_after; interested_after := fun x => x |};
    {| callback_after := fun x => x; interested_after := fun x => x |} ].

(** The state when an exception has left [loop] of a ferry whose event loop had
    no action but the proxy's. *)
Definition ferry_loop_unwound (fuel : nat) (l : EventLoop (FerryState W Q) OS) (x : state) : outcome state :=
  internal_loop_unwound fuel queue_wait_time (fun x => x) (dns_afters x ++ ferry_afters) (ferry_loop_actions l x) x.

(** ** The end of the process *)

(** From the start of the loop: the status with which the process exits, and
    the state of the system then.  [ingress] is the device of the inner
    namespace, which goes out of scope with the ferry. *)
Definition ferry_ends (fuel : nat) (ingress : state -> FileDescriptor) (l : EventLoop (FerryState W Q) OS) (x : state) :
    outcome (Z * OS) :=
  match ferry_loop fuel l x with
  | Ok (status, x) =>
      let* o := end_of_ferry fuel (child_processes_ x) (ingress x) (os x) in
      Ok (status, o)
  | Err e =>
      if caught_as_exception e then
        let* x := ferry_loop_unwound fuel l x in
        let* o := end_of_ferry fuel (child_processes_ x) (ingress x) (os x) in
        Ok (EXIT_FAILURE, o)
      else Err e
  end.
End Ferry.

(** * What the callbacks keep when they throw *)

Section SinkAfter.
Context {W Q F : Type} {clock : Clock W} {apq : AbstractPacketQueue W Q} {sink : PacketSink F}.
Context (fd_write_after : bytes -> F -> F) (P : F -> F -> Prop) `{!PreOrder P}.
Hypothesis P_write : forall c f f', fd_write c f = Ok f' -> P f f'.
Hypothesis P_write_after : forall c f, P f (fd_write_after c f).

Lemma write_output_after_kept o : forall f, P f (write_output_after fd_write_after o f).
Proof using P_write P_write_after PreOrder0.
  induction o as [|packet o IH]; intros f; cbn [write_output_after]; [done|].
  destruct (fd_write (contents packet) f) as [f1|] eqn:E; [|apply P_write_after].
  apply P_write in E. etransitivity; [exact E|apply IH].
Qed.

Lemma forward_loop_after_kept fuel : forall now p (s : CellularQueue Q) (w : W) f, P f (forward_loop_after fd_write_after fuel now p s w f).
Proof using P_write P_write_after PreOrder0.
  assert (Hp : forall p (s : CellularQueue Q) f, P f (forward_packet_after fd_write_after p s f)).
  { intros p s f. unfold forward_packet_after. destruct (_ && _); [apply P_write_after|done]. }
  induction fuel as [|fuel IH]; intros now p s w f; cbn [forward_loop_after]; (destruct (_ =? 0); [done|]); [done|].
  destruct (forward_packet now p s w f) as [[[s1 w1] f1]|] eqn:E; [|apply Hp].
  apply (forward_packet_frame P ltac:(done) P_write) in E. etransitivity; [exact E|].
  destruct (get_next_from_delay_queue s1 w1) as [[[p2 s2] w2]|]; [apply IH|done].
Qed.

Lemma write_packets_after_kept (s : CellularQueue Q) (w : W) f : P f (write_packets_after fd_write_after s w f).
Proof using P_write P_write_after PreOrder0.
  unfold write_packets_after. destruct (get_next_from_delay_queue s w) as [[[p s1] w1]|]; [|done].
  destruct (timestamp w1) as [[now w2]|]; [|done].
  destruct (forward_loop _ now p s1 w2 f) as [[[s2 w3] f1]|] eqn:E; [|apply forward_loop_after_kept].
  apply (forward_loop_frame P ltac:(done) ltac:(by intros ??? A B; etransitivity) P_write) in E. etransitivity; [exact E|].
  destruct (timestamp w3); [apply write_output_after_kept|done].
Qed.
End SinkAfter.

Section CallsAfter.
Context {W Q OS : Type} {clock : Clock W} {apq : AbstractPacketQueue W Q} {kernel : Kernel OS} {tun_kernel : TunKernel OS}
  {sockets : SocketKernel OS} {threads : ThreadKernel OS} {pk : PollKernel (LoopState (FerryState W Q) OS)}.
Context {sigs : SignalKernel OS} {cred : CredKernel OS}.
Context (P : OS -> OS -> Prop) `{!PreOrder P} {devices : DeviceCallsKeep W Q OS P} {scope : ScopeCalls OS P}.

Abbreviation state := (LoopState (FerryState W Q) OS).

Lemma write_loop_after_kept fuel : forall b all f (o : OS), P o (write_loop_after fuel b all f o).
Proof using PreOrder0 devices.
  induction fuel as [|fuel IH]; intros [|x b] all f o; cbn [write_loop_after]; try done.
  pose proof (keep_write (P := P) (fd_ f) (x :: b) o) as Hk. destruct (write_some (x :: b) f o) as [[[b1 f1] o1]|] eqn:E; [|exact Hk].
  assert (H1 : P o o1).
  { unfold write_some in E. destruct (sys_write (fd_ f) (x :: b) o) as [n o2]. apply bind_Ok in E as (m & _ & E).
    destruct (m =? 0); [done|]. destruct (_ <? m); [done|]. by simplify_eq. }
  destruct (all && _); [|exact H1]. etransitivity; [exact H1|apply IH].
Qed.

Lemma on_output_after_kept (x : state) : P (os x) (os (on_output_after x)).
Proof using PreOrder0 devices.
  change (P (sibling_of x, os x).2 (write_packets_after fd_sink_write_after (ferry_queue (user x)) (world (user x)) (sibling_of x, os x)).2).
  assert (HP : PreOrder (fun f f' : FileDescriptor * OS => P f.2 f'.2)) by (split; [by intros f|intros f1 f2 f3; by transitivity f2.2]).
  apply (write_packets_after_kept fd_sink_write_after (fun f f' : FileDescriptor * OS => P f.2 f'.2)).
  - apply (sink_write_kept P).
  - intros c f. apply write_loop_after_kept.
Qed.

Lemma on_tun_after_kept (x : state) : P (os x) (os (on_tun_after x)).
Proof using PreOrder0 devices.
  unfold on_tun_after, read_after, read. pose proof (keep_read (P := P) (fd_ (tun_of x)) (Z.min BUFFER_SIZE BUFFER_SIZE) (os x)) as H.
  by destruct (sys_read _ _ (os x)) as [[c|] o].
Qed.

Lemma handle_udp_after_kept p (o : OS) : P o (handle_udp_after p o).
Proof using PreOrder0 devices.
  unfold handle_udp_after, recvfrom. pose proof (keep_recvfrom (P := P) (fd_ (udp_listener_ p)) RECEIVE_MTU o) as H.
  destruct (sys_recvfrom _ _ o) as [[[[n b] source]|] o1]; cbn [bind]; [|exact H]. destruct (RECEIVE_MTU <? n); [exact H|].
  destruct (address_of_sockaddr source _); cbn [bind]; [|exact H]. etransitivity; [exact H|]. apply keep_thread.
Qed.

Lemma socket_of_fd_after_kept f domain (o : OS) : P o (socket_of_fd_after f domain o).
Proof using PreOrder0 devices scope.
  unfold socket_of_fd_after. etransitivity; [|apply (destroy_kept P)].
  destruct (verify_option SO_DOMAIN domain _ f o) as [o1|] eqn:E; [|apply keep_getsockopt].
  apply (option_kept P) in E. etransitivity; [exact E|]. apply keep_getsockopt.
Qed.

Lemma accept_connection_after_kept f (o : OS) : P o (accept_connection_after f o).
Proof using PreOrder0 devices scope.
  unfold accept_connection_after, fd_new_after, fd_new, check_and_set_cloexec. cbn [fd_].
  pose proof (keep_accept (P := P) (fd_ f) o) as H1. destruct (sys_accept _ o) as [r o1]. destruct (i32 r <? 0); [exact H1|].
  destruct (i32 r <=? 2); [exact H1|]. pose proof (keep_cloexec (P := P) (i32 r) o1) as H2.
  destruct (sys_set_cloexec _ o1) as [r2 o2]. destruct (SystemCall _ r2); cbn [bind]; [|by etransitivity].
  etransitivity; [exact H1|]. etransitivity; [exact H2|]. apply socket_of_fd_after_kept.
Qed.

Lemma handle_tcp_after_kept p (o : OS) : P o (handle_tcp_after p o).
Proof using PreOrder0 devices scope.
  unfold handle_tcp_after. destruct (accept_connection _ o) as [[[f c] o1]|] eqn:E; [|apply accept_connection_after_kept].
  apply (accept_connection_kept P) in E. etransitivity; [exact E|]. etransitivity; [|apply (destroy_kept P)]. apply keep_thread.
Qed.

Lemma on_dns_after_kept after (x : state) : (forall p o, P o (after p o)) -> P (os x) (os (on_dns_after after x)).
Proof using PreOrder0. intros H. unfold on_dns_after. destruct (dns (user x)); [apply H|done]. Qed.
End CallsAfter.

(** * The children *)

(** What the end of a ferry's process relies on: the calls around the loop leave
    its devices and children alone, those of its callbacks the children, no call
    prolongs what a child still goes through, and a descriptor for signals is no
    tunnel device. *)
Class FerryEndLaws (W Q OS : Type) `{FerryView W Q OS, SignalKernel OS, CredKernel OS} : Prop := {
  scope_quiet :: ScopeCalls OS (quiet_call (W := W) (Q := Q));
  devices_quiet :: DeviceCallsKeep W Q OS all_kept;
  waitid_calmer pid b1 b2 si o : calmer o (sys_waitid pid b1 b2 si o).2;
  kill_calmer pid sig o : calmer o (sys_kill pid sig o).2;
  raise_calmer sig o : calmer o (sys_raise sig o).2;
  signalfd_other m o : 0 <= i32 (sys_signalfd m o).1 -> ~ tun_device (OS := OS) (i32 (sys_signalfd m o).1);
}.

#[export] Instance ferry_loop_laws {W Q OS : Type} {view : FerryView W Q OS} {sigs : SignalKernel OS} {cred : CredKernel OS}
  {laws : FerryEndLaws W Q OS} : LoopLaws (FerryState W Q) OS.
Proof.
  split; [|apply keep_read|apply waitid_calmer|apply kill_calmer|apply raise_calmer|].
  - split; intros; apply scope_quiet.
  - intros pfds t x. destruct (poll_frame (W := W) (Q := Q) pfds t x) as (E1 & E2 & _ & _ & Hk). by split_and!.
Qed.

Section FerryFamily.
Context {W Q OS : Type} {clock : Clock W} {apq : AbstractPacketQueue W Q} {kernel : Kernel OS} {tun_kernel : TunKernel OS}
  {procs : ProcessKernel OS} {children_laws : ChildLaws OS} {sockets : SocketKernel OS} {threads : ThreadKernel OS}
  {sigs : SignalKernel OS} {cred : CredKernel OS} {pk : PollKernel (LoopState (FerryState W Q) OS)}
  {laws : LoopLaws (FerryState W Q) OS} {devices : DeviceCallsKeep W Q OS all_kept}.

Abbreviation state := (LoopState (FerryState W Q) OS).

Lemma device_family {A} (m : state -> outcome (A * state)) :
  (forall x a x', m x = Ok (a, x') -> child_processes_ x' = child_processes_ x) -> step_kept (on_system all_kept) m ->
  step_kept family_kept m.
Proof. intros Hc Hm x a x' E. apply quiet_family; [by eapply Hc|by eapply Hm]. Qed.

Lemma pure_family {A} (m : state -> outcome (A * state)) :
  (forall x a x', m x = Ok (a, x') -> child_processes_ x' = child_processes_ x /\ os x' = os x) -> step_kept family_kept m.
Proof. intros Hm x a x' E. apply Hm in E as [Ec Eo]. apply quiet_family; [done|by rewrite Eo]. Qed.

Lemma ferry_actions_family x : Forall (action_kept family_kept) (dns_actions x ++ ferry_actions).
Proof.
  assert (Ha : step_kept family_kept (always (X := state))) by (apply pure_family; intros y a y' E; by injection E as _ <-).
  assert (Hd : forall handle, (forall p o p' o', handle p o = Ok (p', o') -> all_kept o o') ->
    step_kept family_kept (on_dns (W := W) (Q := Q) handle)).
  { intros handle Hh. apply device_family; [|by apply (on_dns_kept all_kept)]. intros y r y' E. unfold on_dns in E.
    destruct (dns (user y)); [|done]. apply bind_Ok in E as ([p o] & _ & E). by simplify_eq. }
  apply Forall_app. split.
  - unfold dns_actions. destruct (dns (user x)); [|constructor].
    repeat (apply Forall_cons; split); [..|constructor]; (split; [apply Hd|exact Ha]); [apply (handle_udp_kept all_kept)|apply (handle_tcp_kept all_kept)].
  - repeat (apply Forall_cons; split); [..|constructor]; split; cbn [callback when_interested action_new]; try exact Ha.
    + apply device_family; [|apply (on_tun_kept all_kept)]. intros y r y' E. unfold on_tun in E.
      apply bind_Ok in E as ([[c f] o] & _ & E). apply bind_Ok in E as ([q w] & _ & E). by simplify_eq.
    + apply device_family; [|apply (on_output_kept all_kept)]. intros y r y' E. unfold on_output in E.
      apply bind_Ok in E as ([[q w] f] & _ & E). by simplify_eq.
    + apply pure_family. intros y r y' E. unfold output_pending in E. apply bind_Ok in E as ([b w] & _ & E). by simplify_eq.
    + apply pure_family. intros y r y' E. by injection E as _ <-.
    + apply pure_family. intros y r y' E. by injection E as _ <-.
Qed.

Lemma ferry_afters_family x : Forall (after_kept (U := FerryState W Q) family_kept) (dns_afters x ++ ferry_afters).
Proof.
  assert (Hd : forall after, (forall p (o : OS), all_kept o (after p o)) -> forall y : state, family_kept y (on_dns_after after y)).
  { intros after Ho y. apply quiet_family; [unfold on_dns_after; by destruct (dns (user y))|by apply on_dns_after_kept; [apply _|]]. }
  assert (Hs : ScopeCalls OS all_kept) by apply loop_scope.
  apply Forall_app. split.
  - unfold dns_afters. destruct (dns (user x)); [|constructor].
    repeat (apply Forall_cons; split); [..|constructor]; (split; [|done]); apply Hd; [apply (handle_udp_after_kept all_kept)|apply (handle_tcp_after_kept all_kept)].
  - repeat (apply Forall_cons; split); [..|constructor]; (split; [|done]); intros y; [..|done]; apply quiet_family.
    + cbn [callback_after]. unfold on_tun_after. by destruct (read BUFFER_SIZE (tun_of y) (os y)) as [[[c f] o]|].
    + apply (on_tun_after_kept all_kept).
    + done.
    + apply (on_output_after_kept all_kept).
Qed.

Lemma ferry_wait_family : step_kept family_kept (queue_wait_time (W := W) (Q := Q) (OS := OS)).
Proof.
  apply pure_family. intros x t x' E. unfold queue_wait_time in E. apply bind_Ok in E as ([[t' q] w] & _ & E). by simplify_eq.
Qed.

(** The loop that the process starts. *)
Lemma ferry_loop_poller (l : EventLoop (FerryState W Q) OS) x : poller_ l = poller_new ->
  actions_ (poller_ (ferry_loop_actions (register_handlers l x) x)) = dns_actions x ++ ferry_actions.
Proof.
  intros Hl. unfold ferry_loop_actions, register_handlers, dns_actions. destruct l as [sg p]. cbn in Hl. subst p. by destruct (dns (user x)).
Qed.

Lemma ferry_loop_family fuel (l : EventLoop (FerryState W Q) OS) (x : state) st x' : poller_ l = poller_new ->
  ferry_loop fuel (register_handlers l x) x = Ok (st, x') -> family_kept x x'.
Proof.
  intros Hl. apply internal_loop_family; [apply ferry_wait_family|]. rewrite ferry_loop_poller by done. apply ferry_actions_family.
Qed.

Lemma ferry_loop_unwound_family fuel (l : EventLoop (FerryState W Q) OS) (x : state) : poller_ l = poller_new ->
  match ferry_loop_unwound fuel (register_handlers l x) x with
  | Ok x' => family_kept x x'
  | Err e => e = in_destructor_fault
  end.
Proof.
  intros Hl. apply internal_loop_unwound_family; [apply ferry_wait_family|done| |apply ferry_afters_family].
  rewrite ferry_loop_poller by done. apply ferry_actions_family.
Qed.

Lemma end_of_ferry_reaps n ingress (x x' : state) : children_inv (child_processes_ x) (os x) ->
  fates_within n (child_processes_ x) (os x) -> family_kept x x' ->
  exists o', end_of_ferry (S n) (child_processes_ x') ingress (os x') = Ok o' /\
    forall p, unreaped p o' -> unreaped p (os x) /\ p ∉ pids (child_processes_ x).
Proof.
  intros Hc Hf [Hp Hcalm Hinv]. unfold end_of_ferry.
  destruct (destroy_children_leaves n (child_processes_ x') (os x')) as (cs & o2 & -> & Hk); [by apply Hinv|eapply fates_within_pids; [exact Hp|apply Hcalm|exact Hf]|].
  cbn [bind]. eexists. split; [done|]. intros p Hu. apply (destroy_kept all_kept ingress o2) in Hu.
  destruct (Hk p Hu) as [H1 H2]. rewrite Hp in H2. split; [by apply Hcalm|done].
Qed.

(** However the loop ends, normally or with an exception that is caught, the
    process exits with its children ended. *)
Lemma ferry_ends_reaps fuel ingress (l : EventLoop (FerryState W Q) OS) (x : state) : poller_ l = poller_new ->
  children_inv (child_processes_ x) (os x) -> fates_within fuel (child_processes_ x) (os x) ->
  match ferry_ends (S fuel) ingress (register_handlers l x) x with
  | Ok (_, o') => forall p, unreaped p o' -> unreaped p (os x) /\ p ∉ pids (child_processes_ x)
  | Err e => e = in_destructor_fault \/ ferry_loop (S fuel) (register_handlers l x) x = Err e /\ caught_as_exception e = false
  end.
Proof.
  intros Hl Hc Hf. unfold ferry_ends. pose proof (ferry_loop_family (S fuel) l x) as Hn.
  pose proof (ferry_loop_unwound_family (S fuel) l x Hl) as Hu.
  destruct (ferry_loop _ _ x) as [[st x']|e] eqn:E.
  - destruct (end_of_ferry_reaps fuel (ingress x') x x' Hc Hf (Hn st x' Hl eq_refl)) as (o' & -> & Hp). exact Hp.
  - destruct (caught_as_exception e) eqn:He; [|by right]. destruct (ferry_loop_unwound _ _ x) as [x'|e']; cbn [bind]; [|by left].
    destruct (end_of_ferry_reaps fuel (ingress x') x x' Hc Hf Hu) as (o' & -> & Hp). exact Hp.
Qed.
End FerryFamily.
