(* ===== verification/ProcessEnds.v ===== *)
(** The end of the processes: a loop from its start to its end, and the
    destructors that follow (src/util/event_loop.cc, src/packet/packetshell.cc).

    When the loop of a ferry has ended, its process ends dnsmasq and the user's
    command; when the loop of the main process has ended, it ends the processes
    of both directions.  The theorems say that they succeed: whatever happened in
    the loop, no child is left behind. *)
From S2P Require Import Prelude Timestamp Packets PacketQueue DroppingQueue LinkQueue DelayTrace PacketHeader FileDescriptor CellularQueue SignalFD Poller ChildProcess Privileges Address Interfaces Socket DnsProxy EventLoop Unwinding Ferry Link Shell Commands NetDevice SocketPair Util PacketShell FerryUnwinding.

(** * How loops begin and end *)

(** The descriptor of the signals is a new one. *)
Lemma loop_start_signals {U OS} {kernel : Kernel OS} {procs : ProcessKernel OS} {sigs : SignalKernel OS} {cred : CredKernel OS} (fresh : Z -> Prop)
    (l : EventLoop U OS) (x : LoopState U OS) tu l' x' :
  (forall m o, 0 <= i32 (sys_signalfd m o).1 -> fresh (i32 (sys_signalfd m o).1)) ->
  loop_start l x = Ok (tu, l', x') -> fresh (fd_ (signal_fd x')).
Proof.
  unfold loop_start. intros Hf E. apply bind_Ok in E as ([tu1 o1] & E1 & E). apply bind_Ok in E as ([m o2] & E2 & E).
  destruct (negb _); [done|]. apply bind_Ok in E as ([sfd o3] & E3 & E). simplify_eq. cbn.
  unfold signal_fd_new, fd_new, check_and_set_cloexec in E3. specialize (Hf (mask_ (signals_ l)) o2).
  destruct (sys_signalfd _ o2) as [r o']. cbn in Hf. unfold SystemCall in E3. destruct (Z.leb_spec 0 (i32 r)); cbn [bind fd_] in E3; [|done].
  destruct (i32 r <=? 2); [done|]. destruct (sys_set_cloexec _ o') as [r2 o'']. destruct (0 <=? i32 r2); cbn [bind] in E3; [|done].
  simplify_eq. by apply Hf.
Qed.

(** How a loop that does not return a status may end. *)
Definition loop_fault (e : fault) : Prop :=
  caught_as_exception e = true \/ e = Diverges \/ e = Terminates "exception in a destructor".

Lemma enter_fault {OS} {cred : CredKernel OS} (o : OS) : match unprivileged_enter o with Ok _ => True | Err e => caught_as_exception e = true end.
Proof.
  unfold unprivileged_enter, SystemCall, assert_not_root. destruct (sys_setegid _ o) as [r o1].
  destruct (0 <=? i32 r); cbn [bind]; [|done]. destruct (sys_seteuid _ o1) as [r2 o2]. destruct (0 <=? i32 r2); cbn [bind]; [|done].
  by destruct (_ || _).
Qed.

Section InternalLoop.
Context {U OS : Type} {kernel : Kernel OS} {procs : ProcessKernel OS} {sigs : SignalKernel OS} {cred : CredKernel OS}
  {pk : PollKernel (LoopState U OS)}.

(** The faults of the loop are its own or those of its turns. *)
Lemma internal_loop_fault fuel wait_time (l : EventLoop U OS) (x : LoopState U OS) e :
  internal_loop fuel wait_time l x = Err e ->
  loop_fault e \/ exists tu l1 x1, loop_start l x = Ok (tu, l1, x1) /\ turns fuel wait_time (poller_ l1) x1 = Err e.
Proof.
  unfold internal_loop. intros E. destruct (loop_start l x) as [[[tu l1] x1]|e1] eqn:Es; cbn [bind] in E.
  - destruct (turns fuel wait_time (poller_ l1) x1) as [[[st p2] x2]|e2] eqn:Et; cbn [bind] in E; [left|simplify_eq; right; by exists tu, l1, x1].
    destruct st as [st|]; [|simplify_eq; by right; left]. unfold loop_end, unprivileged_leave, SystemCall in E.
    destruct (sys_seteuid _ _) as [r o1]. destruct (0 <=? i32 r); cbn [bind] in E; [|cbn in E; simplify_eq; by right; right].
    destruct (sys_setegid _ _) as [r2 o2]. destruct (0 <=? i32 r2); cbn in E; simplify_eq. by right; right.
  - simplify_eq. do 2 left. unfold loop_start in Es. pose proof (enter_fault (os x)) as He.
    destruct (unprivileged_enter (os x)) as [[tu o1]|]; cbn [bind] in Es; [|by simplify_eq].
    unfold current_mask, SystemCall in Es. destruct (sys_sigprocmask_get o1) as [[r m] o2].
    destruct (0 <=? i32 r); cbn [bind] in Es; [|by simplify_eq]. destruct (negb _); [by simplify_eq|].
    unfold signal_fd_new, fd_new, check_and_set_cloexec, SystemCall in Es. destruct (sys_signalfd _ o2) as [r2 o3].
    destruct (0 <=? i32 r2); cbn [bind fd_] in Es; [|by simplify_eq]. destruct (i32 r2 <=? 2); cbn [bind] in Es; [by simplify_eq|].
    destruct (sys_set_cloexec _ o3) as [r3 o4]. destruct (0 <=? i32 r3); cbn [bind] in Es; by simplify_eq.
Qed.

Lemma internal_loop_ok fuel wait_time (l : EventLoop U OS) (x : LoopState U OS) st x' :
  internal_loop fuel wait_time l x = Ok (st, x') ->
  exists tu l1 x1 p2 x2, loop_start l x = Ok (tu, l1, x1) /\ turns fuel wait_time (poller_ l1) x1 = Ok (Some st, p2, x2) /\
    loop_end tu x2 = Ok x'.
Proof.
  unfold internal_loop. intros E. apply bind_Ok in E as ([[tu l1] x1] & E1 & E).
  apply bind_Ok in E as ([[[st'|] p2] x2] & E2 & E); [|done]. apply bind_Ok in E as (x3 & E3 & E). simplify_eq.
  by exists tu, l1, x1, p2, x2.
Qed.
End InternalLoop.

(** * The loop of a ferry *)

Section FerryEnds.
Context {W Q OS : Type} {clock : Clock W} {claws : ClockLaws W} {apq : AbstractPacketQueue W Q}
  {fpq : FifoPacketQueue W Q} {fl : FlowRelation} {flowing : FlowingQueue W Q fl} {view : FerryView W Q OS}
  {sigs : SignalKernel OS} {cred : CredKernel OS} {laws : FerryEndLaws W Q OS}.

Abbreviation state := (LoopState (FerryState W Q) OS).

(** The poller that the turns begin with, when the loop has been started. *)
Lemma started_poller (l : EventLoop (FerryState W Q) OS) (x x1 : state) : user x1 = user x ->
  poller_ (add_simple_input_handler signal_fd on_signal x1 (ferry_loop_actions (register_handlers l x) x)) = ferry_poller l x1.
Proof. destruct x as [ch sf o u], x1 as [ch1 sf1 o1 u1]. cbn. intros ->. by destruct u as [q w t s [p|]]. Qed.

(** What is known when the turns begin. *)
Lemma ferry_loop_begins l (x : state) tu l1 x1 : fresh_ferry view l x (os x) ->
  loop_start (ferry_loop_actions (register_handlers l x) x) x = Ok (tu, l1, x1) ->
  poller_ l1 = ferry_poller l x1 /\ user x1 = user x /\ child_processes_ x1 = child_processes_ x /\
  quiet_call (W := W) (Q := Q) (os x) (os x1) /\ fresh_ferry view l x1 (os x1) /\
  ~ tun_device (OS := OS) (fd_ (signal_fd x1)).
Proof.
  intros [Hq Hl Ht Hsib Hc Hw] E. pose proof (quiet_preorder view) as HP.
  pose proof (loop_start_signals (fun fd => ~ tun_device (OS := OS) fd) _ _ _ _ _ signalfd_other E) as Hs.
  destruct (loop_start_kept (quiet_call (W := W) (Q := Q)) _ _ _ _ _ E) as (Hquiet & Ec & Eu & ->).
  split; [by apply started_poller|]. split; [done|]. split; [done|]. split; [done|]. split; [|done].
  split; [by rewrite Eu|done|unfold tun_of; by rewrite Eu|unfold sibling_of; by rewrite Eu| |by rewrite Eu].
  rewrite Ec. eapply (children_inv_same (W := W) (Q := Q)); [apply Hquiet|done].
Qed.

(** Its turns, from the constructor's queue. *)
Lemma ferry_loop_turns fuel l (x1 : state) : fresh_ferry view l x1 (os x1) -> ~ tun_device (OS := OS) (fd_ (signal_fd x1)) ->
  Z.of_nat (6 * fuel) < 1000000 ->
  match turns fuel queue_wait_time (ferry_poller l x1) x1 with
  | Ok (_, _, x2) =>
      exists rs, received (W := W) (Q := Q) (fd_ (tun_of x1)) (os x2) = received (W := W) (Q := Q) (fd_ (tun_of x1)) (os x1) ++ rs /\
        flow (datagrams (fd_ (sibling_of x1)) (os x2) ++ in_flight (ferry_queue (user x2)))
             (datagrams (fd_ (sibling_of x1)) (os x1) ++ rs)
  | Err e => turn_fault (OS := OS) e
  end.
Proof.
  intros [(sch & tr & off & tm & rep & lg & hd & q & lb & db & Hcfg & Hq & Hp & Hb & Eq) Hl Ht Hsib Hc (t & Ht0 & Hw)] Hs Hn.
  destruct (cellular_new_inv (fl := fl) sch tr off tm rep lg hd q lb db t Hcfg Hq Hp Hb) as (Hinv & Hif & Hpc).
  rewrite <- Eq in Hinv, Hif, Hpc.
  pose proof (ferry_turns_ok (fl := fl) (fd_ (tun_of x1)) (fd_ (sibling_of x1)) (fd_ (signal_fd x1)) (listeners_of x1)
    Ht Hsib Hs fuel l x1 t Hl ltac:(done) Hc Ht0 Hw Hinv) as H.
  rewrite Hpc in H. specialize (H ltac:(unfold PACKET_SIZE; lia)).
  destruct (turns _ _ _ x1) as [[[st p2] x2]|e]; [|exact H]. destruct H as [[_ (rs & Hr & Hf)] _].
  exists rs. split; [exact Hr|]. rewrite Hif in Hf. exact Hf.
Qed.
End FerryEnds.

(** * The loop of the main process *)

Section MainLoop.
Context {OS : Type} `{main_laws : LoopLaws unit OS}.

Abbreviation state := (LoopState unit OS).

(** The descriptor of the signals stays the same, and the children live. *)
Definition same_signals (x x' : state) : Prop := fd_ (signal_fd x') = fd_ (signal_fd x).

#[local] Instance same_signals_preorder : PreOrder same_signals.
Proof. split; [by intros x|intros x y z; unfold same_signals; congruence]. Qed.

Definition main_inv (_ : nat) (x : state) : Prop := children_inv (child_processes_ x) (os x).
Abbreviation caught := (fun e => caught_as_exception e = true).

Lemma read_signal_ok f (o : OS) :
  match read_signal f o with
  | Ok (_, f', o') => fd_ f' = fd_ f /\ all_kept o o'
  | Err e => caught_as_exception e = true
  end.
Proof.
  unfold read_signal, read. pose proof (loop_read (fd_ f) (Z.min BUFFER_SIZE siginfo_size) o) as Hk.
  destruct (sys_read _ _ o) as [[c|] o1]; cbn [bind]; [|done]. destruct (negb _); [done|]. split; [by destruct (len c =? 0)|exact Hk].
Qed.

Lemma main_on_signal_ok : steps_well same_signals main_inv caught 1 (on_signal (U := unit)).
Proof.
  intros n x Hx. unfold keeps, on_signal. pose proof (read_signal_ok (signal_fd x) (os x)) as Hr.
  destruct (read_signal (signal_fd x) (os x)) as [[[sig f] o]|]; cbn [bind]; [|done]. destruct Hr as [Hf Hk].
  pose proof (handle_signal_ok sig _ o (children_inv_kept _ _ _ Hk Hx)) as Hh.
  by destruct (handle_signal sig _ o) as [[[r2 children] o2]|]; cbn [bind].
Qed.

Lemma main_poll_ok : sys_poll_keeps same_signals main_inv caught.
Proof.
  intros pfds timeout n x Hx. pose proof (loop_poll pfds timeout x) as Hp. cbv zeta in Hp.
  destruct (sys_poll pfds timeout x) as [[ret revents] x']. cbn [snd] in Hp. destruct Hp as (E1 & E2 & Hk).
  split; [unfold same_signals; by rewrite E2|]. split; [unfold main_inv; rewrite E1; by eapply children_inv_kept|].
  unfold SystemCall. by destruct (0 <=? i32 ret).
Qed.

Lemma pure_step {A} (a : A) : steps_well same_signals main_inv caught 0 (fun x : state => Ok (a, x)).
Proof. intros n x Hx. by split. Qed.

(** Its turns do not fail otherwise than by an exception that is caught. *)
Lemma main_turns_fault fuel (l : EventLoop unit OS) (x : state) e : poller_ l = poller_new -> children_inv (child_processes_ x) (os x) ->
  turns fuel (fun x => Ok (-1, x)) (poller_ (add_simple_input_handler signal_fd on_signal x l)) x = Err e ->
  caught_as_exception e = true.
Proof.
  intros Hl Hc E. unfold add_simple_input_handler, loop_add_action in E. cbn [poller_] in E. rewrite Hl in E.
  set (p := add_action _ x poller_new) in *.
  assert (Hok : Forall (action_ok same_signals main_inv caught) (actions_ p)).
  { constructor; [|constructor]. split; [apply main_on_signal_ok|apply pure_step|done]. }
  pose proof (turns_ok same_signals main_inv caught reflexivity transitivity (fun _ _ Hi => Hi) main_poll_ok
    (fun x => Ok (-1, x)) fuel (pure_step (-1)) 0%nat p x Hok (add_action_wf _ x _ (poller_new_wf x)) Hc) as H'.
  by rewrite E in H'.
Qed.

(** The state of the loop with which [wait_for_exit] begins. *)
Definition shell_loop_state (p : PacketShell OS) (o : OS) : state :=
  {| child_processes_ := shell_children_ p; signal_fd := no_descriptor; os := o; user := tt |}.

Lemma wait_for_exit_family fuel (p : PacketShell OS) (o : OS) : poller_ (event_loop_ p) = poller_new -> children_inv (shell_children_ p) o ->
  match wait_for_exit fuel p o with
  | Ok (_, p', o') => family_kept (shell_loop_state p o) (shell_loop_state p' o')
  | Err e => loop_fault e
  end.
Proof.
  intros Hl Hc. unfold wait_for_exit, loop. fold (shell_loop_state p o).
  destruct (internal_loop _ _ _ (shell_loop_state p o)) as [[st x']|e] eqn:E; cbn [bind].
  - apply internal_loop_family in E as [A1 A2 A3]; [by split|by intros x t y [= _ <-]|rewrite Hl; constructor].
  - apply internal_loop_fault in E as [E|(tu & l1 & x1 & Es & Et)]; [done|]. left.
    destruct (loop_start_kept all_kept _ _ _ _ _ Es) as (Hk1 & Ec1 & _ & ->).
    eapply main_turns_fault; [exact Hl| |exact Et]. rewrite Ec1. by eapply children_inv_kept.
Qed.
End MainLoop.

(** * Properties *)

(** From its start to its end, the process of one direction.  Its loop has
    the queue as constructed, the handlers of the DNS proxy or none, and children
    of whom the system says that each goes through less than [fuel] changes of
    state.  If the loop ends with a status, the process has passed on the packets
    that it has read, in order; otherwise it ends with an exception that is
    caught, by an exception in the destructor that restores the privileges, with
    a packet that [read_packet] does not accept, or has not ended in [fuel] turns.
    Whether the loop has ended with a status or with an exception that is caught,
    the process then ends its children: it exits, and none of them is left. *)
Lemma ferry_process_ends {W Q OS : Type} `{ClockLaws W, FifoPacketQueue W Q} (fl : FlowRelation)
    `{!FlowingQueue W Q fl, view : FerryView W Q OS, SignalKernel OS, CredKernel OS, !FerryEndLaws W Q OS} (fuel : nat)
    (ingress : LoopState (FerryState W Q) OS -> FileDescriptor)
    (l : EventLoop (FerryState W Q) OS) (x : LoopState (FerryState W Q) OS) :
  fresh_ferry view l x (os x) -> fates_within fuel (child_processes_ x) (os x) -> Z.of_nat (6 * S fuel) < 1000000 ->
  match ferry_loop (S fuel) (register_handlers l x) x with
  | Ok (_, x') =>
      exists rs, received (W := W) (Q := Q) (fd_ (tun_of x)) (os x') = received (W := W) (Q := Q) (fd_ (tun_of x)) (os x) ++ rs /\
        flow (datagrams (fd_ (sibling_of x)) (os x') ++ in_flight (ferry_queue (user x'))) (datagrams (fd_ (sibling_of x)) (os x) ++ rs)
  | Err e => loop_fault e \/ packet_fault (OS := OS) e
  end /\
  match ferry_ends (S fuel) ingress (register_handlers l x) x with
  | Ok (_, o') => forall p, unreaped p o' -> unreaped p (os x) /\ p ∉ pids (child_processes_ x)
  | Err e => e = Diverges \/ e = in_destructor_fault \/ packet_fault (OS := OS) e
  end.
Proof.
  intros Hfresh Hfates Hn. pose proof (quiet_preorder view) as HP.
  assert (Hloop : match ferry_loop (S fuel) (register_handlers l x) x with
    | Ok (_, x') => exists rs, received (W := W) (Q := Q) (fd_ (tun_of x)) (os x') = received (W := W) (Q := Q) (fd_ (tun_of x)) (os x) ++ rs /\
        flow (datagrams (fd_ (sibling_of x)) (os x') ++ in_flight (ferry_queue (user x'))) (datagrams (fd_ (sibling_of x)) (os x) ++ rs)
    | Err e => loop_fault e \/ packet_fault (OS := OS) e
    end).
  { unfold ferry_loop. destruct (internal_loop _ _ _ x) as [[st x']|e] eqn:E.
    - apply internal_loop_ok in E as (tu & l1 & x1 & p2 & x2 & Es & Et & Ee).
      destruct (ferry_loop_begins l x tu l1 x1 Hfresh Es) as (Hp & Hu & Hc & Hq1 & Hf1 & Hs1).
      pose proof (ferry_loop_turns (S fuel) l x1 Hf1 Hs1 Hn) as Ht. rewrite <- Hp, Et in Ht. destruct Ht as (rs & Hr & Hfl).
      destruct (loop_end_kept (quiet_call (W := W) (Q := Q)) _ _ _ Ee) as (Hq2 & Hc2 & Hu2).
      unfold tun_of, sibling_of in *. rewrite Hu in Hr, Hfl. rewrite Hu2. destruct Hq1 as [Htr1 _], Hq2 as [Htr2 _]. exists rs. split.
      + by rewrite (proj2 (Htr2 _)), Hr, (proj2 (Htr1 _)).
      + by rewrite (proj1 (Htr2 _)), <- (proj1 (Htr1 _)).
    - apply internal_loop_fault in E as [E|(tu & l1 & x1 & Es & Et)]; [by left|].
      destruct (ferry_loop_begins l x tu l1 x1 Hfresh Es) as (Hp & _ & _ & _ & Hf1 & Hs1).
      pose proof (ferry_loop_turns (S fuel) l x1 Hf1 Hs1 Hn) as Ht. rewrite <- Hp, Et in Ht.
      destruct Ht as [Ht|Ht]; [by left; left|by right]. }
  split; [exact Hloop|].
  pose proof (ferry_ends_reaps fuel ingress l x (fresh_poller _ _ _ _ Hfresh) (fresh_children _ _ _ _ Hfresh) Hfates) as He.
  destruct (ferry_ends _ _ _ x) as [[st o']|e]; [exact He|]. destruct He as [He|[He Hn']]; [by right; left|]. rewrite He in Hloop.
  destruct Hloop as [[H'|[H'|H']]|H']; [congruence|by left|by right; left|by right; right].
Qed.

(** The main process waits for the processes of both directions; when its loop
    has ended, with whatever signals, the destructor of the packet shell returns
    from ending them, with each terminated and reaped, before the address
    translation is taken back.  The loop itself ends otherwise as that of a
    direction. *)
Theorem wait_for_exit_reaps {OS : Type} `{LoopLaws unit OS} (fuel n : nat) (p : PacketShell OS) (o : OS) :
  poller_ (event_loop_ p) = poller_new -> children_inv (shell_children_ p) o -> fates_within n (shell_children_ p) o ->
  match wait_for_exit fuel p o with
  | Ok (_, p', o') =>
      exists children o2, destroy_children (S n) (shell_children_ p') o' = Ok (children, o2) /\
        reaped children o2 /\ pids children = pids (shell_children_ p)
  | Err e => loop_fault e
  end.
Proof.
  intros Hl Hc Hf. pose proof (wait_for_exit_family fuel p o Hl Hc) as H'.
  destruct (wait_for_exit fuel p o) as [[[st p'] o']|e]; [|exact H'].
  destruct (family_reaped n (shell_loop_state p o) (shell_loop_state p' o') Hc Hf H') as (children & o2 & E2 & Hr & Hp & _).
  by exists children, o2.
Qed.

(** * A machine

    It has the devices of [Crossing.Box] and two children: a user's command that
    is first stopped, and a name server.  When the packets have crossed, a
    [SIGTERM] comes. *)

Module Household.
Import Crossing ProcessTable.

(** [coming]: the number of the signal that comes. *)
Record House := { box : Box; processes : Table; coming : Byte.byte }.
Definition with_box (b : Box) (o : House) : House := {| box := b; processes := processes o; coming := coming o |}.
Definition with_processes (t : Table) (o : House) : House := {| box := box o; processes := t; coming := coming o |}.

Definition siginfo_of (signal : Byte.byte) : bytes := signal :: repeat Byte.x00 127.

Definition in_box {R} (f : Box -> R * Box) (o : House) : R * House := let (r, b) := f (box o) in (r, with_box b o).
Definition in_table {R} (f : Table -> R * Table) (o : House) : R * House := let (r, t) := f (processes o) in (r, with_processes t o).

Section Calls.
Context (Q : Type).

#[local] Instance kernel : Kernel House := {
  sys_read fd n := if fd =? 5 then fun o => (Some (siginfo_of (coming o)), o) else in_box (sys_read fd n);
  sys_write fd b := in_box (sys_write fd b);
  sys_set_cloexec _ o := (0, o);
  sys_close _ o := (0, o);
}.

#[local] Instance procs : ProcessKernel House := {
  sys_waitid pid nohang nowait si := in_table (sys_waitid pid nohang nowait si);
  sys_kill pid sig := in_table (sys_kill pid sig);
  sys_raise _ o := (0, o);
  sys_stat_task o := (0, 3, o);
  sys_clone _ o := (-1, o);
}.

#[local] Program Instance children : ChildLaws House := {
  unreaped p o := alive p (processes o); has_change p o := alive p (processes o); fate p o := length_of_fate p (processes o);
  signalable _ := True }.
Next Obligation.
  intros pid si o Ha. destruct (@waitid_blocking Table table_kernel table_laws pid si (processes o) Ha) as (si' & t & E & Hr). cbn [sys_waitid sys_kill procs]. unfold in_table.
  eexists si', (with_processes t o). split; [by rewrite E|exact Hr].
Qed.
Next Obligation.
  intros pid si o Ha Hc. destruct (@waitid_nonblocking Table table_kernel table_laws pid si (processes o) Ha Hc) as (si' & t & E & Hr). cbn [sys_waitid sys_kill procs]. unfold in_table.
  eexists si', (with_processes t o). split; [by rewrite E|exact Hr].
Qed.
Next Obligation.
  intros pid si o Ha. destruct (@waitid_nothing Table table_kernel table_laws pid si (processes o) Ha) as (si' & t & E & Hr). cbn [sys_waitid sys_kill procs]. unfold in_table.
  eexists si', (with_processes t o). split; [by rewrite E|exact Hr].
Qed.
Next Obligation.
  intros pid si o Ha. destruct (@waitid_peek Table table_kernel table_laws pid si (processes o) Ha) as (si' & t & E & Hr). cbn [sys_waitid sys_kill procs]. unfold in_table.
  eexists si', (with_processes t o). split; [by rewrite E|exact Hr].
Qed.
Next Obligation.
  intros pid sig o Hp Ha Hs. destruct (@kill_spec Table table_kernel table_laws pid sig (processes o) Hp Ha Hs) as (t & E & Hr). cbn [sys_waitid sys_kill procs]. unfold in_table.
  eexists (with_processes t o). split; [by rewrite E|exact Hr].
Qed.
Next Obligation. intros sig o. exists 0, o. split; [done|]. intros p. split; [done|]. by split. Qed.

#[local] Instance creds : CredKernel House := {
  sys_getuid _ := 1000; sys_geteuid _ := 1000; sys_getgid _ := 1000; sys_getegid _ := 1000;
  sys_seteuid _ o := (0, o); sys_setegid _ o := (0, o); sys_setreuid _ _ o := (0, o); sys_setregid _ _ o := (0, o);
}.

#[local] Instance signals : SignalKernel House := {
  sys_sigprocmask_set _ o := (0, o);
  sys_sigprocmask_get o := (0, [], o);
  sys_signalfd _ o := (5, o);
}.

Lemma waitid_shrinks pid b1 b2 si (o : House) : fates_shrink o (sys_waitid pid b1 b2 si o).2.
Proof.
  intros p. cbn. unfold in_table. cbn. destruct (processes o pid) as [f|] eqn:E; [|done].
  destruct (next_change pid f) as [si' v] eqn:En. cbn. destruct b2; [done|]. unfold length_of_fate.
  destruct (Z.eq_dec p pid) as [->|Hp]; [|by rewrite set_proc_other]. rewrite set_proc_same, E. unfold next_change in En.
  destruct (stops f) as [|b l]; [by destruct (exits_with f); simplify_eq/=; lia|]. simplify_eq/=. lia.
Qed.

Lemma waitid_makes_none pid b1 b2 si (o : House) p : unreaped p (sys_waitid pid b1 b2 si o).2 -> unreaped p o.
Proof.
  cbn. unfold in_table. cbn. destruct (processes o pid) as [f|] eqn:E; [|done].
  destruct (next_change pid f) as [si' v] eqn:En. cbn. destruct b2; [done|]. unfold alive.
  destruct (Z.eq_dec p pid) as [->|Hp]; [by rewrite E|by rewrite set_proc_other].
Qed.

#[local] Instance sockets : SocketKernel House := {
  sys_socket domain type := in_box (sys_socket domain type);
  sys_getsockopt fd level option := in_box (sys_getsockopt fd level option);
  sys_setsockopt fd level option value := in_box (sys_setsockopt fd level option value);
  sys_getsockname fd := in_box (sys_getsockname fd);
  sys_getpeername fd := in_box (sys_getpeername fd);
  sys_bind fd a := in_box (sys_bind fd a);
  sys_connect fd a := in_box (sys_connect fd a);
  sys_listen fd n := in_box (sys_listen fd n);
  sys_accept fd := in_box (sys_accept fd);
  sys_sendto fd b a := in_box (sys_sendto fd b a);
  sys_send fd b := in_box (sys_send fd b);
  sys_recvfrom fd n := in_box (sys_recvfrom fd n);
}.

#[local] Instance threads : ThreadKernel House := fun _ o => (true, o).

#[local] Program Instance tuns : TunKernel House := {
  tun_device fd := fd = 3 \/ fd = 4;
  offered _ := True;
  datagrams fd o := sent (box o) fd;
}.
Next Obligation.
  intros fd b o _ _ _. eexists _, _. split; [reflexivity|]. left. cbn. by rewrite Z.eqb_refl.
Qed.

(** The ferry's tunnel device is ready while packets are to come, the signals
    are when all have crossed. *)
#[local] Instance ferry_polls : PollKernel (LoopState (FerryState World Q) House) := fun pfds _ x =>
  let idle := bool_decide (inbox (box (os x)) = []) in
  let crossed := idle && bool_decide (List.length (sent (box (os x)) 4) = List.length (taken (box (os x)))) in
  (1, map (fun q => if ((pfd_fd q =? 5) && negb crossed) || ((pfd_fd q =? 3) && idle) then 0 else pfd_events q) pfds, x).

#[local] Instance main_polls : PollKernel (LoopState unit House) := fun pfds _ x => (1, map pfd_events pfds, x).

#[local] Program Instance ferry_laws : FerryLaws World Q House := {
  received fd o := if fd =? 3 then taken (box o) else [];
}.
Next Obligation.
  intros fd limit o c o' [->| ->] _; [|done]. cbn. unfold in_box. cbn. destruct (inbox (box o)) as [|c' l]; [done|].
  intros E. simplify_eq. split; [done|]. split; [done|]. split; [done|]. by intros p.
Qed.
Next Obligation.
  intros fd limit o c o' Hfd. cbn in *. destruct (Z.eqb_spec fd 5); [intros E; simplify_eq; by split|].
  unfold in_box. cbn. destruct (Z.eqb_spec fd 3); [tauto|]. destruct (Z.eqb_spec fd 4); [tauto|]. intros E. simplify_eq. split; [by intros fd'|by intros p].
Qed.
Next Obligation. intros fd c o. split; [done|by intros p]. Qed.
Next Obligation. intros pid b1 b2 si o fd. cbn [sys_waitid procs]. unfold in_table. by destruct (sys_waitid pid b1 b2 si (processes o)) as [[r s] t]. Qed.
Next Obligation. intros pid sig o fd. cbn [sys_kill procs]. unfold in_table. by destruct (sys_kill pid sig (processes o)) as [r t]. Qed.
Next Obligation. by intros sig o fd. Qed.
Next Obligation. intros pfds timeout x x'. subst x'. do 3 (split; [done|]). split; [by intros fd|by intros p]. Qed.

#[local] Program Instance listeners : ListenerLaws World Q House.
Solve Obligations with (intros; split; [by intros fd'|by intros p]).

#[local] Instance view : FerryView World Q House := {|
  view_kernel := kernel; view_tun := tuns; view_procs := procs; view_children := children; view_poll := ferry_polls;
  view_laws := ferry_laws; view_sockets := sockets; view_threads := threads; view_listeners := listeners |}.

Lemma in_box_processes {R} (f : Box -> R * Box) (o : House) : processes (in_box f o).2 = processes o.
Proof. unfold in_box. by destruct (f (box o)). Qed.

#[local] Program Instance scope {P} `{!PreOrder P} : ScopeCalls House P.
Solve Obligations with (intros; reflexivity).

Lemma box_kept {R} (f : Box -> R * Box) (o : House) : all_kept o (in_box f o).2.
Proof. intros p. unfold process_kept. cbn. by rewrite in_box_processes. Qed.

Lemma house_read_kept fd n (o : House) : all_kept o (sys_read fd n o).2.
Proof. cbn [sys_read kernel]. destruct (fd =? 5); [done|apply box_kept]. Qed.

Lemma house_waitid_calmer pid b1 b2 si (o : House) : calmer o (sys_waitid pid b1 b2 si o).2.
Proof. split; [apply waitid_makes_none|apply waitid_shrinks]. Qed.

Lemma house_kill_calmer pid sig (o : House) : calmer o (sys_kill pid sig o).2.
Proof. cbn. unfold in_table. split; intros p; by destruct (sys_kill pid sig (processes o)). Qed.

#[local] Program Instance end_laws : FerryEndLaws World Q House.
Next Obligation. pose proof (quiet_preorder view). exact scope. Qed.
Next Obligation. split; intros; try apply box_kept; try apply house_read_kept; done. Qed.
Next Obligation. apply house_waitid_calmer. Qed.
Next Obligation. apply house_kill_calmer. Qed.
Next Obligation. done. Qed.
Next Obligation. by intros m o _ [|]. Qed.

#[local] Program Instance main_laws : LoopLaws unit House.
Next Obligation. apply house_read_kept. Qed.
Next Obligation. apply house_waitid_calmer. Qed.
Next Obligation. apply house_kill_calmer. Qed.
Next Obligation. done. Qed.
Next Obligation. intros pfds timeout x x'. by split. Qed.
End Calls.
Arguments view {Q}.
#[export] Existing Instances view kernel procs children signals creds sockets threads tuns ferry_polls main_polls ferry_laws listeners end_laws main_laws.

Definition start_processes : Table :=
  Signals.table {| stops := [true]; exits_with := None |} {| stops := []; exits_with := Some 0 |}.

Definition start_house : House :=
  {| box := {| inbox := [sample_contents 1000 8; sample_contents 1001 1300]; taken := []; sent := fun _ => [] |};
     processes := start_processes; coming := Byte.x0f (* SIGTERM *) |}.

Definition family : list child := [(-1, Signals.dnsmasq); (-1, shell)].

Lemma family_inv : children_inv family start_house.
Proof.
  split; [|by apply (bool_decide_unpack _)]. repeat constructor; cbn; try lia; try done; intros _; by eexists.
Qed.

Lemma family_fates : fates_within 2 family start_house.
Proof. repeat constructor. Qed.

Definition start_ferry : LoopState (FerryState World InfinitePacketQueue) House :=
  {| child_processes_ := family; signal_fd := descriptor 5; os := start_house; user := user box_start |}.

Definition empty_loop {U} : EventLoop U House := {| signals_ := {| mask_ := [] |}; poller_ := poller_new |}.

(** The two packets cross, the signal ends the loop, and both children are
    reaped. *)
Example ferry_process_runs :
  match ferry_loop 60 (register_handlers empty_loop start_ferry) start_ferry with
  | Ok (st, x') =>
      match destroy_children 3 (child_processes_ x') (os x') with
      | Ok (cs, o) => Some (st, List.length (sent (box o) 4), map (fun ch => terminated_ ch.2) cs, processes o 7, processes o 8)
      | Err _ => None
      end
  | Err _ => None
  end = Some (0, 2%nat, [true; true], None, None).
Proof. vm_compute. reflexivity. Qed.

(** The main process, with the processes of the two directions. *)
Definition ipv4_zero : Address := ipv4 (0, 0, 0, 0) 0.
Definition start_shell : PacketShell House :=
  {| user_environment_ := None; egress_addr := ipv4_zero; ingress_addr := ipv4_zero; nameserver_ := ipv4_zero;
     egress_tun_ := descriptor 3;
     dns_outside_ := {| udp_listener_ := descriptor 7; tcp_listener_ := descriptor 8; udp_target_ := ipv4_zero; tcp_target_ := ipv4_zero |};
     nat_rule_ := {| pre_ := {| arguments := [] |}; post_ := {| arguments := [] |} |}; pipe_ := (descriptor 10, descriptor 11);
     event_loop_ := empty_loop; shell_children_ := family |}.

Lemma wait_for_exit_reaps_witness :
  match wait_for_exit 60 start_shell start_house with
  | Ok (_, p', o') =>
      exists children o2, destroy_children 3 (shell_children_ p') o' = Ok (children, o2) /\
        reaped children o2 /\ pids children = pids (shell_children_ start_shell)
  | Err e => loop_fault e
  end.
Proof. exact (wait_for_exit_reaps 60 2 start_shell start_house eq_refl family_inv family_fates). Defined.

Example main_process_runs :
  match wait_for_exit 60 start_shell start_house with
  | Ok (st, p', o') =>
      match destroy_children 3 (shell_children_ p') o' with
      | Ok (cs, o) => Some (st, map (fun ch => terminated_ ch.2) cs, processes o 7, processes o 8)
      | Err _ => None
      end
  | Err _ => None
  end = Some (0, [true; true], None, None).
Proof. vm_compute. reflexivity. Qed.
End Household.
