(* ===== verification/TunPacketShell.v ===== *)
(** The tunnel packet shell: src/packet/tun_packetshell.hh/.cc.

    A packet shell without address translation, whose inner device keeps its
    maximum packet size; no program of the repository makes one.  Its code is a
    copy of packetshell.cc; what of the copy is the same is proved to be so. *)
From Stdlib Require Import String Ascii.
From S2P Require Import Prelude Ezio Timestamp PacketQueue CellularQueue FileDescriptor SignalFD Poller ChildProcess Privileges Address Interfaces Socket DnsProxy EventLoop Ferry Shell Commands NetDevice SocketPair Util PacketShell.

Record TunPacketShell (OS : Type) := {
  tun_user_environment_ : option (list string);
  tun_egress_addr : Address;
  tun_ingress_addr : Address;
  tun_nameserver_ : Address;
  tun_egress_tun_ : FileDescriptor;
  tun_dns_outside_ : DNSProxy;
  tun_pipe_ : FileDescriptor * FileDescriptor;
  tun_event_loop_ : EventLoop unit OS;
  tun_children_ : list child;  (* of [tun_event_loop_] *)
}.
Arguments Build_TunPacketShell {OS}.
Arguments tun_user_environment_ {OS}.
Arguments tun_egress_addr {OS}.
Arguments tun_ingress_addr {OS}.
Arguments tun_nameserver_ {OS}.
Arguments tun_egress_tun_ {OS}.
Arguments tun_dns_outside_ {OS}.
Arguments tun_pipe_ {OS}.
Arguments tun_event_loop_ {OS}.
Arguments tun_children_ {OS}.

#[export] Instance eta_TunPacketShell OS : Eta (TunPacketShell OS) := fun p =>
  {| tun_user_environment_ := tun_user_environment_ p; tun_egress_addr := tun_egress_addr p;
     tun_ingress_addr := tun_ingress_addr p; tun_nameserver_ := tun_nameserver_ p; tun_egress_tun_ := tun_egress_tun_ p;
     tun_dns_outside_ := tun_dns_outside_ p; tun_pipe_ := tun_pipe_ p; tun_event_loop_ := tun_event_loop_ p;
     tun_children_ := tun_children_ p |}.

Section TunPacketShell.
Context {OS : Type} {names : NameFunctions} {config : BuildConfig} {kernel : Kernel OS} {opener : OpenKernel OS}
  {ifaddrs : IfaddrKernel OS} {sockets : SocketKernel OS} {devices : DeviceKernel OS} {pairs : PairKernel OS}
  {procs : ProcessKernel OS} {sigs : SignalKernel OS} {cred : CredKernel OS} {env : EnvironKernel OS}
  {exec : ExecKernel OS} {sleep : SleepKernel OS} {resolver : ResolverKernel OS} {pids : PidKernel OS}.

(** temporarily break our security rule of not looking at the user's environment
    before dropping privileges *)
Definition tun_get_mahimahi_base (user_environment : option (list string)) (o : OS) : outcome (Address * OS) :=
  let* (tu, o) := unprivileged_enter o in
  if environ_set o then Err (Throw "TemporaryEnvironment: cannot be entered recursively")
  else
    let o := set_environ user_environment o in
    let* base := match sys_getenv "MAHIMAHI_BASE" o with
                 | Some mahimahi_base => address_of_numbers mahimahi_base 0
                 | None => address_default
                 end in
    let o := set_environ None o in
    let* o := unprivileged_leave tu o in
    Ok (base, o).

Definition tun_packet_shell_new (fuel : nat) (device_prefix : string) (user_environment : option (list string)) (w : World) (o : OS) :
    outcome (TunPacketShell OS * World * OS) :=
  let* (base, o) := tun_get_mahimahi_base user_environment o in
  let* (egress, ingress, o) := two_unassigned_addresses fuel base o in
  let* (nameserver, o) := first_nameserver o in
  let* (egress_tun, o) := tun_device_new (device_name device_prefix (sys_getpid o)) egress ingress o in
  let* (dns_outside, o) := dns_proxy_bound egress nameserver nameserver o in
  let* (first, second, o) := make_pair o in
  let* (event_loop, o) := event_loop_new o in
  (* make sure environment has been cleared *)
  if environ_set o then Err (Throw "TunPacketShell: environment was not cleared")
  else
    (* initialize base timestamp value before any forking *)
    let* (_, w) := initial_timestamp w in
    Ok ({| tun_user_environment_ := user_environment; tun_egress_addr := egress; tun_ingress_addr := ingress;
           tun_nameserver_ := nameserver; tun_egress_tun_ := egress_tun; tun_dns_outside_ := dns_outside;
           tun_pipe_ := (first, second); tun_event_loop_ := event_loop; tun_children_ := [] |}, w, o).

(** The second constructor, with [two_addresses] as in that of the packet
    shell. *)
Definition tun_packet_shell_new_inside (two_addresses : string -> Address -> OS -> outcome (Address * Address * OS))
    (device_prefix : string) (user_environment : option (list string)) (ingress : string) (w : World) (o : OS) :
    outcome (TunPacketShell OS * World * OS) :=
  let* (base, o) := tun_get_mahimahi_base user_environment o in
  let* (egress, ingress, o) := two_addresses ingress base o in
  let* (nameserver, o) := first_nameserver o in
  let* (egress_tun, o) := tun_device_new (device_name device_prefix (sys_getpid o)) egress ingress o in
  let* (dns_outside, o) := dns_proxy_bound egress nameserver nameserver o in
  let* (first, second, o) := make_pair o in
  let* (event_loop, o) := event_loop_new o in
  (* make sure environment has been cleared *)
  if environ_set o then Err (Throw "TunPacketShell: environment was not cleared")
  else
    (* initialize base timestamp value before any forking *)
    let* (_, w) := initial_timestamp w in
    Ok ({| tun_user_environment_ := user_environment; tun_egress_addr := egress; tun_ingress_addr := ingress;
           tun_nameserver_ := nameserver; tun_egress_tun_ := egress_tun; tun_dns_outside_ := dns_outside;
           tun_pipe_ := (first, second); tun_event_loop_ := event_loop; tun_children_ := [] |}, w, o).

Definition tun_setup_ingress (ingress egress : Address) (o : OS) : outcome (FileDescriptor * OS) :=
  let* (ingress_tun, o) := tun_device_new "ingress" ingress egress o in
  (* bring up localhost *)
  let* o := interface_ioctl SIOCSIFFLAGS "lo" (set_ifru (IfrFlags IFF_UP)) o in
  let* o := add_default_route ingress egress o in
  Ok (ingress_tun, o).

Context {Q : Type} {apq : AbstractPacketQueue World Q} {tun_kernel : TunKernel OS} {threads : ThreadKernel OS}
  {pk : PollKernel (LoopState (FerryState World Q) OS)}.

(** ** The ferry *)

Abbreviation state := (LoopState (FerryState World Q) OS).

(** tun device gets datagram -> read it -> give to ferry *)
Definition tun_on_input (x : state) : outcome (ActionResult * state) :=
  let* (datagram, f, o) := read BUFFER_SIZE (tun (user x)) (os x) in
  let* (q, w) := read_packet datagram (ferry_queue (user x)) (world (user x)) in
  Ok (action Continue,
      x <| os := o |> <| user := (user x) <| ferry_queue := q |> <| world := w |> <| tun := f |> |>).

(** ferry ready to write datagram -> send to sibling's tun device *)
Definition tun_on_output (uplink : bool) (x : state) : outcome (ActionResult * state) :=
  let* (q, w, f) := write_packets (ferry_queue (user x)) (world (user x)) (sibling (user x), os x) in
  let path := if uplink then "Uplink"%string else "Downlink"%string in
  Ok (action Continue,
      x <| os := f.2 |> <| user := (user x) <| ferry_queue := q |> <| world := w |> <| sibling := f.1 |> |>).

Definition tun_output_pending (x : state) : outcome (bool * state) :=
  let* (pending, w) := pending_output (ferry_queue (user x)) (world (user x)) in
  Ok (pending, x <| user := (user x) <| world := w |> |>).

Definition tun_wait_time (x : state) : outcome (Z * state) :=
  let* (ms, q, w) := wait_time (ferry_queue (user x)) (world (user x)) in
  Ok (ms, x <| user := (user x) <| ferry_queue := q |> <| world := w |> |>).

Definition tun_ferry_loop (fuel : nat) (uplink : bool) (l : EventLoop (FerryState World Q) OS) (x : state) : outcome (Z * state) :=
  let l := add_simple_input_handler (fun x => tun (user x)) tun_on_input x l in
  let l := loop_add_action (action_new (fun x => sibling (user x)) Out (tun_on_output uplink) tun_output_pending) x l in
  (* exit if finished *)
  let l := loop_add_action (action_new (fun x => sibling (user x)) Out (fun x => Ok (action ActionExit, x))
                              (fun x => Ok (finished (ferry_queue (user x)), x))) x l in
  internal_loop fuel tun_wait_time l x.

Abbreviation maker := (World -> OS -> outcome (CellularQueue Q * World * OS)).

(** The end of the uplink's procedure. *)
Definition tun_run_uplink (fuel : nat) (pipe egress_tun : FileDescriptor) (inner_ferry : EventLoop (FerryState World Q) OS)
    (children : list child) (ingress_tun : FileDescriptor) (ferry_maker : maker) (w : World) (o : OS) : outcome Z :=
  (* allow downlink to write directly to inner namespace's TUN device *)
  let* (_, o) := send_fd ingress_tun pipe o in
  let* (uplink_queue, w, o) := ferry_maker w o in
  let* (status, x) := tun_ferry_loop fuel true inner_ferry
    {| child_processes_ := children; signal_fd := no_descriptor; os := o;
       user := {| ferry_queue := uplink_queue; world := w; tun := ingress_tun; sibling := egress_tun; dns := None |} |} in
  let* _ := end_of_ferry fuel (child_processes_ x) (tun (user x)) (os x) in
  Ok status.

(** ** The processes of both directions *)

Definition tun_uplink_procedure (fuel : nat) (p : TunPacketShell OS) (shell_prefix : string) (command : list string)
    (ferry_maker : maker) (w : World) (o : OS) : outcome Z :=
  let* (ingress_tun, o) := tun_setup_ingress (tun_ingress_addr p) (tun_egress_addr p) o in
  let* (inner_ferry, o) := event_loop_new o in
  (* run dnsmasq as local caching nameserver *)
  let* (outside, o) := local_address (udp_listener_ (tun_dns_outside_ p)) o in
  let* server := str outside "#" in
  let* (dnsmasq, o) := start_dnsmasq ["-S"; server] o in
  let* (c, o) := start_command (tun_user_environment_ p) (tun_egress_addr p) shell_prefix command o in
  tun_run_uplink fuel (tun_pipe_ p).1 (tun_egress_tun_ p) inner_ferry [(-1, dnsmasq); (-1, c)] ingress_tun ferry_maker w o.

Definition tun_start_uplink (fuel : nat) (p : TunPacketShell OS) (shell_prefix : string) (command : list string)
    (ferry_maker : maker) (w : World) (o : OS) : outcome (TunPacketShell OS * OS) :=
  let* (c, o) := fork "packetshell" (tun_uplink_procedure fuel p shell_prefix command ferry_maker w) true SIGHUP o in
  Ok (p <| tun_children_ := tun_children_ p ++ [(-1, c)] |>, o).

Definition tun_downlink_procedure (fuel : nat) (p : TunPacketShell OS) (ferry_maker : maker) (w : World) (o : OS) : outcome Z :=
  let* o := drop_privileges o in
  (* restore environment *)
  let o := set_environ (tun_user_environment_ p) o in
  (* downlink packets go to inner namespace's TUN device *)
  let* (ingress_tun, _, o) := recv_fd (tun_pipe_ p).2 o in
  let* (outer_ferry, o) := event_loop_new o in
  let* (downlink_queue, w, o) := ferry_maker w o in
  let x := {| child_processes_ := []; signal_fd := no_descriptor; os := o;
              user := {| ferry_queue := downlink_queue; world := w; tun := tun_egress_tun_ p; sibling := ingress_tun;
                         dns := Some (tun_dns_outside_ p) |} |} in
  let* (status, x) := tun_ferry_loop fuel false (register_handlers outer_ferry x) x in
  let* _ := end_of_ferry fuel (child_processes_ x) (sibling (user x)) (os x) in
  Ok status.

Definition tun_start_downlink (fuel : nat) (p : TunPacketShell OS) (ferry_maker : maker) (w : World) (o : OS) :
    outcome (TunPacketShell OS * OS) :=
  let* (c, o) := fork "downlink" (tun_downlink_procedure fuel p ferry_maker w) false SIGHUP o in
  Ok (p <| tun_children_ := tun_children_ p ++ [(-1, c)] |>, o).

Context {outer_pk : PollKernel (LoopState unit OS)}.

Definition tun_wait_for_exit (fuel : nat) (p : TunPacketShell OS) (o : OS) : outcome (Z * TunPacketShell OS * OS) :=
  let* (status, x) := loop fuel (tun_event_loop_ p)
    {| child_processes_ := tun_children_ p; signal_fd := no_descriptor; os := o; user := tt |} in
  Ok (status, p <| tun_children_ := child_processes_ x |>, os x).

(** The destructor. *)
Definition tun_packet_shell_destroy (fuel : nat) (p : TunPacketShell OS) (o : OS) : outcome OS :=
  let* (_, o) := destroy_children fuel (tun_children_ p) o in
  let o := fd_destroy (tun_pipe_ p).1 (fd_destroy (tun_pipe_ p).2 o) in
  let o := dns_proxy_destroy (tun_dns_outside_ p) o in
  Ok (fd_destroy (tun_egress_tun_ p) o).

(** * What is the same as in packetshell.cc *)

Theorem tun_get_mahimahi_base_same e (o : OS) : tun_get_mahimahi_base e o = get_mahimahi_base e o.
Proof. unfold tun_get_mahimahi_base, get_mahimahi_base. destruct (unprivileged_enter o) as [[tu o1]|]; [|done]. cbn [bind]. by destruct (sys_getenv _ _). Qed.

(** The uplink or the downlink: the loop is the same. *)
Theorem tun_ferry_loop_same fuel uplink l (x : state) : tun_ferry_loop fuel uplink l x = ferry_loop fuel l x.
Proof. reflexivity. Qed.

Theorem tun_run_uplink_same fuel pipe egress_tun l children ingress_tun (m : maker) w (o : OS) :
  tun_run_uplink fuel pipe egress_tun l children ingress_tun m w o = run_uplink fuel pipe egress_tun l children ingress_tun m w o.
Proof. reflexivity. Qed.

Theorem tun_downlink_same fuel p (m : maker) w (o : OS) :
  tun_downlink_procedure fuel p m w o =
  run_downlink fuel (tun_user_environment_ p) (tun_pipe_ p).2 (tun_egress_tun_ p) (Some (tun_dns_outside_ p)) m w o.
Proof. reflexivity. Qed.
End TunPacketShell.
