(* ===== verification/CellularShell.v ===== *)
(** The program: [main] of src/frontend/cellularshell.cc.

    It checks the machine, reads the command line ([Shell]) and sets up the
    packet shell ([PacketShell]) with a cellular queue for each direction.  The
    files that the queues read and the logs that they create are the class
    [FileKernel]. *)
From Stdlib Require Import String Ascii.
From S2P Require Import Prelude Timestamp PacketQueue CellularQueue TraceLoader FileDescriptor SignalFD Poller ChildProcess Privileges Address Interfaces Socket DnsProxy EventLoop Ferry Shell Commands NetDevice SocketPair Util PacketShell.

(** What the files are that the process can read, and whether it can create
    one. *)
Class FileKernel (OS : Type) := {
  file_contents : OS -> string -> option string;
  can_create : OS -> string -> bool;
}.

Section Main.
Context {OS : Type} {names : NameFunctions} {config : BuildConfig} {kernel : Kernel OS} {opener : OpenKernel OS}
  {ifaddrs : IfaddrKernel OS} {sockets : SocketKernel OS} {devices : DeviceKernel OS} {pairs : PairKernel OS}
  {procs : ProcessKernel OS} {sigs : SignalKernel OS} {cred : CredKernel OS} {env : EnvironKernel OS}
  {sleep : SleepKernel OS} {resolver : ResolverKernel OS} {pids : PidKernel OS} {passwd : PasswdKernel OS}
  {tun_kernel : TunKernel OS} {threads : ThreadKernel OS}
  {pk : PollKernel (LoopState (FerryState World AnyQueue) OS)} {outer_pk : PollKernel (LoopState unit OS)}
  {exec : ExecKernel OS} {files : FileKernel OS}.

(** [ferry_maker()]: the constructor of [CellularQueue], in the process of its
    direction. *)
Definition make_direction (uplink : bool) (c : ShellConfig) (q : AnyQueue) (w : World) (o : OS) :
    outcome (CellularQueue AnyQueue * World * OS) :=
  let* (x, w) := construct_direction uplink c q (file_contents o) (can_create o) (sys_geteuid o) (sys_getegid o) w in
  Ok (x, w, o).

(** The [try] of [main]. *)
Definition cellular_shell (fuel : nat) (getopt : list string -> list (ascii * string) * Z * list string)
    (user_environment : option (list string)) (argv : list string) (w : World) (o : OS) : outcome (Z * OS) :=
  (* clear environment while running as root *)
  let o := set_environ None o in
  let* o := check_requirements (len argv) (default "" (head argv)) (environ_set o) o in
  let* c := parse_command_line getopt (shell_path o) argv in
  let* (app, w, o) := packet_shell_new fuel "cell-link" user_environment w o in
  let* q := direction_queue true c in
  let* (app, o) := start_uplink fuel app "[cell-link] " (command c) (make_direction true c q) w o in
  let* q := direction_queue false c in
  let* (app, o) := start_downlink fuel app (make_direction false c q) w o in
  let* (status, app, o) := wait_for_exit fuel app o in
  let* o := packet_shell_destroy fuel app o in
  Ok (status, o).

(** What becomes of the process that runs [main]: an exception that is caught
    ends it with [EXIT_FAILURE]. *)
Definition main (fuel : nat) (getopt : list string -> list (ascii * string) * Z * list string)
    (user_environment : option (list string)) (argv : list string) (w : World) (o : OS) : process_end :=
  child_side (let* (status, _) := cellular_shell fuel getopt user_environment argv w o in Ok status).
End Main.
