(* ===== verification/Emulation.v ===== *)
(** The emulation of one direction, from the trace files to the end of its
    process.

    [start_uplink] and [start_downlink] (src/packet/packetshell.cc) end alike: the
    process makes its [CellularQueue] from the files and the packet queue that the
    command line names (src/frontend/cellularshell.cc), runs the ferry's loop on
    it, and ends its children.  The theorem joins the parts: the trace loader, the
    queue, the event loop with its poller and signals, and the destructors. *)
From Stdlib Require Import String Ascii.
From S2P Require Import Prelude Ezio Timestamp Packets PacketQueue DroppingQueue LinkQueue DelayTrace CellularQueue TraceLoader FileDescriptor SignalFD Poller ChildProcess Privileges Address Socket DnsProxy EventLoop Ferry Link Shell PacketShell Unwinding FerryUnwinding ProcessEnds CellularShell.

(** * The queue named on the command line *)

(** A drophead queue with a limit in bytes may run into an assertion
    ([drop_head_enqueue_outcome]). *)
Definition queue_option_ok (uplink : bool) (c : ShellConfig) : Prop :=
  let o := options c in
  (if uplink then uplink_queue_type o else downlink_queue_type o) = "drophead"%string ->
  get_arg (if uplink then uplink_queue_args o else downlink_queue_args o) "bytes" = Ok 0.

Lemma named_queue_ready type args q : get_packet_queue type args = Ok q ->
  (type = "drophead"%string -> get_arg args "bytes" = Ok 0) ->
  queue_wf (W := World) q /\ packets (W := World) q = [].
Proof.
  intros E Hok. pose proof (get_packet_queue_spec type args) as H. rewrite E in H. destruct q as [q|q|q]; cbn.
  - destruct H as (_ & _ & Hq & Hwf). by split.
  - destruct H as (_ & _ & _ & _ & Hq & Hwf). by split.
  - destruct H as (Ht & Hp & Hb & _ & Hq & Hwf). rewrite (Hok Ht) in Hb. injection Hb as Hb.
    pose proof (get_arg_outcome args "packets") as Ho. rewrite Hp in Ho. split; [|done]. split; [done|]. split; [done|lia].
Qed.

(** * The files that its options name *)

Definition timer_of (uplink : bool) (c : ShellConfig) : Z :=
  if uplink then long_to_short_timer_up (options c) else long_to_short_timer_down (options c).

(** The two trace files hold a schedule and a packet-train trace; the packets
    are not logged, and no latency offsets are given. *)
Record traces_given {OS} {files : FileKernel OS} (uplink : bool) (c : ShellConfig) (schedule : list Z)
    (traces : list DelayPDOInstance) (o : OS) : Prop := {
  heavy_file : file_contents o (if uplink then uplink_pdo_trace c else downlink_pdo_trace c) =
    Some (print_lines (map print_nonneg schedule));
  train_file : file_contents o (if uplink then up_packet_train_trace c else down_packet_train_trace c) =
    Some (print_lines (map print_instance traces));
  traces_ok : config_ok schedule traces [] (timer_of uplink c);
  traces_printable : Forall instance_printable traces;
  no_log : packet_log_prefix (options c) = ""%string;
  no_offsets : (if uplink then psize_offset_up (options c) else psize_offset_down (options c)) = ""%string;
  no_start : start_timestamp (options c) = 0;
}.

(** [ferry_maker()] gives a queue as constructed. *)
Lemma make_direction_ok {OS} {cred : CredKernel OS} {files : FileKernel OS} uplink c schedule traces (q : AnyQueue) t (w : World) (o : OS) :
  traces_given uplink c schedule traces o -> clock_from w t -> sys_geteuid o <> 0 -> sys_getegid o <> 0 ->
  exists link_base delay_base w' t',
    make_direction uplink c q w o =
      Ok (cellular_new schedule traces [] (timer_of uplink c) (repeat_option (options c)) false [] q link_base delay_base, w', o) /\
    t <= link_base < time_limit /\ t <= t' /\ clock_from w' t'.
Proof.
  intros [Hh Ht Hcfg Hp Hl Ho Hs] Hw Hu Hg. unfold make_direction, construct_direction. rewrite Hl, Ho, Hs.
  destruct (cellular_construct_ok (file_contents o) (can_create o) (sys_geteuid o) (sys_getegid o)
    (if uplink then up_packet_train_trace c else down_packet_train_trace c) (if uplink then uplink_pdo_trace c else downlink_pdo_trace c)
    (repeat_option (options c)) uplink q (timer_of uplink c) schedule traces t w) as (b1 & b2 & w' & t' & E & H); [done..|].
  exists b1, b2, w', t'. unfold timer_of in E at 1. rewrite E. cbn [bind]. by split.
Qed.

(** The device of the inner namespace, which goes out of scope with the ferry. *)
Definition inner_device {Q OS} (uplink : bool) (x : LoopState (FerryState World Q) OS) : FileDescriptor :=
  if uplink then tun (user x) else sibling (user x).

(** * Property *)

(** C3: One direction of the emulator, from the trace files to the end of its
    process.  The files that the command line names hold a schedule and a
    packet-train trace; no log, no latency offsets and no start timestamp are
    given; a drophead queue has no limit in bytes; and the process is not root any
    more.  It makes the packet queue that the command line names and the cellular
    queue from the files, and runs the ferry's loop, with the handlers of the DNS
    proxy or without, for at most [fuel + 1] turns.  The devices may give any
    packets, and a write takes a packet whole or fails.  If the loop ends with a
    status, the packets that it has written and those still inside are packets
    that it has read, in the same order; otherwise the loop ends with an exception
    that is caught, by an exception in the destructor that restores the
    privileges, has not ended in its turns, or ends with what [read_packet] does
    with a packet that the devices may give and it does not accept
    ([packet_fault]).  When the loop ends with a
    status or with an exception that is caught (of a signal handler that finds
    that a child has failed, of a call that fails in a callback or in the poller),
    the destructors that follow return, the process exits, and none of its
    children is left, given that the system says of each that it goes through at
    most [fuel] changes of state and that the process may signal it; a packet
    that is not accepted ends the process where it is, and its children are
    left. *)
Theorem emulated_direction {OS : Type} `{view : FerryView World AnyQueue OS, SignalKernel OS, CredKernel OS,
      !FerryEndLaws World AnyQueue OS, FileKernel OS} (fuel : nat) (uplink : bool) (c : ShellConfig) schedule traces (q : AnyQueue)
    (l : EventLoop (FerryState World AnyQueue) OS) (children : list child) (tun sibling : FileDescriptor) (proxy : option DNSProxy)
    t (w : World) (o : OS) :
  traces_given uplink c schedule traces o -> direction_queue uplink c = Ok q -> queue_option_ok uplink c ->
  sys_geteuid o <> 0 -> sys_getegid o <> 0 -> 0 <= t -> clock_from w t ->
  poller_ l = poller_new -> tun_device (OS := OS) (fd_ tun) -> tun_device (OS := OS) (fd_ sibling) ->
  children_inv children o -> fates_within fuel children o -> Z.of_nat (6 * S fuel) < 1000000 ->
  match make_direction uplink c q w o with
  | Ok (cellular_queue, w, o) =>
      let x := {| child_processes_ := children; signal_fd := no_descriptor; os := o;
                  user := {| ferry_queue := cellular_queue; world := w; Ferry.tun := tun; Ferry.sibling := sibling; dns := proxy |} |} in
      match ferry_loop (S fuel) (register_handlers l x) x with
      | Ok (_, x') =>
          exists rs, received (W := World) (Q := AnyQueue) (fd_ tun) (os x') = received (W := World) (Q := AnyQueue) (fd_ tun) o ++ rs /\
            (datagrams (fd_ sibling) (os x') ++ in_flight (W := World) (ferry_queue (user x'))) `sublist_of` (datagrams (fd_ sibling) o ++ rs)
      | Err e => loop_fault e \/ packet_fault (OS := OS) e
      end /\
      match ferry_ends (S fuel) (inner_device uplink) (register_handlers l x) x with
      | Ok (_, o') => forall p, unreaped p o' -> unreaped p o /\ p ∉ pids children
      | Err e => e = Diverges \/ e = in_destructor_fault \/ packet_fault (OS := OS) e
      end
  | Err _ => False
  end.
Proof.
  intros Hfiles Hq Hqo Hu Hg Ht Hw Hl Htun Hsib Hc Hf Hn.
  assert (Hq' : queue_wf (W := World) q /\ packets (W := World) q = [])
    by (unfold direction_queue in Hq; unfold queue_option_ok in Hqo; destruct uplink; by eapply named_queue_ready).
  destruct (make_direction_ok uplink c schedule traces q t w o Hfiles Hw Hu Hg) as (b1 & b2 & w' & t' & -> & Hb & Ht' & Hw').
  cbv zeta. set (x := Build_LoopState _ _ _ _).
  refine (ferry_process_ends (FlowingQueue0 := fifo_flows) dropping_flow fuel (inner_device uplink) l x _ Hf Hn).
  split; [|done..|].
  - exists schedule, traces, [], (timer_of uplink c), (repeat_option (options c)), false, [], q, b1, b2.
    destruct Hq', Hfiles. do 4 (split; [done || lia|]). done.
  - exists t'. split; [lia|done].
Qed.

(** * A machine with traces

    The machine of [Household], whose two files hold a schedule and the sample
    trace; the packet queue holds at most two packets. *)

Module TracesGiven.
Import Crossing Household ProcessTable.

#[export] Instance house_files : FileKernel House := {
  file_contents _ name :=
    if String.eqb name "up.pdo" then Some (print_lines (map print_nonneg [0; 1; 5]))
    else if String.eqb name "up.trace" then Some (print_lines (map print_instance sample_trace)) else None;
  can_create _ _ := false;
}.

Definition config : ShellConfig :=
  {| options := default_options <| uplink_queue_type := "droptail" |> <| uplink_queue_args := "packets=2" |>
                                <| long_to_short_timer_up := 50 |>;
     up_packet_train_trace := "up.trace"; down_packet_train_trace := ""; uplink_pdo_trace := "up.pdo"; downlink_pdo_trace := "";
     command := ["bash"]; logged_command_line := "" |}.

Lemma config_given : traces_given true config [0; 1; 5] sample_trace start_house.
Proof. split; try done; [exact sample_config_ok|by_computation]. Qed.

Lemma droptail_named : queue_option_ok true config.
Proof. intros E. discriminate E. Qed.

Lemma not_root : 1000 <> 0.
Proof. done. Qed.

Definition two_packets : AnyQueue :=
  AnyDropTail {| tail_queue := {| queue_size_in_bytes_ := 0; queue_size_in_packets_ := 0; internal_queue_ := [];
                                  packet_limit_ := 2; byte_limit_ := 0 |} |}.

Definition given_loop : EventLoop (FerryState World AnyQueue) House := {| signals_ := {| mask_ := [] |}; poller_ := poller_new |}.

Lemma emulated_direction_witness :
  match make_direction true config two_packets ticking start_house with
  | Ok (cellular_queue, w, o) =>
      let x := {| child_processes_ := family; signal_fd := no_descriptor; os := o;
                  user := {| ferry_queue := cellular_queue; world := w; tun := descriptor 3; sibling := descriptor 4;
                             dns := dns (user box_start) |} |} in
      match ferry_loop 61 (register_handlers given_loop x) x with
      | Ok (_, x') =>
          exists rs, received (W := World) (Q := AnyQueue) (fd_ (descriptor 3)) (os x') =
              received (W := World) (Q := AnyQueue) (fd_ (descriptor 3)) o ++ rs /\
            (datagrams (fd_ (descriptor 4)) (os x') ++ in_flight (W := World) (ferry_queue (user x'))) `sublist_of`
              (datagrams (fd_ (descriptor 4)) o ++ rs)
      | Err e => loop_fault e \/ packet_fault (OS := House) e
      end /\
      match ferry_ends 61 (inner_device true) (register_handlers given_loop x) x with
      | Ok (_, o') => forall p, unreaped p o' -> unreaped p o /\ p ∉ pids family
      | Err e => e = Diverges \/ e = in_destructor_fault \/ packet_fault (OS := House) e
      end
  | Err _ => False
  end.
Proof.
  pose proof (emulated_direction (view := view) 60 true config [0; 1; 5] sample_trace two_packets given_loop family
    (descriptor 3) (descriptor 4) (dns (user box_start)) 0 ticking start_house config_given eq_refl
    droptail_named not_root not_root (Z.le_refl 0) ticking_from eq_refl (or_introl eq_refl) (or_intror eq_refl)
    family_inv (fates_within_le 2 60 _ _ ltac:(lia) family_fates) eq_refl) as H.
  exact H.
Defined.

(** The two packets cross, and both children are reaped: the process exits with
    the loop's status, 0.  When the user's command has failed, it
    exits with [EXIT_FAILURE]. *)
Definition direction_runs (o : House) : option (Z * nat * bool * bool) :=
  match make_direction true config two_packets ticking o with
  | Ok (cellular_queue, w, o) =>
      let x := {| child_processes_ := family; signal_fd := no_descriptor; os := o;
                  user := {| ferry_queue := cellular_queue; world := w; tun := descriptor 3; sibling := descriptor 4; dns := None |} |} in
      match ferry_ends 60 (inner_device true) (register_handlers given_loop x) x with
      | Ok (st, o') => Some (st, List.length (sent (box o') 4), bool_decide (processes o' 7 = None), bool_decide (processes o' 8 = None))
      | Err _ => None
      end
  | Err _ => None
  end.

Definition command_fails : House :=
  {| box := box start_house; processes := Signals.table {| stops := []; exits_with := Some 1 |} {| stops := [true]; exits_with := Some 0 |};
     coming := Byte.x11 (* SIGCHLD *) |}.

Example emulated_direction_runs :
  direction_runs start_house = Some (0, 2%nat, true, true) /\ direction_runs command_fails = Some (1, 2%nat, true, true).
Proof. split; vm_compute; reflexivity. Qed.

(** A packet of 1500 bytes (with the 4 bytes that the device puts before it) ends
    the process with the pointer that [read_packet] throws: no destructor has run,
    and both children are still there. *)
Definition big_packet : House :=
  {| box := {| inbox := [sample_contents 1000 1472]; taken := []; sent := fun _ => [] |};
     processes := start_processes; coming := Byte.x0f |}.

Lemma oversize_packet_leaves_children :
  match make_direction true config two_packets ticking big_packet with
  | Ok (cellular_queue, w, o) =>
      let x := {| child_processes_ := family; signal_fd := no_descriptor; os := o;
                  user := {| ferry_queue := cellular_queue; world := w; tun := descriptor 3; sibling := descriptor 4; dns := None |} |} in
      match ferry_ends 60 (inner_device true) (register_handlers given_loop x) x with
      | Ok _ => None
      | Err e => Some (e, bool_decide (processes o 7 = None), bool_decide (processes o 8 = None))
      end
  | Err _ => None
  end = Some (ThrowPointer "Packet size (1504)  exceeds the maximum allowed (1400)", false, false).
Proof. vm_compute. reflexivity. Qed.
End TracesGiven.
