(* ===== verification/Credentials.v ===== *)
(** What operations leave of the identities of the process: the system calls by
    law ([CredFrame]), and from them the operations up to the ends of the
    processes. *)
From Stdlib Require Import String Ascii.
From S2P Require Import Prelude Timestamp PacketQueue CellularQueue DelayTrace TraceLoader FileDescriptor ByteStreamQueue SignalFD Poller ChildProcess Privileges Address Interfaces Socket DnsProxy EventLoop Ferry Shell Commands NetDevice SocketPair Util PacketShell Frames.

(** * What the system calls leave alone *)

(** The identities of the process and whether it has an environment. *)
Definition creds {OS} {cred : CredKernel OS} {laws : CredLaws OS} {env : EnvironKernel OS} (o : OS) : ids * ids * bool :=
  (uids o, gids o, environ_set o).

Definition same_ids {OS} `{CredLaws OS, EnvironKernel OS} (o o' : OS) : Prop := creds o' = creds o.

#[export] Instance same_ids_preorder {OS} `{CredLaws OS, EnvironKernel OS} : PreOrder same_ids.
Proof. split; unfold same_ids; [by intros o|]. intros o1 o2 o3; congruence. Qed.

(** Only the calls of [CredKernel] change identities, only assignments to
    [environ] and [setenv] the environment. *)
Class CredFrame (OS : Type) `{CredLaws OS, EnvironKernel OS, Kernel OS, OpenKernel OS, IfaddrKernel OS, SocketKernel OS,
    DeviceKernel OS, PairKernel OS, ProcessKernel OS, SignalKernel OS, SleepKernel OS, ResolverKernel OS} : Prop := {
  creds_quiet :: QuietCalls OS same_ids;
  stat_creds o : creds (sys_stat_task o).2 = creds o;
  clone_creds ns o : creds (sys_clone ns o).2 = creds o;
  waitid_creds pid b1 b2 si o : creds (sys_waitid pid b1 b2 si o).2 = creds o;
  kill_creds pid sig o : creds (sys_kill pid sig o).2 = creds o;
  raise_creds sig o : creds (sys_raise sig o).2 = creds o;
  setenv_ids n v over o : uids (sys_setenv n v over o).2 = uids o /\ gids (sys_setenv n v over o).2 = gids o;
  environ_ids e o : uids (set_environ e o) = uids o /\ gids (set_environ e o) = gids o;
  environ_cleared o : environ_set (set_environ None o) = false;
  seteuid_environ v o : environ_set (sys_seteuid v o).2 = environ_set o;
  setegid_environ v o : environ_set (sys_setegid v o).2 = environ_set o;
}.

(** Nor does [poll]. *)
Class PollFrame (U OS : Type) `{CredLaws OS, EnvironKernel OS} {pk : PollKernel (LoopState U OS)} : Prop :=
  poll_creds pfds timeout x : creds (os (sys_poll pfds timeout x).2) = creds (os x).

Create HintDb creds.
#[export] Hint Resolve stat_creds clone_creds waitid_creds kill_creds raise_creds : creds.

(** * Results of operations *)

(** The result of an operation that keeps [creds]. *)
Abbreviation keeps_creds o m := (returns m (fun r => creds (snd r) = creds o)).

(** One step of an operation: a bind whose first part is known or does not
    concern the system, a system call, a test. *)
Ltac creds_step :=
  match goal with
  | |- returns (bind _ _) _ =>
      eapply returns_bind; [first [solve [eauto with creds nocore] | apply returns_any] | intros ? ?; open_result]
  | |- returns (Err _) _ => exact I
  | |- returns (Ok _) _ => cbn [returns fst snd]; try congruence
  | |- context [match ?c with _ => _ end] =>
      lazymatch type of c with
      | (_ * _)%type =>
          let H := fresh "E" in
          first [eassert (H : creds (snd c) = creds _) by solve [eauto with creds nocore] | assert (H : True) by exact I];
          destruct c; open_result
      | _ => destruct c; open_result
      end
  end.

Ltac creds_steps := repeat (creds_step; try done).

(** * The beginning of the program keeps its identities *)

Section Frames.
Context {OS : Type} `{frame : CredFrame OS}.
Implicit Types (o : OS) (f : FileDescriptor).

(** Those that make no process. *)

Lemma open_creds path o : creds (sys_open path o).2 = creds o.
Proof. exact (quiet_open (P := same_ids) path o). Qed.
Lemma read_creds fd n o : creds (sys_read fd n o).2 = creds o.
Proof. exact (quiet_read (P := same_ids) fd n o). Qed.
Lemma getmask_creds o : creds (sys_sigprocmask_get o).2 = creds o.
Proof. exact (quiet_getmask (P := same_ids) o). Qed.
#[local] Hint Resolve open_creds : creds.

Lemma fd_new_creds n o : keeps_creds o (fd_new n o).
Proof. exact (fd_new_quiet same_ids n o). Qed.

Lemma fd_destroy_creds f o : creds (fd_destroy f o) = creds o.
Proof. exact (fd_destroy_quiet same_ids f o). Qed.

Lemma fd_read_creds limit f o : keeps_creds o (read limit f o).
Proof. exact (fd_read_quiet same_ids limit f o). Qed.
#[local] Hint Resolve fd_new_creds fd_destroy_creds fd_read_creds : creds.

Lemma read_all_creds fuel : forall f o acc, keeps_creds o (read_all fuel f o acc).
Proof. exact (read_all_quiet same_ids fuel). Qed.
#[local] Hint Resolve read_all_creds : creds.

Lemma interfaces_creds fuel o : keeps_creds o (interfaces_new fuel o).
Proof. exact (interfaces_quiet same_ids fuel o). Qed.
#[local] Hint Resolve interfaces_creds : creds.

Context {names : NameFunctions}.

Lemma two_unassigned_creds fuel avoid o : keeps_creds o (two_unassigned_addresses fuel avoid o).
Proof. exact (two_unassigned_quiet same_ids fuel avoid o). Qed.

Lemma first_nameserver_creds o : keeps_creds o (first_nameserver o).
Proof. exact (first_nameserver_quiet same_ids o). Qed.

Lemma socket_new_creds domain type o : keeps_creds o (socket_new domain type o).
Proof. exact (socket_new_quiet same_ids domain type o). Qed.

Lemma fd_ioctl_creds f request name adj o : returns (fd_interface_ioctl f request name adj o) (fun o' => creds o' = creds o).
Proof. exact (fd_ioctl_quiet same_ids f request name adj o). Qed.
Lemma udp_socket_creds o : keeps_creds o (udp_socket o).
Proof. exact (udp_socket_quiet same_ids o). Qed.
Lemma tcp_socket_creds o : keeps_creds o (tcp_socket o).
Proof. exact (tcp_socket_quiet same_ids o). Qed.
#[local] Hint Resolve udp_socket_creds tcp_socket_creds fd_ioctl_creds : creds.

Lemma interface_ioctl_creds request name adj o :
  returns (interface_ioctl request name adj o) (fun o' => creds o' = creds o).
Proof. exact (interface_ioctl_quiet same_ids request name adj o). Qed.
#[local] Hint Resolve interface_ioctl_creds : creds.

Lemma assign_address_creds name addr peer o :
  returns (assign_address name addr peer o) (fun o' => creds o' = creds o).
Proof. exact (assign_address_quiet same_ids name addr peer o). Qed.
#[local] Hint Resolve assign_address_creds : creds.

Lemma tun_device_creds name addr peer o : keeps_creds o (tun_device_new name addr peer o).
Proof. exact (tun_device_quiet same_ids name addr peer o). Qed.
#[local] Hint Resolve tun_device_creds : creds.

Lemma socket_bind_creds a f o : returns (socket_bind a f o) (fun o' => creds o' = creds o).
Proof. exact (socket_bind_quiet same_ids a f o). Qed.
Lemma socket_connect_creds a f o : returns (socket_connect a f o) (fun o' => creds o' = creds o).
Proof. exact (socket_connect_quiet same_ids a f o). Qed.
Lemma socket_listen_creds n f o : returns (socket_listen n f o) (fun o' => creds o' = creds o).
Proof. exact (socket_listen_quiet same_ids n f o). Qed.
Lemma local_address_creds f o : keeps_creds o (local_address f o).
Proof. exact (local_address_quiet same_ids f o). Qed.
#[local] Hint Resolve socket_bind_creds socket_connect_creds socket_listen_creds local_address_creds : creds.

Lemma require_bound_creds e f o : returns (require_bound e f o) (fun o' => creds o' = creds o).
Proof. exact (require_bound_quiet same_ids e f o). Qed.
Lemma bound_udp_creds a o : keeps_creds o (make_bound_socket udp_socket a o).
Proof. exact (bound_udp_quiet same_ids a o). Qed.
Lemma bound_tcp_creds a o : keeps_creds o (make_bound_socket tcp_socket a o).
Proof. exact (bound_tcp_quiet same_ids a o). Qed.
#[local] Hint Resolve require_bound_creds bound_udp_creds bound_tcp_creds : creds.

Lemma dns_proxy_creds a u t o : keeps_creds o (dns_proxy_bound a u t o).
Proof. exact (dns_proxy_quiet same_ids a u t o). Qed.

Lemma make_pair_creds o : keeps_creds o (make_pair o).
Proof. exact (make_pair_quiet same_ids o). Qed.

Lemma set_as_mask_creds m o : returns (set_as_mask m o) (fun o' => creds o' = creds o).
Proof. exact (set_as_mask_quiet same_ids m o). Qed.
#[local] Hint Resolve set_as_mask_creds : creds.

Lemma event_loop_creds {U} o : keeps_creds o (event_loop_new (U := U) o).
Proof. exact (event_loop_quiet same_ids o). Qed.

Lemma default_route_creds ingress egress o : returns (add_default_route ingress egress o) (fun o' => creds o' = creds o).
Proof. exact (default_route_quiet same_ids ingress egress o). Qed.
#[local] Hint Resolve default_route_creds : creds.

Lemma setup_ingress_creds ingress egress o : keeps_creds o (setup_ingress ingress egress o).
Proof. exact (setup_ingress_quiet same_ids ingress egress o). Qed.

Lemma send_fd_creds fd f o : keeps_creds o (send_fd fd f o).
Proof. exact (send_fd_quiet same_ids fd f o). Qed.

Lemma recv_fd_creds f o : keeps_creds o (recv_fd f o).
Proof. exact (recv_fd_quiet same_ids f o). Qed.

(** ** Processes *)

Lemma do_clone_creds ns o : keeps_creds o (do_clone ns o).
Proof. unfold do_clone. creds_steps. Qed.
#[local] Hint Resolve do_clone_creds : creds.

Lemma child_new_creds name proc ns sig o : keeps_creds o (child_new name proc ns sig o).
Proof. unfold child_new. creds_steps. Qed.
#[local] Hint Resolve child_new_creds : creds.

Lemma fork_creds name proc ns sig o : keeps_creds o (fork name proc ns sig o).
Proof. unfold fork. creds_steps. Qed.

Lemma wait_creds nonblocking c o : keeps_creds o (wait nonblocking c o).
Proof. unfold wait. creds_steps. Qed.
#[local] Hint Resolve fork_creds wait_creds : creds.

Lemma wait_after_creds b c o : creds (wait_after b c o) = creds o.
Proof. apply waitid_creds. Qed.

Lemma signal_after_creds sig c o : creds (signal_after sig c o) = creds o.
Proof. unfold signal_after. destruct (terminated_ c); [done|apply kill_creds]. Qed.

Lemma resume_after_creds c o : creds (resume_after c o) = creds o.
Proof. unfold resume_after. destruct (running_ c); [done|apply signal_after_creds]. Qed.

Lemma wait_terminated_creds fuel : forall c o, creds (wait_terminated fuel c o).2 = creds o.
Proof.
  induction fuel as [|fuel IH]; intros c o; cbn [wait_terminated]; destruct (terminated c) as [[]|]; try done.
  pose proof (wait_creds false c o) as H'. destruct (wait false c o) as [[c' o']|]; [|apply wait_after_creds].
  cbn in H'. by rewrite IH.
Qed.

Lemma terminate_loop_creds fuel : forall c o, creds (terminate_loop fuel c o).2 = creds o.
Proof.
  induction fuel as [|fuel IH]; intros c o; cbn [terminate_loop]; destruct (terminated_ c); try done.
  destruct (resume c o) as [o1|] eqn:E1; [|apply resume_after_creds]. apply resume_after_ok in E1.
  destruct (signal _ c o1) as [o2|] eqn:E2.
  2: { cbn [snd]. by rewrite signal_after_creds, <- E1, resume_after_creds. }
  apply signal_after_ok in E2. assert (Eo : creds o2 = creds o) by by rewrite <- E2, signal_after_creds, <- E1, resume_after_creds.
  pose proof (wait_creds false c o2) as H'. destruct (wait false c o2) as [[c' o']|].
  - cbn in H'. rewrite IH. congruence.
  - cbn [snd]. by rewrite wait_after_creds.
Qed.

Lemma child_destroy_creds fuel c o : keeps_creds o (child_destroy fuel c o).
Proof.
  unfold child_destroy. destruct (moved_away_ c); [done|]. pose proof (terminate_loop_creds fuel c o) as H'.
  destruct (terminate_loop fuel c o) as [[[u|e] c'] o']; [done|]. by destruct (caught_as_exception e).
Qed.

Lemma destroy_children_creds fuel children : forall o, keeps_creds o (destroy_children fuel children o).
Proof.
  induction children as [|[st c] children IH]; intros o; cbn [destroy_children]; [done|].
  eapply returns_bind; [apply child_destroy_creds|intros [c' o1] E1; cbn [snd] in E1].
  eapply returns_bind; [apply IH|intros [l o2] E2; cbn [snd] in E2]. cbn. congruence.
Qed.

Lemma fork_after_creds ns o : creds (fork_after ns o) = creds o.
Proof.
  unfold fork_after. pose proof (stat_creds o) as H'. destruct (sys_stat_task o) as [[r st] o1]. cbn in H'.
  destruct (_ || _); [done|]. by rewrite clone_creds.
Qed.

Lemma await_creds fuel c o : creds (await fuel c o).2 = creds o.
Proof. unfold await. pose proof (wait_terminated_creds fuel c o) as H'. by destruct (wait_terminated fuel c o) as [[r c'] o']. Qed.

Lemma run_in_creds {exec : ExecKernel OS} fuel command o : creds (run_in fuel command o).2 = creds o.
Proof.
  unfold run_in. destruct (join command); [|done]. pose proof (fork_creds a (ezexec command false) false SIGHUP o) as Hf.
  destruct (fork _ _ _ _ o) as [[c o1]|]; [cbn in Hf|apply fork_after_creds].
  pose proof (await_creds fuel c o1) as Hw. destruct (await fuel c o1) as [[r c'] o2]. cbn [snd] in Hw.
  pose proof (child_destroy_creds fuel c' o2) as Hd. destruct (child_destroy fuel c' o2) as [[c2 o3]|]; cbn in *; congruence.
Qed.

Lemma run_creds {exec : ExecKernel OS} fuel command o : returns (run fuel command o) (fun o' => creds o' = creds o).
Proof. unfold run. pose proof (run_in_creds fuel command o) as H'. by destruct (run_in fuel command o) as [[u|e] o']. Qed.

Lemma run_caught_creds {exec : ExecKernel OS} fuel command o : returns (run_caught fuel command o) (fun o' => creds o' = creds o).
Proof.
  unfold run_caught. pose proof (run_in_creds fuel command o) as H'. destruct (run_in fuel command o) as [[u|e] o']; [done|].
  by destruct (caught_as_exception e).
Qed.
#[local] Hint Resolve run_creds : creds.

Lemma nat_rule_creds {exec : ExecKernel OS} {config : BuildConfig} fuel args o : keeps_creds o (nat_rule_new fuel args o).
Proof. unfold nat_rule_new. creds_steps. Qed.
#[local] Hint Resolve nat_rule_creds : creds.

Lemma nat_new_creds {exec : ExecKernel OS} {config : BuildConfig} fuel a process o : keeps_creds o (nat_new fuel a process o).
Proof. unfold nat_new. creds_steps. Qed.

Lemma probe_loop_creds fuel attempts f o : keeps_creds o (probe_loop fuel attempts f o).
Proof. exact (probe_loop_quiet same_ids fuel attempts f o). Qed.
#[local] Hint Resolve probe_loop_creds : creds.

Lemma dnsmasq_creds {exec : ExecKernel OS} args o : keeps_creds o (start_dnsmasq_with args o).
Proof. unfold start_dnsmasq_with. creds_steps. rewrite fd_destroy_creds. congruence. Qed.

(** ** Identities *)

(** As the program is started: set-user-ID, by a user and a group that are not
    root's, and with its environment cleared. *)
Record started o : Prop := {
  started_exec : after_exec o;
  started_user : real_id (uids o) <> 0;
  started_group : real_id (gids o) <> 0;
  started_environ : environ_set o = false;
}.

(** With the identities of the user who started the program in [o], and no
    others. *)
Definition unprivileged o o' : Prop := uids o' = all_ids (real_id (uids o)) /\ gids o' = all_ids (real_id (gids o)).

Lemma creds_eq o o' : creds o' = creds o -> uids o' = uids o /\ gids o' = gids o /\ environ_set o' = environ_set o.
Proof. unfold creds. intros E. by simplify_eq. Qed.

Lemma started_creds o o' : creds o' = creds o -> started o -> started o'.
Proof. intros (Eu & Eg & Ee)%creds_eq [[]]. split; [split|..]; congruence. Qed.

Lemma unprivileged_same o o1 o2 : uids o2 = uids o1 -> gids o2 = gids o1 -> unprivileged o o1 -> unprivileged o o2.
Proof. intros Eu Eg []. split; congruence. Qed.

Lemma unprivileged_creds o o1 o2 : creds o2 = creds o1 -> unprivileged o o1 -> unprivileged o o2.
Proof. intros (Eu & Eg & _)%creds_eq. by apply unprivileged_same. Qed.

Lemma drop_privileges_unprivileged o o' : creds o' = creds o -> started o -> returns (drop_privileges o') (unprivileged o).
Proof.
  intros E Hs. destruct (started_creds _ _ E Hs) as [Ha Hu Hg _]. destruct (drop_privileges_ok o' Ha Hu) as (o2 & -> & Hu2 & Hg2).
  apply creds_eq in E as (Eu & Eg & _). split; congruence.
Qed.

Lemma check_requirements_started argc argv0 o : after_exec o ->
  returns (check_requirements argc argv0 (environ_set o) o) (fun o' => creds o' = creds o /\ started o).
Proof.
  intros Ha. unfold check_requirements. destruct (argc <=? 0); [done|].
  destruct (sys_open "/dev/null" o) as [r o1] eqn:E1. pose proof (open_creds "/dev/null" o) as Ho. rewrite E1 in Ho. cbn [snd] in Ho.
  creds_step. creds_step. pose proof (fd_destroy_creds f o0) as Hd.
  destruct (creds_eq o (fd_destroy f o0)) as (Eu & Eg & Ee); [congruence|].
  rewrite getuid_spec, getgid_spec, Eu, Eg. destruct (negb _); [done|].
  destruct (Z.eqb_spec (real_id (uids o)) 0); [done|]. destruct (Z.eqb_spec (real_id (gids o)) 0); [done|]. cbn [orb].
  destruct (environ_set o) eqn:Ev; [done|]. creds_steps. rewrite fd_destroy_creds. split; [congruence|by split].
Qed.

Lemma environ_step v o r o' : (sys_seteuid v o = (r, o') \/ sys_setegid v o = (r, o')) -> environ_set o' = environ_set o.
Proof. intros [E|E]; [pose proof (seteuid_environ v o) as H'|pose proof (setegid_environ v o) as H']; by rewrite E in H'. Qed.

Lemma leave_environ tu o : returns (unprivileged_leave tu o) (fun o' => environ_set o' = environ_set o).
Proof.
  unfold unprivileged_leave, in_destructor. destruct (sys_seteuid _ o) as [r o1] eqn:E1. destruct (SystemCall _ r); cbn [bind].
  2: by destruct (caught_as_exception _).
  destruct (sys_setegid _ o1) as [r2 o2] eqn:E2. destruct (SystemCall _ r2); cbn [bind]; [|by destruct (caught_as_exception _)].
  cbn. rewrite (environ_step _ _ _ _ (or_intror E2)). by apply (environ_step _ _ _ _ (or_introl E1)).
Qed.

Lemma enter_environ o : returns (unprivileged_enter o) (fun r => environ_set r.2 = environ_set o).
Proof.
  unfold unprivileged_enter. destruct (sys_setegid _ o) as [r o1] eqn:E1. destruct (SystemCall _ r); cbn [bind]; [|done].
  destruct (sys_seteuid _ o1) as [r2 o2] eqn:E2. destruct (SystemCall _ r2); cbn [bind]; [|done].
  destruct (assert_not_root o2); cbn; [|done].
  rewrite (environ_step _ _ _ _ (or_introl E2)). by apply (environ_step _ _ _ _ (or_intror E1)).
Qed.

(** A scope of [TemporarilyUnprivileged] that leaves the identities alone ends
    as it began. *)
Lemma unprivileged_scope_ends o tu o1 o2 : started o -> unprivileged_enter o = Ok (tu, o1) ->
  uids o2 = uids o1 -> gids o2 = gids o1 -> environ_set o2 = false ->
  exists o3, unprivileged_leave tu o2 = Ok o3 /\ creds o3 = creds o.
Proof.
  intros [[Hsu Hsg] Hu Hg Hc] Ee Eu Eg Hv. destruct (unprivileged_enter_ok o Hu Hg) as (o1' & E1 & Hu1 & Hg1).
  rewrite E1 in Ee. simplify_eq.
  destruct (unprivileged_leave_ok (uids o) (gids o) o2 Hsu Hsg) as (o3 & E3 & Hu3 & Hg3); [congruence..|].
  pose proof (leave_environ {| orig_euid := effective_id (uids o); orig_egid := effective_id (gids o) |} o2) as He3.
  rewrite E3 in He3. cbn in He3. exists o3. split; [exact E3|]. unfold creds. congruence.
Qed.

Lemma unprivileged_scope o tu o1 o2 : started o -> unprivileged_enter o = Ok (tu, o1) ->
  uids o2 = uids o1 -> gids o2 = gids o1 -> environ_set o2 = false ->
  returns (unprivileged_leave tu o2) (fun o3 => creds o3 = creds o).
Proof. intros Hs E Eu Eg Ev. by destruct (unprivileged_scope_ends o tu o1 o2 Hs E Eu Eg Ev) as (o3 & -> & H'). Qed.

(** The scope of [get_mahimahi_base]. *)
Lemma mahimahi_base_creds e o : started o -> keeps_creds o (get_mahimahi_base e o).
Proof.
  intros Hs. unfold get_mahimahi_base. destruct (unprivileged_enter o) as [[tu o1]|] eqn:E1; cbn [bind]; [|done].
  destruct (environ_set o1); [done|]. destruct (match sys_getenv _ _ with Some _ => _ | None => _ end) as [a|]; cbn [bind]; [|done].
  set (o2 := set_environ None _).
  assert (Hi : uids o2 = uids o1 /\ gids o2 = gids o1 /\ environ_set o2 = false).
  { subst o2. destruct (environ_ids None (set_environ e o1)) as [-> ->]. destruct (environ_ids e o1) as [-> ->].
    by rewrite environ_cleared. }
  destruct Hi as (Hu2 & Hg2 & He2). eapply returns_bind; [by eapply unprivileged_scope|]. done.
Qed.

(** ** The end of the program *)

Lemma signal_fd_creds m o : keeps_creds o (signal_fd_new m o).
Proof. exact (signal_fd_quiet same_ids m o). Qed.

Lemma current_mask_creds o : keeps_creds o (current_mask o).
Proof. exact (current_mask_quiet same_ids o). Qed.

Context {U : Type} {pk : PollKernel (LoopState U OS)} {pf : PollFrame U OS}.

Definition same_creds (x x' : LoopState U OS) : Prop := creds (os x') = creds (os x).

#[local] Instance same_creds_preorder : PreOrder same_creds.
Proof. split; [by intros x|intros x y z; unfold same_creds; congruence]. Qed.

Lemma on_signal_creds : action_kept same_creds (action_new signal_fd In (on_signal (U := U)) always).
Proof.
  split.
  - intros y r y' E. eapply (on_signal_frame (fun o o' => creds o' = creds o)); [| | | | | |exact E];
      eauto using waitid_creds, kill_creds, raise_creds, read_creds. congruence.
  - intros y r y' E. by injection E as <- <-.
Qed.

(** The poller of a loop without actions of its own, when it has started. *)
Lemma started_actions_creds (l : EventLoop U OS) x : poller_ l = poller_new ->
  Forall (action_kept same_creds) (actions_ (poller_ (add_simple_input_handler signal_fd on_signal x l))).
Proof.
  intros Hl. unfold add_simple_input_handler, loop_add_action. cbn [poller_]. rewrite Hl. constructor; [|constructor]. apply on_signal_creds.
Qed.

Lemma loop_start_creds (l : EventLoop U OS) x tu l1 x1 : loop_start l x = Ok (tu, l1, x1) ->
  l1 = add_simple_input_handler signal_fd on_signal x1 l /\
  exists o1, unprivileged_enter (os x) = Ok (tu, o1) /\ environ_set o1 = environ_set (os x) /\ creds (os x1) = creds o1.
Proof.
  unfold loop_start. pose proof (enter_environ (os x)) as Hv1. intros E. apply bind_Ok in E as ([tu1 o1] & E1 & E). rewrite E1 in Hv1.
  pose proof (current_mask_creds o1) as H2'. apply bind_Ok in E as ([m o2] & E2 & E). rewrite E2 in H2'. destruct (negb _); [done|].
  pose proof (signal_fd_creds (signals_ l) o2) as H3'. apply bind_Ok in E as ([sfd o3] & E3 & E). rewrite E3 in H3'. simplify_eq.
  split; [done|]. exists o1. cbn in *. split_and!; try done. congruence.
Qed.

(** The end of the scope of the loop. *)
Lemma loop_end_creds o tu o1 (x2 : LoopState U OS) : started o -> unprivileged_enter o = Ok (tu, o1) -> environ_set o1 = environ_set o ->
  creds (os x2) = creds o1 -> exists x3, loop_end tu x2 = Ok x3 /\ creds (os x3) = creds o.
Proof.
  intros Hs E1 Hv1 Hk. unfold loop_end. destruct (creds_eq o1 (fd_destroy (signal_fd x2) (os x2))) as (Eu & Eg & Ev).
  { by rewrite fd_destroy_creds. }
  destruct (unprivileged_scope_ends o tu o1 (fd_destroy (signal_fd x2) (os x2)) Hs E1 Eu Eg) as (o3 & -> & Ec).
  { rewrite Ev, Hv1. apply Hs. }
  by eexists.
Qed.

(** A loop without actions of its own. *)
Lemma loop_creds fuel (l : EventLoop U OS) x : poller_ l = poller_new -> started (os x) ->
  returns (loop fuel l x) (fun r => creds (os r.2) = creds (os x)).
Proof.
  intros Hl Hs. unfold loop, internal_loop. destruct (loop_start l x) as [[[tu l1] x1]|] eqn:Es; cbn [bind]; [|done].
  apply loop_start_creds in Es as (-> & o1 & E1 & Hv1 & H1'). destruct (turns _ _ _ x1) as [[[st p'] x2]|] eqn:Et; cbn [bind]; [|done].
  eapply (turns_kept same_creds) in Et as [Hk _]; [|apply poll_creds|by intros y t y' [= _ <-]|by apply started_actions_creds].
  destruct st as [st|]; cbn [bind]; [|done].
  destruct (loop_end_creds (os x) tu o1 x2 Hs E1 Hv1) as (x3 & -> & Ec); [by rewrite Hk|exact Ec].
Qed.

Lemma nat_rule_destroy_creds {exec : ExecKernel OS} {config : BuildConfig} fuel r o :
  returns (nat_rule_destroy fuel r o) (fun o' => creds o' = creds o).
Proof. apply run_caught_creds. Qed.
End Frames.
