(* ===== verification/PrivilegeSeparation.v ===== *)
(** Privilege separation: what the whole program (src/frontend/cellularshell.cc,
    src/packet/packetshell.cc) executes and reads with which identities.

    The program is installed setuid root.  Two facts about the system are told
    apart for it: which programs [execve] runs, and what the user's files hold.
    [privilege_separation] says in which states the answers matter at all. *)
From Stdlib Require Import String Ascii.
From S2P Require Import Prelude Timestamp PacketQueue CellularQueue DelayTrace TraceLoader FileDescriptor ByteStreamQueue SignalFD Poller ChildProcess Privileges Address Interfaces Socket DnsProxy EventLoop Ferry Shell Commands NetDevice SocketPair Util PacketShell TunPacketShell CellularShell Frames Credentials.

(** * Two systems

    They differ in the programs that [execve] runs and in the user's files, but
    not for the programs of the machine without an environment, nor for a
    process that has the user's identities. *)

Section Agreement.
Context {OS : Type} `{frame : CredFrame OS} {names : NameFunctions} {config : BuildConfig} {pids : PidKernel OS}.
Context (e1 e2 : ExecKernel OS) (o : OS).
Hypothesis start : started o.

Record exec_agree : Prop := {
  agree_admin : forall program argv o', program = IPTABLES \/ program = DNSMASQ -> environ_set o' = false ->
    e1 false (c_string program) argv o' = e2 false (c_string program) argv o';
  agree_user : forall path_search file argv o', unprivileged o o' -> e1 path_search file argv o' = e2 path_search file argv o';
}.
Hypothesis agree : exec_agree.

Abbreviation as_started o' := (creds o' = creds o).

Lemma exec_admin_agree program args o' : program = IPTABLES \/ program = DNSMASQ -> as_started o' ->
  ezexec (exec := e1) (program :: args) false o' = ezexec (exec := e2) (program :: args) false o'.
Proof.
  intros Hp (_ & _ & E)%creds_eq. unfold ezexec, sys_exec. rewrite (agree_admin agree); [done|done|].
  rewrite E. apply start.
Qed.

Lemma exec_user_agree command path_search o' : unprivileged o o' ->
  ezexec (exec := e1) command path_search o' = ezexec (exec := e2) command path_search o'.
Proof. intros Hu. unfold ezexec, sys_exec. destruct command; [done|]. by rewrite (agree_user agree). Qed.

Lemma fork_agree name f g ns sig o' : (forall o1, creds o1 = creds o' -> f o1 = g o1) ->
  fork name f ns sig o' = fork name g ns sig o'.
Proof.
  intros Hfg. unfold fork, child_new. f_equal. apply (bind_agree _ _ _ _ (do_clone_creds ns o')). intros [pid o1] Hc.
  destruct (pid =? 0); [|done]. unfold run_child. do 4 f_equal. destruct (signal_mask_new []) as [m|]; cbn [bind]; [|done].
  apply (bind_agree _ _ _ _ (set_as_mask_creds m o1)). intros o2 E2. apply Hfg. cbn [snd] in Hc. congruence.
Qed.

Lemma run_in_agree fuel program args o' : program = IPTABLES \/ program = DNSMASQ -> as_started o' ->
  run_in (exec := e1) fuel (program :: args) o' = run_in (exec := e2) fuel (program :: args) o'.
Proof.
  intros Hp Hs. unfold run_in. destruct (join _); [|done]. erewrite fork_agree; [done|]. intros o1 E.
  apply exec_admin_agree; [done|]. congruence.
Qed.

Lemma run_agree fuel program args o' : program = IPTABLES \/ program = DNSMASQ -> as_started o' ->
  run (exec := e1) fuel (program :: args) o' = run (exec := e2) fuel (program :: args) o'.
Proof. intros Hp Hs. unfold run. by rewrite run_in_agree. Qed.

Lemma nat_rule_agree fuel args o' : as_started o' ->
  nat_rule_new (exec := e1) fuel args o' = nat_rule_new (exec := e2) fuel args o'.
Proof. intros Hs. unfold nat_rule_new. cbn [app]. by rewrite run_agree by auto. Qed.

Lemma nat_new_agree fuel a process o' : as_started o' ->
  nat_new (exec := e1) fuel a process o' = nat_new (exec := e2) fuel a process o'.
Proof.
  intros Hs. unfold nat_new. destruct (ip a); cbn [bind]; [|done].
  eapply bind_agree2; [by apply nat_rule_agree|apply nat_rule_creds|]. intros [pre o1] E. cbn [snd] in E.
  rewrite nat_rule_agree; [done|congruence].
Qed.

(** One step of two runs that begin with the same operation. *)
Ltac agree_step lem := eapply bind_agree; [apply lem|intros ? ?; open_result].

Lemma packet_shell_new_agree fuel prefix e w o' : as_started o' ->
  packet_shell_new (exec := e1) fuel prefix e w o' = packet_shell_new (exec := e2) fuel prefix e w o'.
Proof.
  intros Hs. unfold packet_shell_new.
  eapply bind_agree; [apply mahimahi_base_creds; by eapply started_creds|intros [base o1] E1; cbn [snd] in E1].
  agree_step two_unassigned_creds. agree_step first_nameserver_creds. agree_step tun_device_creds.
  agree_step dns_proxy_creds. rewrite nat_new_agree; [done|congruence].
Qed.

(** The shell's event loop has no action yet. *)
Abbreviation new_shell o' r := (creds r.2 = creds o' /\ poller_ (event_loop_ r.1) = poller_new).

Lemma event_loop_new_poller {U} o' : returns (event_loop_new (U := U) o') (fun r => creds r.2 = creds o' /\ poller_ r.1 = poller_new).
Proof.
  pose proof (event_loop_creds (U := U) o') as Hc. unfold event_loop_new in *.
  destruct (signal_mask_new _) as [m|]; cbn [bind] in *; [|done]. by destruct (set_as_mask m o').
Qed.

Lemma packet_shell_new_creds fuel prefix e w o' : as_started o' ->
  returns (packet_shell_new (exec := e1) fuel prefix e w o') (fun r => new_shell o (r.1.1, r.2)).
Proof.
  intros Hs. unfold packet_shell_new.
  eapply returns_bind; [apply mahimahi_base_creds; by eapply started_creds|intros [base o1] E1; cbn [snd] in E1].
  do 6 (eapply returns_bind; [first [apply two_unassigned_creds | apply first_nameserver_creds | apply tun_device_creds
    | apply dns_proxy_creds | apply nat_new_creds | apply make_pair_creds]|intros ? ?; open_result]).
  eapply returns_bind; [apply event_loop_new_poller|intros [l o9] [E2 Hl]; cbn [fst snd] in *].
  destruct (_ <? _)%nat; [done|]. destruct (environ_set o9); [done|]. destruct (initial_timestamp w) as [[t w']|]; [|done].
  cbn. split; [congruence|done].
Qed.

(** ** Its destructor *)

Lemma run_caught_agree fuel program args o' : program = IPTABLES \/ program = DNSMASQ -> as_started o' ->
  run_caught (exec := e1) fuel (program :: args) o' = run_caught (exec := e2) fuel (program :: args) o'.
Proof. intros Hp Hs. unfold run_caught. by rewrite run_in_agree. Qed.

Lemma nat_destroy_agree fuel n o' : as_started o' -> nat_destroy (exec := e1) fuel n o' = nat_destroy (exec := e2) fuel n o'.
Proof.
  intros Hs. unfold nat_destroy, nat_rule_destroy. cbn [app].
  eapply bind_agree2; [apply run_caught_agree; auto|apply run_caught_creds|]. intros o1 E. apply run_caught_agree; [auto|congruence].
Qed.

Lemma shell_destroy_agree fuel p o' : as_started o' ->
  packet_shell_destroy (exec := e1) fuel p o' = packet_shell_destroy (exec := e2) fuel p o'.
Proof.
  intros Hs. unfold packet_shell_destroy. eapply bind_agree; [apply destroy_children_creds|intros [l o1] E1; cbn [snd] in E1].
  rewrite nat_destroy_agree; [done|]. rewrite !fd_destroy_creds. congruence.
Qed.

Lemma wait_for_exit_creds {pk : PollKernel (LoopState unit OS)} {pf : PollFrame unit OS} fuel p o' :
  poller_ (event_loop_ p) = poller_new -> as_started o' -> returns (wait_for_exit fuel p o') (fun r => as_started r.2).
Proof.
  intros Hl Hs. unfold wait_for_exit. eapply returns_bind; [apply loop_creds; [done|by eapply started_creds]|].
  intros [st x] E. cbn in *. congruence.
Qed.

Context {Q : Type} {apq : AbstractPacketQueue World Q} {tun_kernel : TunKernel OS} {threads : ThreadKernel OS}
  {pk : PollKernel (LoopState (FerryState World Q) OS)}.

Abbreviation maker := (World -> OS -> outcome (CellularQueue Q * World * OS)).

(** Two queue constructors that agree when they run as the user. *)
Definition makers_agree (m1 m2 : maker) : Prop := forall w o', unprivileged o o' -> m1 w o' = m2 w o'.

Lemma dnsmasq_agree extra o' : as_started o' ->
  start_dnsmasq (exec := e1) extra o' = start_dnsmasq (exec := e2) extra o'.
Proof.
  intros Hs. unfold start_dnsmasq, start_dnsmasq_with, dnsmasq_arguments. cbn [app]. f_equal. apply fork_agree.
  intros o1 E. apply exec_admin_agree; [auto|congruence].
Qed.

Lemma setenv_unprivileged n v over o' r o1 : sys_setenv n v over o' = (r, o1) -> unprivileged o o' -> unprivileged o o1.
Proof. intros E. destruct (setenv_ids n v over o') as [Hu Hg]. rewrite E in *. by apply unprivileged_same. Qed.

Lemma environ_unprivileged e o' : unprivileged o o' -> unprivileged o (set_environ e o').
Proof. destruct (environ_ids e o') as [Hu Hg]. by apply unprivileged_same. Qed.

Lemma shell_prefix_unprivileged str o' : unprivileged o o' -> returns (prepend_shell_prefix str o') (unprivileged o).
Proof.
  intros Hu. unfold prepend_shell_prefix. destruct (sys_setenv _ _ _ o') as [r1 o1] eqn:Ev1.
  eapply returns_bind; [apply returns_any|intros ? _]. destruct (sys_setenv _ _ _ o1) as [r2 o2] eqn:Ev2.
  eapply returns_bind; [apply returns_any|intros ? _]. cbn. eapply setenv_unprivileged; [exact Ev2|].
  by eapply setenv_unprivileged.
Qed.

(** The user's command is started, and everything after it done, as the user. *)
Lemma start_command_agree e egress prefix command o' : as_started o' ->
  start_command (exec := e1) e egress prefix command o' = start_command (exec := e2) e egress prefix command o'.
Proof.
  intros Hs. unfold start_command. eapply bind_agree; [by apply drop_privileges_unprivileged|]. intros o1 Hu.
  destruct (ip _); cbn [bind]; [|done]. destruct (sys_setenv _ _ _ _) as [r o2] eqn:Ev.
  apply setenv_unprivileged in Ev; [|by apply environ_unprivileged].
  destruct (SystemCall _ r); cbn [bind]; [|done]. destruct (join command); cbn [bind]; [|done].
  apply fork_agree. intros o3 E3. eapply bind_agree; [apply shell_prefix_unprivileged; by eapply unprivileged_creds|].
  intros o4 Hu4. by apply exec_user_agree.
Qed.

Lemma start_command_unprivileged {exec : ExecKernel OS} e egress prefix command o' : as_started o' ->
  returns (start_command e egress prefix command o') (fun r => unprivileged o r.2).
Proof.
  intros Hs. unfold start_command. eapply returns_bind; [by apply drop_privileges_unprivileged|]. intros o1 Hu.
  eapply returns_bind; [apply returns_any|intros base _]. destruct (sys_setenv _ _ _ _) as [r o2] eqn:Ev.
  apply setenv_unprivileged in Ev; [|by apply environ_unprivileged].
  do 2 (eapply returns_bind; [apply returns_any|intros ? _]).
  eapply returns_weaken; [apply fork_creds|]. cbn beta. intros [c o3] E. by eapply unprivileged_creds.
Qed.

Lemma run_uplink_agree fuel pipe egress l children tun m1 m2 w o' : makers_agree m1 m2 -> unprivileged o o' ->
  run_uplink (apq := apq) fuel pipe egress l children tun m1 w o' = run_uplink fuel pipe egress l children tun m2 w o'.
Proof.
  intros Hm Hu. unfold run_uplink. agree_step send_fd_creds. rewrite Hm; [done|]. by eapply unprivileged_creds.
Qed.

Lemma uplink_agree fuel p prefix command m1 m2 w o' : makers_agree m1 m2 -> as_started o' ->
  uplink_procedure (exec := e1) fuel p prefix command m1 w o' = uplink_procedure (exec := e2) fuel p prefix command m2 w o'.
Proof.
  intros Hm Hs. unfold uplink_procedure. agree_step setup_ingress_creds. agree_step (event_loop_creds (U := FerryState World Q)).
  agree_step local_address_creds. destruct (str _ "#"); cbn [bind]; [|done].
  eapply bind_agree2; [apply dnsmasq_agree; congruence|apply dnsmasq_creds|intros [c o4] E4; cbn [snd] in E4].
  eapply bind_agree2; [apply start_command_agree; congruence|apply start_command_unprivileged; congruence|].
  intros [c2 o5] Hu. by apply run_uplink_agree.
Qed.

Lemma start_uplink_agree fuel p prefix command m1 m2 w o' : makers_agree m1 m2 -> as_started o' ->
  start_uplink (exec := e1) fuel p prefix command m1 w o' = start_uplink (exec := e2) fuel p prefix command m2 w o'.
Proof.
  intros Hm Hs. unfold start_uplink. eapply bind_agree2; [|apply returns_any|done].
  apply fork_agree. intros o1 E. apply uplink_agree; [done|congruence].
Qed.

Lemma start_uplink_creds {exec : ExecKernel OS} fuel p prefix command m w o' :
  returns (start_uplink fuel p prefix command m w o') (fun r => creds r.2 = creds o' /\ event_loop_ r.1 = event_loop_ p).
Proof. unfold start_uplink. eapply returns_bind; [apply fork_creds|intros [c o1] E]. done. Qed.

Lemma start_downlink_creds fuel p m w o' :
  returns (start_downlink (apq := apq) fuel p m w o') (fun r => creds r.2 = creds o' /\ event_loop_ r.1 = event_loop_ p).
Proof. unfold start_downlink. eapply returns_bind; [apply fork_creds|intros [c o1] E]. done. Qed.

Lemma downlink_agree fuel e pipe egress proxy m1 m2 w o' : makers_agree m1 m2 -> as_started o' ->
  run_downlink (apq := apq) fuel e pipe egress proxy m1 w o' = run_downlink fuel e pipe egress proxy m2 w o'.
Proof.
  intros Hm Hs. unfold run_downlink. eapply bind_agree; [by apply drop_privileges_unprivileged|]. intros o1 Hu.
  agree_step recv_fd_creds. agree_step (event_loop_creds (U := FerryState World Q)). rewrite Hm; [done|].
  eapply unprivileged_creds; [|by apply (environ_unprivileged e)]. congruence.
Qed.

Lemma start_downlink_agree fuel p m1 m2 w o' : makers_agree m1 m2 -> as_started o' ->
  start_downlink (apq := apq) fuel p m1 w o' = start_downlink fuel p m2 w o'.
Proof.
  intros Hm Hs. unfold start_downlink. eapply bind_agree2; [|apply returns_any|done].
  apply fork_agree. intros o1 E. unfold downlink_procedure. apply downlink_agree; [done|congruence].
Qed.

(** ** The other packet shells *)

Theorem uplink_without_nameserver_agree fuel p prefix command m1 m2 w o' : makers_agree m1 m2 -> as_started o' ->
  uplink_procedure_without_nameserver (exec := e1) fuel p prefix command m1 w o' =
  uplink_procedure_without_nameserver (exec := e2) fuel p prefix command m2 w o'.
Proof.
  intros Hm Hs. unfold uplink_procedure_without_nameserver. agree_step setup_ingress_creds.
  agree_step (event_loop_creds (U := FerryState World Q)).
  eapply bind_agree2; [apply start_command_agree; congruence|apply start_command_unprivileged; congruence|].
  intros [c o4] Hu. by apply run_uplink_agree.
Qed.

Lemma tun_setup_creds ingress egress o' : keeps_creds o' (tun_setup_ingress ingress egress o').
Proof.
  unfold tun_setup_ingress. eapply returns_bind; [apply tun_device_creds|intros ? ?; open_result].
  eapply returns_bind; [apply interface_ioctl_creds|intros ? ?]. eapply returns_bind; [apply default_route_creds|intros ? ?].
  cbn in *. congruence.
Qed.

Theorem tun_uplink_agree fuel p prefix command m1 m2 w o' : makers_agree m1 m2 -> as_started o' ->
  tun_uplink_procedure (exec := e1) fuel p prefix command m1 w o' =
  tun_uplink_procedure (exec := e2) fuel p prefix command m2 w o'.
Proof.
  intros Hm Hs. unfold tun_uplink_procedure. agree_step tun_setup_creds. agree_step (event_loop_creds (U := FerryState World Q)).
  agree_step local_address_creds. destruct (str _ "#"); cbn [bind]; [|done].
  eapply bind_agree2; [apply dnsmasq_agree; congruence|apply dnsmasq_creds|intros [c o4] E4; cbn [snd] in E4].
  eapply bind_agree2; [apply start_command_agree; congruence|apply start_command_unprivileged; congruence|].
  intros [c2 o5] Hu. by apply run_uplink_agree.
Qed.
End Agreement.

(** * The program *)

Section Program.
Context {OS : Type} `{frame : CredFrame OS} {names : NameFunctions} {config : BuildConfig} {pids : PidKernel OS}
  {passwd : PasswdKernel OS} {tun_kernel : TunKernel OS} {threads : ThreadKernel OS}
  {pk : PollKernel (LoopState (FerryState World AnyQueue) OS)} {outer_pk : PollKernel (LoopState unit OS)}
  {outer_frame : PollFrame unit OS}.

Lemma exec_agree_same (e1 e2 : ExecKernel OS) o o' : uids o' = uids o -> gids o' = gids o -> exec_agree e1 e2 o -> exec_agree e1 e2 o'.
Proof.
  intros Eu Eg [H1' H2']. split; [exact H1'|]. intros path_search file argv o2 [Hu Hg]. apply H2'. split; congruence.
Qed.

Definition files_agree (f1 f2 : FileKernel OS) (o : OS) : Prop := forall o', unprivileged o o' ->
  file_contents (FileKernel := f1) o' = file_contents (FileKernel := f2) o' /\
  can_create (FileKernel := f1) o' = can_create (FileKernel := f2) o'.

Lemma make_direction_agree (f1 f2 : FileKernel OS) o uplink c q : files_agree f1 f2 o ->
  makers_agree o (make_direction (files := f1) uplink c q) (make_direction (files := f2) uplink c q).
Proof. intros Hf w o' Hu. unfold make_direction. by destruct (Hf o' Hu) as [-> ->]. Qed.

Lemma cellular_shell_agree (e1 e2 : ExecKernel OS) (f1 f2 : FileKernel OS) fuel getopt e argv w o :
  after_exec o -> exec_agree e1 e2 o -> files_agree f1 f2 o ->
  cellular_shell (exec := e1) (files := f1) fuel getopt e argv w o =
  cellular_shell (exec := e2) (files := f2) fuel getopt e argv w o.
Proof.
  intros [Hsu Hsg] He Hf. unfold cellular_shell. set (o1 := set_environ None o).
  destruct (environ_ids None o) as [Hu1 Hg1]. fold o1 in Hu1, Hg1.
  apply (exec_agree_same _ _ _ o1 Hu1 Hg1) in He.
  assert (Hf1 : files_agree f1 f2 o1) by (intros o' [Hu Hg]; apply Hf; split; congruence).
  eapply bind_agree; [apply check_requirements_started; split; congruence|]. intros o2 [E2 Hs].
  destruct (parse_command_line _ _ _) as [c|]; cbn [bind]; [|done].
  eapply bind_agree2; [by apply (packet_shell_new_agree _ _ o1 Hs He)|by apply (packet_shell_new_creds _ o1 Hs)|].
  intros [[app w3] o3] [E3 Hl3]. cbn [fst snd] in *. destruct (direction_queue true c) as [q|]; cbn [bind]; [|done].
  eapply bind_agree2; [|apply start_uplink_creds|].
  { apply (start_uplink_agree _ _ o1 Hs He); [by apply make_direction_agree|done]. }
  intros [app4 o4] [E4 Hl4]. cbn [fst snd] in *. destruct (direction_queue false c) as [q2|]; cbn [bind]; [|done].
  eapply bind_agree2; [|apply start_downlink_creds|].
  { apply (start_downlink_agree o1 Hs); [by apply make_direction_agree|congruence]. }
  intros [app5 o5] [E5 Hl5]. cbn [fst snd] in *.
  eapply bind_agree; [apply (wait_for_exit_creds o1 Hs); [by rewrite Hl5, Hl4|congruence]|].
  intros [[status app6] o6] E6. by rewrite (shell_destroy_agree e1 e2 o1 Hs He).
Qed.

(** C2: privilege separation.  Take two systems that differ in the programs that
    [execve] runs and in the files that the queues read or create, but agree
    (a) on iptables and dnsmasq, run by their configured path with an empty
    environment, and (b) on everything a process does with exactly the real user
    and group identities of whoever started the program.  The whole program, with
    the processes of both directions, ends in the same way on both: nothing
    else is ever executed, and no trace read or log created, with the privileges
    of the set-user-ID program; and its environment reaches no program that has
    them. *)
Theorem privilege_separation (e1 e2 : ExecKernel OS) (f1 f2 : FileKernel OS) (fuel : nat)
    (getopt : list string -> list (ascii * string) * Z * list string) (user_environment : option (list string))
    (argv : list string) (w : World) (o : OS) :
  after_exec o -> exec_agree e1 e2 o -> files_agree f1 f2 o ->
  main (exec := e1) (files := f1) fuel getopt user_environment argv w o =
  main (exec := e2) (files := f2) fuel getopt user_environment argv w o.
Proof. intros Ha He Hf. unfold main. by rewrite (cellular_shell_agree e1 e2 f1 f2). Qed.
End Program.

(** * A machine

    The program is started by user 1000, installed setuid root.  [clones] is what
    the next calls of [clone] return, so that it decides which of the processes
    is followed; [reading] is what there is to read from the last file opened. *)

Module Started.
#[local] Existing Instance Setuid.setuid_kernel.
#[local] Existing Instance Setuid.setuid_laws.

(** [clones]: the numbers that [clone] gives, [living]: the children not waited
    for, [failing]: those that exit with status 1 and not 0, [coming]: the
    signals that come. *)
Record Box := {
  who : Setuid.Creds; environment : option (list string); clones : list Z; reading : bytes; next_fd : Z; sent : Z -> list bytes;
  living : list Z; failing : list Z; coming : Byte.byte }.

#[export] Instance eta_Box : Eta Box := fun o =>
  {| who := who o; environment := environment o; clones := clones o; reading := reading o; next_fd := next_fd o; sent := sent o;
     living := living o; failing := failing o; coming := coming o |}.

Definition with_creds (f : Setuid.Creds -> Z * Setuid.Creds) (o : Box) : Z * Box := let (r, c) := f (who o) in (r, o <| who := c |>).

#[export] Instance cred_kernel : CredKernel Box := {
  sys_getuid o := sys_getuid (who o);
  sys_geteuid o := sys_geteuid (who o);
  sys_getgid o := sys_getgid (who o);
  sys_getegid o := sys_getegid (who o);
  sys_seteuid v := with_creds (sys_seteuid v);
  sys_setegid v := with_creds (sys_setegid v);
  sys_setreuid u v := with_creds (sys_setreuid u v);
  sys_setregid u v := with_creds (sys_setregid u v);
}.

#[export] Program Instance cred_laws : CredLaws Box := { uids o := uids (who o); gids o := gids (who o) }.
Next Obligation. done. Qed.
Next Obligation. done. Qed.
Next Obligation. done. Qed.
Next Obligation. done. Qed.
Next Obligation.
  intros v o. destruct (seteuid_spec v (who o)) as (r & c & E & H1 & H2). exists r, (o <| who := c |>). cbn in *.
  unfold with_creds. by rewrite E.
Qed.
Next Obligation.
  intros v o. destruct (setegid_spec v (who o)) as (r & c & E & H1 & H2). exists r, (o <| who := c |>). cbn in *.
  unfold with_creds. by rewrite E.
Qed.
Next Obligation.
  intros v o. destruct (setreuid_spec v (who o)) as (r & c & E & H1 & H2). exists r, (o <| who := c |>). cbn in *.
  unfold with_creds. by rewrite E.
Qed.
Next Obligation.
  intros v o. destruct (setregid_spec v (who o)) as (r & c & E & H1 & H2). exists r, (o <| who := c |>). cbn in *.
  unfold with_creds. by rewrite E.
Qed.

Definition new_fd (content : bytes) (o : Box) : Z * Box := (next_fd o, o <| reading := content |> <| next_fd := next_fd o + 1 |>).

#[export] Instance kernel : Kernel Box := {
  sys_read _ _ o := (Some (reading o), o <| reading := [] |>);
  sys_write fd b o := (len b, o <| sent := fun f => if f =? fd then sent o f ++ [b] else sent o f |>);
  sys_set_cloexec _ o := (0, o);
  sys_close _ o := (0, o);
}.
#[export] Program Instance tuns : TunKernel Box := { tun_device _ := True; offered _ := True; datagrams fd o := sent o fd }.
Next Obligation. intros fd b o _ _ _. eexists _, _. split; [reflexivity|]. left. cbn. by rewrite Z.eqb_refl. Qed.

#[export] Instance opener : OpenKernel Box := fun path => new_fd
  (if String.eqb path "/proc/sys/net/ipv4/ip_forward" then [Byte.x31; Byte.x0a]
   else if String.eqb path "/proc/net/route" then list_byte_of_string (route_file []) else []).
#[export] Instance ifaddrs : IfaddrKernel Box := fun o => (Some [], o).
#[export] Instance socket_kernel : SocketKernel Box := {
  sys_socket domain type := new_fd [];
  sys_getsockopt fd level option o := (None, o);
  sys_setsockopt fd level option value o := (0, o);
  sys_getsockname fd o := (Some (sockaddr_in (100, 64, 0, 1) 5353), o);
  sys_getpeername fd o := (None, o);
  sys_bind fd a o := (0, o);
  sys_connect fd a o := (0, o);
  sys_listen fd backlog o := (0, o);
  sys_accept fd o := (-1, o);
  sys_sendto fd payload a o := (len payload, o);
  sys_send fd payload o := (len payload, o);
  sys_recvfrom fd limit o := (None, o);
}.
#[export] Instance device_kernel : DeviceKernel Box := {
  sys_ioctl fd request arg o := (0, o);
  sys_open_rw path := new_fd [];
}.
#[export] Instance pair_kernel : PairKernel Box := {
  sys_socketpair o := (0, (next_fd o, next_fd o + 1), o <| next_fd := next_fd o + 2 |>);
  sys_sendmsg fd control o := (0, o);
  sys_recvmsg fd n o := (0, 0, control_bytes CMSG_LEN SOL_SOCKET SCM_RIGHTS (next_fd o), o <| next_fd := next_fd o + 1 |>);
}.

(** Every child has exited when it is waited for. *)
#[export] Instance process_kernel : ProcessKernel Box := {
  sys_waitid pid _ nowait _ o :=
    (0, {| si_signo := SIGCHLD; si_pid := pid; si_code := CLD_EXITED; si_status := if bool_decide (pid ∈ failing o) then 1 else 0 |},
     if nowait then o else o <| living := filter (fun p => p <> pid) (living o) |>);
  sys_kill _ _ o := (0, o);
  sys_raise _ o := (0, o);
  sys_stat_task o := (0, 3, o);
  sys_clone _ o :=
    match clones o with
    | [] => (-1, o)
    | pid :: rest =>
        let o := o <| clones := rest |> in
        if pid =? 0 then (0, o <| living := [] |>)
        else if negb ((0 <? pid) && (pid <? 2 ^ 31)) || bool_decide (pid ∈ living o) then (-1, o)
        else (pid, o <| living := pid :: living o |>)
    end;
}.

#[export] Instance signal_kernel : SignalKernel Box := {
  sys_sigprocmask_set _ o := (0, o);
  sys_sigprocmask_get o := (0, [SIGCHLD; SIGCONT; SIGHUP; SIGTERM; SIGQUIT; SIGINT], o);
  sys_signalfd _ o := new_fd (coming o :: repeat Byte.x00 127) o;
}.
#[export] Instance environ_kernel : EnvironKernel Box := {
  environ_set o := bool_decide (environment o <> None);
  set_environ e o := o <| environment := e |>;
  sys_getenv _ _ := None;
  sys_setenv name value _ o := (0, o <| environment := Some ((name +:+ "=" +:+ value) :: default [] (environment o)) |>);
}.
#[export] Instance sleep_kernel : SleepKernel Box := fun _ o => o.
#[export] Instance resolver_kernel : ResolverKernel Box := {
  sys_res_init o := (0, o);
  nsaddr_list o := [sockaddr_in (8, 8, 8, 8) 53];
}.
#[export] Instance pid_kernel : PidKernel Box := fun _ => 4242.
#[export] Instance passwd_kernel : PasswdKernel Box := fun _ _ => Some "/bin/bash".
#[export] Instance thread_kernel : ThreadKernel Box := fun _ o => (true, o).

(** Only the last descriptor that is polled, that of the signals, is ready. *)
Definition signal_ready {X} (pfds : list pollfd) (x : X) : Z * list Z * X := (1, repeat 0 (length pfds - 1) ++ [POLLIN], x).
#[export] Instance ferry_poll : PollKernel (LoopState (FerryState World AnyQueue) Box) := fun pfds _ x => signal_ready pfds x.
#[export] Instance outer_poll : PollKernel (LoopState unit Box) := fun pfds _ x => signal_ready pfds x.
#[export] Instance programs : BuildConfig := { IPTABLES := "/sbin/iptables"; DNSMASQ := "/usr/sbin/dnsmasq"; IP := "/sbin/ip" }.
#[export] Instance name_functions : NameFunctions := {
  getaddrinfo node service numeric :=
    if String.eqb service "domain" then inr [sockaddr_in (0, 0, 0, 0) 53] else Machine.resolve node service;
  getnameinfo := Machine.describe;
}.

#[export] Program Instance box_frame : CredFrame Box.
Solve Obligations with (intros; try done; unfold creds; cbn; try (unfold with_creds; cbn; repeat case_match; done)).

#[export] Instance box_poll_frame : PollFrame unit Box.
Proof. by intros pfds timeout x. Qed.

(** Programs exit with status 0 when they are the machine's, without an
    environment, and with 42 when the user runs them; with [forbidden] else. *)
Definition executes (forbidden : Z) : ExecKernel Box := fun _ file _ o =>
  inl (Exited (if (String.eqb file IPTABLES || String.eqb file DNSMASQ) && negb (environ_set o) then 0
               else if sys_geteuid o =? 1000 then 42 else forbidden)).

(** The user can read the traces and create the logs; root sees [forbidden]. *)
Definition holds (forbidden : option string) : FileKernel Box := {|
  file_contents o name :=
    if sys_geteuid o =? 0 then forbidden
    else Some (print_lines (if String.prefix "down.t" name then map print_instance sample_trace else ["5"; "10"; "15"]));
  can_create o _ := negb (sys_geteuid o =? 0);
|}.

Definition no_options (argv : list string) : list (ascii * string) * Z * list string := ([], 1, argv).
Definition arguments : list string := ["mm-cellular"; "6"; "up.train"; "down.train"; "up.pdo"; "down.pdo"; "make"; "all"].

(** The processes of the two iptables commands and dnsmasq are 101, 102 and 103;
    the process of the user's command is followed. *)
Definition to_command : Box :=
  {| who := Setuid.started; environment := Some ["PATH=."]; clones := [101; 102; 0; 103; 0]; reading := []; next_fd := 3; sent := fun _ => [];
     living := []; failing := []; coming := Byte.x0f (* SIGTERM *) |}.

(** The same, but the process of the downlink is followed. *)
Definition to_downlink : Box := to_command <| clones := [101; 102; 104; 0] |>.

Lemma executes_agree m n : exec_agree (executes m) (executes n) to_command.
Proof.
  split.
  - intros program argv o' [-> | ->] E; unfold executes; by rewrite E.
  - intros path_search file argv o' [Hu _]. unfold executes. cbn in *. by rewrite Hu.
Qed.

Lemma holds_agree a b : files_agree (holds a) (holds b) to_command.
Proof.
  intros o' [Hu _]. cbn in Hu. cbn. unfold sys_geteuid. cbn. by rewrite Hu.
Qed.

Lemma privilege_separation_witness :
  main (exec := executes 66) (files := holds None) 300 no_options (Some ["PATH=."]) arguments ticking to_command =
  main (exec := executes 99) (files := holds (Some "secret")) 300 no_options (Some ["PATH=."]) arguments ticking to_command.
Proof.
  apply (privilege_separation (executes 66) (executes 99) (holds None) (holds (Some "secret"))).
  - by split.
  - apply executes_agree.
  - apply holds_agree.
Defined.

(** In that run the user's command is executed, as the user. *)
Example command_executed :
  main (exec := executes 66) (files := holds None) 300 no_options (Some ["PATH=."]) arguments ticking to_command = Exited 42.
Proof. vm_compute. reflexivity. Qed.

(** The downlink's process constructs its queue and runs its ferry until it is
    told to end, and so does the parent, which waits for both directions. *)
Example others_end :
  main (exec := executes 66) (files := holds None) 300 no_options (Some ["PATH=."]) arguments ticking to_downlink = Exited 0 /\
  main (exec := executes 66) (files := holds None) 300 no_options (Some ["PATH=."]) arguments ticking
    (to_command <| clones := [101; 102; 104; 105] |>) = Exited 0.
Proof. split; vm_compute; reflexivity. Qed.
End Started.
