(* ===== verification/MainProcess.v ===== *)
(** How the main process may end (src/frontend/cellularshell.cc and what it
    calls).

    The program is installed setuid root, and its main process is root until the
    loop.  The theorem says that no assertion of it fails, that it does not read
    outside of its memory and throws nothing that [main] does not catch, whatever
    the system calls return and whatever the signals are: the laws asked for,
    [MainLaws], are about the memory that the C library hands out.  Every
    function of the path is shown to be [careful], and the hints of that name
    put the proofs together. *)
From Stdlib Require Import String Ascii.
From S2P Require Import Prelude Ezio Timestamp PacketQueue DroppingQueue PacketHeader CellularQueue FileDescriptor SignalFD Poller ChildProcess Privileges Address Interfaces Socket DnsProxy EventLoop Ferry Shell Commands NetDevice SocketPair Util PacketShell ProcessEnds CellularShell PrivilegeSeparation.

(** * Operations that only throw *)

(** The operation throws an exception that is caught at most, or has not
    returned with the fuel given, or is ended by an exception in the destructor
    of [TemporarilyUnprivileged]. *)
Definition careful {A} (m : outcome A) : Prop := match m with Ok _ => True | Err e => loop_fault e end.

Lemma careful_throw {A} e : caught_as_exception e = true -> careful (A := A) (Err e).
Proof. by left. Qed.

Lemma careful_bind {A B} (m : outcome A) (k : A -> outcome B) :
  careful m -> (forall a, m = Ok a -> careful (k a)) -> careful (bind m k).
Proof. destruct m as [a|e]; cbn; [intros _ H; by apply H|done]. Qed.

Create HintDb careful.

(** Follow the operation: each call is a hint, each branch a case. *)
Ltac careful_step :=
  match goal with
  | |- careful (Ok _) => exact I
  | |- careful (Err _) => first [apply careful_throw; reflexivity | by right; left | by right; right]
  | |- careful (bind _ _) => apply careful_bind; [|intros ? ?]
  | |- careful (let (_, _) := ?x in _) => destruct x eqn:?
  | |- careful (match ?x with _ => _ end) => destruct x eqn:?
  | |- careful _ => solve [auto 2 with careful nocore]
  end.
Ltac careful := cbv zeta; repeat (careful_step; cbv zeta).

Lemma careful_system_call attempt r : careful (SystemCall attempt r).
Proof. unfold SystemCall. careful. Qed.
#[export] Hint Resolve careful_system_call : careful.

(** ** Descriptors and addresses *)

Section Calls.
Context {OS : Type} {kernel : Kernel OS} {sockets : SocketKernel OS} {sigs : SignalKernel OS} {cred : CredKernel OS}.

Lemma careful_fd_new fd (o : OS) : careful (fd_new fd o).
Proof. unfold fd_new, check_and_set_cloexec. careful. Qed.

Lemma careful_read limit f (o : OS) : careful (read limit f o).
Proof. unfold read. careful. Qed.

Lemma careful_sockaddr addr size : size <= len addr -> careful (address_of_sockaddr addr size).
Proof. intros H. unfold address_of_sockaddr. destruct (_ <? _); [careful|]. destruct (Z.ltb_spec (len addr) size); [lia|careful]. Qed.

Lemma careful_sockaddr_all addr : careful (address_of_sockaddr addr (len addr)).
Proof. by apply careful_sockaddr. Qed.

Lemma careful_myatoi_base s base : careful (myatoi_base s base).
Proof. unfold myatoi_base. destruct s; [careful|]. destruct (strtol _ _) as [[v erange] rest]. destruct erange; careful. Qed.

Lemma careful_myatoi s : careful (myatoi s).
Proof. apply careful_myatoi_base. Qed.

Hint Resolve careful_fd_new careful_read careful_sockaddr_all careful_myatoi : careful.

Context {names : NameFunctions}.

Lemma careful_address_resolve node service numeric : careful (address_resolve node service numeric).
Proof. unfold address_resolve. careful. Qed.
Hint Resolve careful_address_resolve : careful.

Lemma careful_address_of_numbers s p : careful (address_of_numbers s p).
Proof. unfold address_of_numbers. careful. Qed.
Hint Resolve careful_address_of_numbers : careful.

Lemma careful_address_default : careful address_default.
Proof. unfold address_default. careful. Qed.

Lemma careful_ip_port a : careful (ip_port a).
Proof. unfold ip_port. careful. Qed.
Hint Resolve careful_ip_port : careful.

Lemma careful_ip a : careful (ip a).
Proof. unfold ip. careful. Qed.
Lemma careful_port a : careful (port a).
Proof. unfold port. careful. Qed.

(** ** Sockets *)

Lemma careful_socket_new domain type (o : OS) : careful (socket_new domain type o).
Proof. unfold socket_new. careful. Qed.
Hint Resolve careful_socket_new careful_address_default : careful.

Lemma careful_local_address f (o : OS) : careful (local_address f o).
Proof. unfold local_address, get_address. careful. Qed.
Lemma careful_socket_bind a f (o : OS) : careful (socket_bind a f o).
Proof. unfold socket_bind. careful. Qed.
Lemma careful_socket_listen n f (o : OS) : careful (socket_listen n f o).
Proof. unfold socket_listen. careful. Qed.
Hint Resolve careful_local_address careful_socket_bind careful_socket_listen : careful.

Lemma careful_require_bound error f (o : OS) : careful (require_bound error f o).
Proof. unfold require_bound. careful. Qed.
Hint Resolve careful_require_bound : careful.

Lemma careful_dns_proxy_bound a u t (o : OS) : careful (dns_proxy_bound a u t o).
Proof. unfold dns_proxy_bound, make_bound_socket, udp_socket, tcp_socket, dns_proxy_new. careful. Qed.

(** ** Credentials and signals *)

Lemma careful_assert_not_root (o : OS) : careful (assert_not_root o).
Proof. unfold assert_not_root. careful. Qed.
Hint Resolve careful_assert_not_root : careful.

Lemma careful_unprivileged_enter (o : OS) : careful (unprivileged_enter o).
Proof. unfold unprivileged_enter. careful. Qed.

Lemma careful_in_destructor {A} (m : outcome A) : careful m -> careful (in_destructor m).
Proof. destruct m as [a|e]; [done|]. unfold in_destructor. destruct (caught_as_exception e) eqn:E; [by right; right|done]. Qed.

Lemma careful_unprivileged_leave tu (o : OS) : careful (unprivileged_leave tu o).
Proof. unfold unprivileged_leave. apply careful_in_destructor. careful. Qed.

Lemma careful_add_signals signals : forall m, careful (add_signals signals m).
Proof. induction signals as [|s signals IH]; intros m; cbn [add_signals]; careful. Qed.

Lemma careful_signal_mask_new signals : careful (signal_mask_new signals).
Proof. unfold signal_mask_new. pose proof (careful_add_signals signals []). careful. Qed.
Lemma careful_set_as_mask m (o : OS) : careful (set_as_mask m o).
Proof. unfold set_as_mask. careful. Qed.
Lemma careful_current_mask (o : OS) : careful (current_mask o).
Proof. unfold current_mask. careful. Qed.
Lemma careful_signal_fd_new m (o : OS) : careful (signal_fd_new m o).
Proof. unfold signal_fd_new. careful. Qed.
Lemma careful_read_signal f (o : OS) : careful (read_signal f o).
Proof. unfold read_signal. careful. Qed.
End Calls.

#[export] Hint Resolve careful_fd_new careful_read careful_sockaddr_all careful_myatoi_base careful_myatoi careful_address_of_numbers
  careful_address_default careful_ip_port careful_ip careful_port careful_socket_new careful_dns_proxy_bound careful_assert_not_root
  careful_unprivileged_enter careful_unprivileged_leave careful_signal_mask_new careful_set_as_mask careful_current_mask
  careful_signal_fd_new careful_read_signal : careful.

(** ** Interfaces and devices *)

(** What the C library hands out is as large as it says: the addresses of the
    interfaces and of the name servers; there is an entry for a name server.
    [poll] touches none of the program's objects.  The main process is the
    parent's side of each [clone]. *)
Class MainLaws (OS : Type) `{ProcessKernel OS, IfaddrKernel OS, ResolverKernel OS} {pk : PollKernel (LoopState unit OS)} : Prop := {
  parent_side ns o : i32 (sys_clone ns o).1 <> 0;
  ifaddr_sizes o ifs : (sys_getifaddrs o).1 = Some ifs ->
    Forall (fun x => match x with Some (family, addr) => family = AF_INET -> SOCKADDR_IN_SIZE <= len addr | None => True end) ifs;
  nameserver_size o : match nsaddr_list o with a :: _ => SOCKADDR_IN_SIZE <= len a | [] => False end;
  poll_keeps pfds timeout (x : LoopState unit OS) : let x' := (sys_poll pfds timeout x).2 in
    child_processes_ x' = child_processes_ x /\ signal_fd x' = signal_fd x;
}.

Section Shell.
Context {OS : Type} {names : NameFunctions} {config : BuildConfig} {kernel : Kernel OS} {opener : OpenKernel OS}
  {ifaddrs : IfaddrKernel OS} {sockets : SocketKernel OS} {devices : DeviceKernel OS} {pairs : PairKernel OS}
  {procs : ProcessKernel OS} {sigs : SignalKernel OS} {cred : CredKernel OS} {env : EnvironKernel OS}
  {sleep : SleepKernel OS} {resolver : ResolverKernel OS} {pids : PidKernel OS} {passwd : PasswdKernel OS}
  {tun_kernel : TunKernel OS} {threads : ThreadKernel OS}
  {pk : PollKernel (LoopState (FerryState World AnyQueue) OS)} {outer_pk : PollKernel (LoopState unit OS)}
  {exec : ExecKernel OS} {files : FileKernel OS} {numeric : NumericNames} {laws : MainLaws OS}.

Lemma careful_parse_route line : careful (parse_route line).
Proof. unfold parse_route, address_of_sockaddr_in. careful. Qed.
Hint Resolve careful_parse_route : careful.

Lemma careful_parse_routes lines : forall i, careful (parse_routes lines i).
Proof. induction lines as [|line lines IH]; intros i; cbn [parse_routes]; careful. Qed.
Hint Resolve careful_parse_routes : careful.

Lemma careful_add_routes text i : careful (add_routes text i).
Proof. unfold add_routes. careful. Qed.
Hint Resolve careful_add_routes : careful.

Lemma careful_add_interfaces ifs : Forall (fun x => match x with
    Some (family, addr) => family = AF_INET -> SOCKADDR_IN_SIZE <= len addr | None => True end) ifs ->
  forall i, careful (add_interfaces ifs i).
Proof.
  induction 1 as [|[[family addr]|] ifs Hx _ IH]; intros i; cbn [add_interfaces]; [done| |apply IH].
  destruct (Z.eqb_spec family AF_INET); [|apply IH]. apply careful_bind; [by apply careful_sockaddr, Hx|]. intros a _. apply IH.
Qed.

Lemma careful_read_all fuel : forall f (o : OS) acc, careful (read_all fuel f o acc).
Proof. induction fuel as [|fuel IH]; intros f o acc; cbn [read_all]; careful. Qed.
Hint Resolve careful_read_all : careful.

Lemma careful_interfaces_new fuel (o : OS) : careful (interfaces_new fuel o).
Proof.
  unfold interfaces_new. pose proof (ifaddr_sizes o) as H. destruct (sys_getifaddrs o) as [[ifs|] o1]; [|careful].
  apply careful_bind; [by apply careful_add_interfaces, H|]. intros i _. careful.
Qed.
Hint Resolve careful_interfaces_new : careful.

Lemma careful_in_use a l : careful (in_use a l).
Proof. induction l as [|x l IH]; cbn [in_use]; careful. Qed.
Hint Resolve careful_in_use : careful.

(** The candidates have no port. *)
Lemma cgnat_port n a p : 0 <= n <= 255 -> cgnat n = Ok a -> port a = Ok p -> p = 0.
Proof.
  intros Hn E. rewrite cgnat_Ok in E by lia. injection E as <-.
  rewrite port_ipv4 by (unfold nat_address, addr_ok; lia). by intros [= <-].
Qed.

Lemma careful_first_unassigned fuel : forall n i, 0 <= n -> careful (first_unassigned fuel n i).
Proof.
  induction fuel as [|fuel IH]; intros n i Hn; cbn [first_unassigned]; (destruct (Z.leb_spec n 255); [|careful]); [careful|].
  apply careful_bind; [unfold cgnat; careful|]. intros candidate Ec. apply careful_bind; [unfold address_in_use; careful|].
  intros used _. destruct (negb used); [|apply IH, Z.mod_pos_bound; done]. apply careful_bind; [careful|]. intros p Ep.
  by rewrite (cgnat_port n candidate p ltac:(lia) Ec Ep).
Qed.

Lemma first_unassigned_next fuel : forall n i a k, 0 <= n -> first_unassigned fuel n i = Ok (a, k) -> 0 <= k.
Proof.
  induction fuel as [|fuel IH]; intros n i a k Hn; cbn [first_unassigned]; (destruct (n <=? 255); [|done]); [done|].
  destruct (cgnat n) as [c|]; cbn [bind]; [|done]. destruct (address_in_use c i) as [used|]; cbn [bind]; [|done].
  destruct (negb used); [|apply IH, Z.mod_pos_bound; done]. destruct (port c); cbn [bind]; [|done]. destruct (_ =? 0); [|done].
  by intros [= _ <-].
Qed.

Lemma careful_two_unassigned fuel avoid (o : OS) : careful (two_unassigned_addresses fuel avoid o).
Proof.
  unfold two_unassigned_addresses, first_unassigned_address. careful; apply careful_first_unassigned; [lia|by apply Z.mod_pos_bound].
Qed.

Lemma careful_first_nameserver (o : OS) : careful (first_nameserver o).
Proof.
  unfold first_nameserver. destruct (sys_res_init o) as [r o1]. apply careful_bind; [careful|]. intros _ _.
  pose proof (nameserver_size o1) as H. destruct (nsaddr_list o1) as [|a l]; [done|]. unfold address_of_sockaddr_in.
  apply careful_bind; [by apply careful_sockaddr|intros ? _; careful].
Qed.

Lemma careful_interface_ioctl_fd f request name adjust (o : OS) : (forall ifr, careful (adjust ifr)) ->
  careful (fd_interface_ioctl f request name adjust o).
Proof. intros H. unfold fd_interface_ioctl. careful. Qed.

Lemma careful_interface_ioctl request name adjust (o : OS) : (forall ifr, careful (adjust ifr)) ->
  careful (interface_ioctl request name adjust o).
Proof. intros H. unfold interface_ioctl, udp_socket. careful. by apply careful_interface_ioctl_fd. Qed.

Lemma careful_tun_device_new name addr peer (o : OS) : careful (tun_device_new name addr peer o).
Proof.
  unfold tun_device_new, assign_address. careful;
    try (apply careful_interface_ioctl_fd || apply careful_interface_ioctl); intros ifr; unfold set_ifru; careful.
Qed.

Lemma careful_make_pair (o : OS) : careful (make_pair o).
Proof. unfold make_pair. careful. Qed.

Lemma careful_event_loop_new {U} (o : OS) : careful (event_loop_new (U := U) o).
Proof. unfold event_loop_new. careful. Qed.

Lemma careful_initial_timestamp w : careful (initial_timestamp w).
Proof. unfold initial_timestamp, raw_timestamp. careful. Qed.

Lemma careful_check_requirements argc argv0 b (o : OS) : careful (check_requirements argc argv0 b o).
Proof. unfold check_requirements. careful. Qed.

(** ** Child processes *)

(** [careful], and what is known of a result. *)
Definition carefully {A} (P : A -> Prop) (m : outcome A) : Prop := match m with Ok a => P a | Err e => loop_fault e end.

Lemma carefully_careful {A} (P : A -> Prop) m : carefully P m -> careful m.
Proof. by destruct m. Qed.
Lemma carefully_Ok {A} (P : A -> Prop) m a : carefully P m -> m = Ok a -> P a.
Proof. by intros H ->. Qed.
Lemma carefully_bind {A B} (P : A -> Prop) (R : B -> Prop) m k : carefully P m -> (forall a, P a -> carefully R (k a)) ->
  carefully R (bind m k).
Proof. destruct m as [a|e]; cbn; [intros H Hk; by apply Hk|done]. Qed.
Lemma careful_carefully {A B} (R : B -> Prop) (m : outcome A) k : careful m -> (forall a, carefully R (k a)) -> carefully R (bind m k).
Proof. destruct m as [a|e]; cbn; [intros _ Hk; by apply Hk|done]. Qed.

(** An object that has not been moved from. *)
Definition present (c : ChildProcess) : Prop := moved_away_ c = false.
Definition all_present (children : list child) : Prop := Forall (fun ch => present ch.2) children.

Lemma wait_present b c (o : OS) : present c -> terminated_ c = false -> carefully (fun r => present r.1) (wait b c o).
Proof.
  intros Hm Ht. unfold wait. rewrite Hm, Ht. cbn [negb]. destruct (sys_waitid _ _ _ _ o) as [[r si] o1].
  apply careful_carefully; [careful|]. intros _. destruct (_ && _); [by left|]. destruct (negb _); [by left|].
  destruct (negb _); [by left|]. unfold state_change. repeat (destruct (_ =? _) || destruct (_ || _)); by first [left | exact Hm].
Qed.

Lemma careful_signal sig c (o : OS) : present c -> careful (signal sig c o).
Proof. intros Hm. unfold signal. rewrite Hm. cbn [negb]. careful. Qed.

Lemma careful_resume c (o : OS) : present c -> careful (resume c o).
Proof. intros Hm. unfold resume. rewrite Hm. cbn [negb]. destruct (running_ c); [careful|by apply careful_signal]. Qed.

Lemma careful_waitable c (o : OS) : present c -> terminated_ c = false -> careful (waitable c o).
Proof. intros Hm Ht. unfold waitable. rewrite Hm, Ht. cbn [negb]. careful. Qed.

Lemma terminated_present c : present c -> terminated c = Ok (terminated_ c).
Proof. intros Hm. unfold terminated, not_moved_away. by rewrite Hm. Qed.

Lemma exit_status_present c : present c -> terminated_ c = true -> exit_status c = Ok (exit_status_ c).
Proof. intros Hm Ht. unfold exit_status, if_terminated. by rewrite Hm, Ht. Qed.

Lemma careful_throw_exception {A} c : present c -> terminated_ c = true -> careful (throw_exception (A := A) c).
Proof.
  intros Hm Ht. unfold throw_exception, name, died_on_signal, exit_status, not_moved_away, if_terminated. rewrite Hm, Ht. by left.
Qed.

Lemma careful_resume_all children : forall o : OS, all_present children -> careful (resume_all children o).
Proof.
  induction children as [|[st c] children IH]; intros o H; cbn [resume_all]; [done|]. apply Forall_cons in H as [Hc H].
  apply careful_bind; [by apply careful_resume|]. intros o1 _. by apply IH.
Qed.

Lemma all_terminated_present children : all_present children -> careful (all_terminated children).
Proof.
  induction 1 as [|[st c] children Hc _ IH]; cbn [all_terminated]; [done|]. rewrite terminated_present by done. cbn [bind].
  by destruct (terminated_ c).
Qed.

Lemma reap_present children : forall seen (o : OS), all_present seen -> all_present children ->
  carefully (fun r => all_present r.1.2) (reap seen children o).
Proof.
  induction children as [|[st c] rest IH]; intros seen o Hs H; cbn [reap]; [done|]. apply Forall_cons in H as [Hc H]. cbn in Hc.
  assert (Hsnoc : forall c' : ChildProcess, present c' -> all_present (seen ++ [(st, c')]))
    by (intros c' Hc'; apply Forall_app; split; [done|by constructor]).
  unfold has_news. rewrite terminated_present by done. cbn [bind]. destruct (terminated_ c) eqn:Ht; cbn [bind negb].
  { apply IH; [by apply Hsnoc|done]. }
  apply careful_carefully; [by apply careful_waitable|]. intros [news o1]. destruct (negb news); [apply IH; [by apply Hsnoc|done]|].
  eapply carefully_bind; [by apply wait_present|]. intros [c' o2] Hc'. cbn in Hc'. rewrite terminated_present by done. cbn [bind].
  destruct (terminated_ c') eqn:Ht'.
  - rewrite exit_status_present by done. cbn [bind].
    apply careful_carefully; [destruct (_ && _); [by apply careful_throw_exception|done]|]. intros _.
    assert (Hall : all_present (seen ++ (st, c') :: rest)) by (apply Forall_app; split; [done|by constructor]).
    apply careful_carefully; [by apply all_terminated_present|]. intros all. exact Hall.
  - unfold running, not_moved_away. rewrite Hc'. cbn [negb bind].
    apply careful_carefully; [careful|]. intros o3. apply IH; [by apply Hsnoc|done].
Qed.

Lemma handle_signal_present sig children (o : OS) : all_present children ->
  carefully (fun r => all_present r.1.2) (handle_signal sig children o).
Proof.
  intros H. unfold handle_signal. destruct (sig =? SIGCONT).
  - apply careful_carefully; [by apply careful_resume_all|]. by intros o1.
  - destruct (sig =? SIGCHLD); [destruct children; [by left|apply reap_present; [constructor|done]]|]. destruct (_ || _); [done|by left].
Qed.

(** ** The loop of the main process *)

Abbreviation state := (LoopState unit OS).
Definition same_descriptor (x x' : state) : Prop := fd_ (signal_fd x') = fd_ (signal_fd x).
Definition objects_present (_ : nat) (x : state) : Prop := all_present (child_processes_ x).

Lemma read_signal_fd f (o : OS) r : read_signal f o = Ok r -> fd_ r.1.2 = fd_ f.
Proof.
  unfold read_signal, read. destruct (sys_read _ _ o) as [[c|] o1]; cbn [bind]; [|done]. destruct (negb _); [done|].
  intros [= <-]. cbn. by destruct (len c =? 0).
Qed.

Lemma on_signal_present : steps_well same_descriptor objects_present loop_fault 1 (on_signal (U := unit)).
Proof.
  intros n x Hx. unfold keeps, on_signal. pose proof (careful_read_signal (signal_fd x) (os x)) as Hr.
  destruct (read_signal (signal_fd x) (os x)) as [[[sig f] o]|] eqn:E; [|exact Hr]. cbn [bind]. apply read_signal_fd in E.
  pose proof (handle_signal_present sig _ o Hx) as Hh. destruct (handle_signal sig _ o) as [[[r children] o2]|]; [|exact Hh].
  by split.
Qed.

Lemma main_turns_careful fuel (l : EventLoop unit OS) (x : state) : poller_ l = poller_new -> all_present (child_processes_ x) ->
  carefully (fun r => all_present (child_processes_ r.2))
    (turns fuel (fun x => Ok (-1, x)) (poller_ (add_simple_input_handler signal_fd on_signal x l)) x).
Proof.
  intros Hl Hx. unfold add_simple_input_handler, loop_add_action. cbn [poller_]. rewrite Hl. set (p := add_action _ x poller_new).
  assert (Hok : Forall (action_ok same_descriptor objects_present loop_fault) (actions_ p)).
  { constructor; [|constructor]. split; [apply on_signal_present| |by intros y y' Hy]. intros n y Hy. by split. }
  assert (Hp : sys_poll_keeps same_descriptor objects_present loop_fault).
  { intros pfds timeout n y Hy. pose proof (poll_keeps pfds timeout y) as Hk. cbv zeta in Hk.
    destruct (sys_poll pfds timeout y) as [[ret revents] y']. destruct Hk as [E1 E2]. cbn [snd] in E1, E2.
    split; [by unfold same_descriptor; rewrite E2|]. split; [by unfold objects_present; rewrite E1|]. apply careful_system_call. }
  pose proof (turns_ok same_descriptor objects_present loop_fault (fun _ => eq_refl) (fun _ _ _ A B => eq_trans B A) (fun _ _ Hi => Hi) Hp
    (fun x => Ok (-1, x)) fuel (fun n y Hy => conj eq_refl Hy) 0%nat p x Hok (add_action_wf _ x _ (poller_new_wf x)) Hx) as H'.
  destruct (turns fuel _ p x) as [[[st p'] x']|e]; [|exact H']. by destruct H' as (_ & B & _).
Qed.

Lemma wait_for_exit_present fuel (p : PacketShell OS) (o : OS) : poller_ (event_loop_ p) = poller_new -> all_present (shell_children_ p) ->
  carefully (fun r => let '(_, p', _) := r in all_present (shell_children_ p')) (wait_for_exit fuel p o).
Proof.
  intros Hl Hc. unfold wait_for_exit, loop, internal_loop. set (x := Build_LoopState _ _ _ _).
  eapply carefully_bind with (P := fun r => all_present (child_processes_ r.2)); [|by intros [st x'] H].
  eapply carefully_bind with (P := fun r => child_processes_ r.2 = shell_children_ p /\
    r.1.2 = add_simple_input_handler signal_fd on_signal r.2 (event_loop_ p)).
  { unfold loop_start. apply careful_carefully; [careful|]. intros [tu o1]. apply careful_carefully; [careful|]. intros [m o2].
    destruct (negb _); [by left|]. apply careful_carefully; [careful|]. by intros [sfd o3]. }
  intros [[tu l1] x1] [E1 E2]. cbn [fst snd] in E1, E2. subst l1.
  eapply carefully_bind; [apply main_turns_careful; [done|by rewrite E1]|]. intros [[[st|] p2] x2] H2; [|by right; left].
  cbn [snd] in H2. eapply carefully_bind with (P := fun x' => child_processes_ x' = child_processes_ x2); [|intros x' E; cbn; by rewrite E].
  unfold loop_end. apply careful_carefully; [careful|]. by intros o1.
Qed.

(** ** Destructors *)

Lemma terminate_loop_present fuel : forall c (o : OS), present c ->
  careful (terminate_loop fuel c o).1.1 /\ present (terminate_loop fuel c o).1.2.
Proof.
  induction fuel as [|fuel IH]; intros c o Hc; cbn [terminate_loop]; (destruct (terminated_ c) eqn:Ht; [done|]); [by split; [right; left|]|].
  pose proof (careful_resume c o Hc) as Hr. destruct (resume c o) as [o1|]; [|done].
  pose proof (careful_signal (graceful_termination_signal_ c) c o1 Hc) as Hs. destruct (signal _ c o1) as [o2|]; [|done].
  pose proof (wait_present false c o2 Hc Ht) as Hw. destruct (wait false c o2) as [[c' o3]|]; [by apply IH|done].
Qed.

Lemma careful_child_destroy fuel c (o : OS) : present c -> careful (child_destroy fuel c o).
Proof.
  intros Hc. unfold child_destroy. destruct (terminate_loop_present fuel c o Hc) as [H _]. rewrite Hc.
  destruct (terminate_loop fuel c o) as [[[[]|e] c'] o']; [done|]. cbn in H. by destruct (caught_as_exception e).
Qed.

Lemma careful_destroy_children fuel children : forall o : OS, all_present children -> careful (destroy_children fuel children o).
Proof.
  induction children as [|[st c] children IH]; intros o H; cbn [destroy_children]; [done|]. apply Forall_cons in H as [Hc H].
  apply careful_bind; [by apply careful_child_destroy|]. intros [c' o1] _. apply careful_bind; [by apply IH|]. intros ? _. careful.
Qed.

(** ** Running programs *)

Lemma fork_present name procedure ns sig (o : OS) :
  carefully (fun r => present r.1 /\ terminated_ r.1 = false) (fork name procedure ns sig o).
Proof.
  unfold fork, child_new, do_clone. destruct (sys_stat_task o) as [[r links] o1]. unfold SystemCall. destruct (0 <=? i32 r); cbn [bind]; [|by left].
  destruct (negb _); cbn [bind]; [by left|]. pose proof (parent_side ns o1) as Hp. destruct (sys_clone ns o1) as [pid o2]. cbn [fst] in Hp.
  destruct (0 <=? i32 pid); cbn [bind]; [|by left]. destruct (Z.eqb_spec (i32 pid) 0); [done|]. by split.
Qed.

Lemma wait_terminated_present fuel : forall c (o : OS), present c ->
  let '(r, c', _) := wait_terminated fuel c o in careful r /\ present c' /\ (is_ok r = true -> terminated_ c' = true).
Proof.
  induction fuel as [|fuel IH]; intros c o Hc; cbn [wait_terminated]; rewrite terminated_present by done;
    (destruct (terminated_ c) eqn:Ht; [done|]); [by split; [right; left|]|].
  pose proof (wait_present false c o Hc Ht) as Hw. destruct (wait false c o) as [[c' o1]|]; [by apply IH|done].
Qed.

Lemma await_present fuel c (o : OS) : present c -> let '(r, c', _) := await fuel c o in careful r /\ present c'.
Proof.
  intros Hc. unfold await. pose proof (wait_terminated_present fuel c o Hc) as H.
  destruct (wait_terminated fuel c o) as [[[u|e] c'] o']; destruct H as (Hr & Hc' & Ht); (split; [|done]); [|exact Hr].
  cbn [bind]. rewrite exit_status_present by auto. cbn [bind]. destruct (negb _); [apply careful_throw_exception; auto|done].
Qed.

Lemma careful_run_in fuel command (o : OS) : command <> [] -> careful (run_in fuel command o).1.
Proof.
  intros Hne. unfold run_in. destruct command as [|a l]; [done|]. cbn [join].
  pose proof (fork_present (fold_left (fun s x => s +:+ " " +:+ x) l a) (ezexec (a :: l) false) false SIGHUP o) as Hf.
  destruct (fork _ _ false SIGHUP o) as [[c o1]|]; [|done]. destruct Hf as [Hc _]. pose proof (await_present fuel c o1 Hc) as Ha.
  destruct (await fuel c o1) as [[r c'] o2]. destruct Ha as [Hr Hc'].
  pose proof (careful_child_destroy fuel c' o2 Hc') as Hd. by destruct (child_destroy fuel c' o2) as [[c2 o3]|].
Qed.

Lemma careful_run fuel command (o : OS) : command <> [] -> careful (run fuel command o).
Proof. intros Hne. unfold run. pose proof (careful_run_in fuel command o Hne) as H. destruct (run_in fuel command o) as [[]]; careful. Qed.

Lemma careful_run_caught fuel command (o : OS) : command <> [] -> careful (run_caught fuel command o).
Proof.
  intros Hne. unfold run_caught. pose proof (careful_run_in fuel command o Hne) as H.
  destruct (run_in fuel command o) as [[u|e] o1]; [done|]. cbn in H. by destruct (caught_as_exception e).
Qed.

Lemma careful_nat_new fuel a pid (o : OS) : careful (nat_new fuel a pid o).
Proof. unfold nat_new, nat_rule_new. careful; by apply careful_run. Qed.

Lemma careful_nat_destroy fuel n (o : OS) : careful (nat_destroy fuel n o).
Proof. unfold nat_destroy, nat_rule_destroy. careful; by apply careful_run_caught. Qed.
(** ** The packet shell *)

(** Before the loop: nothing polled yet, and the processes not moved from. *)
Definition shell_fresh (p : PacketShell OS) : Prop := poller_ (event_loop_ p) = poller_new /\ all_present (shell_children_ p).

Lemma careful_get_mahimahi_base user_environment (o : OS) : careful (get_mahimahi_base user_environment o).
Proof. unfold get_mahimahi_base. careful. Qed.

Lemma event_loop_new_fresh {U} (o : OS) : carefully (fun r => poller_ r.1 = poller_new) (event_loop_new (U := U) o).
Proof. unfold event_loop_new. do 2 (apply careful_carefully; [careful|]; intros ?). done. Qed.

Lemma packet_shell_new_fresh fuel prefix user_environment w (o : OS) :
  carefully (fun r => shell_fresh r.1.1) (packet_shell_new fuel prefix user_environment w o).
Proof.
  unfold packet_shell_new. apply careful_carefully; [apply careful_get_mahimahi_base|]. intros [base o1].
  apply careful_carefully; [apply careful_two_unassigned|]. intros [[egress ingress] o2].
  apply careful_carefully; [apply careful_first_nameserver|]. intros [nameserver o3].
  apply careful_carefully; [apply careful_tun_device_new|]. intros [tun o4].
  apply careful_carefully; [careful|]. intros [dns o5].
  apply careful_carefully; [apply careful_nat_new|]. intros [nat o6].
  apply careful_carefully; [apply careful_make_pair|]. intros [[first second] o7].
  eapply carefully_bind; [apply event_loop_new_fresh|]. intros [l o8] Hl.
  destruct (_ <? _)%nat; [by left|]. destruct (environ_set o8); [by left|].
  apply careful_carefully; [apply careful_initial_timestamp|]. intros [t w1]. by split; [|constructor].
Qed.

(** [start_uplink] and [start_downlink]. *)
Lemma with_child_fresh name procedure ns sig (p : PacketShell OS) (o : OS) : shell_fresh p ->
  carefully (fun r => shell_fresh r.1)
    (let* (c, o) := fork name procedure ns sig o in Ok (p <| shell_children_ := shell_children_ p ++ [(-1, c)] |>, o)).
Proof.
  intros [Hl Hc]. eapply carefully_bind; [apply fork_present|]. intros [c o1] [Hp _]. split; [done|].
  apply Forall_app. split; [done|]. by constructor.
Qed.

Lemma careful_packet_shell_destroy fuel (p : PacketShell OS) (o : OS) : all_present (shell_children_ p) ->
  careful (packet_shell_destroy fuel p o).
Proof.
  intros Hc. unfold packet_shell_destroy. apply careful_bind; [by apply careful_destroy_children|]. intros [cs o1] _.
  apply careful_bind; [apply careful_nat_destroy|]. intros o2 _. done.
Qed.

(** ** The command line *)

Lemma careful_parse_option opt optarg o : careful (parse_option opt optarg o).
Proof. unfold parse_option, stoul, stod. careful. Qed.

Lemma careful_parse_options opts : forall o, careful (parse_options opts o).
Proof.
  induction opts as [|[opt optarg] opts IH]; intros o; cbn [parse_options]; [done|].
  apply careful_bind; [apply careful_parse_option|]. intros o1 _. apply IH.
Qed.

Lemma careful_get_packet_queue type args : careful (get_packet_queue type args).
Proof.
  assert (Hd : careful (dropping_new args)).
  { pose proof (dropping_new_outcome args) as H. destruct (dropping_new args); [done|by left]. }
  unfold get_packet_queue, infinite_new, drop_tail_new, drop_head_new.
  repeat (destruct (String.eqb _ _)); try (apply careful_bind; [|done]); try (apply careful_bind; [exact Hd|done]); by first [left | exact I].
Qed.

Lemma careful_direction_queue uplink c : careful (direction_queue uplink c).
Proof. unfold direction_queue. destruct uplink; apply careful_get_packet_queue. Qed.

Lemma careful_shell_path (o : OS) : careful (shell_path o).
Proof. unfold shell_path. careful. Qed.

(** What the command line must be like for the program not to read outside of
    [argv]: NUM_ARGS is not negative, and [getopt_long] leaves the four traces,
    or too little for the usage not to be printed. *)
Definition command_line_readable (getopt : list string -> list (ascii * string) * Z * list string) (argv : list string) : Prop :=
  (forall arg1, argv !! 1%nat = Some arg1 -> 0 <= atoi arg1) /\
  let '(_, optind, argv') := getopt argv in
  0 <= optind /\ (len argv <= optind + 1 \/ optind + 4 < len argv').

Lemma careful_argv_at argv i : 0 <= i < len argv -> careful (argv_at argv i).
Proof.
  intros Hi. unfold argv_at. destruct (znth argv i) eqn:E; [done|]. unfold znth in E. revert E. case_Zbool; [lia|].
  intros E%lookup_ge_None. unfold len in Hi. lia.
Qed.

Lemma careful_parse_command_line getopt shell argv : command_line_readable getopt argv -> careful shell ->
  careful (parse_command_line getopt shell argv).
Proof.
  intros [Hnum Hget] Hshell. unfold parse_command_line. cbv zeta. destruct (Z.ltb_spec (len argv) 5) as [|Hlen]; [by left|].
  apply careful_bind; [by destruct argv|]. intros line _.
  apply careful_bind; [apply careful_argv_at; lia|]. intros arg1 E1.
  assert (Ha : 0 <= atoi arg1).
  { apply Hnum. unfold argv_at in E1. destruct (znth argv 1) eqn:E; [|done]. injection E1 as ->. by apply (znth_Some argv 1 arg1). }
  apply careful_bind; [by rewrite extra_command_drop|]. intros extra _.
  destruct (getopt argv) as [[opts optind] argv']. destruct Hget as [Ho Hget].
  apply careful_bind; [apply careful_parse_options|]. intros o _. destruct (Z.leb_spec (len argv) (optind + 1)); [by left|].
  destruct Hget as [Hget|Hget]; [lia|].
  do 4 (apply careful_bind; [apply careful_argv_at; lia|]; intros ? _).
  apply careful_bind; [|done]. destruct extra; [|done]. by apply careful_bind.
Qed.

(** * The theorem *)

(** C6: Whatever the system calls return, whatever signals come and whichever
    options and addresses there are, the main process ends, if it ends, with a
    status, with an exception that is caught, or in a destructor that throws: from
    [main] to the last destructor no assertion fails, nothing is read outside of
    an object, no object moved from is used, no process already reaped is waited
    for or signalled, and nothing is thrown that is not an [exception].  The
    conditions: [argv] has an argument where the program reads one
    ([command_line_readable]; it reads behind [argv] otherwise), and what
    [MainLaws] and [NumericNames] say of the system's calls.  That the process
    ends is not claimed: [Diverges] is among the outcomes.  (The destructors that
    run while an exception unwinds the stack are those of [MainUnwinding].) *)
Theorem main_process_careful (fuel : nat) (getopt : list string -> list (ascii * string) * Z * list string)
    (user_environment : option (list string)) (argv : list string) (w : World) (o : OS) :
  command_line_readable getopt argv ->
  match cellular_shell fuel getopt user_environment argv w o with Ok _ => True | Err e => loop_fault e end.
Proof.
  intros Hread. change (careful (cellular_shell fuel getopt user_environment argv w o)). unfold cellular_shell.
  apply careful_bind; [apply careful_check_requirements|]. intros o1 _.
  apply careful_bind; [apply careful_parse_command_line; [done|apply careful_shell_path]|]. intros c _.
  pose proof (packet_shell_new_fresh fuel "cell-link" user_environment w o1) as H.
  apply careful_bind; [by eapply carefully_careful|]. intros [[app w1] o2] E. apply (carefully_Ok _ _ _ H) in E as Hf. clear H E.
  apply careful_bind; [apply careful_direction_queue|]. intros q _.
  unfold start_uplink. pose proof (with_child_fresh "packetshell" (uplink_procedure fuel app "[cell-link] " (command c) (make_direction true c q) w1)
    true SIGHUP app o2 Hf) as H.
  apply careful_bind; [by eapply carefully_careful|]. intros [app2 o3] E. apply (carefully_Ok _ _ _ H) in E as Hf2. clear H E Hf.
  apply careful_bind; [apply careful_direction_queue|]. intros q2 _.
  unfold start_downlink. pose proof (with_child_fresh "downlink" (downlink_procedure fuel app2 (make_direction false c q2) w1)
    false SIGHUP app2 o3 Hf2) as H.
  apply careful_bind; [by eapply carefully_careful|]. intros [app3 o4] E. apply (carefully_Ok _ _ _ H) in E as [Hl Hc]. clear H.
  pose proof (wait_for_exit_present fuel app3 o4 Hl Hc) as H.
  apply careful_bind; [by eapply carefully_careful|]. intros [[st app4] o5] E. apply (carefully_Ok _ _ _ H) in E as Hc4.
  apply careful_bind; [by apply careful_packet_shell_destroy|]. intros o6 _. done.
Qed.
End Shell.

(** * A machine

    The one of [Started], but the parent's side of every [clone] is followed. *)

Module Parent.
Import Started.

#[export] Instance parent_kernel : ProcessKernel Box := {
  sys_waitid := sys_waitid;
  sys_kill := sys_kill;
  sys_raise := sys_raise;
  sys_stat_task := sys_stat_task;
  sys_clone ns o := let (pid, o') := sys_clone ns o in if i32 pid =? 0 then (-1, o) else (pid, o');
}.

#[export] Instance parent_laws : MainLaws Box.
Proof.
  split.
  - intros ns o. cbn [sys_clone parent_kernel]. destruct (sys_clone (ProcessKernel := process_kernel) ns o) as [pid o'].
    cbn [fst]. by destruct (Z.eqb_spec (i32 pid) 0).
  - by intros o ifs [= <-].
  - intros o. by vm_compute.
  - done.
Qed.

Lemma digits_not_domain p : String.eqb (print_nonneg p) "domain" = false.
Proof.
  apply String.eqb_neq. intros E. pose proof (print_nonneg_all p) as H. by rewrite E in H.
Qed.

#[export] Instance parent_names : NumericNames.
Proof.
  split.
  - intros a p numeric Ha Hp. cbn [getaddrinfo name_functions]. rewrite digits_not_domain. by apply (getaddrinfo_numeric (NumericNames := Machine.numeric) a p numeric).
  - intros a p Ha Hp. by apply (getnameinfo_numeric (NumericNames := Machine.numeric) a p).
  - reflexivity.
Qed.

Lemma arguments_readable : command_line_readable no_options arguments.
Proof. split; [intros a [= <-]; by vm_compute|]. split; [done|right; by vm_compute]. Qed.

(** The processes of the two iptables commands, those of the directions and
    those of the commands that take the address translation back. *)
Definition parent : Box := to_command <| clones := [101; 102; 103; 104; 105; 106] |>.

Lemma main_process_careful_witness :
  match cellular_shell (exec := executes 66) (files := holds None) 300 no_options (Some ["PATH=."]) arguments ticking parent with
  | Ok _ => True
  | Err e => loop_fault e
  end.
Proof.
  pose proof (main_process_careful (exec := executes 66) (files := holds None) 300 no_options (Some ["PATH=."]) arguments ticking parent
    arguments_readable) as H. exact H.
Defined.

(** It ends with status 0 and has created every process. *)
Example main_process_returns :
  (let* (status, o) := cellular_shell (exec := executes 66) (files := holds None) 300 no_options (Some ["PATH=."]) arguments ticking parent in
   Ok (status, clones o)) = Ok (0, []).
Proof. vm_compute. reflexivity. Qed.
End Parent.
