(* ===== verification/MainUnwinding.v ===== *)
(** What an exception leaves behind in the main process: all of [main]
    (src/frontend/cellularshell.cc).

    Wherever it is thrown, what has been made is destroyed on the way to the
    handler of [main], which prints the exception and returns [EXIT_FAILURE]:
    [SetupUnwinding] follows it out of the checks and of the constructor of the
    packet shell; here it leaves the wait for the directions ([FerryUnwinding] is
    about the directions' own processes), or the start of one of them, and the
    block of [main], where the destructor of the packet shell ends the processes
    of both directions and takes its address translation back. *)
From Stdlib Require Import String Ascii.
From S2P Require Import Prelude Timestamp PacketQueue CellularQueue FileDescriptor SignalFD Poller ChildProcess Privileges Address Interfaces Socket DnsProxy EventLoop Unwinding Ferry Shell Commands NetDevice SocketPair Util PacketShell Frames Forks SetupUnwinding Credentials ProcessEnds CellularShell PrivilegeSeparation MainProcess.

(** * The block of [main] *)

Section Main.
Context {OS : Type} {names : NameFunctions} {config : BuildConfig} {kernel : Kernel OS} {opener : OpenKernel OS}
  {ifaddrs : IfaddrKernel OS} {sockets : SocketKernel OS} {devices : DeviceKernel OS} {pairs : PairKernel OS}
  {procs : ProcessKernel OS} {sigs : SignalKernel OS} {cred : CredKernel OS} {env : EnvironKernel OS}
  {sleep : SleepKernel OS} {resolver : ResolverKernel OS} {pids : PidKernel OS} {passwd : PasswdKernel OS}
  {tun_kernel : TunKernel OS} {threads : ThreadKernel OS}
  {pk : PollKernel (LoopState (FerryState World AnyQueue) OS)} {outer_pk : PollKernel (LoopState unit OS)}
  {exec : ExecKernel OS} {files : FileKernel OS}.

Definition wait_for_exit_unwound (fuel : nat) (p : PacketShell OS) (o : OS) : outcome (PacketShell OS * OS) :=
  let* x := internal_loop_unwound fuel (fun x => Ok (-1, x)) (fun x => x) [] (event_loop_ p)
    {| child_processes_ := shell_children_ p; signal_fd := no_descriptor; os := o; user := tt |} in
  Ok (p <| shell_children_ := child_processes_ x |>, os x).

(** An exception leaves the block: the packet shell is destroyed, the exception
    is printed and [main] returns [EXIT_FAILURE]. *)
Definition exception_ends (fuel : nat) (e : fault) (app : PacketShell OS) (o : OS) : outcome (Z * OS) :=
  if caught_as_exception e then
    let* o := packet_shell_destroy fuel app o in
    Ok (EXIT_FAILURE, o)
  else Err e.

(** The rest of [main] once it has its packet shell: what it returns, and the
    state of the system then. *)
Definition run_shell (fuel : nat) (c : ShellConfig) (app : PacketShell OS) (w : World) (o : OS) : outcome (Z * OS) :=
  match direction_queue true c with
  | Err e => exception_ends fuel e app o
  | Ok q =>
      match start_uplink fuel app "[cell-link] " (command c) (make_direction true c q) w o with
      | Err e => exception_ends fuel e app (fork_after true o)
      | Ok (app, o) =>
          match direction_queue false c with
          | Err e => exception_ends fuel e app o
          | Ok q =>
              match start_downlink fuel app (make_direction false c q) w o with
              | Err e => exception_ends fuel e app (fork_after false o)
              | Ok (app, o) =>
                  match wait_for_exit fuel app o with
                  | Err e =>
                      if caught_as_exception e then
                        let* (app, o) := wait_for_exit_unwound fuel app o in
                        exception_ends fuel e app o
                      else Err e
                  | Ok (status, app, o) =>
                      let* o := packet_shell_destroy fuel app o in
                      Ok (status, o)
                  end
              end
          end
      end
  end.

(** All of [main]: what it returns, whichever exception is thrown on the way. *)
Definition main_run (fuel : nat) (getopt : list string -> list (ascii * string) * Z * list string)
    (user_environment : option (list string)) (argv : list string) (w : World) (o : OS) : outcome (Z * OS) :=
  let o := set_environ None o in
  match check_requirements (len argv) (default "" (head argv)) (environ_set o) o with
  | Err e => if caught_as_exception e then Ok (EXIT_FAILURE, check_requirements_after (len argv) o) else Err e
  | Ok o =>
      match parse_command_line getopt (shell_path o) argv with
      | Err e => if caught_as_exception e then Ok (EXIT_FAILURE, o) else Err e
      | Ok c =>
          match packet_shell_new fuel "cell-link" user_environment w o with
          | Err e =>
              if caught_as_exception e then
                let* o := packet_shell_new_unwound fuel "cell-link" user_environment o in
                Ok (EXIT_FAILURE, o)
              else Err e
          | Ok (app, w, o) => run_shell fuel c app w o
          end
      end
  end.
End Main.

(** * The wait for the directions *)

Section Wait.
Context {OS : Type} `{main_laws : LoopLaws unit OS}.

Lemma wait_for_exit_unwound_family fuel (p : PacketShell OS) (o : OS) : poller_ (event_loop_ p) = poller_new ->
  match wait_for_exit_unwound fuel p o with
  | Ok (p', o') => family_kept (shell_loop_state p o) (shell_loop_state p' o')
  | Err e => e = in_destructor_fault
  end.
Proof.
  intros Hl. unfold wait_for_exit_unwound. fold (shell_loop_state p o).
  pose proof (internal_loop_unwound_family fuel (fun x => Ok (-1, x)) (fun x => x) [] (event_loop_ p) (shell_loop_state p o)) as H'.
  destruct (internal_loop_unwound _ _ _ _ _ (shell_loop_state p o)) as [x'|e]; cbn [bind].
  - destruct H' as [A1 A2 A3]; [by intros x t y [= _ <-]|done|rewrite Hl; constructor|constructor|]. by split.
  - apply H'; [by intros x t y [= _ <-]|done|rewrite Hl; constructor|constructor].
Qed.
End Wait.

(** * Nothing is left behind *)

Section LeftBehind.
Context {OS : Type} {names : NameFunctions} {config : BuildConfig} {kernel : Kernel OS} {opener : OpenKernel OS}
  {ifaddrs : IfaddrKernel OS} {sockets : SocketKernel OS} {devices : DeviceKernel OS} {pairs : PairKernel OS}
  {procs : ProcessKernel OS} {children_laws : ChildLaws OS} {sigs : SignalKernel OS} {cred : CredKernel OS} {env : EnvironKernel OS}
  {sleep : SleepKernel OS} {resolver : ResolverKernel OS} {pids : PidKernel OS} {passwd : PasswdKernel OS}
  {tun_kernel : TunKernel OS} {threads : ThreadKernel OS}
  {pk : PollKernel (LoopState (FerryState World AnyQueue) OS)} {outer_pk : PollKernel (LoopState unit OS)}
  {exec : ExecKernel OS} {files : FileKernel OS} {main_laws : LoopLaws unit OS} {fork_laws : ForkLaws OS}.

(** The packet shell before its loop, and when its destructor runs. *)
Definition shell_owns (o0 : OS) (app : PacketShell OS) (o : OS) : Prop :=
  poller_ (event_loop_ app) = poller_new /\ family_owned o0 (shell_children_ app) o.
Definition shell_ready (o0 : OS) (app : PacketShell OS) (o : OS) : Prop := family_ready o0 (shell_children_ app) o.

Lemma owns_kept o0 app (o o' : OS) : all_kept o o' -> shell_owns o0 app o -> shell_owns o0 app o'.
Proof. intros Hk [A1 A2]. split; [done|by eapply owned_kept]. Qed.

Lemma owns_child o0 app (o o' : OS) c : newborn c o o' -> shell_owns o0 app o ->
  shell_owns o0 (app <| shell_children_ := shell_children_ app ++ [(-1, c)] |>) o'.
Proof. intros Hn [A1 A2]. split; [done|by eapply owned_child]. Qed.

Lemma owns_ready o0 app (o : OS) : shell_owns o0 app o -> shell_ready o0 app o.
Proof. intros [_ A]. by apply owned_ready. Qed.

Lemma kept_ready o0 app app' (o o' : OS) : shell_owns o0 app o -> family_kept (shell_loop_state app o) (shell_loop_state app' o') -> shell_ready o0 app' o'.
Proof.
  intros [A1 [A2 A3 A4 A5]] [B1 [B2 B3] B4]. cbn [child_processes_ os shell_loop_state] in *. split_and!; [auto|by eapply fates_within_pids|].
  rewrite B1. auto.
Qed.

Lemma fd_destroy_all_kept f (o : OS) : all_kept o (fd_destroy f o).
Proof. apply destroy_kept; apply _. Qed.

(** The destructor of the packet shell. *)
Lemma packet_shell_destroy_reaps fuel o0 app (o : OS) : shell_ready o0 app o -> (lifetime <= fuel)%nat ->
  match packet_shell_destroy (S fuel) app o with Ok o' => none_left o0 o' | Err e => other_process e end.
Proof.
  intros Hr Hl. unfold packet_shell_destroy. destruct (family_ended fuel _ _ _ Hr Hl) as (cs & o1 & -> & H1). cbn [bind].
  set (o2 := fd_destroy _ (fd_destroy _ o1)).
  assert (H2' : none_left o0 o2) by (etransitivity; [exact H1|]; etransitivity; apply all_kept_none_left, fd_destroy_all_kept).
  assert (Hrule : forall r (o : OS), match nat_rule_destroy (S fuel) r o with Ok o' => none_left o o' | Err e => other_process e end)
    by (intros r o'; by apply run_caught_reaps).
  unfold nat_destroy. pose proof (Hrule (post_ (nat_rule_ app)) o2) as Hpost. destruct (nat_rule_destroy _ _ o2) as [o3|e]; cbn [bind]; [|done].
  pose proof (Hrule (pre_ (nat_rule_ app)) o3) as Hpre. destruct (nat_rule_destroy _ _ o3) as [o4|e]; cbn [bind]; [|done].
  etransitivity; [exact H2'|]. etransitivity; [exact Hpost|]. etransitivity; [exact Hpre|]. unfold dns_proxy_destroy.
  do 3 (etransitivity; [|apply all_kept_none_left, fd_destroy_all_kept]). done.
Qed.

Definition clean_end (o0 : OS) (m : outcome (Z * OS)) : Prop :=
  match m with Ok (_, o') => none_left o0 o' | Err e => block_fault e end.

Lemma exception_ends_clean fuel o0 e app (o : OS) : shell_ready o0 app o -> (lifetime <= fuel)%nat ->
  caught_as_exception e = true -> clean_end o0 (exception_ends (S fuel) e app o).
Proof.
  intros Hr Hl He. unfold exception_ends. rewrite He. pose proof (packet_shell_destroy_reaps fuel o0 app o Hr Hl) as H'.
  destruct (packet_shell_destroy _ app o); cbn [bind]; [exact H'|by right; right].
Qed.

(** Where no exception leaves the block, it is that of [cellular_shell]; where
    one does, [main] returns [EXIT_FAILURE] unless a destructor does not. *)
Lemma run_shell_agrees fuel c app w (o : OS) :
  match
    (let* q := direction_queue true c in
     let* (app, o) := start_uplink fuel app "[cell-link] " (command c) (make_direction true c q) w o in
     let* q := direction_queue false c in
     let* (app, o) := start_downlink fuel app (make_direction false c q) w o in
     let* (status, app, o) := wait_for_exit fuel app o in
     let* o := packet_shell_destroy fuel app o in
     Ok (status, o))
  with
  | Ok r => run_shell fuel c app w o = Ok r
  | Err e => if caught_as_exception e then (if run_shell fuel c app w o is Ok r then r.1 = EXIT_FAILURE else True)
             else run_shell fuel c app w o = Err e
  end.
Proof.
  assert (Hx : forall e app (o : OS),
    if caught_as_exception e then (if exception_ends fuel e app o is Ok r then r.1 = EXIT_FAILURE else True)
    else exception_ends fuel e app o = Err e).
  { intros e app' o'. unfold exception_ends. destruct (caught_as_exception e); [|done]. by destruct (packet_shell_destroy _ _ _). }
  unfold run_shell. destruct (direction_queue true c) as [q|e]; cbn [bind]; [|apply Hx].
  destruct (start_uplink _ _ _ _ _ _ o) as [[app1 o1]|e]; cbn [bind]; [|apply Hx].
  destruct (direction_queue false c) as [q2|e]; cbn [bind]; [|apply Hx].
  destruct (start_downlink _ _ _ _ o1) as [[app2 o2]|e]; cbn [bind]; [|apply Hx].
  destruct (wait_for_exit _ _ o2) as [[[st app3] o3]|e]; cbn [bind].
  - destruct (packet_shell_destroy _ _ o3) as [o4|e]; cbn [bind]; [done|]. by destruct (caught_as_exception e).
  - destruct (caught_as_exception e) eqn:He; [|done]. destruct (wait_for_exit_unwound _ _ o2) as [[app3 o3]|e2]; cbn [bind]; [|done].
    specialize (Hx e app3 o3). by rewrite He in Hx.
Qed.

(** A block whose packet shell has just been made leaves no process behind. *)
Lemma run_shell_reaps (fuel : nat) (c : ShellConfig) (app : PacketShell OS) (w : World) (o : OS) :
  shell_children_ app = [] -> poller_ (event_loop_ app) = poller_new -> (lifetime <= fuel)%nat ->
  clean_end o (run_shell (S fuel) c app w o).
Proof.
  intros Hch Hl Hlife. unfold run_shell.
  assert (H0' : shell_owns o app o) by (split; [done|]; rewrite Hch; apply owned_none).
  assert (Hq : forall up (k : AnyQueue -> outcome (Z * OS)) app' o', shell_ready o app' o' -> (forall q, clean_end o (k q)) ->
    clean_end o (match direction_queue up c with Err e => exception_ends (S fuel) e app' o' | Ok q => k q end)).
  { intros up k app' o' Hr Hk. pose proof (careful_direction_queue up c) as Hd. destruct (direction_queue up c) as [q|e]; [apply Hk|].
    destruct Hd as [He|He]; [by apply exception_ends_clean|]. unfold exception_ends.
    destruct He as [-> | ->]; cbn; unfold block_fault; auto. }
  apply Hq; [by apply owns_ready|]. intros q. unfold start_uplink.
  match goal with |- context [fork ?n ?f true SIGHUP o] => pose proof (fork_newborn n f true SIGHUP o ltac:(unfold SIGHUP; lia)) as Hf;
    destruct (fork n f true SIGHUP o) as [[c1 o1]|e] end; cbn [bind].
  2: { destruct Hf as [[He Hk]|[end_ ->]]; [apply exception_ends_clean; try done; apply owns_ready; by eapply owns_kept|].
    unfold exception_ends. destruct end_; cbn; right; right; [by exists (Exited status)|by exists (KilledBy sig)]. }
  pose proof (owns_child _ _ _ _ _ Hf H0') as H1'. set (app1 := upd _ _ app) in *.
  apply Hq; [by apply owns_ready|]. intros q2. unfold start_downlink.
  match goal with |- context [fork ?n ?f false SIGHUP o1] => pose proof (fork_newborn n f false SIGHUP o1 ltac:(unfold SIGHUP; lia)) as Hf2;
    destruct (fork n f false SIGHUP o1) as [[c2 o2]|e] end; cbn [bind].
  2: { destruct Hf2 as [[He Hk]|[end_ ->]]; [apply exception_ends_clean; try done; apply owns_ready; by eapply owns_kept|].
    unfold exception_ends. destruct end_; cbn; right; right; [by exists (Exited status)|by exists (KilledBy sig)]. }
  pose proof (owns_child _ _ _ _ _ Hf2 H1') as H2'. set (app2 := upd _ _ app1) in *.
  pose proof (wait_for_exit_family (S fuel) app2 o2 (proj1 H2') (owned_children _ _ _ (proj2 H2'))) as Hw.
  destruct (wait_for_exit (S fuel) app2 o2) as [[[st app3] o3]|e] eqn:Ew.
  - pose proof (packet_shell_destroy_reaps fuel o app3 o3 (kept_ready _ _ _ _ _ H2' Hw) Hlife) as Hd.
    destruct (packet_shell_destroy _ app3 o3); cbn [bind]; [exact Hd|by right; right].
  - destruct (caught_as_exception e) eqn:He.
    + pose proof (wait_for_exit_unwound_family (S fuel) app2 o2 (proj1 H2')) as Hu.
      destruct (wait_for_exit_unwound (S fuel) app2 o2) as [[app3 o3]|e2]; cbn [bind]; [|by right; left].
      apply exception_ends_clean; try done. by eapply kept_ready.
    + destruct Hw as [Hw|[-> | ->]]; [congruence|by left|by right; left].
Qed.

(** [main] as a process that ends: where [main_run] returns, the process exits
    with what it returns, even if that is after an exception. *)
Lemma main_run_agrees fuel getopt user_environment argv w (o : OS) status o' :
  main_run fuel getopt user_environment argv w o = Ok (status, o') ->
  main fuel getopt user_environment argv w o = Exited status.
Proof.
  unfold main, cellular_shell, main_run. set (o0 := set_environ None o).
  assert (Hcaught : forall e, caught_as_exception e = true -> @Err Z e = Err e -> child_side (Err e) = Exited EXIT_FAILURE) by (by intros [] ?).
  destruct (check_requirements _ _ _ o0) as [o1|e]; cbn [bind].
  2: { destruct (caught_as_exception e) eqn:He; [|done]. intros [= <- <-]. by apply Hcaught. }
  destruct (parse_command_line _ _ _) as [c|e]; cbn [bind].
  2: { destruct (caught_as_exception e) eqn:He; [|done]. intros [= <- <-]. by apply Hcaught. }
  destruct (packet_shell_new _ _ _ w o1) as [[[app w1] o2]|e]; cbn [bind].
  2: { destruct (caught_as_exception e) eqn:He; [|done]. destruct (packet_shell_new_unwound _ _ _ o1); [|done]. intros [= <- <-].
    by apply Hcaught. }
  intros E. pose proof (run_shell_agrees fuel c app w1 o2) as Ha. rewrite E in Ha.
  destruct (bind (direction_queue true c) _) as [[st o3]|e]; cbn [bind]; [by simplify_eq|].
  destruct (caught_as_exception e) eqn:He; [|done]. cbn in Ha. rewrite Ha. by apply Hcaught.
Qed.

Context {numeric : NumericNames} {laws : MainLaws OS} {setup : SetupLaws OS}.

(** C4: When [main] ends, normally or with an exception, no process that it has
    started is left behind: every child that there is then was there before.
    Whatever throws (the checks, the command line, a member of the packet shell,
    the start of a direction, the loop that waits for both because one has
    failed), what has been made is destroyed on the way to the handler of [main]:
    rules of the address translation that were installed are deleted, by commands
    that are waited for, the loop takes back its privileges, and the packet shell
    ends the processes of the directions that run, terminated and reaped; the
    process then exits with [EXIT_FAILURE].  Otherwise the loop goes on for longer
    than the fuel lasts, privileges cannot be taken back (which ends the process),
    or the process that is followed is another, that [clone] has made.  The
    children of the main process may be signalled and go through at most
    [lifetime] changes of state ([ForkLaws]). *)
Theorem main_leaves_no_process (fuel : nat) (getopt : list string -> list (ascii * string) * Z * list string)
    (user_environment : option (list string)) (argv : list string) (w : World) (o : OS) :
  command_line_readable getopt argv -> (lifetime <= fuel)%nat ->
  match main_run (S fuel) getopt user_environment argv w o with
  | Ok (status, o') =>
      main (S fuel) getopt user_environment argv w o = Exited status /\ forall p, unreaped p o' -> unreaped p o
  | Err e => block_fault e
  end.
Proof.
  intros Hread Hlife.
  assert (Hc : clean_end o (main_run (S fuel) getopt user_environment argv w o)).
  { unfold main_run. pose proof (setup_environ None o) as He. set (o0 := set_environ None o) in *.
    assert (Hf : forall {A} (m : outcome A) o', careful m -> none_left o o' ->
      if m is Err e then clean_end o (if caught_as_exception e then Ok (EXIT_FAILURE, o') else Err e) else True).
    { intros A [|e] o' Hm Ho; [done|]. destruct (caught_as_exception e) eqn:Ee; [done|]. destruct Hm as [Hm|Hm]; [congruence|].
      destruct Hm as [-> | ->]; cbn; unfold block_fault; auto. }
    pose proof (Hf _ _ (check_requirements_after (len argv) o0) (careful_check_requirements (len argv) (default "" (head argv)) (environ_set o0) o0)) as H1'.
    pose proof (check_requirements_quiet all_kept (len argv) (default "" (head argv)) (environ_set o0) o0) as Hq.
    destruct (check_requirements _ _ _ o0) as [o1|e].
    2: { apply H1'. apply all_kept_none_left. etransitivity; [exact He|]. apply (check_requirements_after_quiet all_kept). }
    cbn in Hq. assert (H1o : none_left o o1) by (apply all_kept_none_left; by transitivity o0).
    pose proof (Hf _ _ o1 (careful_parse_command_line getopt (shell_path o1) argv Hread (careful_shell_path o1)) H1o) as H2'.
    destruct (parse_command_line _ _ _) as [c|e]; [|exact H2'].
    pose proof (packet_shell_new_fresh (S fuel) "cell-link" user_environment w o1) as Hn.
    pose proof (packet_shell_new_empty (S fuel) "cell-link" user_environment w o1) as Hempty.
    pose proof (packet_shell_new_reaps fuel "cell-link" user_environment w o1 Hlife) as Hr.
    destruct (packet_shell_new _ _ _ w o1) as [[[app w1] o2]|e]; cbn in Hn, Hempty, Hr.
    - destruct Hempty as [E1 E2]. pose proof (run_shell_reaps fuel c app w1 o2 E1 E2 Hlife) as Hrun.
      destruct (run_shell _ c app w1 o2) as [[st o3]|e]; cbn in *; [|done]. transitivity o1; [done|]. by transitivity o2.
    - destruct (caught_as_exception e) eqn:Ee.
      + specialize (Hr eq_refl). destruct (packet_shell_new_unwound _ _ _ o1); cbn in *; [by transitivity o1|done].
      + destruct Hn as [Hn|Hn]; [congruence|]. destruct Hn as [-> | ->]; cbn; unfold block_fault; auto. }
  destruct (main_run _ _ _ _ _ o) as [[status o']|e] eqn:E; [|exact Hc]. split; [by eapply main_run_agrees|exact Hc].
Qed.
End LeftBehind.

(** * With which identities *)

Section Identities.
Context {OS : Type} `{frame : CredFrame OS} {outer_pk : PollKernel (LoopState unit OS)} {pf : PollFrame unit OS}.

#[local] Existing Instance same_creds_preorder.

Lemma main_turns_after_creds fuel (l : EventLoop unit OS) x : poller_ l = poller_new ->
  same_creds x (turns_after fuel (fun x => Ok (-1, x)) (fun x => x) [on_signal_throws]
    (poller_ (add_simple_input_handler signal_fd on_signal x l)) x).
Proof.
  intros Hl. assert (HP : PreOrder (fun o o' : OS => creds o' = creds o)) by (split; [by intros o|intros o1 o2 o3; congruence]).
  apply turns_after_kept; [apply _|apply poll_creds|by intros y t y' [= _ <-]|done| |].
  - constructor; [|constructor]. split; [|done]. intros y. unfold same_creds.
    apply (on_signal_after_frame (fun o o' => creds o' = creds o)); eauto using waitid_creds, kill_creds, raise_creds, read_creds.
  - by apply started_actions_creds.
Qed.

(** C7: An exception that leaves the wait for the directions gives the main
    process its privileges back: the destructor of [TemporarilyUnprivileged] does
    not throw, and the packet shell is destroyed with the identities of before,
    those of the set-user-ID program, and without an environment, so that the
    commands that take the address translation back are run as those that
    installed it. *)
Theorem unwinding_restores_identities (fuel : nat) (p : PacketShell OS) (o : OS) (e : fault) :
  poller_ (event_loop_ p) = poller_new -> started o -> wait_for_exit fuel p o = Err e -> caught_as_exception e = true ->
  exists p' o', wait_for_exit_unwound fuel p o = Ok (p', o') /\ creds o' = creds o.
Proof.
  intros Hl Hs E He. unfold wait_for_exit, loop, internal_loop, wait_for_exit_unwound, internal_loop_unwound in *.
  set (x := Build_LoopState _ _ _ _) in *. cbn [app].
  destruct (loop_start _ x) as [[[tu l1] x1]|e1] eqn:Es; cbn [bind] in E.
  - apply loop_start_creds in Es as (-> & o1 & E1 & Hv1 & H1').
    destruct (loop_end_creds o tu o1 (turns_after fuel (fun x => Ok (-1, x)) (fun x => x) [on_signal_throws]
      (poller_ (add_simple_input_handler signal_fd on_signal x1 (event_loop_ p))) x1) Hs E1 Hv1) as (x3 & -> & Ec).
    { by rewrite main_turns_after_creds. }
    by eexists _, _.
  - unfold loop_start_unwound. destruct (unprivileged_enter_ok o) as (o1 & E1 & _); [apply Hs..|]. cbn [os x]. rewrite E1.
    pose proof (enter_environ o) as Hv1. rewrite E1 in Hv1. cbn in Hv1. set (o2 := match current_mask o1 with Ok _ => _ | Err _ => _ end).
    assert (Hk : creds o2 = creds o1).
    { subst o2. pose proof (current_mask_creds o1) as Hm. destruct (current_mask o1) as [[m o2]|]; [|apply getmask_creds]. cbn in Hm.
      destruct (negb _); [done|]. exact (eq_trans (signal_fd_new_after_quiet same_ids _ _) Hm). }
    apply creds_eq in Hk as (Eu & Eg & Ev).
    destruct (unprivileged_scope_ends o _ o1 o2 Hs E1 Eu Eg) as (o3 & -> & Ec); [rewrite Ev, Hv1; apply Hs|]. by eexists _, _.
Qed.
End Identities.

(** * A machine

    The one of [Started], with the parent's side of every [clone]. *)

Module Leaving.
Import Started Parent.

Lemma same_living p (o o' : Box) : (p ∈ living o <-> p ∈ living o') ->
  (p ∈ living o <-> p ∈ living o') /\ (p ∈ living o -> p ∈ living o') /\
  ((if bool_decide (p ∈ living o') then 1 else 0) <= (if bool_decide (p ∈ living o) then 1 else 0))%nat.
Proof. intros E. split; [done|]. split; [apply E|]. by rewrite (bool_decide_ext _ _ E). Qed.

Lemma waited_living pid p (l : list Z) : p <> pid -> (p ∈ l <-> p ∈ filter (fun q : Z => q <> pid) l).
Proof. intros Hp. rewrite list_elem_of_filter. naive_solver. Qed.

(** What [waitid] reports of a child. *)
Lemma waited pid si (o : Box) nohang : exists si' o', sys_waitid pid nohang false si o = (0, si', o') /\ change_ok pid si' /\
  dead si' = true /\ (forall p, p <> pid -> (p ∈ living o <-> p ∈ living o')) /\ pid ∉ living o'.
Proof.
  eexists _, _. split; [reflexivity|]. split; [split; [done|]; split; [done|]; cbn; split; [by case_bool_decide; lia|left]|].
  split; [done|]. split; [intros p Hp; by apply waited_living|]. cbn. rewrite list_elem_of_filter. naive_solver.
Qed.

#[export] Program Instance box_children : ChildLaws Box := {
  unreaped p o := p ∈ living o; has_change p o := p ∈ living o; fate p o := if bool_decide (p ∈ living o) then 1%nat else 0%nat;
  signalable _ := True }.
Next Obligation.
  intros pid si o _. destruct (waited pid si o false) as (si' & o' & E & Hc & Hd & Ho & Hn). exists si', o'. split; [exact E|].
  split; [done|]. split; [intros p Hp; by apply same_living, Ho|]. by rewrite Hd.
Qed.
Next Obligation.
  intros pid si o _ _. destruct (waited pid si o true) as (si' & o' & E & Hc & Hd & Ho & Hn). exists si', o'. split; [exact E|].
  split; [done|]. split; [intros p Hp; by apply same_living, Ho|]. by rewrite Hd.
Qed.
Next Obligation.
  intros pid si o _. destruct (waited pid si o true) as (si' & o' & E & Hc & Hd & Ho & Hn). exists si', o'. split; [exact E|]. left.
  split; [done|]. split; [intros p Hp; by apply same_living, Ho|]. by rewrite Hd.
Qed.
Next Obligation.
  intros pid si o Hu. eexists _, o. split; [reflexivity|]. split; [done|]. split; [done|]. split; [intros p _; by apply same_living|].
  by right.
Qed.
Next Obligation. intros pid sig o _ Hu _. exists o. split; [done|]. split; [done|]. split; [done|]. intros p _. by apply same_living. Qed.
Next Obligation. intros sig o. exists 0, o. split; [done|]. intros p. by apply same_living. Qed.

Lemma living_kept (o o' : Box) : living o' = living o -> all_kept o o'.
Proof. intros E p. refine (same_living p o o' _). by rewrite E. Qed.

Lemma with_creds_living f (o : Box) : living (with_creds f o).2 = living o.
Proof. unfold with_creds. by destruct (f (who o)). Qed.

#[export] Instance box_scope : ScopeCalls Box all_kept.
Proof. split; intros; apply living_kept; cbn; rewrite ?with_creds_living; done. Qed.

Lemma waitid_box_calmer pid b1 b2 si (o : Box) : calmer o (sys_waitid pid b1 b2 si o).2.
Proof.
  destruct b2; [done|]. destruct (waited pid si o b1) as (si' & o' & E & _ & _ & Ho & Hn). cbn [sys_waitid parent_kernel] in *. rewrite E.
  cbn [snd]. assert (H : forall p, p ∈ living o' -> p ∈ living o).
  { intros p Hp. destruct (decide (p = pid)) as [->|Hne]; [done|by apply Ho]. }
  split; [exact H|]. intros p. cbn. repeat case_bool_decide; try lia. naive_solver.
Qed.

#[export] Instance box_main : LoopLaws unit Box.
Proof.
  split; [apply _| |apply waitid_box_calmer|done|done|done].
  intros fd n o. by apply living_kept.
Qed.

(** A process that [clone] makes in the parent is a new one. *)
Lemma cloned ns (o : Box) pid o' : sys_clone ns o = (pid, o') ->
  (pid = -1 /\ living o' = living o) \/ (0 < pid < 2 ^ 31 /\ pid ∉ living o /\ living o' = pid :: living o).
Proof.
  cbn. destruct (clones o) as [|p rest]; [intros [= <- <-]; by left|]. destruct (Z.eqb_spec p 0) as [->|]; [intros [= <- <-]; by left|].
  destruct (negb _ || _) eqn:E; [intros [= <- <-]; by left|].
  apply orb_false_iff in E as [[E1%Z.ltb_lt E2%Z.ltb_lt]%negb_false_iff%andb_true_iff E3%bool_decide_eq_false].
  rewrite i32_small by lia. destruct (Z.eqb_spec p 0); [done|]. intros [= <- <-]. by right.
Qed.

#[export] Program Instance box_forks : ForkLaws Box := { lifetime := 1 }.
Next Obligation. done. Qed.
Next Obligation.
  intros ns o. destruct (sys_clone ns o) as [pid o'] eqn:E. cbn. destruct (cloned ns o pid o' E) as [[-> El]|(Hp & _)].
  - intros _. by apply living_kept.
  - rewrite i32_small by lia. lia.
Qed.
Next Obligation.
  intros ns o. destruct (sys_clone ns o) as [pid o'] eqn:E. cbn. destruct (cloned ns o pid o' E) as [[-> El]|(Hp & Hn & El)]; [done|].
  rewrite i32_small by lia. intros _. rewrite El. split; [done|]. split; [by left|]. split; [done|]. split; [by case_bool_decide; lia|].
  intros p Hne. refine (same_living p o o' _). rewrite El, elem_of_cons. naive_solver.
Qed.

Definition address (n : Z) : Address := ipv4 (100, 64, 0, n) 0.
Definition outside : PacketShell Box :=
  {| user_environment_ := None; egress_addr := address 1; ingress_addr := address 2; nameserver_ := address 1;
     egress_tun_ := Crossing.descriptor 3;
     dns_outside_ := {| udp_listener_ := Crossing.descriptor 4; tcp_listener_ := Crossing.descriptor 5;
                        udp_target_ := address 1; tcp_target_ := address 1 |};
     nat_rule_ := {| pre_ := {| Commands.arguments := ["PREROUTING"] |}; post_ := {| Commands.arguments := ["POSTROUTING"] |} |};
     pipe_ := (Crossing.descriptor 6, Crossing.descriptor 7);
     event_loop_ := {| signals_ := {| mask_ := [SIGCHLD; SIGCONT; SIGHUP; SIGTERM; SIGQUIT; SIGINT] |}; poller_ := poller_new |};
     shell_children_ := [] |}.

#[export] Instance box_setup : SetupLaws Box.
Proof.
  assert (Hn : forall content (o : Box), all_kept o (new_fd content o).2) by (intros; by apply living_kept).
  split; [|apply _|by intros; apply living_kept].
  split; intros; try (by apply living_kept); apply Hn.
Qed.

(** Processes 101 and 102 are those of the two rules, 103 and 104 those of the
    directions, 105 and 106 those that delete the rules; process 7 was there
    before.  The first direction fails. *)
Definition outer : Box := parent <| living := [7] |> <| coming := Byte.x11 (* SIGCHLD *) |>.
Definition uplink_fails : Box := outer <| failing := [103] |>.

Abbreviation running o := (main_run (exec := executes 66) (files := holds None) 300 no_options (Some ["PATH=."]) arguments ticking o).

Lemma main_leaves_no_process_witness :
  match running uplink_fails with
  | Ok (status, o') =>
      main (exec := executes 66) (files := holds None) 300 no_options (Some ["PATH=."]) arguments ticking uplink_fails = Exited status /\
      forall p, unreaped p o' -> unreaped p uplink_fails
  | Err e => block_fault e
  end.
Proof.
  assert (Hl : (lifetime <= 299)%nat) by (cbn; lia).
  pose proof (main_leaves_no_process (exec := executes 66) (files := holds None) 299 no_options (Some ["PATH=."]) arguments ticking uplink_fails
    arguments_readable Hl) as H. exact H.
Defined.

(** The exception says that process 103 has failed; process 104, the rules and
    the privileges are seen to all the same.  With [SIGTERM] instead, [main]
    returns 0.  When the second rule cannot be installed, process 103 deletes the
    first; when the downlink cannot be started, the uplink is ended. *)
Example leaving_runs : let left_by m := (let* (status, o) := m in Ok (status, clones o, living o, sys_geteuid o)) in
  left_by (running uplink_fails) = Ok (1, [], [7], 0) /\
  left_by (running (outer <| coming := Byte.x0f |>)) = Ok (0, [], [7], 0) /\
  left_by (running (outer <| failing := [102] |>)) = Ok (1, [104; 105; 106], [7], 0) /\
  left_by (running (outer <| clones := [101; 102; 103; -1; 105; 106] |>)) = Ok (1, [], [7], 0).
Proof. split_and!; vm_compute; reflexivity. Qed.
End Leaving.

Module Restored.
Import Started.

Definition direction_process : ChildProcess :=
  {| name_ := "packetshell"; pid_ := 103; running_ := true; terminated_ := false; exit_status_ := 0; died_on_signal_ := false;
     graceful_termination_signal_ := SIGHUP; moved_away_ := false |}.

Definition waiting : PacketShell Box := Leaving.outside <| shell_children_ := [(-1, direction_process)] |>.
Definition process_fails : Box := Leaving.uplink_fails <| clones := [105; 106] |> <| living := [7; 103] |> <| environment := None |>.

Definition failure : fault := Throw "`packetshell': process exited with failure status 1".

Lemma unwinding_restores_identities_witness :
  exists p' o', wait_for_exit_unwound 3 waiting process_fails = Ok (p', o') /\ creds o' = creds process_fails.
Proof.
  apply (unwinding_restores_identities 3 waiting process_fails failure).
  - reflexivity.
  - split; [by split|done|done|done].
  - vm_compute. reflexivity.
  - reflexivity.
Defined.
End Restored.
