(* ===== verification/DirectionUnwinding.v ===== *)
(** What an exception leaves behind in the process of a direction, from its first
    call to its end: the procedures of [start_uplink] and [start_downlink]
    (src/packet/packetshell.cc) with what they call (src/util/netdevice.cc,
    src/util/dns_server.cc, src/util/util.cc, src/util/socketpair.cc).

    Before the loop, which [FerryUnwinding] follows, the process makes its device,
    dnsmasq and the user's command; the destructors end those that there are when
    something throws, and the process exits with [EXIT_FAILURE]. *)
From Stdlib Require Import String Ascii.
From S2P Require Import Prelude Timestamp PacketQueue CellularQueue FileDescriptor SignalFD Poller ChildProcess Privileges Address Interfaces Socket DnsProxy EventLoop Unwinding Ferry Link Shell Commands NetDevice SocketPair Util PacketShell Frames Forks SetupUnwinding FerryUnwinding ProcessEnds CellularShell Emulation PrivilegeSeparation MainProcess MainUnwinding.

(** * Where the calls throw *)

Section After.
Context {OS : Type} {names : NameFunctions} {config : BuildConfig} {kernel : Kernel OS} {sockets : SocketKernel OS}
  {devices : DeviceKernel OS} {pairs : PairKernel OS} {procs : ProcessKernel OS} {sigs : SignalKernel OS}
  {cred : CredKernel OS} {env : EnvironKernel OS} {exec : ExecKernel OS} {sleep : SleepKernel OS} {opener : OpenKernel OS}.

Definition add_default_route_after (ingress egress : Address) (o : OS) : OS :=
  match (let* _ := ip_port ingress in let* _ := ip_port egress in address_default) with
  | Err _ => o
  | Ok any =>
      let route := {| rt_gateway := as_sockaddr egress; rt_dst := as_sockaddr any; rt_genmask := as_sockaddr any;
                      rt_flags := Z.lor RTF_UP RTF_GATEWAY |} in
      match udp_socket o with
      | Err _ => socket_new_after AF_INET SOCK_DGRAM o
      | Ok (s, o) => fd_destroy s (sys_ioctl (fd_ s) SIOCADDRT (RtEntry route) o).2
      end
  end.

Definition setup_ingress_after (ingress egress : Address) (o : OS) : OS :=
  match tun_device_new "ingress" ingress egress o with
  | Err _ => tun_device_new_after "ingress" ingress egress o
  | Ok (ingress_tun, o) =>
      fd_destroy ingress_tun
        (then_ioctl SIOCSIFFLAGS "lo" (set_ifru (IfrFlags IFF_UP))
          (then_ioctl SIOCSIFMTU "ingress" (set_ifru (IfrMtu PACKET_MTU)) (add_default_route_after ingress egress)) o)
  end.

Fixpoint probe_loop_after (fuel : nat) (attempts : Z) (server : FileDescriptor) (o : OS) : OS :=
  match fuel with
  | O => o
  | S fuel =>
      let attempts := u32 (attempts + 1) in
      if MAX_ATTEMPTS <=? attempts then o
      else
        let '(r, server, o) := probe server o in
        match r with
        | Ok _ => o
        | Err e =>
            if caught_as_exception e && is_write_error e then probe_loop_after fuel attempts server (sys_sleep 10 o) else o
        end
  end.

(** The rest of [start_dnsmasq] once the process has been created; the socket is
    closed. *)
Definition await_dnsmasq_after (o : OS) : OS :=
  match udp_socket o with
  | Err _ => socket_new_after AF_INET SOCK_DGRAM o
  | Ok (server, o) =>
      fd_destroy server
        match address_of_names "0" "domain" with
        | Err _ => o
        | Ok a =>
            match socket_connect a server o with
            | Err _ => (sys_connect (fd_ server) (to_sockaddr a) o).2
            | Ok o => probe_loop_after (Z.to_nat MAX_ATTEMPTS) 0 server o
            end
        end
  end.

(** The process of dnsmasq is ended. *)
Definition start_dnsmasq_unwound (fuel : nat) (extra_arguments : list string) (o : OS) : outcome OS :=
  match fork "dnsmasq" (ezexec (dnsmasq_arguments [] extra_arguments) false) false SIGTERM o with
  | Err _ => Ok (fork_after false o)
  | Ok (dnsmasq, o) =>
      let* (_, o) := child_destroy fuel dnsmasq (await_dnsmasq_after o) in
      Ok o
  end.

(** After the changes of the identities, [drop_privileges] does not throw. *)
Definition drop_privileges_after (o : OS) : OS :=
  let real_gid := sys_getgid o in let eff_gid := sys_getegid o in
  let real_uid := sys_getuid o in
  match
    (if negb (real_gid =? eff_gid) then
       let (r, o) := sys_setregid real_gid real_gid o in
       let* _ := SystemCall "setregid" r in Ok o
     else Ok o)
  with
  | Err _ => (sys_setregid real_gid real_gid o).2
  | Ok o => (sys_setreuid real_uid real_uid o).2
  end.

Definition start_command_after (user_environment : option (list string)) (egress : Address) (o : OS) : OS :=
  match drop_privileges o with
  | Err _ => drop_privileges_after o
  | Ok o =>
      let o := set_environ user_environment o in
      match ip egress with
      | Err _ => o
      | Ok base =>
          let (r, o) := sys_setenv "MAHIMAHI_BASE" (c_string base) false o in
          if i32 r <? 0 then o else fork_after false o
      end
  end.

Definition recv_fd_after (s : FileDescriptor) (o : OS) : OS :=
  let '(r, flags, control, o) := sys_recvmsg (fd_ s) CMSG_SPACE o in
  if negb (i32 r =? 0) || negb (Z.land flags MSG_CTRUNC =? 0) || negb (first_header control)
     || negb (cmsg_level control =? SOL_SOCKET) || negb (cmsg_type control =? SCM_RIGHTS) || negb (cmsg_len control =? CMSG_LEN)
  then o else fd_new_after (cmsg_data control) o.

(** ** The procedures *)

(** A call of a procedure: [unwound] is what the destructors make of the state
    in which it throws. *)
Definition attempt {A : Type} (m : outcome A) (unwound : outcome OS) (k : A -> outcome (Z * OS)) : outcome (Z * OS) :=
  match m with
  | Ok a => k a
  | Err e =>
      if caught_as_exception e then
        let* o := unwound in
        Ok (EXIT_FAILURE, o)
      else Err e
  end.

Context {Q : Type} {apq : AbstractPacketQueue World Q} {tun_kernel : TunKernel OS} {threads : ThreadKernel OS}
  {pk : PollKernel (LoopState (FerryState World Q) OS)}.
(** [ferry_maker()], and where it throws. *)
Context (ferry_maker : World -> OS -> outcome (CellularQueue Q * World * OS)) (ferry_maker_after : World -> OS -> OS).

Definition run_uplink_ends (fuel : nat) (pipe egress_tun : FileDescriptor) (inner_ferry : EventLoop (FerryState World Q) OS)
    (children : list child) (ingress_tun : FileDescriptor) (w : World) (o : OS) : outcome (Z * OS) :=
  let unwound o := end_of_ferry fuel children ingress_tun o in
  attempt (send_fd ingress_tun pipe o)
    (unwound (sys_sendmsg (fd_ pipe) (control_bytes CMSG_LEN SOL_SOCKET SCM_RIGHTS (fd_ ingress_tun)) o).2) (fun '(_, o) =>
  attempt (ferry_maker w o) (unwound (ferry_maker_after w o)) (fun '(uplink_queue, w, o) =>
  ferry_ends fuel (fun x => tun (user x)) inner_ferry
    {| child_processes_ := children; signal_fd := no_descriptor; os := o;
       user := {| ferry_queue := uplink_queue; world := w; tun := ingress_tun; sibling := egress_tun; dns := None |} |})).

Definition uplink_ends (fuel : nat) (p : PacketShell OS) (shell_prefix : string) (command : list string) (w : World) (o : OS) :
    outcome (Z * OS) :=
  attempt (setup_ingress (ingress_addr p) (egress_addr p) o) (Ok (setup_ingress_after (ingress_addr p) (egress_addr p) o)) (fun '(ingress_tun, o) =>
  let unwound children o := end_of_ferry fuel children ingress_tun o in
  attempt (event_loop_new o) (unwound [] (event_loop_new_after o)) (fun '(inner_ferry, o) =>
  let listener := udp_listener_ (dns_outside_ p) in
  attempt (local_address listener o) (unwound [] (sys_getsockname (fd_ listener) o).2) (fun '(outside, o) =>
  attempt (str outside "#") (unwound [] o) (fun server =>
  attempt (start_dnsmasq ["-S"; server] o) (let* o := start_dnsmasq_unwound fuel ["-S"; server] o in unwound [] o) (fun '(dnsmasq, o) =>
  attempt (start_command (user_environment_ p) (egress_addr p) shell_prefix command o)
    (unwound [(-1, dnsmasq)] (start_command_after (user_environment_ p) (egress_addr p) o)) (fun '(c, o) =>
  run_uplink_ends fuel (pipe_ p).1 (egress_tun_ p) inner_ferry [(-1, dnsmasq); (-1, c)] ingress_tun w o)))))).

Definition uplink_ends_without_nameserver (fuel : nat) (p : PacketShell OS) (shell_prefix : string) (command : list string)
    (w : World) (o : OS) : outcome (Z * OS) :=
  attempt (setup_ingress (ingress_addr p) (egress_addr p) o) (Ok (setup_ingress_after (ingress_addr p) (egress_addr p) o)) (fun '(ingress_tun, o) =>
  let unwound o := end_of_ferry fuel [] ingress_tun o in
  attempt (event_loop_new o) (unwound (event_loop_new_after o)) (fun '(inner_ferry, o) =>
  attempt (start_command (user_environment_ p) (egress_addr p) shell_prefix command o)
    (unwound (start_command_after (user_environment_ p) (egress_addr p) o)) (fun '(c, o) =>
  run_uplink_ends fuel (pipe_ p).1 (egress_tun_ p) inner_ferry [(-1, c)] ingress_tun w o))).

Definition run_downlink_ends (fuel : nat) (user_environment : option (list string)) (pipe egress_tun : FileDescriptor)
    (proxy : option DNSProxy) (w : World) (o : OS) : outcome (Z * OS) :=
  attempt (drop_privileges o) (Ok (drop_privileges_after o)) (fun o =>
  let o := set_environ user_environment o in
  attempt (recv_fd pipe o) (Ok (recv_fd_after pipe o)) (fun '(ingress_tun, _, o) =>
  let unwound o := end_of_ferry fuel [] ingress_tun o in
  attempt (event_loop_new o) (unwound (event_loop_new_after o)) (fun '(outer_ferry, o) =>
  attempt (ferry_maker w o) (unwound (ferry_maker_after w o)) (fun '(downlink_queue, w, o) =>
  let x := {| child_processes_ := []; signal_fd := no_descriptor; os := o;
              user := {| ferry_queue := downlink_queue; world := w; tun := egress_tun; sibling := ingress_tun; dns := proxy |} |} in
  ferry_ends fuel (fun x => sibling (user x)) (register_handlers outer_ferry x) x)))).
End After.

(** The processes that [main] starts, with their queue from the command line:
    its constructor does not change the system. *)
Section Directions.
Context {OS : Type} {names : NameFunctions} {config : BuildConfig} {kernel : Kernel OS} {sockets : SocketKernel OS}
  {devices : DeviceKernel OS} {pairs : PairKernel OS} {procs : ProcessKernel OS} {sigs : SignalKernel OS}
  {cred : CredKernel OS} {env : EnvironKernel OS} {exec : ExecKernel OS} {sleep : SleepKernel OS} {opener : OpenKernel OS}
  {files : FileKernel OS} {tun_kernel : TunKernel OS} {threads : ThreadKernel OS}
  {pk : PollKernel (LoopState (FerryState World AnyQueue) OS)}.

Definition direction_procedure (uplink : bool) (fuel : nat) (p : PacketShell OS) (c : ShellConfig) (q : AnyQueue) (w : World) (o : OS) :
    outcome Z :=
  if uplink then uplink_procedure fuel p "[cell-link] " (command c) (make_direction true c q) w o
  else downlink_procedure fuel p (make_direction false c q) w o.

Definition direction_ends (uplink : bool) (fuel : nat) (p : PacketShell OS) (c : ShellConfig) (q : AnyQueue) (w : World) (o : OS) :
    outcome (Z * OS) :=
  if uplink then uplink_ends (make_direction true c q) (fun _ o => o) fuel p "[cell-link] " (command c) w o
  else run_downlink_ends (make_direction false c q) (fun _ o => o) fuel (user_environment_ p) (pipe_ p).2 (egress_tun_ p)
         (Some (dns_outside_ p)) w o.
End Directions.

(** * What the calls keep *)

(** The identities and the environment concern no child. *)
Class DirectionLaws (OS : Type) `{SetupLaws OS} : Prop := {
  setregid_kept r e o : all_kept o (sys_setregid r e o).2;
  setreuid_kept r e o : all_kept o (sys_setreuid r e o).2;
  setenv_kept name value b o : all_kept o (sys_setenv name value b o).2;
}.

Section Keeps.
Context {OS : Type} {names : NameFunctions} {config : BuildConfig} `{laws : DirectionLaws OS} {fork_laws : ForkLaws OS} {exec : ExecKernel OS}.
Implicit Types (o : OS).

Abbreviation keeps o m := (returns m (fun r => all_kept o (snd r))).

(** In the context, where [eauto] finds them. *)
Let quiet : QuietCalls OS all_kept := setup_quiet.
Let preorder : PreOrder (all_kept (OS := OS)) := all_kept_preorder.

#[local] Hint Extern 1 (all_kept _ (socket_new_after _ _ _)) => apply (socket_new_after_quiet all_kept) : quiet.
#[local] Hint Extern 1 (all_kept _ (tun_device_new_after _ _ _ _)) => apply (tun_device_after_quiet all_kept) : quiet.

Lemma default_route_after_kept ingress egress o : all_kept o (add_default_route_after ingress egress o).
Proof. unfold add_default_route_after. after_steps all_kept. Qed.
#[local] Hint Resolve default_route_after_kept : quiet.

Lemma setup_ingress_after_kept ingress egress o : all_kept o (setup_ingress_after ingress egress o).
Proof.
  unfold setup_ingress_after. after_steps all_kept. transitivity o0; [done|]. repeat (apply (then_ioctl_quiet all_kept); intros).
  apply default_route_after_kept.
Qed.

Lemma probe_loop_after_kept fuel : forall attempts server o, all_kept o (probe_loop_after fuel attempts server o).
Proof.
  induction fuel as [|fuel IH]; intros a f o; cbn [probe_loop_after]; [done|]. destruct (_ <=? _); [done|].
  pose proof (probe_quiet all_kept f o) as Hp. destruct (probe f o) as [[[u|e] f1] o1]; cbn [snd] in Hp; [done|].
  destruct (_ && _); [|done]. transitivity o1; [done|]. transitivity (sys_sleep 10 o1); [apply quiet_sleep|apply IH].
Qed.

Lemma drop_privileges_kept o :
  returns (drop_privileges o) (all_kept o) /\ all_kept o (drop_privileges_after o).
Proof.
  unfold drop_privileges, drop_privileges_after. set (g := if negb (sys_getgid o =? sys_getegid o) then _ else _).
  assert (Hg : returns g (all_kept o)).
  { subst g. destruct (negb _); [|done]. pose proof (setregid_kept (sys_getgid o) (sys_getgid o) o) as H'. destruct (sys_setregid _ _ o) as [r o1].
    by destruct (SystemCall _ r). }
  clearbody g. split; [|destruct g as [o1|]; [|apply setregid_kept]; cbn in Hg; transitivity o1; [done|apply setreuid_kept]].
  eapply returns_bind; [exact Hg|]. intros o1 H1'. cbn beta.
  eapply (returns_bind _ _ (all_kept o)).
  { destruct (negb _); [|exact H1']. pose proof (setreuid_kept (sys_getuid o) (sys_getuid o) o1) as H'. destruct (sys_setreuid _ _ o1) as [r o2].
    destruct (SystemCall _ r); cbn; [by transitivity o1|done]. }
  intros o2 H2'. eapply (returns_bind _ _ (all_kept o)).
  { destruct (negb _); [|exact H2']. pose proof (keep_setegid (P := all_kept) (sys_getegid o) o2) as H'. destruct (sys_setegid _ o2) as [r o3].
    destruct (_ || _); cbn; [done|by transitivity o2]. }
  intros o3 H3'. destruct (negb _); [|exact H3']. pose proof (keep_seteuid (P := all_kept) (sys_geteuid o) o3) as H'. destruct (sys_seteuid _ o3) as [r o4].
  destruct (_ || _); cbn; [done|by transitivity o3].
Qed.

Lemma recv_fd_after_kept s o : all_kept o (recv_fd_after s o).
Proof.
  unfold recv_fd_after. pose proof (quiet_recvmsg (P := all_kept) (fd_ s) CMSG_SPACE o) as Hr. destruct (sys_recvmsg _ _ o) as [[[r flags] control] o1].
  destruct (_ || _); [done|]. transitivity o1; [done|apply (fd_new_after_quiet all_kept)].
Qed.

(** ** New processes *)

Lemma start_command_newborn user_environment egress prefix command o :
  match start_command user_environment egress prefix command o with
  | Ok (c, o') => exists o1, all_kept o o1 /\ newborn c o1 o'
  | Err e => caught_as_exception e = true -> all_kept o (start_command_after user_environment egress o)
  end.
Proof.
  unfold start_command, start_command_after. destruct (drop_privileges_kept o) as [Hd Ha]. destruct (drop_privileges o) as [o1|e]; cbn [bind]; [|done].
  cbn in Hd. assert (H1' : all_kept o (set_environ user_environment o1)) by (transitivity o1; [done|apply setup_environ]).
  set (o2 := set_environ _ o1) in *. destruct (ip egress) as [base|e]; cbn [bind]; [|done].
  pose proof (setenv_kept "MAHIMAHI_BASE" (c_string base) false o2) as He. destruct (sys_setenv _ _ _ o2) as [r o3].
  assert (H3' : all_kept o o3) by (by transitivity o2). unfold SystemCall.
  destruct (Z.leb_spec 0 (i32 r)), (Z.ltb_spec (i32 r) 0); try lia; cbn [bind]; [|done].
  destruct (join command) as [name|e] eqn:Ej; cbn [bind]; [|destruct command; [by injection Ej as <-|done]].
  match goal with |- context [fork ?n ?f false SIGHUP o3] => pose proof (fork_newborn n f false SIGHUP o3 ltac:(unfold SIGHUP; lia)) as Hf;
    destruct (fork n f false SIGHUP o3) as [[c o4]|e] end; [by exists o3|].
  destruct Hf as [[_ Hf]|[[st|sig] ->]]; [intros _; by transitivity o3|done|done].
Qed.

#[local] Hint Resolve probe_loop_after_kept : quiet.
Lemma await_dnsmasq_after_kept o : all_kept o (await_dnsmasq_after o).
Proof. unfold await_dnsmasq_after. after_steps all_kept. Qed.

Lemma start_dnsmasq_newborn fuel arguments o : (lifetime <= fuel)%nat ->
  match start_dnsmasq arguments o with
  | Ok (c, o') => exists o1, newborn c o o1 /\ all_kept o1 o'
  | Err e => caught_as_exception e = true -> exists o', start_dnsmasq_unwound (S fuel) arguments o = Ok o' /\ none_left o o'
  end.
Proof.
  intros Hl. unfold start_dnsmasq, start_dnsmasq_with, start_dnsmasq_unwound.
  match goal with |- context [fork ?n ?f false SIGTERM o] => pose proof (fork_newborn n f false SIGTERM o ltac:(unfold SIGTERM; lia)) as Hf;
    destruct (fork n f false SIGTERM o) as [[c o1]|e] end; cbn [bind].
  2: { intros He. exists (fork_after false o). split; [done|]. destruct Hf as [[_ Hf]|[[st|sig] ->]]; [by apply all_kept_none_left|done|done]. }
  match goal with |- match ?m with Ok _ => _ | Err _ => _ end => assert (Hr : returns m (fun r => r.1 = c /\ all_kept o1 r.2)) end.
  { eapply returns_bind; [apply (udp_socket_quiet all_kept)|]. intros [server o2] H2'. cbn in H2'.
    eapply returns_bind; [apply returns_any|]. intros a _. eapply returns_bind; [apply (socket_connect_quiet all_kept)|]. intros o3 H3'. cbn beta in H3'.
    eapply returns_bind; [apply (probe_loop_quiet all_kept)|]. intros [s4 o4] H4'. cbn in H4' |- *. split; [done|].
    transitivity o2; [done|]. transitivity o3; [done|]. transitivity o4; [done|]. apply (fd_destroy_quiet all_kept). }
  match goal with |- match ?m with Ok _ => _ | Err _ => _ end => destruct m as [[c' o2]|e] end.
  - destruct Hr as [Hc Hk]. cbn in Hc, Hk. subst c'. by exists o1.
  - intros _. pose proof (owned_kept o _ _ _ (await_dnsmasq_after_kept o1) (owned_child o [] o o1 c Hf (owned_none o))) as Ho.
    destruct (family_ended fuel _ _ _ (owned_ready _ _ _ Ho) Hl) as (cs & o2 & E & Hn). cbn [app destroy_children] in E.
    destruct (child_destroy _ c _) as [[c2 o3]|]; cbn [bind] in *; [|done]. exists o3. split; [done|]. by simplify_eq.
Qed.
End Keeps.

(** * No process is left *)

Section Ends.
Context {OS : Type} {names : NameFunctions} {config : BuildConfig} `{laws : DirectionLaws OS} {fork_laws : ForkLaws OS} {exec : ExecKernel OS}
  {tun_kernel : TunKernel OS} {threads : ThreadKernel OS} {pk : PollKernel (LoopState (FerryState World AnyQueue) OS)}
  {loop_laws : LoopLaws (FerryState World AnyQueue) OS} {calls : DeviceCallsKeep World AnyQueue OS all_kept} {files : FileKernel OS}.

(** A process that runs [procedure] and is followed to its end as [m] says. *)
Definition ends_well (o0 : OS) (procedure : outcome Z) (m : outcome (Z * OS)) : Prop :=
  match m with
  | Ok (status, o') => child_side procedure = Exited status /\ none_left o0 o'
  | Err e => e = in_destructor_fault \/ procedure = Err e /\ caught_as_exception e = false
  end.

Lemma caught_exits e : caught_as_exception e = true -> child_side (Err e) = Exited EXIT_FAILURE.
Proof. by destruct e. Qed.

Lemma attempt_ends_well {A} o0 (m : outcome A) unwound (k : A -> outcome (Z * OS)) f :
  (if m is Err e then caught_as_exception e = true -> exists o', unwound = Ok o' /\ none_left o0 o' else True) ->
  (forall a, m = Ok a -> ends_well o0 (f a) (k a)) -> ends_well o0 (bind m f) (attempt m unwound k).
Proof.
  intros Hu Hk. unfold attempt. destruct m as [a|e]; cbn [bind]; [by apply Hk|].
  destruct (caught_as_exception e) eqn:He; [|by right]. destruct (Hu eq_refl) as (o' & -> & Hn). split; [by apply caught_exits|done].
Qed.

Lemma end_of_ferry_ends fuel o0 children ingress_tun (o : OS) : family_ready o0 children o -> (lifetime <= fuel)%nat ->
  exists o', end_of_ferry (S fuel) children ingress_tun o = Ok o' /\ none_left o0 o'.
Proof.
  intros Hr Hl. unfold end_of_ferry. destruct (family_ended fuel _ _ _ Hr Hl) as (cs & o1 & -> & Hn). cbn [bind].
  eexists. split; [done|]. etransitivity; [exact Hn|]. apply all_kept_none_left, (fd_destroy_quiet all_kept).
Qed.

(** A call that keeps the children, in a process that owns some. *)
Lemma kept_attempt {A} o0 children ingress_tun fuel (m : outcome A) (o o' : OS) :
  family_owned o0 children o -> all_kept o o' -> (lifetime <= fuel)%nat ->
  if m is Err e then caught_as_exception e = true -> exists o1, end_of_ferry (S fuel) children ingress_tun o' = Ok o1 /\ none_left o0 o1 else True.
Proof.
  intros Ho Hk Hl. destruct m; [done|]. intros _. apply end_of_ferry_ends; [|done]. apply owned_ready. by eapply owned_kept.
Qed.

Lemma owned_after {A} o0 children (o o' : OS) (m : outcome (A * OS)) a :
  returns m (fun r => all_kept o r.2) -> m = Ok (a, o') -> family_owned o0 children o -> family_owned o0 children o'.
Proof. intros Hr ->. by apply owned_kept. Qed.

Lemma ferry_ends_well fuel o0 ingress (l : EventLoop (FerryState World AnyQueue) OS) (x : LoopState (FerryState World AnyQueue) OS) :
  poller_ l = poller_new -> family_owned o0 (child_processes_ x) (os x) -> (lifetime <= fuel)%nat ->
  ends_well o0
    (let* (status, x) := ferry_loop (S fuel) (register_handlers l x) x in
     let* _ := end_of_ferry (S fuel) (child_processes_ x) (ingress x) (os x) in
     Ok status)
    (ferry_ends (S fuel) ingress (register_handlers l x) x).
Proof.
  intros Hl [Hc Ha Hf Ho] Hlife.
  assert (Hf' : fates_within fuel (child_processes_ x) (os x)) by (eapply Forall_impl; [exact Hf|]; cbn; lia).
  pose proof (ferry_ends_reaps fuel ingress l x Hl Hc Hf') as Hr. unfold ferry_ends in *.
  assert (Hn : forall o', (forall p, unreaped p o' -> unreaped p (os x) /\ p ∉ EventLoop.pids (child_processes_ x)) -> none_left o0 o').
  { intros o' H' p Hp. destruct (H' p Hp) as [Hu Hni]. by destruct (Ho p Hu). }
  destruct (ferry_loop (S fuel) _ x) as [[st x1]|e] eqn:E; cbn [bind].
  - destruct (end_of_ferry (S fuel) _ _ _) as [o'|e] eqn:Ee; cbn [bind] in *; [by split; [|apply Hn]|].
    destruct Hr as [->|[Hr _]]; [by left|done].
  - destruct (caught_as_exception e) eqn:He; [|by right].
    destruct (bind (ferry_loop_unwound _ _ x) _) as [[st o']|e'] eqn:Eu; [|by destruct Hr as [->|[[= ->] Hr]]; [left|congruence]].
    split; [|by apply Hn]. rewrite caught_exits by done. apply bind_Ok in Eu as (x1 & _ & Eu). apply bind_Ok in Eu as (o1 & _ & Eu).
    by simplify_eq.
Qed.

(** The call of a device, of which the process owns what it has made. *)
Ltac ends_step Hl :=
  eapply attempt_ends_well; [eapply kept_attempt; [eassumption| |exact Hl]|].

Section Processes.
Context (fuel : nat) (Hl : (lifetime <= fuel)%nat) (ferry_maker : World -> OS -> outcome (CellularQueue AnyQueue * World * OS)).
Hypothesis maker_kept : forall w o, returns (ferry_maker w o) (fun r => all_kept o r.2).
Implicit Types (o : OS).

Lemma run_uplink_ends_well o0 pipe egress_tun inner_ferry children ingress_tun w o : poller_ inner_ferry = poller_new ->
  family_owned o0 children o ->
  ends_well o0 (run_uplink (S fuel) pipe egress_tun inner_ferry children ingress_tun ferry_maker w o)
    (run_uplink_ends ferry_maker (fun _ o => o) (S fuel) pipe egress_tun inner_ferry children ingress_tun w o).
Proof using All.
  intros Hp Ho. unfold run_uplink, run_uplink_ends. ends_step Hl; [apply quiet_sendmsg|].
  intros [s o1] E. pose proof (owned_after _ _ _ _ _ _ (send_fd_quiet all_kept ingress_tun pipe o) E Ho) as H1'. clear E Ho.
  ends_step Hl; [done|]. intros [[queue w1] o2] E. pose proof (owned_after _ _ _ _ _ _ (maker_kept w o1) E H1') as H2'. clear E H1'.
  pose proof (ferry_ends_well fuel o0 (fun x => tun (user x)) inner_ferry
    {| child_processes_ := children; signal_fd := no_descriptor; os := o2;
       user := {| ferry_queue := queue; world := w1; tun := ingress_tun; sibling := egress_tun; dns := None |} |} Hp H2' Hl) as H'.
  exact H'.
Qed.

Lemma event_loop_made {U} o : returns (event_loop_new (U := U) o) (fun r => poller_ r.1 = poller_new /\ all_kept o r.2).
Proof using laws.
  pose proof (event_loop_quiet (U := U) all_kept o) as Hq. destruct (event_loop_new o) as [[l o1]|] eqn:E; [|done]. split; [|exact Hq].
  unfold event_loop_new in E. apply bind_Ok in E as (m & _ & E). apply bind_Ok in E as (o2 & _ & E). by simplify_eq.
Qed.

Lemma setup_ingress_step o0 ingress egress o (k : FileDescriptor * OS -> outcome (Z * OS)) f : family_owned o0 [] o ->
  (forall ingress_tun o1, family_owned o0 [] o1 -> ends_well o0 (f (ingress_tun, o1)) (k (ingress_tun, o1))) ->
  ends_well o0 (bind (setup_ingress ingress egress o) f) (attempt (setup_ingress ingress egress o) (Ok (setup_ingress_after ingress egress o)) k).
Proof using laws.
  intros Ho Hk. apply attempt_ends_well.
  - destruct (setup_ingress _ _ o); [done|]. intros _. eexists. split; [done|].
    apply owned_nothing. eapply owned_kept; [apply setup_ingress_after_kept|exact Ho].
  - intros [t o1] E. apply Hk. by eapply owned_after; [apply (setup_ingress_quiet all_kept)|exact E|].
Qed.

Lemma event_loop_step {U} o0 children ingress_tun o (k : EventLoop U OS * OS -> outcome (Z * OS)) f : family_owned o0 children o ->
  (forall l o1, poller_ l = poller_new -> family_owned o0 children o1 -> ends_well o0 (f (l, o1)) (k (l, o1))) ->
  ends_well o0 (bind (event_loop_new o) f) (attempt (event_loop_new o) (end_of_ferry (S fuel) children ingress_tun (event_loop_new_after o)) k).
Proof using laws Hl.
  intros Ho Hk. ends_step Hl; [apply (event_loop_after_quiet all_kept)|]. intros [l o1] E. pose proof (event_loop_made (U := U) o) as Hp.
  rewrite E in Hp. destruct Hp as [Hp H1']. apply Hk; [exact Hp|]. by eapply owned_kept.
Qed.

Lemma start_command_step o0 children ingress_tun p prefix command o (k : ChildProcess * OS -> outcome (Z * OS)) f : family_owned o0 children o ->
  (forall c o1, family_owned o0 (children ++ [(-1, c)]) o1 -> ends_well o0 (f (c, o1)) (k (c, o1))) ->
  ends_well o0 (bind (start_command (user_environment_ p) (egress_addr p) prefix command o) f)
    (attempt (start_command (user_environment_ p) (egress_addr p) prefix command o)
      (end_of_ferry (S fuel) children ingress_tun (start_command_after (user_environment_ (OS := OS) p) (egress_addr p) o)) k).
Proof using laws Hl.
  intros Ho Hk. pose proof (start_command_newborn (user_environment_ p) (egress_addr p) prefix command o) as Hc.
  apply attempt_ends_well.
  - destruct (start_command _ _ _ _ o); [done|]. intros He. apply end_of_ferry_ends; [|done]. apply owned_ready. eapply owned_kept; [by apply Hc|done].
  - intros [c o1] E. rewrite E in Hc. destruct Hc as (o2 & Hk2 & Hn). apply Hk. eapply owned_child; [exact Hn|]. by eapply owned_kept.
Qed.

Lemma uplink_ends_well p prefix command w o :
  ends_well o (uplink_procedure (S fuel) p prefix command ferry_maker w o) (uplink_ends ferry_maker (fun _ o => o) (S fuel) p prefix command w o).
Proof using All.
  unfold uplink_procedure, uplink_ends. apply setup_ingress_step; [apply owned_none|]. intros ingress_tun o1 H1'. cbn beta iota zeta.
  apply event_loop_step; [done|]. intros l o2 Hp H2'. cbn beta iota.
  ends_step Hl; [apply quiet_getsockname|]. intros [outside o3] E.
  pose proof (owned_after _ _ _ _ _ _ (local_address_quiet all_kept _ o2) E H2') as H3'. clear E.
  ends_step Hl; [done|]. intros server _. cbn beta.
  pose proof (start_dnsmasq_newborn fuel ["-S"; server] o3 Hl) as Hd. apply attempt_ends_well.
  { destruct (start_dnsmasq _ o3); [done|]. intros He. destruct (Hd He) as (o4 & -> & Hn). cbn [bind]. 
    apply end_of_ferry_ends; [|done]. apply ready_nothing. transitivity o3; [by apply owned_nothing|done]. }
  intros [dnsmasq o4] E. rewrite E in Hd. destruct Hd as (o3' & Hd & Hk).
  assert (H4' : family_owned o [(-1, dnsmasq)] o4).
  { eapply owned_kept; [exact Hk|]. by eapply (owned_child o []). }
  clear E Hd Hk. apply start_command_step; [done|]. intros c o5 H5'. by apply run_uplink_ends_well.
Qed.

Lemma uplink_ends_without_nameserver_well p prefix command w o :
  ends_well o (uplink_procedure_without_nameserver (S fuel) p prefix command ferry_maker w o)
    (uplink_ends_without_nameserver ferry_maker (fun _ o => o) (S fuel) p prefix command w o).
Proof using All.
  unfold uplink_procedure_without_nameserver, uplink_ends_without_nameserver. apply setup_ingress_step; [apply owned_none|].
  intros ingress_tun o1 H1'. cbn beta iota zeta. apply event_loop_step; [done|]. intros l o2 Hp H2'. cbn beta iota.
  apply start_command_step; [done|]. intros c o3 H3'. by apply run_uplink_ends_well.
Qed.

Lemma run_downlink_ends_well user_environment pipe egress_tun proxy w o :
  ends_well o (run_downlink (S fuel) user_environment pipe egress_tun proxy ferry_maker w o)
    (run_downlink_ends ferry_maker (fun _ o => o) (S fuel) user_environment pipe egress_tun proxy w o).
Proof using All.
  unfold run_downlink, run_downlink_ends. destruct (drop_privileges_kept o) as [Hd Ha].
  apply attempt_ends_well.
  { destruct (drop_privileges o); [done|]. intros _. eexists. split; [done|]. by apply all_kept_none_left. }
  intros o1 E. rewrite E in Hd. cbn in Hd. cbv zeta. set (o2 := set_environ user_environment o1).
  assert (H2' : all_kept o o2) by (transitivity o1; [done|apply setup_environ]). clearbody o2. clear E Hd Ha.
  apply attempt_ends_well.
  { destruct (recv_fd pipe o2); [done|]. intros _. eexists. split; [done|]. apply all_kept_none_left. transitivity o2; [done|apply recv_fd_after_kept]. }
  intros [[ingress_tun s] o3] E. pose proof (recv_fd_quiet all_kept pipe o2) as Hr. rewrite E in Hr. cbn in Hr. clear E.
  assert (H3' : family_owned o [] o3) by (eapply owned_kept; [by transitivity o2|apply owned_none]).
  apply event_loop_step; [done|]. intros l o4 Hp H4'. cbn beta iota zeta.
  ends_step Hl; [done|]. intros [[queue w1] o5] E. pose proof (owned_after _ _ _ _ _ _ (maker_kept w o4) E H4') as H5'. clear E.
  by apply (ferry_ends_well fuel o (fun x => sibling (user x)) l).
Qed.
End Processes.

Lemma make_direction_kept uplink c q w (o : OS) : returns (make_direction uplink c q w o) (fun r => all_kept o r.2).
Proof. unfold make_direction. by destruct (construct_direction _ _ _ _ _ _ _ _) as [[x w']|]. Qed.

(** C5: When the process of a direction exits, no process that it has started is
    left behind.  Wherever an exception derived from [std::exception] leaves the
    procedure that [start_uplink] or [start_downlink] runs (the inner device, its
    routes, the wait for dnsmasq to answer, the change of identity, the start of
    the user's command, the descriptor sent to the other direction, the files of
    the queue, the loop), or when the loop ends with a status, the destructors end
    dnsmasq and the user's command, those that there are, and the process exits
    with [EXIT_FAILURE] or the status.  This is as long as the new processes may be
    signalled and go through at most [lifetime] changes of state ([ForkLaws]).
    Otherwise the procedure has ended with something that is not caught, an error
    [e] with [caught_as_exception e = false] (the pointer that [read_packet]
    throws, an assertion that fails, more turns than the fuel, the procedure of a
    process that [clone] has made, and the like): nothing is claimed then, and in
    the case of the pointer the children do stay behind
    ([Emulation.TracesGiven.oversize_packet_leaves_children]); or the privileges
    cannot be taken back, which ends the process. *)
Theorem direction_leaves_no_process (uplink : bool) (fuel : nat) (p : PacketShell OS) (c : ShellConfig) (q : AnyQueue) (w : World) (o : OS) :
  (lifetime <= fuel)%nat ->
  match direction_ends uplink (S fuel) p c q w o with
  | Ok (status, o') =>
      child_side (direction_procedure uplink (S fuel) p c q w o) = Exited status /\ forall pid, unreaped pid o' -> unreaped pid o
  | Err e =>
      e = in_destructor_fault \/ direction_procedure uplink (S fuel) p c q w o = Err e /\ caught_as_exception e = false
  end.
Proof.
  intros Hl. change (ends_well o (direction_procedure uplink (S fuel) p c q w o) (direction_ends uplink (S fuel) p c q w o)).
  unfold direction_procedure, direction_ends. destruct uplink.
  - apply uplink_ends_well; [done|apply make_direction_kept].
  - apply (run_downlink_ends_well fuel Hl _ (make_direction_kept false c q)).
Qed.
End Ends.

(** * A machine

    The one of [Leaving]; in the process of the uplink, 103 is dnsmasq and 104 the
    user's command. *)

Module Directed.
Import Started Parent Leaving.

#[export] Instance box_direction : DirectionLaws Box.
Proof. split; intros; apply living_kept; cbn; by rewrite ?with_creds_living. Qed.

#[export] Instance box_ferry : LoopLaws (FerryState World AnyQueue) Box.
Proof.
  split; [apply _| |apply waitid_box_calmer|done|done|done].
  intros fd n o. by apply living_kept.
Qed.

#[export] Instance box_devices : DeviceCallsKeep World AnyQueue Box all_kept.
Proof. split; intros; try done; by apply living_kept. Qed.

(** Its trace of packet trains is the sample. *)
Definition config_with (up_train : string) : ShellConfig :=
  {| options := default_options; up_packet_train_trace := up_train; down_packet_train_trace := "down.train";
     uplink_pdo_trace := "up.pdo"; downlink_pdo_trace := "down.pdo"; command := ["make"; "all"]; logged_command_line := "" |}.
Definition config : ShellConfig := config_with "down.train".

Definition no_packets : AnyQueue := AnyInfinite {| inf_internal_queue_ := []; inf_queue_size_in_bytes_ := 0; inf_queue_size_in_packets_ := 0 |}.

Definition uplink_started : Box :=
  to_command <| environment := None |> <| clones := [103; 104] |> <| living := [7] |> <| coming := Byte.x11 (* SIGCHLD *) |>.

Definition dnsmasq_fails : Box := uplink_started <| failing := [103] |>.

Abbreviation ends c o := (direction_ends (exec := executes 66) (files := holds None) true 300 outside c no_packets ticking o).

Lemma direction_leaves_no_process_witness :
  match ends config dnsmasq_fails with
  | Ok (status, o') =>
      child_side (direction_procedure (exec := executes 66) (files := holds None) true 300 outside config no_packets ticking dnsmasq_fails) =
        Exited status /\ forall pid, unreaped pid o' -> unreaped pid dnsmasq_fails
  | Err e =>
      e = in_destructor_fault \/
      direction_procedure (exec := executes 66) (files := holds None) true 300 outside config no_packets ticking dnsmasq_fails = Err e /\
        caught_as_exception e = false
  end.
Proof.
  assert (Hl : (lifetime <= 299)%nat) by (cbn; lia).
  pose proof (direction_leaves_no_process (exec := executes 66) (files := holds None) true 299 outside config no_packets ticking dnsmasq_fails Hl) as H.
  exact H.
Defined.

(** dnsmasq fails; [SIGTERM] comes; the process of the user's command cannot be
    created.  A file that is no trace fails an assertion. *)
Example directed_runs : let left_by m := (let* (status, o) := m in Ok (status, clones o, living o)) in
  left_by (ends config dnsmasq_fails) = Ok (1, [], [7]) /\
  left_by (ends config (uplink_started <| coming := Byte.x0f |>)) = Ok (0, [], [7]) /\
  left_by (ends config (uplink_started <| clones := [103; -1] |>)) = Ok (1, [], [7]) /\
  left_by (ends (config_with "up.train") uplink_started) = Err (AssertFail "first_packet_delay_ms >= 0").
Proof. split_and!; vm_compute; reflexivity. Qed.
End Directed.
